(** * PostgreSQL to Snowflake migration agent: a shallow embedding

    The development follows the layout of the backend package:

    - [PyStr]        the fragment of Python's [str] the backend relies on;
    - [Logger]       backend/logger.py (the regex redactor);
    - [Generator]    backend/snowflake_generator.py ([TypeMapper] and
                     [SnowflakeGenerator]);
    - [Analyzer]     backend/postgres_analyzer.py ([_assess_compatibility]);
    - [Pipeline]     backend/data_pipeline.py (extractor, loader, per-table
                     migration);
    - [Orchestrator] backend/migrator.py and the cancel endpoint of
                     backend/main.py;
    - [Script]       [SnowflakeLoader.execute_ddl_script];
    - [Catalog]      [PostgresAnalyzer.calculate_volumetrics];
    - [Validator]    backend/validation.py ([DataValidator]);
    - [Api]          the registry of runs of backend/main.py and its
                     endpoints.

    Python [int] is [Z], [None]-able values are [option], a [set] of strings
    is a [gset string], exceptions are the [Raise] case of [res].  Everything
    the code obtains from PostgreSQL, Snowflake, the clock or the file system
    is read from an explicit environment, so every definition computes. *)

From Stdlib Require Import ZArith String Ascii List DecimalString Lia Sorted.
From stdpp Require Import gmap strings list.

Open Scope Z_scope.

(* ===================================================================== *)
(** * Python strings *)
(* ===================================================================== *)

(** A [string] is read as the Python [str] with the same ASCII characters.
    Case mapping and character classes are those of ASCII; a byte above 127
    is left alone by [upper]/[lower] and belongs to no class. *)
Module PyStr.

Definition dq : string := String "034" "".
Definition sq : string := String "039" "".
Definition nl : string := String "010" "".

Definition code (c : ascii) : N := N_of_ascii c.

Definition is_upper (c : ascii) : bool := ((65 <=? code c) && (code c <=? 90))%N.
Definition is_lower (c : ascii) : bool := ((97 <=? code c) && (code c <=? 122))%N.
Definition is_digit (c : ascii) : bool := ((48 <=? code c) && (code c <=? 57))%N.
Definition is_alnum (c : ascii) : bool := is_upper c || is_lower c || is_digit c.

Definition upper_char (c : ascii) : ascii :=
  if is_lower c then ascii_of_N (code c - 32) else c.
Definition lower_char (c : ascii) : ascii :=
  if is_upper c then ascii_of_N (code c + 32) else c.

Fixpoint map_chars (f : ascii -> ascii) (s : string) : string :=
  match s with
  | EmptyString => EmptyString
  | String c r => String (f c) (map_chars f r)
  end.

(** [s.upper()] and [s.lower()] of a string of ASCII characters.  (Python
    also maps the letters beyond ASCII, and some of them to ASCII letters;
    the statements that depend on the case of such a name assume
    [isascii].) *)
Definition upper : string -> string := map_chars upper_char.
Definition lower : string -> string := map_chars lower_char.

Fixpoint all_chars (p : ascii -> bool) (s : string) : bool :=
  match s with
  | EmptyString => true
  | String c r => p c && all_chars p r
  end.

(** [s.isascii()]. *)
Definition isascii (s : string) : bool := all_chars (fun c => (code c <? 128)%N) s.

(** [s.isalnum()] of a string of ASCII characters: false on the empty
    string.  (Python also accepts the letters and digits beyond ASCII.) *)
Definition isalnum (s : string) : bool :=
  match s with
  | EmptyString => false
  | _ => all_chars is_alnum s
  end.

(** [s.replace(c, rep)] for a one-character pattern [c]. *)
Fixpoint replace_char (c : ascii) (rep : string) (s : string) : string :=
  match s with
  | EmptyString => EmptyString
  | String d r =>
      if Ascii.eqb d c then rep +:+ replace_char c rep r
      else String d (replace_char c rep r)
  end.

(** [s.startswith(p)]. *)
Fixpoint startswith (p s : string) : bool :=
  match p, s with
  | EmptyString, _ => true
  | String a p', String b s' => Ascii.eqb a b && startswith p' s'
  | String _ _, EmptyString => false
  end.

(** [p in s]. *)
Fixpoint contains (p s : string) : bool :=
  startswith p s ||
  match s with
  | EmptyString => false
  | String _ r => contains p r
  end.

(** [s.split(c)] for a one-character separator: never empty. *)
Fixpoint split (c : ascii) (s : string) : list string :=
  match s with
  | EmptyString => [EmptyString]
  | String d r =>
      if Ascii.eqb d c then EmptyString :: split c r
      else match split c r with
           | [] => [String d EmptyString]
           | w :: ws => String d w :: ws
           end
  end.

(** [sep.join(l)]. *)
Fixpoint join (sep : string) (l : list string) : string :=
  match l with
  | [] => EmptyString
  | [x] => x
  | x :: r => x +:+ sep +:+ join sep r
  end.

(** [str(n)] for an [int]. *)
Definition of_Z (z : Z) : string := NilZero.string_of_int (Z.to_int z).

(** [str(x)] for an optional string: [None] prints as the word. *)
Definition of_opt (o : option string) : string :=
  match o with
  | Some s => s
  | None => "None"
  end.

Fixpoint zeros (n : nat) : string :=
  match n with
  | O => EmptyString
  | S k => String "0" (zeros k)
  end.

(** The format [{n:04d}] for [n >= 0]: decimal digits, zero-padded on the left to a
    width of at least four. *)
Definition pad4 (n : Z) : string :=
  let d := of_Z n in
  zeros (4 - String.length d) +:+ d.

(** [os.path.basename(p)]: what follows the last slash. *)
Definition basename (p : string) : string := List.last (split "/" p) EmptyString.

(** [os.path.join(a, b)] on a POSIX system. *)
Definition path_join (a b : string) : string :=
  if startswith "/" b then b
  else match a with
       | EmptyString => b
       | _ => if Ascii.eqb (List.last (list_ascii_of_string a) "/"%char) "/"
              then a +:+ b else a +:+ "/" +:+ b
       end.

End PyStr.

(* ===================================================================== *)
(** * Python values, [repr] and [json.dumps] *)
(* ===================================================================== *)

(** The values that travel through log calls: the message and the keyword
    arguments are strings, integers or lists of strings. *)
Module PyVal.
Import PyStr.

Inductive pyval : Type :=
| PStr (s : string)
| PInt (z : Z)
| PStrList (l : list string).

(** A [dict] with string keys: insertion order is kept, and assigning an
    existing key replaces its value in place. *)
Definition pydict : Type := list (string * pyval).

Fixpoint dict_get (k : string) (d : pydict) : option pyval :=
  match d with
  | [] => None
  | (k', v) :: r => if String.eqb k' k then Some v else dict_get k r
  end.

Fixpoint dict_set (k : string) (v : pyval) (d : pydict) : pydict :=
  match d with
  | [] => [(k, v)]
  | (k', v') :: r =>
      if String.eqb k' k then (k', v) :: r else (k', v') :: dict_set k v r
  end.

(** [d.update(e)] and [{**d, **e}]. *)
Definition dict_update (d e : pydict) : pydict :=
  fold_left (fun acc kv => dict_set (fst kv) (snd kv) acc) e d.

Definition hex_digit (n : N) : ascii :=
  if (n <? 10)%N then ascii_of_N (48 + n) else ascii_of_N (87 + n).

Definition hex2 (n : N) : string :=
  String (hex_digit (n / 16)) (String (hex_digit (n mod 16)) EmptyString).

Definition backslash : string := String "092" "".

(** One character of [repr(s)], for the quote character [q] chosen. *)
Definition repr_char (q : ascii) (c : ascii) : string :=
  if Ascii.eqb c "092" then backslash +:+ backslash
  else if Ascii.eqb c q then backslash +:+ String q ""
  else if Ascii.eqb c "009" then backslash +:+ "t"
  else if Ascii.eqb c "010" then backslash +:+ "n"
  else if Ascii.eqb c "013" then backslash +:+ "r"
  else if ((code c <? 32) || (code c =? 127) || (127 <? code c))%N
       then backslash +:+ "x" +:+ hex2 (code c)
  else String c "".

Fixpoint concat_map (f : ascii -> string) (s : string) : string :=
  match s with
  | EmptyString => EmptyString
  | String c r => f c +:+ concat_map f r
  end.

(** [repr(s)]: single quotes unless the string has one and no double quote. *)
Definition repr_str (s : string) : string :=
  let q : ascii := if contains sq s && negb (contains dq s) then "034"%char else "039"%char in
  String q "" +:+ concat_map (repr_char q) s +:+ String q "".

(** [str(v)]. *)
Definition py_str (v : pyval) : string :=
  match v with
  | PStr s => s
  | PInt z => of_Z z
  | PStrList l => "[" +:+ join ", " (map repr_str l) +:+ "]"
  end.

(** The code points of a text held as UTF-8: a byte below 128 is its own
    code point, a lead byte announces one, two or three continuation bytes
    that carry six bits each.  [need] continuation bytes are still awaited
    for the code point whose high bits are [acc].  (A byte string that is
    not UTF-8 is no Python [str]; its bytes are then taken one by one.) *)
Fixpoint code_points_from (need : nat) (acc : N) (s : string) : list N :=
  match s with
  | EmptyString =>
      match need with
      | O => []
      | S _ => [acc]
      end
  | String c r =>
      let b := code c in
      match need with
      | O =>
          if (b <? 192)%N then b :: code_points_from 0 0 r
          else if (b <? 224)%N then code_points_from 1 (b - 192) r
          else if (b <? 240)%N then code_points_from 2 (b - 224) r
          else if (b <? 248)%N then code_points_from 3 (b - 240) r
          else b :: code_points_from 0 0 r
      | S k =>
          if ((128 <=? b) && (b <? 192))%N then
            let acc' := (acc * 64 + (b - 128))%N in
            match k with
            | O => acc' :: code_points_from 0 0 r
            | S _ => code_points_from k acc' r
            end
          else acc :: b :: code_points_from 0 0 r
      end
  end.

Definition code_points (s : string) : list N := code_points_from 0 0 s.

(** The format [{n:04x}] for [n < 65536]. *)
Definition hex4 (n : N) : string :=
  String (hex_digit ((n / 4096) mod 16))
    (String (hex_digit ((n / 256) mod 16))
       (String (hex_digit ((n / 16) mod 16))
          (String (hex_digit (n mod 16)) EmptyString))).

(** One code point of a JSON string under [ensure_ascii=True]: the short
    escapes, then a [u] escape for everything outside the range from the
    space to the tilde, as a surrogate pair beyond the basic plane. *)
Definition json_char (n : N) : string :=
  if (n =? 34)%N then backslash +:+ dq
  else if (n =? 92)%N then backslash +:+ backslash
  else if (n =? 10)%N then backslash +:+ "n"
  else if (n =? 13)%N then backslash +:+ "r"
  else if (n =? 9)%N then backslash +:+ "t"
  else if (n =? 8)%N then backslash +:+ "b"
  else if (n =? 12)%N then backslash +:+ "f"
  else if ((n <? 32) || (126 <? n))%N then
    if (n <? 65536)%N then backslash +:+ "u" +:+ hex4 n
    else
      let v := (n - 65536)%N in
      backslash +:+ "u" +:+ hex4 (55296 + v / 1024)
        +:+ backslash +:+ "u" +:+ hex4 (56320 + v mod 1024)
  else String (ascii_of_N n) "".

Definition json_str (s : string) : string :=
  dq +:+ join "" (map json_char (code_points s)) +:+ dq.

Definition json_val (v : pyval) : string :=
  match v with
  | PStr s => json_str s
  | PInt z => of_Z z
  | PStrList l => "[" +:+ join ", " (map json_str l) +:+ "]"
  end.

(** [json.dumps(d, default=str)] with the default separators. *)
Definition json_dumps (d : pydict) : string :=
  "{" +:+ join ", " (map (fun kv => json_str (fst kv) +:+ ": " +:+ json_val (snd kv)) d)
      +:+ "}".

End PyVal.

(* ===================================================================== *)
(** * backend/logger.py *)
(* ===================================================================== *)

Module Logger.
Import PyStr PyVal.

(** [\s] on the characters the model covers. *)
Definition is_space (c : ascii) : bool :=
  (((9 <=? code c) && (code c <=? 13)) || ((28 <=? code c) && (code c <=? 32)))%N.

(** A literal matched under [re.IGNORECASE]: what is left after it. *)
Fixpoint lit_ci (p s : string) : option string :=
  match p, s with
  | EmptyString, _ => Some s
  | String a p', String b s' =>
      if Ascii.eqb (lower_char a) (lower_char b) then lit_ci p' s' else None
  | String _ _, EmptyString => None
  end.

(** A greedy run of characters satisfying [p]: what is left after it. *)
Fixpoint skip_while (p : ascii -> bool) (s : string) : string :=
  match s with
  | String c r => if p c then skip_while p r else s
  | EmptyString => EmptyString
  end.

Definition expect (c : ascii) (s : string) : option string :=
  match s with
  | String d r => if Ascii.eqb c d then Some r else None
  | EmptyString => None
  end.

(** The pattern: the key between double quotes, blanks, a colon, blanks, an
    opening double quote, any run without a double quote, a closing double
    quote; case-insensitive.  The result is the rest after a match at the
    start of [s].  No step of the pattern can give back characters to a later
    one, so the greedy reading is the only one. *)
Definition match_json_field (key : string) (s : string) : option string :=
  match lit_ci (dq +:+ key +:+ dq) s with
  | None => None
  | Some s1 =>
      match expect ":" (skip_while is_space s1) with
      | None => None
      | Some s2 =>
          match expect "034" (skip_while is_space s2) with
          | None => None
          | Some s3 =>
              expect "034" (skip_while (fun c => negb (Ascii.eqb c "034")) s3)
          end
      end
  end.

(** [<key>=[^\s&]+], case-insensitive. *)
Definition match_assignment (key : string) (s : string) : option string :=
  match lit_ci (key +:+ "=") s with
  | None => None
  | Some s1 =>
      let ok c := negb (is_space c || Ascii.eqb c "&") in
      match s1 with
      | String c _ => if ok c then Some (skip_while ok s1) else None
      | EmptyString => None
      end
  end.

(** [pattern.sub(replacement, s)]: leftmost matches, not overlapping; [skip]
    counts the characters of the current match still to be dropped. *)
Fixpoint sub_from (m : string -> option string) (rep : string) (skip : nat)
    (s : string) : string :=
  match s with
  | EmptyString => EmptyString
  | String c r =>
      match skip with
      | S k => sub_from m rep k r
      | O =>
          match m s with
          | Some rest =>
              match (String.length s - String.length rest)%nat with
              | S k => rep +:+ sub_from m rep k r
              | O => String c (sub_from m rep O r)
              end
          | None => String c (sub_from m rep O r)
          end
      end
  end.

Definition re_sub (m : string -> option string) (rep s : string) : string :=
  sub_from m rep O s.

Definition REDACTED : string := "***REDACTED***".

(** [REDACTION_PATTERNS]: matcher and replacement, in the order of the list. *)
Definition REDACTION_PATTERNS : list ((string -> option string) * string) :=
  [ (match_json_field "password", dq +:+ "password" +:+ dq +:+ ": " +:+ dq +:+ REDACTED +:+ dq);
    (match_json_field "access_token",
       dq +:+ "access_token" +:+ dq +:+ ": " +:+ dq +:+ REDACTED +:+ dq);
    (match_assignment "password", "password=" +:+ REDACTED);
    (match_assignment "token", "token=" +:+ REDACTED) ].

Definition redact_sensitive_data (msg : string) : string :=
  fold_left (fun m pr => re_sub (fst pr) (snd pr) m) REDACTION_PATTERNS msg.

(** The structlog processor: the event is stringified and redacted, then
    every string value of the dict is redacted. *)
Definition add_redaction (event_dict : pydict) : pydict :=
  let d1 :=
    match dict_get "event" event_dict with
    | Some v => dict_set "event" (PStr (redact_sensitive_data (py_str v))) event_dict
    | None => event_dict
    end in
  map (fun kv =>
         match snd kv with
         | PStr s => (fst kv, PStr (redact_sensitive_data s))
         | _ => kv
         end) d1.

(** What a call [logger.<level>(message, **kwargs)] hands to the renderer
    after the processor chain of [configure_logging]: the keyword arguments,
    the event, the level, the logger name, the timestamp, then redaction. *)
Definition process_event (name level timestamp message : string) (kwargs : pydict)
    : pydict :=
  add_redaction
    (dict_set "timestamp" (PStr timestamp)
       (dict_set "logger" (PStr name)
          (dict_set "level" (PStr level)
             (dict_set "event" (PStr message) kwargs)))).

End Logger.

(* ===================================================================== *)
(** * Results, exceptions and state *)
(* ===================================================================== *)

(** A call returns normally or raises; the state it has reached is kept in
    both cases, as the mutations of a Python object are. *)
Module Eff.

Inductive res (A : Type) : Type :=
| Ok (a : A)
| Raise (e : string).
Arguments Ok {A} a.
Arguments Raise {A} e.

Definition M (S A : Type) : Type := S -> res A * S.

Definition ret {S A} (a : A) : M S A := fun s => (Ok a, s).
Definition raise {S A} (e : string) : M S A := fun s => (Raise e, s).
Definition bind {S A B} (m : M S A) (k : A -> M S B) : M S B :=
  fun s =>
    match m s with
    | (Ok a, s') => k a s'
    | (Raise e, s') => (Raise e, s')
    end.
Definition get {S} : M S S := fun s => (Ok s, s).
Definition reads {S A} (f : S -> A) : M S A := fun s => (Ok (f s), s).
Definition modify {S} (f : S -> S) : M S unit := fun s => (Ok tt, f s).

(** [try: m  except Exception as e: h e]. *)
Definition try_except {S A} (m : M S A) (h : string -> M S A) : M S A :=
  fun s =>
    match m s with
    | (Ok a, s') => (Ok a, s')
    | (Raise e, s') => h e s'
    end.

(** A [for] loop that collects what each round produces. *)
Fixpoint for_each {S A B} (f : A -> M S B) (l : list A) : M S (list B) :=
  match l with
  | [] => ret []
  | x :: r => bind (f x) (fun y => bind (for_each f r) (fun ys => ret (y :: ys)))
  end.

(** A [for] loop that threads its local variables from round to round; a
    round that raises ends the loop. *)
Fixpoint for_fold {S A B} (f : A -> B -> M S A) (l : list B) (a : A) : M S A :=
  match l with
  | [] => ret a
  | x :: r => bind (f a x) (fun a' => for_fold f r a')
  end.

(** A computation on a part [T] of the state [S]. *)
Definition zoom {S T A} (proj : S -> T) (inj : T -> S -> S) (m : M T A) : M S A :=
  fun s => let '(r, t) := m (proj s) in (r, inj t s).

End Eff.

Notation "'let!' x ':=' m 'in' k" := (Eff.bind m (fun x => k))
  (at level 10, x pattern, m at level 100, k at level 200).

(* ===================================================================== *)
(** * The analysis model and the request *)
(* ===================================================================== *)

(** The dictionaries that [PostgresAnalyzer.analyze_complete] builds, with
    the keys the rest of the backend reads, and the preference and control
    objects of backend/models.py. *)
Module Model.

Record column : Type := {
  column_name : string;
  data_type : string;
  udt_name : option string;
  character_maximum_length : option Z;
  numeric_precision : option Z;
  numeric_scale : option Z;
  is_nullable : string;
  column_default : option string;
  is_identity : string;
  identity_start : option string;
  identity_increment : option string;
  serial_sequence : option string;
  column_comment : option string
}.

Record key_constraint : Type := {
  constraint_name : string;
  key_columns : list string
}.

Record foreign_key : Type := {
  fk_constraint_name : string;
  foreign_table_schema : string;
  foreign_table_name : string;
  foreign_column_name : string
}.

Record constraints : Type := {
  primary_keys : list key_constraint;
  unique_keys : list key_constraint;
  foreign_keys : list foreign_key
}.

Record table_metadata : Type := {
  total_size_bytes : option Z;
  approximate_row_count : option Z;
  table_comment : option string
}.

Record trigger : Type := { trigger_name : string }.

Record table_detail : Type := {
  table_name : string;
  table_meta : table_metadata;
  columns : list column;
  table_constraints : constraints;
  triggers : list trigger
}.

Record sequence : Type := {
  sequence_name : string;
  start_value : option string;
  increment : option string
}.

Record view : Type := {
  view_name : string;
  view_definition : string
}.

Record function : Type := {
  function_name : string;
  routine_type : string
}.

Record schema_detail : Type := {
  schema_name : string;
  tables : list table_detail;
  sequences : list sequence;
  views : list view;
  functions : list function
}.

Record analysis : Type := {
  analysis_timestamp : string;
  database : string;
  schemas : list schema_detail
}.

Inductive CaseStyle : Type := UPPER | LOWER | PRESERVE.
Inductive DataFormat : Type := CSV | PARQUET.

Record MigrationPreferences : Type := {
  format : DataFormat;
  max_chunk_mb : Z;
  parallelism : Z;
  use_identity_for_serial : bool;
  cluster_key_hints : gmap string (list string);
  case_style : CaseStyle;
  dry_run : bool
}.

Record MigrationControl : Type := {
  run_id : option string;
  confirm : bool
}.

(** The defaults of the two models. *)
Definition default_preferences : MigrationPreferences :=
  {| format := CSV; max_chunk_mb := 200; parallelism := 4;
     use_identity_for_serial := true; cluster_key_hints := ∅;
     case_style := UPPER; dry_run := false |}.

Definition default_control : MigrationControl :=
  {| run_id := None; confirm := false |}.

Inductive MigrationStatus : Type :=
| PENDING | ANALYZING | PLANNING | AWAITING_CONFIRMATION
| EXECUTING | VALIDATING | COMPLETED | FAILED | CANCELLED.

(** [status.value]. *)
Definition status_value (s : MigrationStatus) : string :=
  match s with
  | PENDING => "pending"
  | ANALYZING => "analyzing"
  | PLANNING => "planning"
  | AWAITING_CONFIRMATION => "awaiting_confirmation"
  | EXECUTING => "executing"
  | VALIDATING => "validating"
  | COMPLETED => "completed"
  | FAILED => "failed"
  | CANCELLED => "cancelled"
  end.

Record validation_result : Type := {
  vr_schema : string;
  vr_table : string;
  vr_check : string;
  vr_status : string
}.

(** Truth value of an optional string or integer, as [if x:] reads it. *)
Definition truthy_str (o : option string) : bool :=
  match o with
  | Some (String _ _) => true
  | _ => false
  end.

Definition truthy_int (o : option Z) : bool :=
  match o with
  | Some z => negb (z =? 0)
  | None => false
  end.

End Model.

(* ===================================================================== *)
(** * backend/snowflake_generator.py *)
(* ===================================================================== *)

Module Generator.
Import PyStr Eff Model.

(** ** TypeMapper *)

(** The arrow of the standard-mapping rationale, as the source file spells
    it. *)
Definition mapping_arrow : string := "â†’".

Definition TYPE_MAP : list (string * string) :=
  [ ("smallint", "NUMBER(5,0)"); ("integer", "NUMBER(10,0)");
    ("bigint", "NUMBER(19,0)"); ("decimal", "NUMBER"); ("numeric", "NUMBER");
    ("real", "FLOAT"); ("double precision", "FLOAT");
    ("smallserial", "NUMBER(5,0)"); ("serial", "NUMBER(10,0)");
    ("bigserial", "NUMBER(19,0)"); ("money", "NUMBER(19,4)");
    ("character varying", "VARCHAR"); ("varchar", "VARCHAR");
    ("character", "CHAR"); ("char", "CHAR"); ("text", "VARCHAR");
    ("bytea", "BINARY");
    ("timestamp without time zone", "TIMESTAMP_NTZ");
    ("timestamp with time zone", "TIMESTAMP_TZ");
    ("timestamp", "TIMESTAMP_NTZ"); ("timestamptz", "TIMESTAMP_TZ");
    ("date", "DATE"); ("time without time zone", "TIME");
    ("time with time zone", "TIME"); ("time", "TIME"); ("interval", "VARCHAR");
    ("boolean", "BOOLEAN"); ("bool", "BOOLEAN");
    ("json", "VARIANT"); ("jsonb", "VARIANT");
    ("uuid", "VARCHAR(36)");
    ("inet", "VARCHAR(45)"); ("cidr", "VARCHAR(45)"); ("macaddr", "VARCHAR(17)");
    ("point", "VARCHAR"); ("line", "VARCHAR"); ("lseg", "VARCHAR");
    ("box", "VARCHAR"); ("path", "VARCHAR"); ("polygon", "VARCHAR");
    ("circle", "VARCHAR");
    ("ARRAY", "VARIANT");
    ("USER-DEFINED", "VARCHAR") ].

Fixpoint type_map_get (k : string) (m : list (string * string)) : option string :=
  match m with
  | [] => None
  | (k', v) :: r => if String.eqb k' k then Some v else type_map_get k r
  end.

Definition in_strs (x : string) (l : list string) : bool :=
  existsb (String.eqb x) l.

(** The ceiling the mapper compares a declared length with. *)
Definition SNOWFLAKE_MAX_VARCHAR : Z := 16777216.

(** [TypeMapper.map_type]: the Snowflake type and the rationale. *)
Definition map_type (pg_type : string) (udt_name : option string)
    (char_max_length numeric_precision numeric_scale : option Z) : string * string :=
  let pg_type_lower := lower pg_type in
  if contains "[]" pg_type || String.eqb pg_type "ARRAY" then
    ("VARIANT", "PostgreSQL array mapped to VARIANT for semi-structured storage")
  else if in_strs pg_type_lower ["numeric"; "decimal"] then
    let sf_type :=
      match numeric_precision, numeric_scale with
      | Some p, Some s =>
          if negb (p =? 0) then "NUMBER(" +:+ of_Z p +:+ "," +:+ of_Z s +:+ ")"
          else "NUMBER(38,0)"
      | Some p, None =>
          if negb (p =? 0) then "NUMBER(" +:+ of_Z p +:+ ",0)" else "NUMBER(38,0)"
      | None, _ => "NUMBER(38,0)"
      end in
    (sf_type, "PostgreSQL " +:+ pg_type +:+ " with precision/scale preserved")
  else if in_strs pg_type_lower ["character varying"; "varchar"; "character"; "char"] then
    match char_max_length with
    | Some n =>
        if negb (n =? 0) then
          if SNOWFLAKE_MAX_VARCHAR <? n then
            ("VARCHAR",
             "PostgreSQL " +:+ pg_type +:+ "(" +:+ of_Z n +:+
             ") exceeds Snowflake max; using VARCHAR(16777216)")
          else
            ("VARCHAR(" +:+ of_Z n +:+ ")",
             "PostgreSQL " +:+ pg_type +:+ " with length preserved")
        else ("VARCHAR", "PostgreSQL " +:+ pg_type +:+ " mapped to VARCHAR")
    | None => ("VARCHAR", "PostgreSQL " +:+ pg_type +:+ " mapped to VARCHAR")
    end
  else if String.eqb pg_type_lower "text" then
    ("VARCHAR", "PostgreSQL TEXT mapped to VARCHAR (unlimited)")
  else
    match type_map_get pg_type_lower TYPE_MAP with
    | Some sf_type =>
        (sf_type,
         "Standard mapping: " +:+ pg_type +:+ " " +:+ mapping_arrow +:+ " " +:+ sf_type)
    | None =>
        if String.eqb pg_type "USER-DEFINED" then
          ("VARCHAR",
           "User-defined type (" +:+ of_opt udt_name +:+
           ") mapped to VARCHAR; consider adding validation")
        else
          ("VARCHAR", "Unknown type " +:+ pg_type +:+ " mapped to VARCHAR (needs review)")
    end.

(** ** SnowflakeGenerator *)

Record MappingDecision : Type := {
  md_schema : string;
  md_table : string;
  md_column : string;
  md_postgres_type : string;
  md_snowflake_type : string;
  md_rationale : string;
  md_nullable : bool;
  md_has_default : bool;
  md_is_identity : bool
}.

(** A cluster-key recommendation.  The source also renders the size in GiB
    with two decimals into the text; the record keeps the byte count. *)
Record recommendation : Type := {
  rec_type : string;
  rec_table : string;
  rec_size_bytes : Z
}.

Record SnowflakeGenerator : Type := {
  gen_analysis : analysis;
  gen_preferences : MigrationPreferences;
  mapping_decisions : list MappingDecision;
  ddl_statements : list string;
  improvement_recommendations : list recommendation
}.

(** [SnowflakeGenerator.__init__]. *)
Definition new_generator (a : analysis) (p : MigrationPreferences) : SnowflakeGenerator :=
  {| gen_analysis := a; gen_preferences := p; mapping_decisions := [];
     ddl_statements := []; improvement_recommendations := [] |}.

Definition extend_mapping_decisions (ms : list MappingDecision)
    (g : SnowflakeGenerator) : SnowflakeGenerator :=
  {| gen_analysis := gen_analysis g; gen_preferences := gen_preferences g;
     mapping_decisions := mapping_decisions g ++ ms;
     ddl_statements := ddl_statements g;
     improvement_recommendations := improvement_recommendations g |}.

Definition append_recommendation (r : recommendation)
    (g : SnowflakeGenerator) : SnowflakeGenerator :=
  {| gen_analysis := gen_analysis g; gen_preferences := gen_preferences g;
     mapping_decisions := mapping_decisions g;
     ddl_statements := ddl_statements g;
     improvement_recommendations := improvement_recommendations g ++ [r] |}.

Definition normalize_identifier (p : MigrationPreferences) (name : string) : string :=
  match case_style p with
  | UPPER => upper name
  | LOWER => lower name
  | PRESERVE => name
  end.

(** The reserved words [quote_identifier] knows. *)
Definition snowflake_reserved : gset string :=
  list_to_set
    [ "ACCOUNT"; "ALL"; "ALTER"; "AND"; "ANY"; "AS"; "BETWEEN";
      "BY"; "CASE"; "CAST"; "CHECK"; "COLUMN"; "CONNECT"; "COPY";
      "CREATE"; "CURRENT"; "DATABASE"; "DELETE"; "DISTINCT"; "DROP" ].

(** The test of [quote_identifier] on the normalized name. *)
Definition needs_quoting (normalized : string) : bool :=
  bool_decide (upper normalized ∈ snowflake_reserved)
  || negb (isalnum (replace_char "_" "" normalized)).

Definition quote_identifier (p : MigrationPreferences) (name : string) : string :=
  let normalized := normalize_identifier p name in
  if needs_quoting normalized then dq +:+ normalized +:+ dq else normalized.

Definition generate_database_ddl (p : MigrationPreferences) (database_name : string)
    : list string :=
  let db_name := quote_identifier p database_name in
  [ "-- Database: " +:+ db_name;
    "CREATE DATABASE IF NOT EXISTS " +:+ db_name +:+ ";";
    "USE DATABASE " +:+ db_name +:+ ";";
    "" ].

Definition generate_schema_ddl (p : MigrationPreferences) (schema_name : string)
    : list string :=
  let schema := quote_identifier p schema_name in
  [ "-- Schema: " +:+ schema;
    "CREATE SCHEMA IF NOT EXISTS " +:+ schema +:+ ";";
    "" ].

(** [x or 1] rendered in an f-string. *)
Definition or_one (o : option string) : string :=
  match o with
  | Some (String c r) => String c r
  | _ => "1"
  end.

Definition generate_sequence_ddl (p : MigrationPreferences) (schema_name : string)
    (sq : sequence) : string :=
  let schema := quote_identifier p schema_name in
  let seq_name := quote_identifier p (sequence_name sq) in
  "CREATE SEQUENCE IF NOT EXISTS " +:+ schema +:+ "." +:+ seq_name +:+
  " START = " +:+ or_one (start_value sq) +:+
  " INCREMENT = " +:+ or_one (increment sq) +:+ ";".

(** [s.split(c)[-1]]. *)
Definition last_part (c : ascii) (s : string) : string :=
  List.last (split c s) EmptyString.

(** The default clause of a column line: identity, serial sequence, a
    [nextval(...)] default, or the default expression as it is. *)
Definition default_clause (p : MigrationPreferences) (schema : string) (col : column)
    : string :=
  if String.eqb (is_identity col) "YES" && use_identity_for_serial p then
    " IDENTITY(" +:+ or_one (identity_start col) +:+ ", " +:+
    or_one (identity_increment col) +:+ ")"
  else if truthy_str (serial_sequence col) then
    let seq_name := last_part "." (of_opt (serial_sequence col)) in
    " DEFAULT " +:+ schema +:+ "." +:+ quote_identifier p seq_name +:+ ".NEXTVAL"
  else if truthy_str (column_default col) then
    let default_val := of_opt (column_default col) in
    if startswith "nextval(" default_val then
      let seq_match :=
        if contains sq default_val
        then Some (nth 1 (split "039" default_val) EmptyString) else None in
      if truthy_str seq_match then
        let seq_name := last_part "." (of_opt seq_match) in
        " DEFAULT " +:+ schema +:+ "." +:+ quote_identifier p seq_name +:+ ".NEXTVAL"
      else ""
    else if negb (startswith "nextval" (lower default_val)) then
      " DEFAULT " +:+ default_val
    else ""
  else "".

(** One round of the column loop of [generate_table_ddl]: the quoted column
    name, the column line and the mapping decision. *)
Definition column_entry (p : MigrationPreferences) (schema_name table_name schema : string)
    (col : column) : string * string * MappingDecision :=
  let col_name := quote_identifier p (column_name col) in
  let '(sf_type, rationale) :=
    map_type (data_type col) (udt_name col) (character_maximum_length col)
             (numeric_precision col) (numeric_scale col) in
  let col_def :=
    "    " +:+ col_name +:+ " " +:+ sf_type +:+ default_clause p schema col +:+
    (if String.eqb (is_nullable col) "NO" then " NOT NULL" else "") +:+
    (if truthy_str (column_comment col)
     then " COMMENT '" +:+ replace_char "039" "''" (of_opt (column_comment col)) +:+ "'"
     else "") in
  (col_name, col_def,
   {| md_schema := schema_name; md_table := table_name;
      md_column := column_name col; md_postgres_type := data_type col;
      md_snowflake_type := sf_type; md_rationale := rationale;
      md_nullable := String.eqb (is_nullable col) "YES";
      md_has_default := match column_default col with Some _ => true | None => false end;
      md_is_identity := String.eqb (is_identity col) "YES" |}).

Definition key_line (p : MigrationPreferences) (kind : string) (k : key_constraint)
    : string :=
  "," +:+ nl +:+ "    CONSTRAINT " +:+ quote_identifier p (constraint_name k) +:+
  " " +:+ kind +:+ " (" +:+ join ", " (map (quote_identifier p) (key_columns k)) +:+ ")".

Definition concat_strs (l : list string) : string := fold_right String.append "" l.

Definition TEN_GIB : Z := 10 * 1024 * 1024 * 1024.

(** [generate_table_ddl]: the DDL text and the mapping decisions of the
    table.  The generator is the state: a table above ten GiB without a
    cluster hint adds a recommendation.  Two places can raise: the size
    comparison on a missing size, and the foreign-key comment, which reads the
    column name left by the last round of the column loop. *)
Definition generate_table_ddl (schema_name : string) (td : table_detail)
    : M SnowflakeGenerator (string * list MappingDecision) :=
  let! p := reads gen_preferences in
  let schema := quote_identifier p schema_name in
  let table := quote_identifier p (table_name td) in
  let full_table_name := schema +:+ "." +:+ table in
  let entries := map (column_entry p schema_name (table_name td) schema) (columns td) in
  let column_defs := map (fun e => snd (fst e)) entries in
  let column_mappings := map snd entries in
  let ddl1 :=
    "CREATE TABLE IF NOT EXISTS " +:+ full_table_name +:+ " (" +:+ nl +:+
    join ("," +:+ nl) column_defs +:+
    match primary_keys (table_constraints td) with
    | pk :: _ => key_line p "PRIMARY KEY" pk
    | [] => ""
    end +:+
    concat_strs (map (key_line p "UNIQUE") (unique_keys (table_constraints td))) +:+
    nl +:+ ")" in
  let cluster_hint := cluster_key_hints p !! table_name td in
  let! ddl2 :=
    match cluster_hint with
    | Some (c :: cs) =>
        ret (ddl1 +:+ nl +:+ "CLUSTER BY (" +:+
             join ", " (map (quote_identifier p) (c :: cs)) +:+ ")")
    | _ =>
        match total_size_bytes (table_meta td) with
        | None => raise "TypeError: '>' not supported between NoneType and int"
        | Some size =>
            if TEN_GIB <? size then
              let! _ := modify (append_recommendation
                          {| rec_type := "CLUSTER_KEY"; rec_table := full_table_name;
                             rec_size_bytes := size |}) in
              ret ddl1
            else ret ddl1
        end
    end in
  let ddl3 :=
    ddl2 +:+ ";" +:+
    (if truthy_str (table_comment (table_meta td))
     then nl +:+ "COMMENT ON TABLE " +:+ full_table_name +:+ " IS '" +:+
          replace_char "039" "''" (of_opt (table_comment (table_meta td))) +:+ "';"
     else "") in
  match foreign_keys (table_constraints td) with
  | [] => ret (ddl3, column_mappings)
  | fks =>
      match List.last (map (fun e => Some (fst (fst e))) entries) None with
      | None => raise "UnboundLocalError: col_name"
      | Some col_name =>
          let fk_line fk :=
            nl +:+ "-- " +:+ quote_identifier p (fk_constraint_name fk) +:+ ": " +:+
            col_name +:+ " REFERENCES " +:+
            quote_identifier p (foreign_table_schema fk) +:+ "." +:+
            quote_identifier p (foreign_table_name fk) +:+ "(" +:+
            quote_identifier p (foreign_column_name fk) +:+ ")" in
          ret (ddl3 +:+ nl +:+ nl +:+
               "-- Foreign key constraints (for documentation; not enforced on standard tables):"
               +:+ concat_strs (map fk_line fks),
               column_mappings)
      end
  end.

Definition generate_view_ddl (p : MigrationPreferences) (schema_name : string) (v : view)
    : string :=
  let schema := quote_identifier p schema_name in
  let vname := quote_identifier p (view_name v) in
  "-- View: " +:+ schema +:+ "." +:+ vname +:+ nl +:+
  "-- Original PostgreSQL definition:" +:+ nl +:+
  "-- " +:+ view_definition v +:+ nl +:+
  "-- TODO: Review and transform PostgreSQL-specific syntax for Snowflake" +:+ nl +:+
  "-- CREATE OR REPLACE VIEW " +:+ schema +:+ "." +:+ vname +:+ " AS" +:+ nl +:+
  "-- <transformed_query>;" +:+ nl.

Definition generate_stage_and_format (p : MigrationPreferences)
    (stage_name file_format_name : string) : list string :=
  let stage := quote_identifier p stage_name in
  let file_format := quote_identifier p file_format_name in
  [ "-- Internal stage for data loading";
    "CREATE STAGE IF NOT EXISTS " +:+ stage +:+ ";";
    "" ] ++
  match format p with
  | CSV =>
      [ "-- File format for CSV";
        "CREATE FILE FORMAT IF NOT EXISTS " +:+ file_format;
        "    TYPE = 'CSV'";
        "    COMPRESSION = 'GZIP'";
        "    FIELD_DELIMITER = ','";
        "    RECORD_DELIMITER = '\n'";
        "    SKIP_HEADER = 1";
        "    FIELD_OPTIONALLY_ENCLOSED_BY = '" +:+ dq +:+ "'";
        "    TRIM_SPACE = TRUE";
        "    ERROR_ON_COLUMN_COUNT_MISMATCH = FALSE";
        "    ESCAPE = 'NONE'";
        "    ESCAPE_UNENCLOSED_FIELD = '\\'";
        "    DATE_FORMAT = 'AUTO'";
        "    TIMESTAMP_FORMAT = 'AUTO'";
        "    NULL_IF = ('\\N', 'NULL', 'null', '');";
        "" ]
  | PARQUET =>
      [ "-- File format for Parquet";
        "CREATE FILE FORMAT IF NOT EXISTS " +:+ file_format;
        "    TYPE = 'PARQUET'";
        "    COMPRESSION = 'SNAPPY';";
        "" ]
  end.

(** The [snowflake_config] dictionary handed to [generate_complete_ddl]. *)
Record ddl_config : Type := {
  cfg_database : string;
  cfg_stage : string;
  cfg_file_format : string
}.

(** The table loop of [generate_complete_ddl]: each table's DDL and an empty
    line go to the script, its mappings to [self.mapping_decisions]. *)
Definition table_round (schema_name : string) (td : table_detail)
    : M SnowflakeGenerator (list string) :=
  let! (table_ddl, column_mappings) := generate_table_ddl schema_name td in
  let! _ := modify (extend_mapping_decisions column_mappings) in
  ret [table_ddl; ""].

Definition schema_round (sd : schema_detail) : M SnowflakeGenerator (list string) :=
  let! p := reads gen_preferences in
  let name := schema_name sd in
  let! table_lines := for_each (table_round name) (tables sd) in
  ret (generate_schema_ddl p name ++
       map (generate_sequence_ddl p name) (sequences sd) ++ [""] ++
       concat table_lines ++
       concat (map (fun v => [generate_view_ddl p name v; ""]) (views sd))).

(** [generate_complete_ddl]. *)
Definition generate_complete_ddl (cfg : ddl_config) : M SnowflakeGenerator string :=
  let! a := reads gen_analysis in
  let! p := reads gen_preferences in
  let header :=
    [ "-- =============================================================================";
      "-- Snowflake Migration DDL";
      "-- Generated: " +:+ analysis_timestamp a;
      "-- Source: PostgreSQL " +:+ database a;
      "-- =============================================================================";
      "" ] in
  let! schema_lines := for_each schema_round (schemas a) in
  ret (join nl (header ++ generate_database_ddl p (cfg_database cfg) ++
                generate_stage_and_format p (cfg_stage cfg) (cfg_file_format cfg) ++
                concat schema_lines)).

(** The dictionary [generate_mapping_decisions_yaml] dumps. *)
Record mapping_yaml : Type := {
  yaml_generated : string;
  yaml_source_database : string;
  yaml_case_style : CaseStyle;
  yaml_mappings : list MappingDecision
}.

Definition generate_mapping_decisions_yaml (g : SnowflakeGenerator) : mapping_yaml :=
  {| yaml_generated := analysis_timestamp (gen_analysis g);
     yaml_source_database := database (gen_analysis g);
     yaml_case_style := case_style (gen_preferences g);
     yaml_mappings := mapping_decisions g |}.

End Generator.

(* ===================================================================== *)
(** * backend/postgres_analyzer.py: compatibility flags *)
(* ===================================================================== *)

Module Analyzer.
Import PyStr Model.

Record flags : Type := {
  reserved_identifiers : list string;
  wide_tables : list string;
  large_varchars : list string;
  lob_columns : list string;
  complex_constraints : list string;
  flagged_triggers : list string;
  flagged_functions : list string
}.

Definition no_flags : flags :=
  {| reserved_identifiers := []; wide_tables := []; large_varchars := [];
     lob_columns := []; complex_constraints := []; flagged_triggers := [];
     flagged_functions := [] |}.

(** The reserved words of [_assess_compatibility] (the source calls the list
    partial). *)
Definition snowflake_reserved : gset string :=
  list_to_set
    [ "ACCOUNT"; "ALL"; "ALTER"; "AND"; "ANY"; "AS"; "BETWEEN";
      "BY"; "CASE"; "CAST"; "CHECK"; "COLUMN"; "CONNECT"; "COPY";
      "CREATE"; "CURRENT"; "DATABASE"; "DELETE"; "DISTINCT"; "DROP";
      "ELSE"; "EXISTS"; "FALSE"; "FOLLOWING"; "FOR"; "FROM"; "FULL";
      "GRANT"; "GROUP"; "HAVING"; "ILIKE"; "IN"; "INCREMENT"; "INSERT";
      "INTERSECT"; "INTO"; "IS"; "ISSUE"; "JOIN"; "LATERAL"; "LEFT";
      "LIKE"; "LOCALTIME"; "LOCALTIMESTAMP"; "MINUS"; "NATURAL"; "NOT";
      "NULL"; "OF"; "ON"; "OR"; "ORDER"; "ORGANIZATION"; "QUALIFY";
      "REGEXP"; "REVOKE"; "RIGHT"; "RLIKE"; "ROW"; "ROWS"; "SAMPLE";
      "SCHEMA"; "SELECT"; "SET"; "SOME"; "START"; "TABLE"; "TABLESAMPLE";
      "THEN"; "TO"; "TRIGGER"; "TRUE"; "TRY_CAST"; "UNION"; "UNIQUE";
      "UPDATE"; "USING"; "VALUES"; "VIEW"; "WHEN"; "WHENEVER"; "WHERE";
      "WITH" ].

Definition is_reserved (name : string) : bool :=
  bool_decide (upper name ∈ snowflake_reserved).

(** The length above which a column is reported as a very large VARCHAR. *)
Definition LARGE_VARCHAR_THRESHOLD : Z := 16000000.

(** The test guarding [flags['large_varchars'].append]. *)
Definition is_large_varchar (col : column) : bool :=
  existsb (String.eqb (data_type col)) ["character varying"; "text"; "varchar"]
  && match character_maximum_length col with
     | Some n => negb (n =? 0) && (LARGE_VARCHAR_THRESHOLD <? n)
     | None => false
     end.

Definition qualified (schema_name table_name col_name : string) : string :=
  schema_name +:+ "." +:+ table_name +:+ "." +:+ col_name.

Definition add_reserved (x : string) (f : flags) : flags :=
  {| reserved_identifiers := reserved_identifiers f ++ [x];
     wide_tables := wide_tables f; large_varchars := large_varchars f;
     lob_columns := lob_columns f; complex_constraints := complex_constraints f;
     flagged_triggers := flagged_triggers f; flagged_functions := flagged_functions f |}.

Definition add_wide (x : string) (f : flags) : flags :=
  {| reserved_identifiers := reserved_identifiers f;
     wide_tables := wide_tables f ++ [x]; large_varchars := large_varchars f;
     lob_columns := lob_columns f; complex_constraints := complex_constraints f;
     flagged_triggers := flagged_triggers f; flagged_functions := flagged_functions f |}.

Definition add_large_varchar (x : string) (f : flags) : flags :=
  {| reserved_identifiers := reserved_identifiers f;
     wide_tables := wide_tables f; large_varchars := large_varchars f ++ [x];
     lob_columns := lob_columns f; complex_constraints := complex_constraints f;
     flagged_triggers := flagged_triggers f; flagged_functions := flagged_functions f |}.

Definition add_lob (x : string) (f : flags) : flags :=
  {| reserved_identifiers := reserved_identifiers f;
     wide_tables := wide_tables f; large_varchars := large_varchars f;
     lob_columns := lob_columns f ++ [x]; complex_constraints := complex_constraints f;
     flagged_triggers := flagged_triggers f; flagged_functions := flagged_functions f |}.

Definition add_trigger (x : string) (f : flags) : flags :=
  {| reserved_identifiers := reserved_identifiers f;
     wide_tables := wide_tables f; large_varchars := large_varchars f;
     lob_columns := lob_columns f; complex_constraints := complex_constraints f;
     flagged_triggers := flagged_triggers f ++ [x];
     flagged_functions := flagged_functions f |}.

Definition add_function (x : string) (f : flags) : flags :=
  {| reserved_identifiers := reserved_identifiers f;
     wide_tables := wide_tables f; large_varchars := large_varchars f;
     lob_columns := lob_columns f; complex_constraints := complex_constraints f;
     flagged_triggers := flagged_triggers f;
     flagged_functions := flagged_functions f ++ [x] |}.

Definition when (b : bool) (g : flags -> flags) (f : flags) : flags :=
  if b then g f else f.

(** The body of the column loop. *)
Definition assess_column (sname tname : string) (f : flags) (col : column) : flags :=
  let f1 := when (is_reserved (column_name col))
                 (add_reserved (qualified sname tname (column_name col))) f in
  let f2 := when (is_large_varchar col)
                 (add_large_varchar (qualified sname tname (column_name col))) f1 in
  when (String.eqb (data_type col) "bytea")
       (add_lob (qualified sname tname (column_name col) +:+ " (BYTEA)")) f2.

(** The body of the table loop. *)
Definition assess_table (sname : string) (f : flags) (td : table_detail) : flags :=
  let tname := table_name td in
  let f1 := when (is_reserved tname)
                 (add_reserved (sname +:+ "." +:+ tname +:+ " (table)")) f in
  let f2 := when (500 <? Z.of_nat (length (columns td)))
                 (add_wide (sname +:+ "." +:+ tname +:+ " (" +:+
                            of_Z (Z.of_nat (length (columns td))) +:+ " columns)")) f1 in
  let f3 := fold_left (assess_column sname tname) (columns td) f2 in
  fold_left (fun acc tr => add_trigger (qualified sname tname (trigger_name tr)) acc)
            (triggers td) f3.

(** The body of the schema loop. *)
Definition assess_schema (f : flags) (sd : schema_detail) : flags :=
  let sname := schema_name sd in
  let f1 := fold_left (assess_table sname) (tables sd) f in
  fold_left (fun acc fn =>
               add_function (sname +:+ "." +:+ function_name fn +:+ " (" +:+
                             routine_type fn +:+ ")") acc)
            (functions sd) f1.

(** [PostgresAnalyzer._assess_compatibility]: a list of advisory notes per
    kind; nothing in it raises or touches the run. *)
Definition _assess_compatibility (schema_details : list schema_detail) : flags :=
  fold_left assess_schema schema_details no_flags.

End Analyzer.

(* ===================================================================== *)
(** * The outside world *)
(* ===================================================================== *)

(** What the run does to PostgreSQL, Snowflake and the file system is logged
    as a list of events; what they answer is read from the environment, which
    may answer differently at each tick of the clock. *)
Module World.
Import Eff.

(** One value of a fetched row: [None], a dict or list (with what
    [json.dumps] makes of it: its text, or the [TypeError] on an element
    that is not serializable, as the dates and decimals of a [date[]] or
    [numeric[]] column), a string, or another scalar (with its [str]
    text). *)
Inductive pg_value : Type :=
| VNone
| VJson (dumped : res string)
| VStr (s : string)
| VOther (text : string).

Definition row : Type := list pg_value.

Inductive event : Type :=
| EvSelect (schema table : string)
| EvWriteCsv (path content : string)
| EvWriteParquet (path : string) (chunk_data : list row)
| EvPut (path stage : string)
| EvCopy (table file : string)
| EvDDL (script : string)
| EvArtifact (name content : string)
| EvConsole (line : string).

(** One line of the result set of a COPY INTO: columns 1 and 3. *)
Record copy_row : Type := {
  cr_status : string;
  cr_rows_loaded : Z
}.

Inductive copy_outcome : Type :=
| CopyOk (results : list copy_row) (duration_ms : Z)
| CopyErr (e : string).

Record env : Type := {
  (** the rows a server-side cursor yields, then the error that ends the
      iteration, if any *)
  cursor_rows : string -> string -> list row * option string;
  (** [gzip.open] of a chunk file and the write of its text, at a tick *)
  gzip_write : nat -> string -> string -> res unit;
  (** [pd.DataFrame] over the rows of a chunk, whose widest row has as many
      values as there are columns, and [to_parquet] to a file, at a tick *)
  to_parquet : nat -> string -> list string -> list row -> res unit;
  (** the PUT of a file issued at a tick *)
  put_result : nat -> string -> res unit;
  (** the COPY INTO of a staged file into a table issued at a tick *)
  copy_result : nat -> string -> string -> copy_outcome;
  (** opening the two connections *)
  pg_connect : nat -> res unit;
  sf_connect : nat -> res unit;
  (** executing the DDL script *)
  ddl_result : nat -> res unit;
  (** writing a file of the run's artifact directory *)
  write_result : nat -> string -> res unit;
  (** the clock: ISO text of a tick, milliseconds between two ticks *)
  isoformat : nat -> string;
  elapsed_ms : nat -> nat -> Z;
  (** [PostgresAnalyzer.analyze_complete] *)
  analyze_result : nat -> res Model.analysis;
  (** [DataValidator.validate_table] on a table *)
  validate_table_result : nat -> string -> string -> list Model.validation_result;
  (** [uuid.uuid4()] *)
  uuid4 : string
}.

Record world : Type := {
  clock : nat;
  events : list event
}.

Definition emit (e : event) (w : world) : world :=
  {| clock := clock w; events := events w ++ [e] |}.

Definition advance (w : world) : world :=
  {| clock := S (clock w); events := events w |}.

End World.

(* ===================================================================== *)
(** * backend/data_pipeline.py *)
(* ===================================================================== *)

Module Pipeline.
Import PyStr Eff Model World.

(** The state the pipeline works on: the loader's [loaded_files] set and the
    world. *)
Record pstate : Type := {
  loaded_files : gset string;
  pworld : world
}.

Definition on_world (f : world -> world) (s : pstate) : pstate :=
  {| loaded_files := loaded_files s; pworld := f (pworld s) |}.

Definition add_loaded (f : string) (s : pstate) : pstate :=
  {| loaded_files := {[f]} ∪ loaded_files s; pworld := pworld s |}.

(** Perform an effect: log the event and return the tick at which it
    happened. *)
Definition perform (e : event) : M pstate nat :=
  fun s => (Ok (clock (pworld s)), on_world (fun w => advance (emit e w)) s).

Definition now : M pstate nat := fun s => (Ok (clock (pworld s)), s).

(** The [tenacity] decorator [@retry(stop=stop_after_attempt(n))]: the call
    is repeated while it raises, and the last failure is reported as a
    [RetryError]. *)
Fixpoint retry {S A} (attempts : nat) (m : M S A) : M S A :=
  match attempts with
  | O => raise "RetryError"
  | S k => try_except m (fun _ => retry k m)
  end.

(** ** DataExtractor *)

(** The text of one value in a CSV line; [json.dumps] may raise. *)
Definition encode_value (v : pg_value) : res string :=
  match v with
  | VNone => Ok ""
  | VJson (Ok dumped) => Ok (dq +:+ replace_char "034" (dq +:+ dq) dumped +:+ dq)
  | VJson (Raise e) => Raise e
  | VStr s => Ok (dq +:+ replace_char "034" (dq +:+ dq) s +:+ dq)
  | VOther text => Ok text
  end.

(** The loop over the values of a row: the first value that raises ends
    it. *)
Fixpoint row_data (r : row) : res (list string) :=
  match r with
  | [] => Ok []
  | val :: r' =>
      match encode_value val with
      | Raise e => Raise e
      | Ok x =>
          match row_data r' with
          | Raise e => Raise e
          | Ok xs => Ok (x :: xs)
          end
      end
  end.

Definition csv_line (r : row) : res string :=
  match row_data r with
  | Ok xs => Ok (join "," xs +:+ nl)
  | Raise e => Raise e
  end.

Definition chunk_name (schema table : string) (chunk_num : Z) (ext : string) : string :=
  schema +:+ "_" +:+ table +:+ "_chunk_" +:+ pad4 chunk_num +:+ ext.

(** The local variables of the loop of [extract_table_to_csv]. *)
Record csv_state : Type := {
  chunk_num : Z;
  rows_in_chunk : Z;
  current_file : option string;
  current_buffer : option string;
  files : list string
}.

Definition csv_init : csv_state :=
  {| chunk_num := 0; rows_in_chunk := 0; current_file := None;
     current_buffer := None; files := [] |}.

(** The local variables of the loop of [extract_table_to_parquet]. *)
Record pq_state : Type := {
  pq_chunk_num : Z;
  pq_chunk_data : list row;
  pq_files : list string
}.

(** The width of the widest row of a chunk. *)
Definition widest (chunk_data : list row) : nat :=
  fold_left Nat.max (map (@length pg_value) chunk_data) 0%nat.

Section WithEnv.
Context (E : env).

(** [with gzip.open(current_file, 'wt') as gz_file: gz_file.write(csv_data)]:
    the file is there when both work. *)
Definition write_gz (current_file csv_data : string) : M pstate unit :=
  fun s =>
    match gzip_write E (clock (pworld s)) current_file csv_data with
    | Ok _ => (Ok tt, on_world (fun w => advance (emit (EvWriteCsv current_file csv_data) w)) s)
    | Raise e => (Raise e, on_world advance s)
    end.

(** One round of the loop over the cursor. *)
Definition csv_step (temp_path schema table : string) (columns : list string)
    (chunk_size : Z) (st : csv_state) (r : row) : M pstate csv_state :=
  (* start a new chunk if needed *)
  let st1 :=
    match current_buffer st with
    | None =>
        let n := chunk_num st + 1 in
        {| chunk_num := n; rows_in_chunk := 0;
           current_file := Some (path_join temp_path (chunk_name schema table n ".csv.gz"));
           current_buffer := Some (join "," columns +:+ nl);
           files := files st |}
    | Some _ => st
    end in
  (* write the row *)
  match csv_line r with
  | Raise e => raise e
  | Ok line =>
      let buffer := of_opt (current_buffer st1) +:+ line in
      let count := rows_in_chunk st1 + 1 in
      if chunk_size <=? count then
        (* compress, write and reset *)
        let! _ := write_gz (of_opt (current_file st1)) buffer in
        ret {| chunk_num := chunk_num st1; rows_in_chunk := count;
               current_file := None; current_buffer := None;
               files := files st1 ++ [of_opt (current_file st1)] |}
      else
        ret {| chunk_num := chunk_num st1; rows_in_chunk := count;
               current_file := current_file st1; current_buffer := Some buffer;
               files := files st1 |}
  end.

(** The flush of the last, short chunk after the loop. *)
Definition csv_flush (st : csv_state) : M pstate csv_state :=
  match current_buffer st with
  | Some buffer =>
      if 0 <? rows_in_chunk st then
        let! _ := write_gz (of_opt (current_file st)) buffer in
        ret {| chunk_num := chunk_num st; rows_in_chunk := rows_in_chunk st;
               current_file := current_file st; current_buffer := current_buffer st;
               files := files st ++ [of_opt (current_file st)] |}
      else ret st
  | None => ret st
  end.

(** [DataExtractor.extract_table_to_csv].  The rows come one by one from the
    cursor; a value that cannot be encoded, a chunk file that cannot be
    written and the error that ends the cursor's iteration are raised again
    by the [except] branch, and the chunks written before stay written. *)
Definition extract_table_to_csv (temp_path schema table : string)
    (columns : list string) (chunk_size : Z) : M pstate (list string) :=
  let! _ := perform (EvSelect schema table) in
  let '(rows, err) := cursor_rows E schema table in
  let! st := for_fold (csv_step temp_path schema table columns chunk_size) rows csv_init in
  match err with
  | Some e => raise e
  | None =>
      let! st' := csv_flush st in
      ret (files st')
  end.

(** [df = pd.DataFrame(chunk_data, columns=columns)] and
    [df.to_parquet(file_path, ...)]: the constructor raises a [ValueError]
    when the widest row has not one value per column. *)
Definition write_frame (file_path : string) (columns : list string)
    (chunk_data : list row) : M pstate unit :=
  if negb (widest chunk_data =? length columns)%nat then
    raise (of_Z (Z.of_nat (length columns)) +:+ " columns passed, passed data had "
           +:+ of_Z (Z.of_nat (widest chunk_data)) +:+ " columns")
  else
    fun s =>
      match to_parquet E (clock (pworld s)) file_path columns chunk_data with
      | Ok _ => (Ok tt, on_world (fun w => advance (emit (EvWriteParquet file_path chunk_data) w)) s)
      | Raise e => (Raise e, on_world advance s)
      end.

Definition pq_write (temp_path schema table : string) (columns : list string)
    (st : pq_state) : M pstate pq_state :=
  let n := pq_chunk_num st + 1 in
  let file_path := path_join temp_path (chunk_name schema table n ".parquet") in
  let! _ := write_frame file_path columns (pq_chunk_data st) in
  ret {| pq_chunk_num := n; pq_chunk_data := [];
         pq_files := pq_files st ++ [file_path] |}.

Definition pq_step (temp_path schema table : string) (columns : list string)
    (chunk_size : Z) (st : pq_state) (r : row) : M pstate pq_state :=
  let st1 := {| pq_chunk_num := pq_chunk_num st; pq_chunk_data := pq_chunk_data st ++ [r];
                pq_files := pq_files st |} in
  if chunk_size <=? Z.of_nat (length (pq_chunk_data st1))
  then pq_write temp_path schema table columns st1 else ret st1.

(** [DataExtractor.extract_table_to_parquet], with the same [except]
    branch. *)
Definition extract_table_to_parquet (temp_path schema table : string)
    (columns : list string) (chunk_size : Z) : M pstate (list string) :=
  let! _ := perform (EvSelect schema table) in
  let '(rows, err) := cursor_rows E schema table in
  let! st := for_fold (pq_step temp_path schema table columns chunk_size) rows
               {| pq_chunk_num := 0; pq_chunk_data := []; pq_files := [] |} in
  match err with
  | Some e => raise e
  | None =>
      let! st' := match pq_chunk_data st with
                  | [] => ret st
                  | _ => pq_write temp_path schema table columns st
                  end in
      ret (pq_files st')
  end.

Definition DEFAULT_CHUNK_SIZE : Z := 100000.

(** [DataExtractor.extract_table]: both branches run with the default chunk
    size. *)
Definition extract_table (p : MigrationPreferences) (temp_path schema table : string)
    (columns : list string) : M pstate (list string) :=
  match format p with
  | CSV => extract_table_to_csv temp_path schema table columns DEFAULT_CHUNK_SIZE
  | PARQUET => extract_table_to_parquet temp_path schema table columns DEFAULT_CHUNK_SIZE
  end.

(** ** SnowflakeLoader *)

(** The dictionaries of [copy_into_table] and [load_table]. *)
Record load_result : Type := {
  lr_table : string;
  lr_file : string;
  lr_rows_loaded : Z;
  lr_duration_ms : Z;
  lr_status : string;
  lr_error : option string
}.

(** The body of [upload_file_to_stage]: the staged name is the basename. *)
Definition upload_attempt (file_path stage_name : string) : M pstate string :=
  let file_name := basename file_path in
  let! t := perform (EvPut file_path stage_name) in
  match put_result E t file_path with
  | Ok _ => ret file_name
  | Raise e => raise e
  end.

Definition upload_file_to_stage (file_path stage_name : string) : M pstate string :=
  retry 3 (upload_attempt file_path stage_name).

(** Rows loaded: the sum over the result lines whose status is LOADED. *)
Definition sum_loaded (results : list copy_row) : Z :=
  fold_left (fun acc r =>
               if String.eqb (cr_status r) "LOADED" then acc + cr_rows_loaded r else acc)
            results 0.

(** The body of [copy_into_table]: the [except] branch returns a failed
    result, so the body never raises. *)
Definition copy_attempt (schema table stage_name file_pattern file_format : string)
    (columns : list string) : M pstate load_result :=
  let full_table := schema +:+ "." +:+ table in
  let! t := perform (EvCopy full_table file_pattern) in
  match copy_result E t full_table file_pattern with
  | CopyOk results duration_ms =>
      ret {| lr_table := full_table; lr_file := file_pattern;
             lr_rows_loaded := sum_loaded results; lr_duration_ms := duration_ms;
             lr_status := "success"; lr_error := None |}
  | CopyErr e =>
      ret {| lr_table := full_table; lr_file := file_pattern;
             lr_rows_loaded := 0; lr_duration_ms := 0;
             lr_status := "failed"; lr_error := Some e |}
  end.

Definition copy_into_table (schema table stage_name file_pattern file_format : string)
    (columns : list string) : M pstate load_result :=
  retry 3 (copy_attempt schema table stage_name file_pattern file_format columns).

(** The named stage and file format of the Snowflake configuration. *)
Record SnowflakeConfig : Type := {
  sf_stage : string;
  sf_file_format : string
}.

(** One round of the upload loop of [load_table]: the staged name, or the
    record of a failed upload. *)
Definition upload_round (cfg : SnowflakeConfig) (schema table file_path : string)
    : M pstate (string + load_result) :=
  try_except
    (let! staged_file := upload_file_to_stage file_path (sf_stage cfg) in
     ret (inl staged_file))
    (fun e =>
       ret (inr {| lr_table := schema +:+ "." +:+ table; lr_file := basename file_path;
                   lr_rows_loaded := 0; lr_duration_ms := 0;
                   lr_status := "upload_failed"; lr_error := Some e |})).

(** One round of the COPY loop of [load_table]: nothing for a file already
    in [loaded_files], else the result of its COPY. *)
Definition copy_round (cfg : SnowflakeConfig) (schema table : string)
    (columns : list string) (staged_file : string) : M pstate (list load_result) :=
  let! s := get in
  if bool_decide (staged_file ∈ loaded_files s) then ret []
  else
    let! result := copy_into_table schema table (sf_stage cfg) staged_file
                     (sf_file_format cfg) columns in
    if String.eqb (lr_status result) "success"
    then let! _ := modify (add_loaded staged_file) in ret [result]
    else ret [result].

Definition lefts {A B} (l : list (A + B)) : list A :=
  flat_map (fun x => match x with inl a => [a] | inr _ => [] end) l.
Definition rights {A B} (l : list (A + B)) : list B :=
  flat_map (fun x => match x with inl _ => [] | inr b => [b] end) l.

(** [SnowflakeLoader.load_table]. *)
Definition load_table (cfg : SnowflakeConfig) (schema table : string)
    (file_paths columns : list string) : M pstate (list load_result) :=
  let! ups := for_each (upload_round cfg schema table) file_paths in
  let uploaded_files := lefts ups in
  let! copies := for_each (copy_round cfg schema table columns) uploaded_files in
  ret (rights ups ++ concat copies).

(** ** MigrationPipeline *)

(** The dictionary [migrate_table] returns; the keys a branch leaves out are
    [None]. *)
Record table_result : Type := {
  tr_schema : string;
  tr_table : string;
  tr_status : string;
  tr_rows_loaded : option Z;
  tr_file_count : option Z;
  tr_duration_ms : option Z;
  tr_load_results : list load_result;
  tr_error : option string
}.

Definition sum_Z (l : list Z) : Z := fold_left Z.add l 0.

Definition failed_result (schema table e : string) : table_result :=
  {| tr_schema := schema; tr_table := table; tr_status := "failed";
     tr_rows_loaded := None; tr_file_count := None; tr_duration_ms := None;
     tr_load_results := []; tr_error := Some e |}.

(** [MigrationPipeline.migrate_table]. *)
Definition migrate_table (p : MigrationPreferences) (cfg : SnowflakeConfig)
    (temp_path schema table : string) (columns : list string) : M pstate table_result :=
  let! start_time := now in
  try_except
    (let! file_paths := extract_table p temp_path schema table columns in
     let! load_results := load_table cfg schema table file_paths columns in
     let total_rows := sum_Z (map lr_rows_loaded load_results) in
     let! end_time := now in
     ret {| tr_schema := schema; tr_table := table; tr_status := "completed";
            tr_rows_loaded := Some total_rows;
            tr_file_count := Some (Z.of_nat (length file_paths));
            tr_duration_ms := Some (elapsed_ms E start_time end_time);
            tr_load_results := load_results; tr_error := None |})
    (fun e => ret (failed_result schema table e)).

(** [MigrationPipeline.migrate_schema], with the tables taken one after the
    other in the order of submission.  The connections are opened first; an
    error there leaves the method before any table is tried. *)
Definition migrate_schema (p : MigrationPreferences) (cfg : SnowflakeConfig)
    (temp_path schema : string) (tds : list table_detail) : M pstate (list table_result) :=
  let! t1 := now in
  match pg_connect E t1 with
  | Raise e => raise e
  | Ok _ =>
      match sf_connect E t1 with
      | Raise e => raise e
      | Ok _ =>
          for_each (fun td => migrate_table p cfg temp_path schema (table_name td)
                                (map column_name (columns td))) tds
      end
  end.

End WithEnv.
End Pipeline.

(* ===================================================================== *)
(** * backend/migrator.py and the cancel endpoint of backend/main.py *)
(* ===================================================================== *)

Module Orchestrator.
Import PyStr PyVal Eff Model World.

(** The parts of the request the orchestrator reads. *)
Record MigrationRequest : Type := {
  pg_password : string;
  access_token : string;
  sf_database : string;
  sf_config : Pipeline.SnowflakeConfig;
  preferences : MigrationPreferences;
  control : MigrationControl
}.

Record orchestrator : Type := {
  request : MigrationRequest;
  self_run_id : string;
  artifacts_dir : string;
  temp_dir : string;
  status : MigrationStatus;
  analysis_results : option analysis;
  migration_results : list Pipeline.table_result;
  validation_results : list validation_result;
  log_entries : list pydict
}.

(** The orchestrator in its world.  [history] is a ghost field: every value
    assigned to [self.status], oldest first. *)
Record sys : Type := {
  self : orchestrator;
  outside : world;
  history : list MigrationStatus
}.

Definition with_self (f : orchestrator -> orchestrator) (s : sys) : sys :=
  {| self := f (self s); outside := outside s; history := history s |}.

Definition with_world (f : world -> world) (s : sys) : sys :=
  {| self := self s; outside := f (outside s); history := history s |}.

Definition put_status (st : MigrationStatus) (o : orchestrator) : orchestrator :=
  {| request := request o; self_run_id := self_run_id o;
     artifacts_dir := artifacts_dir o; temp_dir := temp_dir o;
     status := st; analysis_results := analysis_results o;
     migration_results := migration_results o;
     validation_results := validation_results o; log_entries := log_entries o |}.

Definition put_analysis (a : analysis) (o : orchestrator) : orchestrator :=
  {| request := request o; self_run_id := self_run_id o;
     artifacts_dir := artifacts_dir o; temp_dir := temp_dir o;
     status := status o; analysis_results := Some a;
     migration_results := migration_results o;
     validation_results := validation_results o; log_entries := log_entries o |}.

Definition extend_migration (rs : list Pipeline.table_result) (o : orchestrator)
    : orchestrator :=
  {| request := request o; self_run_id := self_run_id o;
     artifacts_dir := artifacts_dir o; temp_dir := temp_dir o;
     status := status o; analysis_results := analysis_results o;
     migration_results := migration_results o ++ rs;
     validation_results := validation_results o; log_entries := log_entries o |}.

Definition extend_validation (rs : list validation_result) (o : orchestrator)
    : orchestrator :=
  {| request := request o; self_run_id := self_run_id o;
     artifacts_dir := artifacts_dir o; temp_dir := temp_dir o;
     status := status o; analysis_results := analysis_results o;
     migration_results := migration_results o;
     validation_results := validation_results o ++ rs; log_entries := log_entries o |}.

Definition append_log (e : pydict) (o : orchestrator) : orchestrator :=
  {| request := request o; self_run_id := self_run_id o;
     artifacts_dir := artifacts_dir o; temp_dir := temp_dir o;
     status := status o; analysis_results := analysis_results o;
     migration_results := migration_results o;
     validation_results := validation_results o; log_entries := log_entries o ++ [e] |}.

(** [self.status = st]. *)
Definition set_status (st : MigrationStatus) : M sys unit :=
  fun s =>
    (Ok tt, {| self := put_status st (self s); outside := outside s;
               history := history s ++ [st] |}).

(** The method of the structured logger that [getattr(logger, level.lower(),
    logger.info)] selects. *)
Definition log_method (level : string) : string :=
  let l := lower level in
  if Generator.in_strs l ["debug"; "info"; "warning"; "warn"; "error"; "critical";
                           "fatal"; "exception"]
  then l else "info".

Definition ARTIFACTS_PATH : string := "./artifacts".
Definition TEMP_PATH : string := "./temp".

Section WithEnv.
Context (E : env).

(** [MigrationOrchestrator.__init__]. *)
Definition new_orchestrator (req : MigrationRequest) : orchestrator :=
  let rid := if truthy_str (run_id (control req))
             then of_opt (run_id (control req)) else uuid4 E in
  {| request := req; self_run_id := rid;
     artifacts_dir := path_join ARTIFACTS_PATH rid;
     temp_dir := path_join TEMP_PATH rid;
     status := PENDING; analysis_results := None; migration_results := [];
     validation_results := []; log_entries := [] |}.

Definition start (req : MigrationRequest) : sys :=
  {| self := new_orchestrator req; outside := {| clock := 0; events := [] |};
     history := [PENDING] |}.

(** A line of the module's structured logger: the event goes through the
    processors of backend/logger.py, redaction included, and is printed. *)
Definition console (level message : string) (kwargs : pydict) : M sys unit :=
  fun s =>
    let ts := isoformat E (clock (outside s)) in
    let line := json_dumps (Logger.process_event "backend.migrator" level ts message kwargs) in
    (Ok tt, with_world (emit (EvConsole line)) s).

(** [MigrationOrchestrator.log]: the entry is kept as it is built, and the
    message is also handed to the structured logger. *)
Definition log (level category message : string) (kwargs : pydict) : M sys unit :=
  let! s := get in
  let entry :=
    dict_update
      [ ("ts", PStr (isoformat E (clock (outside s))));
        ("run_id", PStr (self_run_id (self s)));
        ("level", PStr level);
        ("category", PStr category);
        ("message", PStr message) ]
      kwargs in
  let! _ := modify (with_self (append_log entry)) in
  console (log_method level) message kwargs.

(** Writing a file of the artifact directory; [content] is [None] where the
    text is not modelled. *)
Definition write_artifact (name : string) (content : option string) : M sys unit :=
  fun s =>
    match write_result E (clock (outside s)) name with
    | Ok _ =>
        (Ok tt, with_world (fun w => advance (emit (EvArtifact name (of_opt content)) w)) s)
    | Raise e => (Raise e, with_world advance s)
    end.

Definition log_text (entries : list pydict) : string :=
  Generator.concat_strs (map (fun e => json_dumps e +:+ nl) entries).

(** [MigrationOrchestrator.save_log]: one [json.dumps] line per entry. *)
Definition save_log : M sys unit :=
  let! s := get in
  let! _ := write_artifact "run_log.ndjson" (Some (log_text (log_entries (self s)))) in
  console "info"
    ("Log saved to " +:+ path_join (artifacts_dir (self s)) "run_log.ndjson") [].

Definition count_tables (a : analysis) : Z :=
  Pipeline.sum_Z (map (fun sd => Z.of_nat (length (tables sd))) (schemas a)).

Definition call_analyzer : M sys analysis :=
  fun s =>
    match analyze_result E (clock (outside s)) with
    | Ok a => (Ok a, with_world advance s)
    | Raise e => (Raise e, with_world advance s)
    end.

(** Phase 1: [analyze]. *)
Definition analyze : M sys analysis :=
  let! _ := log "INFO" "analyze" "Starting PostgreSQL analysis" [] in
  let! _ := set_status ANALYZING in
  try_except
    (let! a := call_analyzer in
     let! _ := modify (with_self (put_analysis a)) in
     let! _ := write_artifact "analysis_report.json" None in
     let! _ := log "INFO" "analyze" "PostgreSQL analysis completed"
                 [ ("schemas", PInt (Z.of_nat (length (schemas a))));
                   ("total_tables", PInt (count_tables a)) ] in
     ret a)
    (fun e =>
       let! _ := log "ERROR" "analyze" ("Analysis failed: " +:+ e) [] in
       let! _ := set_status FAILED in
       raise e).

Definition PLAN_ARTIFACTS : list string :=
  [ "analysis_report.json"; "snowflake_objects.sql"; "mapping_decisions.yml";
    "improvement_recommendations.md"; "load_plan.yml"; "post_migration_checks.sql";
    "copy_commands.sql" ].

(** The DDL script of the plan: a fresh generator walks the analysis. *)
Definition planned_ddl (req : MigrationRequest) (a : analysis) : res string :=
  fst (Generator.generate_complete_ddl
         {| Generator.cfg_database := sf_database req;
            Generator.cfg_stage := Pipeline.sf_stage (sf_config req);
            Generator.cfg_file_format := Pipeline.sf_file_format (sf_config req) |}
         (Generator.new_generator a (preferences req))).

(** [_generate_load_plan]: the size of every table of the analysis is
    divided by [1024**3], which raises a [TypeError] on a size that is
    [None]. *)
Definition has_size (td : table_detail) : bool :=
  match total_size_bytes (table_meta td) with
  | Some _ => true
  | None => false
  end.

Definition _generate_load_plan (a : analysis) : res unit :=
  if forallb (fun sd => forallb has_size (tables sd)) (schemas a) then Ok tt
  else Raise "unsupported operand type(s) for /: 'NoneType' and 'int'".

(** The artifacts of the plan, written one after the other; the load plan is
    built before its file is opened. *)
Definition write_plan_artifacts : M sys (list string) :=
  let! s := get in
  match analysis_results (self s) with
  | None => raise "Analysis results not available. Run analyze() first."
  | Some a =>
      match planned_ddl (request (self s)) a with
      | Raise e => raise e
      | Ok ddl =>
          let! _ := write_artifact "snowflake_objects.sql" (Some ddl) in
          let! _ := write_artifact "mapping_decisions.yml" None in
          let! _ := write_artifact "improvement_recommendations.md" None in
          match _generate_load_plan a with
          | Raise e => raise e
          | Ok _ =>
              let! _ := write_artifact "load_plan.yml" None in
              let! _ := write_artifact "post_migration_checks.sql" None in
              let! _ := write_artifact "copy_commands.sql" None in
              let! _ := log "INFO" "plan" "Migration plan generated"
                          [("artifacts", PStrList PLAN_ARTIFACTS)] in
              ret PLAN_ARTIFACTS
          end
      end
  end.

(** Phase 2: [plan]. *)
Definition plan : M sys (list string) :=
  let! _ := log "INFO" "plan" "Generating migration plan" [] in
  let! _ := set_status PLANNING in
  try_except
    (let! artifacts := write_plan_artifacts in
     let! _ := set_status AWAITING_CONFIRMATION in
     ret artifacts)
    (fun e =>
       let! _ := log "ERROR" "plan" ("Planning failed: " +:+ e) [] in
       let! _ := set_status FAILED in
       raise e).

(** The DDL script as the plan left it in the artifact directory. *)
Fixpoint read_artifact (name : string) (evs : list event) : option string :=
  match evs with
  | [] => None
  | ev :: r =>
      match read_artifact name r with
      | Some c => Some c
      | None =>
          match ev with
          | EvArtifact n c => if String.eqb n name then Some c else None
          | _ => None
          end
      end
  end.

(** [_execute_ddl]. *)
Definition _execute_ddl : M sys unit :=
  let! _ := log "INFO" "ddl" "Executing Snowflake DDL" [] in
  try_except
    (let! s := get in
     match sf_connect E (clock (outside s)) with
     | Raise e => raise e
     | Ok _ =>
         match read_artifact "snowflake_objects.sql" (events (outside s)) with
         | None => raise "FileNotFoundError: snowflake_objects.sql"
         | Some ddl_script =>
             let! _ := modify (with_world (fun w => advance (emit (EvDDL ddl_script) w))) in
             match ddl_result E (clock (outside s)) with
             | Raise e => raise e
             | Ok _ => log "INFO" "ddl" "DDL execution completed" []
             end
         end
     end)
    (fun e =>
       let! _ := log "ERROR" "ddl" ("DDL execution failed: " +:+ e) [] in
       raise e).

(** A call on the pipeline of [execute], whose loader has loaded [loaded]
    so far. *)
Definition run_pipeline {A} (loaded : gset string) (m : M Pipeline.pstate A)
    : M sys (A * gset string) :=
  fun s =>
    let '(r, ps) := m {| Pipeline.loaded_files := loaded; Pipeline.pworld := outside s |} in
    let s' := with_world (fun _ => Pipeline.pworld ps) s in
    match r with
    | Ok a => (Ok (a, Pipeline.loaded_files ps), s')
    | Raise e => (Raise e, s')
    end.

(** The schema loop of [execute]. *)
Fixpoint migrate_schemas (loaded : gset string) (sds : list schema_detail) : M sys unit :=
  match sds with
  | [] => ret tt
  | sd :: rest =>
      let! s := get in
      let! _ := log "INFO" "execute" ("Migrating schema: " +:+ schema_name sd)
                  [("table_count", PInt (Z.of_nat (length (tables sd))))] in
      let! (schema_results, loaded') :=
        run_pipeline loaded
          (Pipeline.migrate_schema E (preferences (request (self s)))
             (sf_config (request (self s))) (temp_dir (self s))
             (schema_name sd) (tables sd)) in
      let! _ := modify (with_self (extend_migration schema_results)) in
      migrate_schemas loaded' rest
  end.

Definition has_status (st : string) (r : Pipeline.table_result) : bool :=
  String.eqb (Pipeline.tr_status r) st.

Definition count_status (st : string) (rs : list Pipeline.table_result) : Z :=
  Z.of_nat (length (List.filter (has_status st) rs)).

(** Phase 3: [execute]. *)
Definition execute : M sys (list Pipeline.table_result) :=
  let! s0 := get in
  if negb (confirm (control (request (self s0)))) then
    raise "Migration execution requires explicit confirmation (confirm=true)"
  else
    let! _ := log "INFO" "execute" "Starting migration execution" [] in
    let! _ := set_status EXECUTING in
    try_except
      (match analysis_results (self s0) with
       | None => raise "Analysis results not available. Run analyze() first."
       | Some a =>
           let! _ := _execute_ddl in
           let! _ := migrate_schemas ∅ (schemas a) in
           let! s := get in
           let! _ := log "INFO" "execute" "Migration execution completed"
                       [ ("total_tables",
                          PInt (Z.of_nat (length (migration_results (self s)))));
                         ("successful",
                          PInt (count_status "completed" (migration_results (self s)))) ] in
           ret (migration_results (self s))
       end)
      (fun e =>
         let! _ := log "ERROR" "execute" ("Execution failed: " +:+ e) [] in
         let! _ := set_status FAILED in
         raise e).

Definition migrated (rs : list Pipeline.table_result) (sname tname : string) : bool :=
  existsb (fun r => String.eqb (Pipeline.tr_schema r) sname
                    && String.eqb (Pipeline.tr_table r) tname
                    && has_status "completed" r) rs.

Definition validate_one (sname : string) (td : table_detail) : M sys unit :=
  let! s := get in
  if migrated (migration_results (self s)) sname (table_name td) then
    let! _ := modify (with_world advance) in
    modify (with_self (extend_validation
              (validate_table_result E (clock (outside s)) sname (table_name td))))
  else ret tt.

(** Phase 4: [validate]; its [except] branch returns. *)
Definition validate : M sys (list validation_result) :=
  let! _ := log "INFO" "validate" "Starting data validation" [] in
  let! _ := set_status VALIDATING in
  try_except
    (let! s := get in
     match pg_connect E (clock (outside s)), sf_connect E (clock (outside s)) with
     | Raise e, _ => raise e
     | Ok _, Raise e => raise e
     | Ok _, Ok _ =>
         match analysis_results (self s) with
         | None => raise "TypeError: 'NoneType' object is not subscriptable"
         | Some a =>
             let! _ := for_each (fun sd => for_each (validate_one (schema_name sd)) (tables sd))
                         (schemas a) in
             let! s' := get in
             let! _ := log "INFO" "validate" "Validation completed"
                         [ ("total_checks",
                            PInt (Z.of_nat (length (validation_results (self s')))));
                           ("passed",
                            PInt (Z.of_nat (length (List.filter
                                    (fun r => String.eqb (vr_status r) "PASS")
                                    (validation_results (self s')))))) ] in
             ret (validation_results (self s'))
         end
     end)
    (fun e =>
       let! _ := log "ERROR" "validate" ("Validation failed: " +:+ e) [] in
       let! s := get in
       ret (validation_results (self s))).

(** The summary report and the run log. *)
Definition write_report : M sys string :=
  let! s := get in
  match analysis_results (self s) with
  | None => raise "TypeError: 'NoneType' object is not subscriptable"
  | Some _ =>
      let! _ := write_artifact "summary.md" None in
      let! _ := save_log in
      ret (path_join (artifacts_dir (self s)) "summary.md")
  end.

(** The status [finalize] assigns. *)
Definition final_status (rs : list Pipeline.table_result) : MigrationStatus :=
  if count_status "failed" rs =? 0 then COMPLETED else FAILED.

(** Phase 5: [finalize]. *)
Definition finalize : M sys string :=
  let! _ := log "INFO" "finalize" "Generating final report" [] in
  try_except
    (let! summary_file := write_report in
     let! s := get in
     let! _ := set_status (final_status (migration_results (self s))) in
     let! s' := get in
     let! _ := log "INFO" "finalize" "Migration finalized"
                 [("status", PStr (status_value (status (self s'))))] in
     ret summary_file)
    (fun e =>
       let! _ := log "ERROR" "finalize" ("Finalization failed: " +:+ e) [] in
       raise e).

(** The dictionary [run_complete] returns. *)
Record run_report : Type := {
  rr_run_id : string;
  rr_status : string;
  rr_message : string;
  rr_total_tables : option Z;
  rr_successful : option Z;
  rr_failed : option Z;
  rr_total_rows : option Z
}.

(** [sum(r.get('rows_loaded', 0) for r in results)]. *)
Definition total_rows (rs : list Pipeline.table_result) : Z :=
  Pipeline.sum_Z (map (fun r => default 0 (Pipeline.tr_rows_loaded r)) rs).

(** [run_complete]. *)
Definition run_complete : M sys run_report :=
  try_except
    (let! _ := analyze in
     let! _ := plan in
     let! s := get in
     if dry_run (preferences (request (self s))) then
       let! _ := log "INFO" "migration" "Dry run completed - no execution" [] in
       let! _ := set_status COMPLETED in
       let! _ := finalize in
       let! s' := get in
       ret {| rr_run_id := self_run_id (self s');
              rr_status := status_value (status (self s'));
              rr_message :=
                "Dry run completed. Review artifacts and re-run with confirm=true to execute.";
              rr_total_tables := None; rr_successful := None; rr_failed := None;
              rr_total_rows := None |}
     else if confirm (control (request (self s))) then
       let! _ := execute in
       let! _ := validate in
       let! _ := finalize in
       let! s' := get in
       let rs := migration_results (self s') in
       ret {| rr_run_id := self_run_id (self s');
              rr_status := status_value (status (self s'));
              rr_message :=
                "Migration completed with status: " +:+ status_value (status (self s'));
              rr_total_tables := Some (Z.of_nat (length rs));
              rr_successful := Some (count_status "completed" rs);
              rr_failed := Some (count_status "failed" rs);
              rr_total_rows := Some (total_rows rs) |}
     else
       let! _ := log "INFO" "migration" "Awaiting confirmation to execute" [] in
       ret {| rr_run_id := self_run_id (self s);
              rr_status := status_value AWAITING_CONFIRMATION;
              rr_message :=
                "Plan generated. Review artifacts and re-run with confirm=true to execute migration.";
              rr_total_tables := None; rr_successful := None; rr_failed := None;
              rr_total_rows := None |})
    (fun e =>
       let! _ := set_status FAILED in
       let! _ := log "ERROR" "migration" ("Migration failed: " +:+ e) [] in
       let! _ := save_log in
       raise e).

(** [cancel_migration] of backend/main.py, for a run that is registered. *)
Definition cancel_migration : M sys unit :=
  let! _ := set_status CANCELLED in
  log "INFO" "control" "Migration cancelled by user" [].

(** The calls that reach an orchestrator: its phases, the whole workflow,
    and the cancel request. *)
Inductive op : Type :=
| OpAnalyze | OpPlan | OpExecute | OpValidate | OpFinalize | OpRunComplete | OpCancel.

(** The state a call leaves, whether it returns or raises. *)
Definition apply_op (o : op) (s : sys) : sys :=
  match o with
  | OpAnalyze => snd (analyze s)
  | OpPlan => snd (plan s)
  | OpExecute => snd (execute s)
  | OpValidate => snd (validate s)
  | OpFinalize => snd (finalize s)
  | OpRunComplete => snd (run_complete s)
  | OpCancel => snd (cancel_migration s)
  end.

Definition apply_ops (ops : list op) (s : sys) : sys := fold_left (fun s o => apply_op o s) ops s.

End WithEnv.
End Orchestrator.

(* ===================================================================== *)
(** * Specification vocabulary *)
(* ===================================================================== *)

(** The notions the statements below are phrased with.  Nothing here is
    part of the program. *)
Module Spec.
Import PyStr Eff Model World.

(** The character types of the type mapper's third rule. *)
Definition is_char_type (pg_type : string) : bool :=
  Generator.in_strs (lower pg_type) ["character varying"; "varchar"; "character"; "char"].

(** The ceiling of a Snowflake VARCHAR. *)
Definition VARCHAR_CEILING : Z := 16777216.

(** The large-varchar flag as the specification words it: raised exactly
    when the declared length exceeds the ceiling. *)
Definition flag_follows_ceiling (col : column) : Prop :=
  Analyzer.is_large_varchar col = true <->
  exists n, character_maximum_length col = Some n /\ VARCHAR_CEILING < n.

(** A character column declared with sixteen and a half million characters. *)
Definition wide_text_column : column :=
  {| column_name := "body"; data_type := "character varying"; udt_name := Some "varchar";
     character_maximum_length := Some 16500000;
     numeric_precision := None; numeric_scale := None;
     is_nullable := "YES"; column_default := None; is_identity := "NO";
     identity_start := None; identity_increment := None; serial_sequence := None;
     column_comment := None |}.

(** The entries [_assess_compatibility] is expected to put in
    [large_varchars]: one per flagged column, in the order of the walk. *)
Definition flagged_columns (sds : list schema_detail) : list string :=
  flat_map (fun sd =>
    flat_map (fun td =>
      map (fun col => Analyzer.qualified (schema_name sd) (table_name td) (column_name col))
          (List.filter Analyzer.is_large_varchar (columns td)))
      (tables sd)) sds.

(** A column named ORDER, as in the reserved-identifier scenario. *)
Definition order_column : column :=
  {| column_name := "ORDER"; data_type := "integer"; udt_name := Some "int4";
     character_maximum_length := None;
     numeric_precision := Some 32; numeric_scale := Some 0;
     is_nullable := "NO"; column_default := None; is_identity := "NO";
     identity_start := None; identity_increment := None; serial_sequence := None;
     column_comment := None |}.

#[global] Instance MappingDecision_eq_dec : EqDecision Generator.MappingDecision.
Proof. solve_decision. Defined.

(** The generator after a walk that added the decisions [W] and the
    recommendations [R]. *)
Definition grown (g : Generator.SnowflakeGenerator) (W : list Generator.MappingDecision)
    (R : list Generator.recommendation) : Generator.SnowflakeGenerator :=
  {| Generator.gen_analysis := Generator.gen_analysis g;
     Generator.gen_preferences := Generator.gen_preferences g;
     Generator.mapping_decisions := Generator.mapping_decisions g ++ W;
     Generator.ddl_statements := Generator.ddl_statements g;
     Generator.improvement_recommendations := Generator.improvement_recommendations g ++ R |}.

(** A method of the generator is steady when, on every generator over the
    analysis [a] and the preferences [p], it returns the same result and
    appends the same decisions and recommendations. *)
Definition steady {A} (a : analysis) (p : MigrationPreferences)
    (m : M Generator.SnowflakeGenerator A) : Prop :=
  exists r W R, forall g,
    Generator.gen_analysis g = a -> Generator.gen_preferences g = p ->
    m g = (r, grown g W R).

(** The number of chunks of [n] rows taken [c] at a time. *)
Definition ceil_div (n c : Z) : Z := (n + c - 1) / c.

(** The path of the CSV chunk with index [i]. *)
Definition chunk_path (temp_path schema table : string) (i : Z) : string :=
  path_join temp_path (Pipeline.chunk_name schema table i ".csv.gz").

(** A cursor that yields [n] rows of one NULL and then ends. *)
Definition rows_env (n : Z) : env :=
  {| cursor_rows := fun _ _ => (repeat [VNone] (Z.to_nat n), None);
     gzip_write := fun _ _ _ => Ok tt;
     to_parquet := fun _ _ _ _ => Ok tt;
     put_result := fun _ _ => Ok tt;
     copy_result := fun _ _ _ => CopyOk [] 0;
     pg_connect := fun _ => Ok tt; sf_connect := fun _ => Ok tt;
     ddl_result := fun _ => Ok tt; write_result := fun _ _ => Ok tt;
     isoformat := fun _ => ""; elapsed_ms := fun _ _ => 0;
     analyze_result := fun _ => Raise "no analysis";
     validate_table_result := fun _ _ _ => [];
     uuid4 := "" |}.

(** A loader that has loaded nothing, in a world where nothing happened. *)
Definition fresh_pipeline : Pipeline.pstate :=
  {| Pipeline.loaded_files := ∅;
     Pipeline.pworld := {| clock := 0; events := [] |} |}.

(** The results a call of [load_table] returned. *)
Definition results_of (out : res (list Pipeline.load_result) * Pipeline.pstate)
    : list Pipeline.load_result :=
  match fst out with
  | Ok l => l
  | Raise _ => []
  end.

Definition is_success_for (f : string) (r : Pipeline.load_result) : bool :=
  String.eqb (Pipeline.lr_file r) f && String.eqb (Pipeline.lr_status r) "success".

(** The number of success records for the staged file [f]. *)
Definition successes (f : string) (rs : list Pipeline.load_result) : nat :=
  length (List.filter (is_success_for f) rs).

Definition is_copy_of (f : string) (e : event) : bool :=
  match e with
  | EvCopy _ g => String.eqb g f
  | _ => false
  end.

(** The number of COPY INTO statements issued for the staged file [f]. *)
Definition copies_of (f : string) (s : Pipeline.pstate) : nat :=
  length (List.filter (is_copy_of f) (events (Pipeline.pworld s))).

(** One when [f] is in [loaded_files], zero when it is not. *)
Definition loaded_ind (f : string) (s : Pipeline.pstate) : nat :=
  if bool_decide (f ∈ Pipeline.loaded_files s) then 1%nat else 0%nat.

(** What the COPY path keeps true from a state [s] to a later state [s'],
    having recorded [out]: a success is recorded for [f] exactly when [f]
    enters [loaded_files], and no COPY is issued for a file that was already
    in the set. *)
Definition copy_rel (s : Pipeline.pstate) (out : list Pipeline.load_result)
    (s' : Pipeline.pstate) : Prop :=
  (forall f, (successes f out + loaded_ind f s)%nat = loaded_ind f s') /\
  (forall f, f ∈ Pipeline.loaded_files s -> copies_of f s' = copies_of f s).

(** What an upload leaves alone: the loaded set and the COPY events. *)
Definition upload_rel (s s' : Pipeline.pstate) : Prop :=
  Pipeline.loaded_files s' = Pipeline.loaded_files s /\
  forall f, copies_of f s' = copies_of f s.

(** Three rows, a PUT that works, and a COPY INTO that answers [copy]. *)
Definition loader_env (copy : copy_outcome) : env :=
  {| cursor_rows := fun _ _ => ([[VOther "1"]; [VOther "2"]; [VOther "3"]], None);
     gzip_write := fun _ _ _ => Ok tt;
     to_parquet := fun _ _ _ _ => Ok tt;
     put_result := fun _ _ => Ok tt;
     copy_result := fun _ _ _ => copy;
     pg_connect := fun _ => Ok tt; sf_connect := fun _ => Ok tt;
     ddl_result := fun _ => Ok tt; write_result := fun _ _ => Ok tt;
     isoformat := fun _ => ""; elapsed_ms := fun _ _ => 0;
     analyze_result := fun _ => Raise "no analysis";
     validate_table_result := fun _ _ _ => [];
     uuid4 := "" |}.

Definition three_rows_loaded : copy_outcome :=
  CopyOk [ {| cr_status := "LOADED"; cr_rows_loaded := 3 |} ] 40.

Definition stage_config : Pipeline.SnowflakeConfig :=
  {| Pipeline.sf_stage := "MIGRATION_STAGE"; Pipeline.sf_file_format := "CSV_FORMAT" |}.

(** A healthy source and target: the analysis [a] is found, every file is
    written, every statement works, and a COPY answers [copy]. *)
Definition healthy_env (a : analysis) (copy : copy_outcome) : env :=
  {| cursor_rows := fun _ _ => ([[VOther "1"]; [VOther "2"]; [VOther "3"]], None);
     gzip_write := fun _ _ _ => Ok tt;
     to_parquet := fun _ _ _ _ => Ok tt;
     put_result := fun _ _ => Ok tt;
     copy_result := fun _ _ _ => copy;
     pg_connect := fun _ => Ok tt; sf_connect := fun _ => Ok tt;
     ddl_result := fun _ => Ok tt; write_result := fun _ _ => Ok tt;
     isoformat := fun _ => "2024-05-01T10:00:00"; elapsed_ms := fun _ _ => 0;
     analyze_result := fun _ => Ok a;
     validate_table_result := fun _ _ _ => [];
     uuid4 := "run-1" |}.

(** A source that cannot be reached, with an error text that repeats the
    connection string. *)
Definition unreachable_env : env :=
  {| cursor_rows := fun _ _ => ([], None);
     gzip_write := fun _ _ _ => Ok tt;
     to_parquet := fun _ _ _ _ => Ok tt;
     put_result := fun _ _ => Ok tt;
     copy_result := fun _ _ _ => CopyOk [] 0;
     pg_connect := fun _ => Ok tt; sf_connect := fun _ => Ok tt;
     ddl_result := fun _ => Ok tt; write_result := fun _ _ => Ok tt;
     isoformat := fun _ => "2024-05-01T10:00:00"; elapsed_ms := fun _ _ => 0;
     analyze_result := fun _ =>
       Raise "connection to server failed: host=db user=app password=hunter2 token=tok123";
     validate_table_result := fun _ _ _ => [];
     uuid4 := "run-1" |}.

(** One schema with one table of one column. *)
Definition small_analysis : analysis :=
  {| analysis_timestamp := "2024-05-01T09:59:00"; database := "shop";
     schemas :=
       [ {| schema_name := "s";
            tables :=
              [ {| table_name := "t";
                   table_meta := {| total_size_bytes := Some 8192;
                                    approximate_row_count := Some 3;
                                    table_comment := None |};
                   columns := [order_column];
                   table_constraints := {| primary_keys := []; unique_keys := [];
                                           foreign_keys := [] |};
                   triggers := [] |} ];
            sequences := []; views := []; functions := [] |} ] |}.

Definition request_with (dry conf : bool) : Orchestrator.MigrationRequest :=
  {| Orchestrator.pg_password := "hunter2";
     Orchestrator.access_token := "tok123";
     Orchestrator.sf_database := "TARGET";
     Orchestrator.sf_config := stage_config;
     Orchestrator.preferences :=
       {| format := CSV; max_chunk_mb := 200; parallelism := 4;
          use_identity_for_serial := true; cluster_key_hints := ∅;
          case_style := UPPER; dry_run := dry |};
     Orchestrator.control := {| run_id := None; confirm := conf |} |}.

(** The lines the structured logger printed. *)
Definition console_lines (evs : list event) : list string :=
  flat_map (fun e => match e with EvConsole l => [l] | _ => [] end) evs.

(** The run log as the last [save_log] left it. *)
Definition run_log (s : Orchestrator.sys) : option string :=
  Orchestrator.read_artifact "run_log.ndjson" (events (Orchestrator.outside s)).

(** The order of the phases; the three terminal states share the top. *)
Definition rank (st : MigrationStatus) : nat :=
  match st with
  | PENDING => 0
  | ANALYZING => 1
  | PLANNING => 2
  | AWAITING_CONFIRMATION => 3
  | EXECUTING => 4
  | VALIDATING => 5
  | COMPLETED | FAILED | CANCELLED => 6
  end.

Definition terminal (st : MigrationStatus) : bool :=
  match st with
  | COMPLETED | FAILED | CANCELLED => true
  | _ => false
  end.

(** Terminal states are absorbing for a run: once the status is terminal, no
    later call changes it. *)
Definition absorbing (E : env) (s : Orchestrator.sys) : Prop :=
  forall (ops : list Orchestrator.op) (o : Orchestrator.op),
    terminal (Orchestrator.status (Orchestrator.self (Orchestrator.apply_ops E ops s))) = true ->
    Orchestrator.status (Orchestrator.self (Orchestrator.apply_ops E (ops ++ [o]) s))
    = Orchestrator.status (Orchestrator.self (Orchestrator.apply_ops E ops s)).

(** Events of analysis and planning: files of the artifact directory and
    log lines.  Everything else touches Snowflake or the scratch space. *)
Definition planning_event (e : event) : bool :=
  match e with
  | EvArtifact _ _ | EvConsole _ => true
  | _ => false
  end.

(** From [s] to [s'] only log entries, artifacts and log lines were added
    and time passed. *)
Definition log_like (s s' : Orchestrator.sys) : Prop :=
  Orchestrator.request (Orchestrator.self s') = Orchestrator.request (Orchestrator.self s) /\
  Orchestrator.self_run_id (Orchestrator.self s') = Orchestrator.self_run_id (Orchestrator.self s) /\
  Orchestrator.artifacts_dir (Orchestrator.self s') = Orchestrator.artifacts_dir (Orchestrator.self s) /\
  Orchestrator.status (Orchestrator.self s') = Orchestrator.status (Orchestrator.self s) /\
  Orchestrator.analysis_results (Orchestrator.self s')
    = Orchestrator.analysis_results (Orchestrator.self s) /\
  Orchestrator.migration_results (Orchestrator.self s')
    = Orchestrator.migration_results (Orchestrator.self s) /\
  Orchestrator.history s' = Orchestrator.history s /\
  exists d, events (Orchestrator.outside s') = events (Orchestrator.outside s) ++ d /\
            forallb planning_event d = true.

(** The status and its history did not move. *)
Definition same_status (s s' : Orchestrator.sys) : Prop :=
  Orchestrator.history s' = Orchestrator.history s /\
  Orchestrator.status (Orchestrator.self s') = Orchestrator.status (Orchestrator.self s).

(** Nothing was executed: same request, same migration results, and only
    planning events. *)
Definition harmless (s s' : Orchestrator.sys) : Prop :=
  Orchestrator.request (Orchestrator.self s') = Orchestrator.request (Orchestrator.self s) /\
  Orchestrator.migration_results (Orchestrator.self s')
    = Orchestrator.migration_results (Orchestrator.self s) /\
  exists d, events (Orchestrator.outside s') = events (Orchestrator.outside s) ++ d /\
            forallb planning_event d = true.

(** The plan stands: same request, same analysis, same migration results. *)
Definition same_plan (s s' : Orchestrator.sys) : Prop :=
  Orchestrator.request (Orchestrator.self s') = Orchestrator.request (Orchestrator.self s) /\
  Orchestrator.analysis_results (Orchestrator.self s')
    = Orchestrator.analysis_results (Orchestrator.self s) /\
  Orchestrator.migration_results (Orchestrator.self s')
    = Orchestrator.migration_results (Orchestrator.self s).

(** From [s] to [s'] the status took the values [d], in this order. *)
Definition moved (d : list MigrationStatus) (s s' : Orchestrator.sys) : Prop :=
  Orchestrator.history s' = Orchestrator.history s ++ d /\
  Orchestrator.status (Orchestrator.self s')
    = List.last d (Orchestrator.status (Orchestrator.self s)).

(** The status never steps down in rank along a history. *)
Definition climbs (h : list MigrationStatus) : Prop :=
  StronglySorted (fun a b => (rank a <= rank b)%nat) h.

(** A computation lands on [d_ok] when it returns and on [d_raise] when it
    raises: the values the status takes on the way. *)
Definition lands {A} (d_ok d_raise : list MigrationStatus) (m : M Orchestrator.sys A)
    : Prop :=
  forall s,
    match m s with
    | (Ok _, s') => moved d_ok s s'
    | (Raise _, s') => moved d_raise s s'
    end.

(** The values the status can take during [run_complete], after PENDING,
    by the two flags of the request. *)
Definition run_paths (dry conf : bool) : list (list MigrationStatus) :=
  [ [ANALYZING; FAILED; FAILED];
    [ANALYZING; PLANNING; FAILED; FAILED] ] ++
  if dry then
    [ [ANALYZING; PLANNING; AWAITING_CONFIRMATION; COMPLETED; COMPLETED];
      [ANALYZING; PLANNING; AWAITING_CONFIRMATION; COMPLETED; FAILED] ]
  else if conf then
    [ [ANALYZING; PLANNING; AWAITING_CONFIRMATION; EXECUTING; FAILED; FAILED];
      [ANALYZING; PLANNING; AWAITING_CONFIRMATION; EXECUTING; VALIDATING; COMPLETED];
      [ANALYZING; PLANNING; AWAITING_CONFIRMATION; EXECUTING; VALIDATING; FAILED] ]
  else
    [ [ANALYZING; PLANNING; AWAITING_CONFIRMATION] ].

#[global] Instance MigrationStatus_eq_dec : EqDecision MigrationStatus.
Proof. solve_decision. Defined.

(** Somewhere in the history the status [a] is immediately followed by the
    status [b]. *)
Fixpoint steps_directly (a b : MigrationStatus) (h : list MigrationStatus) : bool :=
  match h with
  | x :: ((y :: _) as rest) =>
      (bool_decide (x = a) && bool_decide (y = b)) || steps_directly a b rest
  | _ => false
  end.

(** The dry-run flow as the specification draws it: the status goes from
    PLANNING straight to COMPLETED. *)
Definition dry_run_flow_is_direct (E : env) (req : Orchestrator.MigrationRequest) : Prop :=
  dry_run (Orchestrator.preferences req) = true ->
  steps_directly PLANNING COMPLETED
    (Orchestrator.history
       (snd (Orchestrator.run_complete E (Orchestrator.start E req)))) = true.

(** A computation succeeds when it returns from every state. *)
Definition succeeds {A} (m : M Orchestrator.sys A) : Prop :=
  forall s, exists x s', m s = (Ok x, s').

(** A computation keeps a relation when the state it leaves, returning or
    raising, is related to the state it started from. *)
Definition keeps {A} (R : Orchestrator.sys -> Orchestrator.sys -> Prop)
    (m : M Orchestrator.sys A) : Prop :=
  forall s, R s (snd (m s)).

(** The environment lets a plan succeed: the analysis [a] is always found
    and every artifact can be written. *)
Definition cooperative (E : env) (a : analysis) : Prop :=
  (forall t, analyze_result E t = Ok a) /\ (forall t name, write_result E t name = Ok tt).

End Spec.

(* ===================================================================== *)
(** * More of Python's strings and lists *)
(* ===================================================================== *)

(** What the functions below need besides [PyStr]: [strip], the truth value
    of a string, slices with a negative bound, and the stable sort of
    [list.sort]. *)
Module PyText.
Import PyStr.

(** [s.lstrip()]: the blanks are the characters [\s] of the ASCII range. *)
Definition lstrip (s : string) : string := Logger.skip_while Logger.is_space s.

(** [s.rstrip()]. *)
Fixpoint rstrip (s : string) : string :=
  match s with
  | EmptyString => EmptyString
  | String c r =>
      match rstrip r with
      | EmptyString => if Logger.is_space c then EmptyString else String c EmptyString
      | String d r' => String c (String d r')
      end
  end.

(** [s.strip()]. *)
Definition strip (s : string) : string := rstrip (lstrip s).

(** The truth value of a string: [if s:]. *)
Definition truthy (s : string) : bool :=
  match s with
  | EmptyString => false
  | String _ _ => true
  end.


(** [l[:b]] for [b >= 0]. *)
Definition slice_to {A} (b : nat) (l : list A) : list A := firstn b l.

(** One step of a stable sort in descending order of [key]: [x], which
    stood before every element of [l], goes before the first element whose
    key is not greater than its own. *)
Fixpoint insert_desc {A} (key : A -> Z) (x : A) (l : list A) : list A :=
  match l with
  | [] => [x]
  | y :: r => if key y <=? key x then x :: y :: r else y :: insert_desc key x r
  end.

(** [l.sort(key=key, reverse=True)]: descending, equal keys in their
    original order. *)
Definition sort_desc {A} (key : A -> Z) (l : list A) : list A :=
  fold_right (insert_desc key) [] l.

(** The number of occurrences of a character. *)
Fixpoint count_char (c : ascii) (s : string) : nat :=
  match s with
  | EmptyString => O
  | String d r => ((if Ascii.eqb d c then 1 else 0) + count_char c r)%nat
  end.

End PyText.

(* ===================================================================== *)
(** * backend/data_pipeline.py: [SnowflakeLoader.execute_ddl_script] *)
(* ===================================================================== *)

Module Script.
Import PyStr PyText Eff.

(** The statements of a script: the pieces between semicolons, stripped,
    the blank ones left out. *)
Definition statements (script : string) : list string :=
  map strip (List.filter (fun s => truthy (strip s)) (split ";" script)).

(** One round of the loop: the statement goes to the cursor, which answers
    by what was executed before; an error is raised again.  The state is the
    list of the statements sent so far. *)
Definition execute_statement (answer : list string -> string -> res unit)
    (statement : string) : M (list string) unit :=
  if truthy statement then
    fun sent =>
      match answer sent statement with
      | Ok _ => (Ok tt, sent ++ [statement])
      | Raise e => (Raise e, sent ++ [statement])
      end
  else ret tt.

(** [execute_ddl_script]. *)
Definition execute_ddl_script (answer : list string -> string -> res unit)
    (script : string) : M (list string) unit :=
  let! _ := for_each (execute_statement answer) (statements script) in
  ret tt.

End Script.

(* ===================================================================== *)
(** * backend/postgres_analyzer.py: [calculate_volumetrics] *)
(* ===================================================================== *)

Module Catalog.
Import PyStr PyText Model.

(** A row of the table query of [get_tables]. *)
Record table_row : Type := {
  t_table_name : string;
  t_table_type : string;
  t_total_size_bytes : option Z;
  t_approximate_row_count : option Z
}.

(** An entry of [largest_tables]. *)
Record sized_table : Type := {
  st_schema : string;
  st_table : string;
  st_size_bytes : Z;
  st_rows : option Z
}.

(** The result of [calculate_volumetrics].  The source also stores the size
    in GiB rounded to two decimals, a float computed from
    [total_size_bytes]. *)
Record volumetrics : Type := {
  total_size_bytes : Z;
  total_tables : Z;
  approximate_total_rows : Z;
  largest_tables : list sized_table
}.

(** The accumulators of the loops of [calculate_volumetrics]. *)
Record vol_state : Type := {
  vs_total_size : Z;
  vs_total_tables : Z;
  vs_total_rows : Z;
  vs_largest : list sized_table
}.

(** The body of the table loop: a table without a size, or of size 0, is
    passed over. *)
Definition vol_table (schema_name : string) (st : vol_state) (t : table_row) : vol_state :=
  match t_total_size_bytes t with
  | Some size =>
      if negb (size =? 0) then
        {| vs_total_size := vs_total_size st + size;
           vs_total_tables := vs_total_tables st + 1;
           vs_total_rows :=
             (if truthy_int (t_approximate_row_count t)
              then vs_total_rows st + default 0 (t_approximate_row_count t)
              else vs_total_rows st);
           vs_largest := vs_largest st ++
             [ {| st_schema := schema_name; st_table := t_table_name t;
                  st_size_bytes := size; st_rows := t_approximate_row_count t |} ] |}
      else st
  | None => st
  end.

(** [calculate_volumetrics]: [get_tables] is asked once per schema. *)
Definition calculate_volumetrics (get_tables : string -> list table_row)
    (schemas : list string) : volumetrics :=
  let st :=
    fold_left (fun st schema_name => fold_left (vol_table schema_name) (get_tables schema_name) st)
              schemas
              {| vs_total_size := 0; vs_total_tables := 0; vs_total_rows := 0;
                 vs_largest := [] |} in
  {| total_size_bytes := vs_total_size st;
     total_tables := vs_total_tables st;
     approximate_total_rows := vs_total_rows st;
     largest_tables := slice_to 20 (sort_desc st_size_bytes (vs_largest st)) |}.

End Catalog.

(* ===================================================================== *)
(** * backend/validation.py: [DataValidator] *)
(* ===================================================================== *)

Module Validator.
Import PyStr PyVal PyText Eff Model.

(** What the two databases answer to the queries of the validator. *)
Record databases : Type := {
  pg_row_count : string -> string -> res Z;
  sf_row_count : string -> string -> res Z;
  (** the NULL count of a column *)
  sf_null_count : string -> string -> string -> res Z;
  (** the duplicated key combinations, ten at most, each with its count *)
  sf_pk_duplicates : string -> string -> list string -> res (list (list pyval));
  (** the number of values of a column that do not parse as JSON *)
  sf_invalid_json : string -> string -> string -> res Z
}.

(** The keys a check adds to the common ones. *)
Inductive detail : Type :=
| NoDetail
| RowCounts (postgres_value snowflake_value : Z) (matches : bool)
| Violations (violations : list (string * Z))
| Duplicates (duplicate_count : Z) (sample_duplicates : list pydict)
| InvalidCounts (invalid_counts : list (string * Z)).

Record check : Type := {
  ck_schema : string;
  ck_table : string;
  ck_check : string;
  ck_status : string;
  ck_message : string;
  ck_detail : detail
}.

Section WithDatabases.
Context (D : databases).

(** One round of [validate_row_counts]. *)
Definition validate_row_count (schema table : string) : check :=
  match pg_row_count D schema table with
  | Raise e =>
      {| ck_schema := schema; ck_table := table; ck_check := "row_count";
         ck_status := "ERROR"; ck_message := e; ck_detail := NoDetail |}
  | Ok pg_count =>
      match sf_row_count D schema table with
      | Raise e =>
          {| ck_schema := schema; ck_table := table; ck_check := "row_count";
             ck_status := "ERROR"; ck_message := e; ck_detail := NoDetail |}
      | Ok sf_count =>
          let matches := pg_count =? sf_count in
          {| ck_schema := schema; ck_table := table; ck_check := "row_count";
             ck_status := if matches then "PASS" else "FAIL";
             ck_message :=
               if matches then "Row counts match (" +:+ of_Z pg_count +:+ ")"
               else "Row count mismatch: PG=" +:+ of_Z pg_count +:+ ", SF=" +:+ of_Z sf_count;
             ck_detail := RowCounts pg_count sf_count matches |}
      end
  end.

Definition validate_row_counts (schema : string) (tables : list string) : list check :=
  map (validate_row_count schema) tables.

(** The violations [check_null_constraints] collects: a column whose query
    fails adds nothing. *)
Definition null_violations (schema table : string) (not_null_columns : list string)
    : list (string * Z) :=
  flat_map (fun column =>
              match sf_null_count D schema table column with
              | Ok null_count => if 0 <? null_count then [(column, null_count)] else []
              | Raise _ => []
              end) not_null_columns.

Definition check_null_constraints (schema table : string) (not_null_columns : list string)
    : check :=
  let violations := null_violations schema table not_null_columns in
  {| ck_schema := schema; ck_table := table; ck_check := "not_null_constraints";
     ck_status := match violations with [] => "PASS" | _ => "FAIL" end;
     ck_message :=
       match violations with
       | [] => "All NOT NULL constraints satisfied"
       | _ => of_Z (Z.of_nat (length violations)) +:+ " columns have NULL violations"
       end;
     ck_detail := Violations violations |}.

(** [dict(zip(keys, values))]. *)
Definition dict_zip (keys : list string) (values : list pyval) : pydict :=
  fold_left (fun d kv => dict_set (fst kv) (snd kv) d) (combine keys values) [].

Definition check_primary_key_duplicates (schema table : string) (pk_columns : list string)
    : check :=
  match pk_columns with
  | [] =>
      {| ck_schema := schema; ck_table := table; ck_check := "primary_key_duplicates";
         ck_status := "SKIP"; ck_message := "No primary key defined";
         ck_detail := NoDetail |}
  | _ =>
      match sf_pk_duplicates D schema table pk_columns with
      | Raise e =>
          {| ck_schema := schema; ck_table := table; ck_check := "primary_key_duplicates";
             ck_status := "ERROR"; ck_message := e; ck_detail := NoDetail |}
      | Ok [] =>
          {| ck_schema := schema; ck_table := table; ck_check := "primary_key_duplicates";
             ck_status := "PASS"; ck_message := "No duplicate primary keys found";
             ck_detail := NoDetail |}
      | Ok duplicates =>
          {| ck_schema := schema; ck_table := table; ck_check := "primary_key_duplicates";
             ck_status := "FAIL";
             ck_message :=
               "Found " +:+ of_Z (Z.of_nat (length duplicates)) +:+
               " duplicate primary key combinations (showing first 10)";
             ck_detail :=
               Duplicates (Z.of_nat (length duplicates))
                 (map (dict_zip (pk_columns ++ ["count"])) duplicates) |}
      end
  end.

(** [invalid_counts[column] = invalid_count] on an insertion-ordered dict. *)
Fixpoint count_set (k : string) (v : Z) (d : list (string * Z)) : list (string * Z) :=
  match d with
  | [] => [(k, v)]
  | (k', v') :: r =>
      if String.eqb k' k then (k', v) :: r else (k', v') :: count_set k v r
  end.

(** The counts [check_json_validity] collects: a column whose query fails
    adds nothing. *)
Definition invalid_json_counts (schema table : string) (json_columns : list string)
    : list (string * Z) :=
  fold_left (fun d column =>
               match sf_invalid_json D schema table column with
               | Ok invalid_count => if 0 <? invalid_count then count_set column invalid_count d else d
               | Raise _ => d
               end) json_columns [].

Definition check_json_validity (schema table : string) (json_columns : list string)
    : check :=
  match json_columns with
  | [] =>
      {| ck_schema := schema; ck_table := table; ck_check := "json_validity";
         ck_status := "SKIP"; ck_message := "No JSON columns"; ck_detail := NoDetail |}
  | _ =>
      let invalid_counts := invalid_json_counts schema table json_columns in
      {| ck_schema := schema; ck_table := table; ck_check := "json_validity";
         ck_status := match invalid_counts with [] => "PASS" | _ => "FAIL" end;
         ck_message :=
           match invalid_counts with
           | [] => "All JSON values are valid"
           | _ => of_Z (Pipeline.sum_Z (map snd invalid_counts)) +:+
                  " invalid JSON values found"
           end;
         ck_detail := InvalidCounts invalid_counts |}
  end.

Definition not_null_columns (td : table_detail) : list string :=
  map column_name (List.filter (fun col => String.eqb (is_nullable col) "NO") (columns td)).

Definition pk_columns (td : table_detail) : list string :=
  match primary_keys (table_constraints td) with
  | pk :: _ => key_columns pk
  | [] => []
  end.

Definition json_columns (td : table_detail) : list string :=
  map column_name
      (List.filter (fun col => Generator.in_strs (data_type col) ["json"; "jsonb"]
                               || contains "json" (lower (data_type col)))
                   (columns td)).

(** [validate_table]: the four checks, in this order. *)
Definition validate_table (schema table : string) (td : table_detail) : list check :=
  match validate_row_counts schema [table] with
  | first :: _ =>
      [ first;
        check_null_constraints schema table (not_null_columns td);
        check_primary_key_duplicates schema table (pk_columns td);
        check_json_validity schema table (json_columns td) ]
  | [] => []
  end.

End WithDatabases.
End Validator.

(* ===================================================================== *)
(** * backend/main.py: the registry of runs and its endpoints *)
(* ===================================================================== *)

Module Api.
Import PyStr PyVal PyText Eff Model World Orchestrator.

(** What an endpoint answers: a body, an [HTTPException], or the answer of
    the general exception handler to an error nobody caught (status 500,
    with the text of the error as detail). *)
Inductive http (A : Type) : Type :=
| Response (body : A)
| HTTPException (status_code : Z) (detail : string)
| Unhandled (detail : string).
Arguments Response {A} body.
Arguments HTTPException {A} status_code detail.
Arguments Unhandled {A} detail.

(** The file system as the endpoints use it: [os.makedirs(d, exist_ok=True)],
    [os.path.exists(d)] after the directories in the list have been removed
    by the same request, and [shutil.rmtree(d)]. *)
Record filesystem : Type := {
  makedirs : string -> res unit;
  exists_dir : list string -> string -> bool;
  rmtree : string -> res unit
}.

(** The server: [active_migrations], each orchestrator with what it did so
    far, and the directories removed by [shutil.rmtree]. *)
Record server : Type := {
  active_migrations : gmap string sys;
  removed : list string
}.

Definition with_migrations (f : gmap string sys -> gmap string sys) (sv : server) : server :=
  {| active_migrations := f (active_migrations sv); removed := removed sv |}.

Definition not_found {A} (run_id : string) : http A :=
  HTTPException 404 ("Migration " +:+ run_id +:+ " not found").

Record MigrationResponse : Type := {
  resp_run_id : string;
  resp_status : MigrationStatus;
  resp_message : string;
  resp_next_steps : list string
}.

Section WithEnv.
Context (E : env) (F : filesystem).

(** [start_migration]: a new orchestrator, whose constructor makes the two
    directories of the run, is registered under its run id; the workflow
    itself runs later, in the background.  An error of the constructor is
    answered with status 500. *)
Definition start_migration (req : MigrationRequest) (sv : server)
    : http MigrationResponse * server :=
  let orchestrator := start E req in
  match makedirs F (artifacts_dir (self orchestrator)) with
  | Raise e => (HTTPException 500 e, sv)
  | Ok _ =>
      match makedirs F (temp_dir (self orchestrator)) with
      | Raise e => (HTTPException 500 e, sv)
      | Ok _ =>
          let run_id := self_run_id (self orchestrator) in
          let sv' := with_migrations (fun m => <[run_id := orchestrator]> m) sv in
          let '(message, next_steps) :=
            if dry_run (preferences req) then
              ("Dry run started. Analysis and planning will be performed without execution.",
               [ "Monitor progress at /api/v1/migrate/{run_id}/progress";
                 "Review generated artifacts";
                 "Re-run with dry_run=false and confirm=true to execute" ])
            else if confirm (control req) then
              ("Migration started. Data will be migrated to Snowflake.",
               [ "Monitor progress at /api/v1/migrate/{run_id}/progress";
                 "Review validation results after completion";
                 "Check summary.md for detailed report" ])
            else
              ("Analysis and planning started. No data will be migrated yet.",
               [ "Monitor progress at /api/v1/migrate/{run_id}/progress";
                 "Review generated plan and artifacts";
                 "Re-run with confirm=true to execute migration" ]) in
          (Response {| resp_run_id := run_id; resp_status := PENDING;
                       resp_message := message; resp_next_steps := next_steps |},
           sv')
      end
  end.

(** The body of [get_status]. *)
Record status_body : Type := {
  sb_run_id : string;
  sb_status : string;
  sb_artifacts_dir : string;
  sb_analysis_complete : bool;
  sb_migration_results : list Pipeline.table_result;
  sb_validation_results : list validation_result;
  sb_log_entry_count : Z
}.

Definition get_status (run_id : string) (sv : server) : http status_body :=
  match active_migrations sv !! run_id with
  | None => not_found run_id
  | Some o =>
      Response {| sb_run_id := run_id;
                  sb_status := status_value (status (self o));
                  sb_artifacts_dir := artifacts_dir (self o);
                  sb_analysis_complete :=
                    match analysis_results (self o) with Some _ => true | None => false end;
                  sb_migration_results := migration_results (self o);
                  sb_validation_results := validation_results (self o);
                  sb_log_entry_count := Z.of_nat (length (log_entries (self o))) |}
  end.






(** [cancel_migration]: the status is overwritten, and the cancellation
    logged by the orchestrator. *)
Definition cancel_migration (run_id : string) (sv : server) : http string * server :=
  match active_migrations sv !! run_id with
  | None => (not_found run_id, sv)
  | Some o =>
      (Response "cancelled",
       with_migrations (fun m => <[run_id := snd (Orchestrator.cancel_migration E o)]> m) sv)
  end.

Definition deletable (st : MigrationStatus) : bool :=
  match st with
  | COMPLETED | FAILED | CANCELLED => true
  | _ => false
  end.

(** [if os.path.exists(d): shutil.rmtree(d)], after [gone] has been
    removed: what is removed now, or the error of [rmtree]. *)
Definition remove_if_exists (gone : list string) (d : string) : res (list string) :=
  if exists_dir F gone d then
    match rmtree F d with
    | Ok _ => Ok [d]
    | Raise e => Raise e
    end
  else Ok [].

(** [delete_migration]: an error of [rmtree] is caught by nobody, and the
    run stays registered. *)
Definition delete_migration (run_id : string) (sv : server) : http string * server :=
  match active_migrations sv !! run_id with
  | None => (not_found run_id, sv)
  | Some o =>
      if negb (deletable (status (self o))) then
        (HTTPException 400 "Cannot delete active migration. Cancel it first.", sv)
      else
        match remove_if_exists [] (artifacts_dir (self o)) with
        | Raise e => (Unhandled e, sv)
        | Ok gone1 =>
            match remove_if_exists gone1 (temp_dir (self o)) with
            | Raise e =>
                (Unhandled e,
                 {| active_migrations := active_migrations sv;
                    removed := removed sv ++ gone1 |})
            | Ok gone2 =>
                (Response "Migration deleted successfully",
                 {| active_migrations := delete run_id (active_migrations sv);
                    removed := removed sv ++ gone1 ++ gone2 |})
            end
        end
  end.

End WithEnv.
End Api.

(* ===================================================================== *)
(** * More specification vocabulary *)
(* ===================================================================== *)

Module Props.
Import PyStr PyText Eff Model World.

(** [x] occurs in [s]. *)
Definition occurs (x s : string) : Prop := exists pre post, s = pre +:+ x +:+ post.

(** The table needs nothing the analysis does not give: a size to compare,
    unless a cluster hint makes the comparison unnecessary, and a column to
    name in the foreign-key comments, if there are any. *)
Definition table_ok (p : MigrationPreferences) (td : table_detail) : bool :=
  (match cluster_key_hints p !! table_name td with
   | Some (_ :: _) => true
   | _ => match Model.total_size_bytes (table_meta td) with Some _ => true | None => false end
   end)
  && (match foreign_keys (table_constraints td) with
      | [] => true
      | _ => match columns td with [] => false | _ => true end
      end).

Definition is_ok {A} (r : res A) : bool :=
  match r with
  | Ok _ => true
  | Raise _ => false
  end.

(** The columns of the analysis in the order of the walk, each with its
    schema and table. *)
Definition all_columns (a : analysis) : list (string * string * string) :=
  flat_map (fun sd =>
    flat_map (fun td => map (fun col => (schema_name sd, table_name td, column_name col))
                            (columns td))
             (tables sd)) (schemas a).

Definition decision_key (d : Generator.MappingDecision) : string * string * string :=
  (Generator.md_schema d, Generator.md_table d, Generator.md_column d).

(** The tables of the analysis in the order of the walk, each with the name
    of its schema. *)
Definition all_tables (a : analysis) : list (string * table_detail) :=
  flat_map (fun sd => map (fun td => (schema_name sd, td)) (tables sd)) (schemas a).

(** The columns of a table, each with its schema and table. *)
Definition table_columns (st : string * table_detail) : list (string * string * string) :=
  map (fun col => (fst st, table_name (snd st), column_name col)) (columns (snd st)).

(** The tables a walk generates: those before the first table that is not
    [table_ok]. *)
Fixpoint generated (p : MigrationPreferences) (ts : list (string * table_detail))
    : list (string * table_detail) :=
  match ts with
  | [] => []
  | st :: r => if table_ok p (snd st) then st :: generated p r else []
  end.

(** A part of the walk over the tables [ts], on a generator with the
    preferences [p]: it adds one decision per column of the tables it
    generates, in order, and returns exactly when it generates them all. *)
Definition walks {A} (p : MigrationPreferences) (m : M Generator.SnowflakeGenerator A)
    (ts : list (string * table_detail)) : Prop :=
  forall g, Generator.gen_preferences g = p ->
    exists W,
      Generator.mapping_decisions (snd (m g)) = Generator.mapping_decisions g ++ W /\
      Generator.gen_preferences (snd (m g)) = p /\
      map decision_key W = flat_map table_columns (generated p ts) /\
      is_ok (fst (m g)) = forallb (fun st => table_ok p (snd st)) ts.

(** The path of the Parquet chunk with index [i]. *)
Definition parquet_path (temp_path schema table : string) (i : Z) : string :=
  path_join temp_path (Pipeline.chunk_name schema table i ".parquet").

(** The row groups written to Parquet files, in the order of the events. *)
Definition parquet_chunks (evs : list event) : list (list row) :=
  flat_map (fun e => match e with EvWriteParquet _ d => [d] | _ => [] end) evs.

(** A value that [json.dumps] does not refuse, and a row of such values. *)
Definition encodable (v : pg_value) : bool :=
  match v with
  | VJson (Raise _) => false
  | _ => true
  end.

Definition encodes (r : row) : bool := forallb encodable r.

(** The text of a value in a CSV file: nothing for NULL, strings and JSON
    texts between double quotes with every double quote doubled, other
    scalars as [str] prints them. *)
Definition cell (v : pg_value) : string :=
  match v with
  | VNone => ""
  | VJson (Ok dumped) => dq +:+ replace_char "034" (dq +:+ dq) dumped +:+ dq
  | VJson (Raise _) => ""
  | VStr s => dq +:+ replace_char "034" (dq +:+ dq) s +:+ dq
  | VOther text => text
  end.

(** The line of a row: its cells joined by commas. *)
Definition csv_row (r : row) : string := join "," (map cell r) +:+ nl.

(** The CSV file of a chunk: the header line, then one line per row. *)
Definition csv_text (columns : list string) (chunk : list row) : string :=
  join "," columns +:+ nl +:+ Generator.concat_strs (map csv_row chunk).

(** A row with one value per column. *)
Definition fits (columns : list string) (r : row) : bool :=
  (length r =? length columns)%nat.

(** [chunks] is [rows] cut every [c] rows: the chunks are the rows in their
    order, every chunk but the last has exactly [c] rows, and the last has
    at least one and at most [c]. *)
Definition cut_every (c : Z) (rows : list row) (chunks : list (list row)) : Prop :=
  concat chunks = rows /\
  Forall (fun ch => Z.of_nat (length ch) = c) (removelast chunks) /\
  Forall (fun ch => 0 < Z.of_nat (length ch) <= c) chunks.

(** The paths of the chunk files written, in the order of the events. *)
Definition written_files (evs : list event) : list string :=
  flat_map (fun e => match e with
                     | EvWriteCsv path _ => [path]
                     | EvWriteParquet path _ => [path]
                     | _ => []
                     end) evs.

(** The cut of [rows] into chunks of [c] rows, the last one possibly
    shorter; [fuel] bounds the number of chunks. *)
Fixpoint chunks_of (fuel : nat) (c : nat) (rows : list row) : list (list row) :=
  match fuel with
  | O => []
  | S k =>
      match rows with
      | [] => []
      | _ => firstn c rows :: chunks_of k c (skipn c rows)
      end
  end.

(** The chunks of [rows]. *)
Definition chunked (c : Z) (rows : list row) : list (list row) :=
  chunks_of (length rows) (Z.to_nat c) rows.

(** The elements of a list with their indices, from 1. *)
Definition numbered {A} (l : list A) : list (Z * A) :=
  combine (seqZ 1 (Z.of_nat (length l))) l.

(** The events of writing [chunks] to Parquet files, the first one to the
    file of index 1. *)
Definition parquet_events (temp_path schema table : string) (chunks : list (list row))
    : list event :=
  map (fun ic => EvWriteParquet (parquet_path temp_path schema table (fst ic)) (snd ic))
      (numbered chunks).

(** The events of writing [chunks] to CSV files. *)
Definition csv_events (temp_path schema table : string) (columns : list string)
    (chunks : list (list row)) : list event :=
  map (fun ic => EvWriteCsv (Spec.chunk_path temp_path schema table (fst ic))
                            (csv_text columns (snd ic)))
      (numbered chunks).

(** The open chunk as a list of chunks: none when it is empty. *)
Definition open_chunk (rows : list row) : list (list row) :=
  match rows with
  | [] => []
  | _ => [rows]
  end.

(** The state of the Parquet loop after the complete chunks [done]: their
    files have been written after the events [base], and the loader's set is
    still [loaded]. *)
Definition pq_rel (temp_path schema table : string) (columns : list string) (c : Z)
    (base : list event) (loaded : gset string)
    (st : Pipeline.pq_state) (s : Pipeline.pstate) (done : list (list row)) : Prop :=
  Pipeline.pq_chunk_num st = Z.of_nat (length done) /\
  Pipeline.pq_files st = map (parquet_path temp_path schema table)
                             (seqZ 1 (Z.of_nat (length done))) /\
  events (Pipeline.pworld s) = base ++ parquet_events temp_path schema table done /\
  Pipeline.loaded_files s = loaded /\
  Z.of_nat (length (Pipeline.pq_chunk_data st)) < c /\
  Forall (fun ch => Z.of_nat (length ch) = c) done /\
  forallb (fits columns) (Pipeline.pq_chunk_data st) = true.

(** The state of the CSV loop after the complete chunks [done], with the
    rows [open] in the chunk that is being filled: the files of the complete
    chunks have been written after the events [base], and the loader's set
    is still [loaded]. *)
Definition csv_rel (temp_path schema table : string) (columns : list string) (c : Z)
    (base : list event) (loaded : gset string)
    (st : Pipeline.csv_state) (s : Pipeline.pstate)
    (done : list (list row)) (open : list row) : Prop :=
  Pipeline.files st = map (Spec.chunk_path temp_path schema table)
                          (seqZ 1 (Z.of_nat (length done))) /\
  events (Pipeline.pworld s) = base ++ csv_events temp_path schema table columns done /\
  Pipeline.loaded_files s = loaded /\
  Z.of_nat (length open) < c /\
  Forall (fun ch => Z.of_nat (length ch) = c) done /\
  match open with
  | [] => Pipeline.current_buffer st = None /\
          Pipeline.chunk_num st = Z.of_nat (length done)
  | _ => Pipeline.current_buffer st = Some (csv_text columns open) /\
         Pipeline.current_file st
           = Some (Spec.chunk_path temp_path schema table (Z.of_nat (length done) + 1)) /\
         Pipeline.rows_in_chunk st = Z.of_nat (length open) /\
         Pipeline.chunk_num st = Z.of_nat (length done) + 1
  end.

(** The PUT statements among the events. *)
Definition puts (evs : list event) : list event :=
  List.filter (fun e => match e with EvPut _ _ => true | _ => false end) evs.

(** The COPY INTO statements among the events. *)
Definition copies (evs : list event) : list event :=
  List.filter (fun e => match e with EvCopy _ _ => true | _ => false end) evs.

(** Between two states of the pipeline nothing was uploaded or copied, and
    the loader's set is the same. *)
Definition no_load (s s' : Pipeline.pstate) : Prop :=
  Pipeline.loaded_files s' = Pipeline.loaded_files s
  /\ puts (events (Pipeline.pworld s')) = puts (events (Pipeline.pworld s))
  /\ copies (events (Pipeline.pworld s')) = copies (events (Pipeline.pworld s)).

(** The words that follow the semicolon of the comment line
    [generate_table_ddl] puts above the foreign keys. *)
Definition AFTER_SEMICOLON : string := "not enforced on standard tables):".

(** Some table of the analysis has a foreign key. *)
Definition has_foreign_key (a : analysis) : bool :=
  existsb (fun sd =>
             existsb (fun td => match foreign_keys (table_constraints td) with
                                | [] => false
                                | _ => true
                                end) (tables sd)) (schemas a).

(** A column that has a name and a type and nothing else. *)
Definition plain_column (name type : string) : column :=
  {| column_name := name; data_type := type; udt_name := None;
     character_maximum_length := None; numeric_precision := None; numeric_scale := None;
     is_nullable := "NO"; column_default := None; is_identity := "NO";
     identity_start := None; identity_increment := None; serial_sequence := None;
     column_comment := None |}.

(** Two tables, the second with a foreign key to the first. *)
Definition orders_analysis : analysis :=
  {| analysis_timestamp := "2024-05-01T09:59:00"; database := "shop";
     schemas :=
       [ {| schema_name := "public";
            tables :=
              [ {| table_name := "customers";
                   table_meta := {| Model.total_size_bytes := Some 16384;
                                    approximate_row_count := Some 10;
                                    table_comment := None |};
                   columns := [plain_column "id" "integer"; plain_column "name" "text"];
                   table_constraints :=
                     {| primary_keys := [ {| constraint_name := "customers_pkey";
                                             key_columns := ["id"] |} ];
                        unique_keys := []; foreign_keys := [] |};
                   triggers := [] |};
                {| table_name := "orders";
                   table_meta := {| Model.total_size_bytes := Some 32768;
                                    approximate_row_count := Some 25;
                                    table_comment := None |};
                   columns := [ plain_column "id" "integer";
                                plain_column "customer_id" "integer";
                                plain_column "total" "numeric" ];
                   table_constraints :=
                     {| primary_keys := [ {| constraint_name := "orders_pkey";
                                             key_columns := ["id"] |} ];
                        unique_keys := [];
                        foreign_keys :=
                          [ {| fk_constraint_name := "orders_customer_fk";
                               foreign_table_schema := "public";
                               foreign_table_name := "customers";
                               foreign_column_name := "id" |} ] |};
                   triggers := [] |} ];
            sequences := []; views := []; functions := [] |} ] |}.

Definition target_config : Generator.ddl_config :=
  {| Generator.cfg_database := "TARGET"; Generator.cfg_stage := "MIGRATION_STAGE";
     Generator.cfg_file_format := "CSV_FORMAT" |}.

(** The COPY INTO statement a load result stands for. *)
Definition copy_of (r : Pipeline.load_result) : event :=
  EvCopy (Pipeline.lr_table r) (Pipeline.lr_file r).

(** The file of the result reached the stage. *)
Definition was_staged (r : Pipeline.load_result) : bool :=
  negb (String.eqb (Pipeline.lr_status r) "upload_failed").

Definition is_success (r : Pipeline.load_result) : bool :=
  String.eqb (Pipeline.lr_status r) "success".

(** Only a success carries rows. *)
Definition counts_rows (r : Pipeline.load_result) : Prop :=
  Pipeline.lr_status r = "success" \/ Pipeline.lr_rows_loaded r = 0.

(** The entry [calculate_volumetrics] keeps for a table: none for a table
    without a size or of size 0. *)
Definition sized_entry (schema_name : string) (t : Catalog.table_row)
    : list Catalog.sized_table :=
  match Catalog.t_total_size_bytes t with
  | Some size =>
      if negb (size =? 0)
      then [ {| Catalog.st_schema := schema_name; Catalog.st_table := Catalog.t_table_name t;
                Catalog.st_size_bytes := size;
                Catalog.st_rows := Catalog.t_approximate_row_count t |} ]
      else []
  | None => []
  end.

(** The tables with a size, in the order of the loops. *)
Definition sized_tables (get_tables : string -> list Catalog.table_row)
    (schemas : list string) : list Catalog.sized_table :=
  flat_map (fun schema_name => flat_map (sized_entry schema_name) (get_tables schema_name))
           schemas.

(** The sizes do not grow along the list. *)
Definition by_size_desc (l : list Catalog.sized_table) : Prop :=
  StronglySorted (fun a b => Catalog.st_size_bytes b <= Catalog.st_size_bytes a) l.

(** A count query found nothing: it answered a count that is not
    positive, or it failed. *)
Definition no_finding (r : res Z) : Prop :=
  match r with
  | Ok n => n <= 0
  | Raise _ => True
  end.

(** The label of a table in [wide_tables]: none for a table of up to 500
    columns. *)
Definition wide_label (sname : string) (td : table_detail) : list string :=
  if 500 <? Z.of_nat (length (columns td))
  then [sname +:+ "." +:+ table_name td +:+ " (" +:+
        of_Z (Z.of_nat (length (columns td))) +:+ " columns)"]
  else [].

(** The labels of the triggers of a table in the flags. *)
Definition trigger_labels (sname : string) (td : table_detail) : list string :=
  map (fun tr => Analyzer.qualified sname (table_name td) (trigger_name tr)) (triggers td).

(** The four lists of the flags that do not depend on the columns: wide
    tables, complex constraints, triggers, functions. *)
Definition table_flags (f : Analyzer.flags)
    : list string * list string * list string * list string :=
  (Analyzer.wide_tables f, Analyzer.complex_constraints f, Analyzer.flagged_triggers f,
   Analyzer.flagged_functions f).

(** The four lists with [w] more wide tables, [t] more triggers and [fn]
    more functions. *)
Definition more_flags (p : list string * list string * list string * list string)
    (w t fn : list string) : list string * list string * list string * list string :=
  let '(w0, c0, t0, fn0) := p in (w0 ++ w, c0, t0 ++ t, fn0 ++ fn).

(** A character that starts neither an assignment nor a JSON field. *)
Definition plain_char (c : ascii) : bool :=
  negb (Ascii.eqb c "=") && negb (Ascii.eqb c "034").

(** A text without an equals sign and without a double quote. *)
Definition plain_text (s : string) : bool := all_chars plain_char s.

(** An event that moves no data: a file of the artifact directory, a log
    line, or the DDL script. *)
Definition prepares (e : event) : bool :=
  Spec.planning_event e || match e with EvDDL _ => true | _ => false end.

(** From [s] to [s'] no data was moved: the migration results are the
    same, and nothing was selected, written to the scratch space, uploaded
    or copied. *)
Definition no_data_moved (s s' : Orchestrator.sys) : Prop :=
  Orchestrator.migration_results (Orchestrator.self s')
  = Orchestrator.migration_results (Orchestrator.self s) /\
  exists d, events (Orchestrator.outside s') = events (Orchestrator.outside s) ++ d /\
            forallb prepares d = true.

(** A healthy source and a target that refuses every DDL script. *)
Definition refusing_env (a : analysis) : env :=
  {| cursor_rows := fun _ _ => ([[VOther "1"]; [VOther "2"]; [VOther "3"]], None);
     gzip_write := fun _ _ _ => Ok tt;
     to_parquet := fun _ _ _ _ => Ok tt;
     put_result := fun _ _ => Ok tt;
     copy_result := fun _ _ _ => CopyOk [] 0;
     pg_connect := fun _ => Ok tt; sf_connect := fun _ => Ok tt;
     ddl_result := fun _ => Raise "SQL access control error: insufficient privileges";
     write_result := fun _ _ => Ok tt;
     isoformat := fun _ => "2024-05-01T10:00:00"; elapsed_ms := fun _ _ => 0;
     analyze_result := fun _ => Ok a;
     validate_table_result := fun _ _ _ => [];
     uuid4 := "run-1" |}.

(** The source answers, Snowflake fails on every query. *)
Definition snowflake_down : Validator.databases :=
  {| Validator.pg_row_count := fun _ _ => Ok 10;
     Validator.sf_row_count := fun _ _ => Raise "connection lost";
     Validator.sf_null_count := fun _ _ _ => Raise "connection lost";
     Validator.sf_pk_duplicates := fun _ _ _ => Raise "connection lost";
     Validator.sf_invalid_json := fun _ _ _ => Raise "connection lost" |}.

(** A table with a primary key and a JSON column. *)
Definition events_table : table_detail :=
  {| table_name := "events";
     table_meta := {| Model.total_size_bytes := Some 8192; approximate_row_count := Some 10;
                      table_comment := None |};
     columns := [plain_column "id" "integer"; plain_column "payload" "jsonb"];
     table_constraints :=
       {| primary_keys := [ {| constraint_name := "events_pkey"; key_columns := ["id"] |} ];
          unique_keys := []; foreign_keys := [] |};
     triggers := [] |}.

(** A file system in which everything works and every directory is there
    until it is removed. *)
Definition plain_fs : Api.filesystem :=
  {| Api.makedirs := fun _ => Ok tt;
     Api.exists_dir := fun gone d => negb (Generator.in_strs d gone);
     Api.rmtree := fun _ => Ok tt |}.




(** The text has no line break. *)
Definition one_line (s : string) : bool :=
  all_chars (fun d => negb (Ascii.eqb d "010")) s.

(** The status a run is left in when [finalize] returned. *)
Definition settled (st : MigrationStatus) : Prop := st = COMPLETED \/ st = FAILED.

(** Some table of the analysis has no size. *)
Definition unsized (a : analysis) : Prop :=
  exists sd td, In sd (schemas a) /\ In td (tables sd)
                /\ Model.total_size_bytes (table_meta td) = None.

(** The analysis of one table whose size is unknown, and the preferences
    that give it a cluster hint. *)
Definition unsized_analysis : analysis :=
  {| analysis_timestamp := "2024-05-01T09:59:00"; database := "shop";
     schemas :=
       [ {| schema_name := "s";
            tables :=
              [ {| table_name := "t";
                   table_meta := {| Model.total_size_bytes := None;
                                    approximate_row_count := None;
                                    table_comment := None |};
                   columns := [Spec.order_column];
                   table_constraints := {| primary_keys := []; unique_keys := [];
                                           foreign_keys := [] |};
                   triggers := [] |} ];
            sequences := []; views := []; functions := [] |} ] |}.

Definition hinted_request : Orchestrator.MigrationRequest :=
  {| Orchestrator.pg_password := "hunter2";
     Orchestrator.access_token := "tok123";
     Orchestrator.sf_database := "TARGET";
     Orchestrator.sf_config := Spec.stage_config;
     Orchestrator.preferences :=
       {| format := CSV; max_chunk_mb := 200; parallelism := 4;
          use_identity_for_serial := true;
          cluster_key_hints := {[ "t" := ["ORDER"] ]};
          case_style := UPPER; dry_run := true |};
     Orchestrator.control := {| run_id := None; confirm := true |} |}.

(** A cursor over a table with a [date[]] column: the third row holds a
    list that [json.dumps] refuses. *)
Definition array_env : env :=
  {| cursor_rows := fun _ _ =>
       ([ [VOther "1"; VJson (Ok "[]")];
          [VOther "2"; VJson (Ok "[1, 2]")];
          [VOther "3"; VJson (Raise "Object of type date is not JSON serializable")];
          [VOther "4"; VJson (Ok "[]")] ], None);
     gzip_write := fun _ _ _ => Ok tt;
     to_parquet := fun _ _ _ _ => Ok tt;
     put_result := fun _ _ => Ok tt;
     copy_result := fun _ _ _ => CopyOk [] 0;
     pg_connect := fun _ => Ok tt; sf_connect := fun _ => Ok tt;
     ddl_result := fun _ => Ok tt; write_result := fun _ _ => Ok tt;
     isoformat := fun _ => ""; elapsed_ms := fun _ _ => 0;
     analyze_result := fun _ => Raise "no analysis";
     validate_table_result := fun _ _ _ => [];
     uuid4 := "" |}.

End Props.

(* ===================================================================== *)
(** * Theorems *)
(* ===================================================================== *)

Section StringFacts.
Import PyStr.

Lemma str_app_cons (x : ascii) (a b : string) : String x a +:+ b = String x (a +:+ b).
Proof. reflexivity. Qed.

Lemma str_app_nil_l (b : string) : "" +:+ b = b.
Proof. reflexivity. Qed.

Lemma str_app_assoc (a b c : string) : (a +:+ b) +:+ c = a +:+ (b +:+ c).
Proof.
  induction a as [|x a IH]; [reflexivity|]. now rewrite !str_app_cons, IH.
Qed.

Lemma str_app_nil_r (a : string) : a +:+ "" = a.
Proof. induction a as [|x a IH]; [reflexivity|]. now rewrite str_app_cons, IH. Qed.

Lemma lower_char_open_bracket (c : ascii) :
  Ascii.eqb "[" (lower_char c) = Ascii.eqb "[" c.
Proof. destruct c as [[] [] [] [] [] [] [] []]; reflexivity. Qed.

Lemma lower_char_close_bracket (c : ascii) :
  Ascii.eqb "]" (lower_char c) = Ascii.eqb "]" c.
Proof. destruct c as [[] [] [] [] [] [] [] []]; reflexivity. Qed.

Lemma startswith_brackets_lower (s : string) :
  startswith "[]" (lower s) = startswith "[]" s.
Proof.
  unfold lower.
  destruct s as [|a [|b r]]; cbn [map_chars startswith].
  - reflexivity.
  - now rewrite lower_char_open_bracket.
  - now rewrite lower_char_open_bracket, lower_char_close_bracket.
Qed.

(** Lower-casing neither creates nor removes a pair of brackets. *)
Lemma contains_brackets_lower (s : string) :
  contains "[]" (lower s) = contains "[]" s.
Proof.
  induction s as [|c r IH].
  - reflexivity.
  - change (lower (String c r)) with (String (lower_char c) (lower r)).
    change (contains "[]" (String (lower_char c) (lower r)))
      with (startswith "[]" (String (lower_char c) (lower r)) || contains "[]" (lower r)).
    change (contains "[]" (String c r))
      with (startswith "[]" (String c r) || contains "[]" r).
    rewrite IH. f_equal.
    exact (startswith_brackets_lower (String c r)).
Qed.

Lemma in_strs_In (x : string) (l : list string) :
  Generator.in_strs x l = true -> In x l.
Proof.
  unfold Generator.in_strs. rewrite existsb_exists.
  intros [y [Hy Heq]]. apply String.eqb_eq in Heq. now subst.
Qed.

End StringFacts.

Section TypeMapperFacts.
Import PyStr Model Generator Spec.

(** What the first two rules of the mapper see of a character type: no
    array marker, not the word ARRAY, and no numeric name. *)
Lemma char_type_reaches_third_rule (pg_type : string) :
  is_char_type pg_type = true ->
  contains "[]" pg_type = false /\ String.eqb pg_type "ARRAY" = false /\
  in_strs (lower pg_type) ["numeric"; "decimal"] = false.
Proof.
  intros H. apply in_strs_In in H.
  assert (Hc : contains "[]" (lower pg_type) = false /\
               lower pg_type <> "array" /\
               in_strs (lower pg_type) ["numeric"; "decimal"] = false).
  { simpl in H. destruct H as [H|[H|[H|[H|[]]]]]; rewrite <- H;
      (split; [reflexivity | split; [discriminate | reflexivity]]). }
  destruct Hc as [Hb [Ha Hn]]. rewrite contains_brackets_lower in Hb.
  repeat split; trivial.
  destruct (String.eqb_spec pg_type "ARRAY") as [->|]; [|reflexivity].
  exfalso. apply Ha. reflexivity.
Qed.

(** C7.  For a character type ([character varying], [varchar], [character],
    [char], in any case) with a declared, positive maximum length [n], the
    type mapper emits the bounded [VARCHAR(n)] with the rationale that the
    length is preserved when [n] is at most 16,777,216 (that value included),
    and the unbounded [VARCHAR] with the rationale that the length exceeds
    the Snowflake maximum when [n] is 16,777,217 or more. *)
Theorem C7_varchar_length_ceiling (pg_type : string) (udt : option string)
    (n : Z) (precision scale : option Z) :
  is_char_type pg_type = true ->
  0 < n ->
  (n <= VARCHAR_CEILING ->
   map_type pg_type udt (Some n) precision scale =
     ("VARCHAR(" +:+ of_Z n +:+ ")", "PostgreSQL " +:+ pg_type +:+ " with length preserved"))
  /\
  (VARCHAR_CEILING + 1 <= n ->
   map_type pg_type udt (Some n) precision scale =
     ("VARCHAR",
      "PostgreSQL " +:+ pg_type +:+ "(" +:+ of_Z n +:+
      ") exceeds Snowflake max; using VARCHAR(16777216)")).
Proof.
  intros Hchar Hpos.
  destruct (char_type_reaches_third_rule pg_type Hchar) as [Hb [Ha Hn]].
  unfold is_char_type in Hchar.
  assert (Hnz : negb (n =? 0) = true) by (apply negb_true_iff, Z.eqb_neq; lia).
  unfold map_type, VARCHAR_CEILING, SNOWFLAKE_MAX_VARCHAR.
  rewrite Hb, Ha, Hn, Hchar, Hnz. cbn [orb].
  split; intros Hn'.
  - assert (Hlt : (16777216 <? n) = false) by (apply Z.ltb_ge; lia).
    now rewrite Hlt.
  - assert (Hlt : (16777216 <? n) = true) by (apply Z.ltb_lt; lia).
    now rewrite Hlt.
Qed.

(** The boundary of C7 on both sides: 16,777,216 characters keep their
    length, 16,777,217 do not. *)
Lemma C7_witness_at_ceiling :
  map_type "character varying" None (Some 16777216) None None =
    ("VARCHAR(16777216)", "PostgreSQL character varying with length preserved")
  /\
  map_type "VARCHAR" None (Some 16777217) None None =
    ("VARCHAR",
     "PostgreSQL VARCHAR(16777217) exceeds Snowflake max; using VARCHAR(16777216)").
Proof.
  split.
  - refine (proj1 (C7_varchar_length_ceiling "character varying" None 16777216 None None
                     _ _) _).
    + reflexivity.
    + reflexivity.
    + unfold VARCHAR_CEILING. lia.
  - refine (proj2 (C7_varchar_length_ceiling "VARCHAR" None 16777217 None None _ _) _).
    + reflexivity.
    + reflexivity.
    + unfold VARCHAR_CEILING. lia.
Defined.

End TypeMapperFacts.

Section IdentifierFacts.
Import PyStr Model Generator Spec.

(** What [quote_identifier] does: the normalized name, between double
    quotes exactly when its upper-case form is one of the twenty words of the
    generator's own list, or when removing the underscores leaves something
    that is not a non-empty run of letters and digits. *)
Lemma quote_identifier_cases (p : MigrationPreferences) (name : string) :
  quote_identifier p name =
    if needs_quoting (normalize_identifier p name)
    then dq +:+ normalize_identifier p name +:+ dq
    else normalize_identifier p name.
Proof. reflexivity. Qed.

(** C6 (the code departs from the claim).  With the default case style, a
    column named ORDER is emitted bare, in [quote_identifier] and in the
    column line of the table DDL, although the analyzer's reserved-word list
    contains ORDER; COPY, a word of the generator's shorter list, is quoted. *)
Theorem C6_order_is_emitted_bare :
  quote_identifier default_preferences "ORDER" = "ORDER"
  /\ snd (fst (column_entry default_preferences "s" "t" "S" order_column))
     = "    ORDER NUMBER(10,0) NOT NULL"
  /\ Analyzer.is_reserved "ORDER" = true
  /\ bool_decide ("ORDER" ∈ snowflake_reserved) = false
  /\ quote_identifier default_preferences "COPY" = dq +:+ "COPY" +:+ dq.
Proof. repeat split; vm_compute; reflexivity. Qed.

End IdentifierFacts.

Section CompatibilityFacts.
Import PyStr Model Analyzer Spec.

(** The other lists of the flags do not disturb [large_varchars]. *)
Lemma large_varchars_when (b : bool) (g : flags -> flags) (f : flags) :
  (forall f', large_varchars (g f') = large_varchars f') ->
  large_varchars (when b g f) = large_varchars f.
Proof. intros Hg. destruct b; simpl; auto. Qed.

Lemma large_varchars_column (sname tname : string) (f : flags) (col : column) :
  large_varchars (assess_column sname tname f col) =
    large_varchars f ++
    (if is_large_varchar col then [qualified sname tname (column_name col)] else []).
Proof.
  unfold assess_column.
  rewrite large_varchars_when by reflexivity.
  destruct (is_large_varchar col); simpl.
  - now rewrite large_varchars_when by reflexivity.
  - rewrite large_varchars_when by reflexivity. now rewrite app_nil_r.
Qed.

Lemma large_varchars_columns (sname tname : string) (cols : list column) (f : flags) :
  large_varchars (fold_left (assess_column sname tname) cols f) =
    large_varchars f ++
    map (fun col => qualified sname tname (column_name col))
        (List.filter is_large_varchar cols).
Proof.
  revert f. induction cols as [|col cols IH]; intros f; simpl.
  - now rewrite app_nil_r.
  - rewrite IH, large_varchars_column.
    destruct (is_large_varchar col); simpl.
    + now rewrite <- app_assoc.
    + now rewrite app_nil_r.
Qed.

Lemma large_varchars_triggers (sname tname : string) (trs : list trigger) (f : flags) :
  large_varchars
    (fold_left (fun acc tr => add_trigger (qualified sname tname (trigger_name tr)) acc)
               trs f) = large_varchars f.
Proof. revert f. induction trs as [|tr trs IH]; intros f; simpl; [|rewrite IH]; reflexivity. Qed.

Lemma large_varchars_functions (sname : string) (fns : list function) (f : flags) :
  large_varchars
    (fold_left (fun acc fn =>
                  add_function (sname +:+ "." +:+ function_name fn +:+ " (" +:+
                                routine_type fn +:+ ")") acc) fns f)
  = large_varchars f.
Proof. revert f. induction fns as [|fn fns IH]; intros f; simpl; [|rewrite IH]; reflexivity. Qed.

Lemma large_varchars_table (sname : string) (f : flags) (td : table_detail) :
  large_varchars (assess_table sname f td) =
    large_varchars f ++
    map (fun col => qualified sname (table_name td) (column_name col))
        (List.filter is_large_varchar (columns td)).
Proof.
  unfold assess_table.
  rewrite large_varchars_triggers, large_varchars_columns.
  now rewrite !large_varchars_when by reflexivity.
Qed.

Lemma large_varchars_tables (sname : string) (tds : list table_detail) (f : flags) :
  large_varchars (fold_left (assess_table sname) tds f) =
    large_varchars f ++
    flat_map (fun td =>
                map (fun col => qualified sname (table_name td) (column_name col))
                    (List.filter is_large_varchar (columns td))) tds.
Proof.
  revert f. induction tds as [|td tds IH]; intros f; simpl.
  - now rewrite app_nil_r.
  - now rewrite IH, large_varchars_table, <- app_assoc.
Qed.

Lemma large_varchars_schemas (sds : list schema_detail) (f : flags) :
  large_varchars (fold_left assess_schema sds f) = large_varchars f ++ flagged_columns sds.
Proof.
  revert f. induction sds as [|sd sds IH]; intros f; cbn [fold_left].
  - unfold flagged_columns. simpl. now rewrite app_nil_r.
  - rewrite IH. unfold assess_schema.
    rewrite large_varchars_functions, large_varchars_tables, <- app_assoc.
    reflexivity.
Qed.

(** C9, refuted as stated: a [character varying] column declared with
    16,500,000 characters is flagged although its length does not exceed
    16,777,216. *)
Lemma C9_flag_below_ceiling : ~ flag_follows_ceiling wide_text_column.
Proof.
  unfold flag_follows_ceiling. intros [Hflag _].
  destruct (Hflag eq_refl) as [n [Hn Hgt]].
  injection Hn as <-. unfold VARCHAR_CEILING in Hgt. lia.
Qed.

(** C9, as the code has it.  [_assess_compatibility] lists in
    [large_varchars] exactly the columns that pass its test, in the order of
    the walk, and a column passes the test if and only if its data type is
    [character varying], [text] or [varchar] and its declared maximum length
    exceeds 16,000,000.  The function is total and only builds lists: the
    flag is advisory. *)
Theorem C9_large_varchar_flag (sds : list schema_detail) :
  large_varchars (_assess_compatibility sds) = flagged_columns sds
  /\
  forall col : column,
    is_large_varchar col = true <->
    In (data_type col) ["character varying"; "text"; "varchar"] /\
    exists n, character_maximum_length col = Some n /\ 16000000 < n.
Proof.
  split.
  - unfold _assess_compatibility. now rewrite large_varchars_schemas.
  - intros col. unfold is_large_varchar, LARGE_VARCHAR_THRESHOLD.
    rewrite andb_true_iff, existsb_exists. split.
    + intros [[y [Hy Heq]] Hlen]. apply String.eqb_eq in Heq. subst y. split; [exact Hy|].
      destruct (character_maximum_length col) as [n|]; [|discriminate].
      apply andb_true_iff in Hlen as [_ Hlt]. apply Z.ltb_lt in Hlt. eauto.
    + intros [Hty [n [Hn Hlt]]]. split.
      * exists (data_type col). split; [exact Hty | apply String.eqb_refl].
      * rewrite Hn. apply andb_true_iff. split.
        -- apply negb_true_iff, Z.eqb_neq. lia.
        -- apply Z.ltb_lt. lia.
Qed.

End CompatibilityFacts.

Section GeneratorFacts.
Import PyStr Eff Model Generator Spec.

Lemma grown_nil (g : SnowflakeGenerator) : grown g [] [] = g.
Proof. destruct g. unfold grown. simpl. now rewrite !app_nil_r. Qed.

Lemma grown_grown (g : SnowflakeGenerator) W1 R1 W2 R2 :
  grown (grown g W1 R1) W2 R2 = grown g (W1 ++ W2) (R1 ++ R2).
Proof. unfold grown. simpl. now rewrite !app_assoc. Qed.

Section Steady.
Context (a : analysis) (p : MigrationPreferences).

Lemma steady_ret {A} (x : A) : steady a p (ret x).
Proof. exists (Ok x), [], []. intros g _ _. unfold ret. now rewrite grown_nil. Qed.

Lemma steady_raise {A} (e : string) : steady a p (@raise _ A e).
Proof. exists (Raise e), [], []. intros g _ _. unfold raise. now rewrite grown_nil. Qed.

Lemma steady_preferences : steady a p (reads gen_preferences).
Proof. exists (Ok p), [], []. intros g _ Hp. unfold reads. now rewrite grown_nil, Hp. Qed.

Lemma steady_analysis : steady a p (reads gen_analysis).
Proof. exists (Ok a), [], []. intros g Ha _. unfold reads. now rewrite grown_nil, Ha. Qed.

Lemma steady_extend (ms : list MappingDecision) :
  steady a p (modify (extend_mapping_decisions ms)).
Proof.
  exists (Ok tt), ms, []. intros g _ _. unfold modify, extend_mapping_decisions, grown.
  now rewrite app_nil_r.
Qed.

Lemma steady_recommend (r : recommendation) :
  steady a p (modify (append_recommendation r)).
Proof.
  exists (Ok tt), [], [r]. intros g _ _. unfold modify, append_recommendation, grown.
  now rewrite app_nil_r.
Qed.

Lemma steady_bind {A B} (m : M SnowflakeGenerator A) (k : A -> M SnowflakeGenerator B) :
  steady a p m -> (forall x, steady a p (k x)) -> steady a p (bind m k).
Proof.
  intros [r [W [R Hm]]] Hk. destruct r as [x|e].
  - destruct (Hk x) as [r2 [W2 [R2 Hkx]]].
    exists r2, (W ++ W2), (R ++ R2). intros g Ha Hp.
    unfold bind. rewrite (Hm g Ha Hp), (Hkx (grown g W R) Ha Hp).
    now rewrite grown_grown.
  - exists (Raise e), W, R. intros g Ha Hp. unfold bind. now rewrite (Hm g Ha Hp).
Qed.

Lemma steady_for_each {A B} (f : A -> M SnowflakeGenerator B) (l : list A) :
  (forall x, steady a p (f x)) -> steady a p (for_each f l).
Proof.
  intros Hf. induction l as [|x l IH]; cbn [for_each].
  - apply steady_ret.
  - apply steady_bind; [apply Hf|]. intros y.
    apply steady_bind; [exact IH|]. intros ys. apply steady_ret.
Qed.

End Steady.

Ltac steady_step :=
  first
    [ apply steady_ret | apply steady_raise | apply steady_preferences
    | apply steady_analysis | apply steady_extend | apply steady_recommend
    | apply steady_bind; [|intros ?]
    | apply steady_for_each; intros ?
    | match goal with
      | |- steady _ _ (match ?x with _ => _ end) => destruct x
      end ].

Lemma steady_table (a : analysis) (p : MigrationPreferences) (sname : string)
    (td : table_detail) : steady a p (generate_table_ddl sname td).
Proof. unfold generate_table_ddl. repeat steady_step. Qed.

Lemma steady_table_round (a : analysis) (p : MigrationPreferences) (sname : string)
    (td : table_detail) : steady a p (table_round sname td).
Proof.
  unfold table_round. apply steady_bind; [apply steady_table|].
  intros [ddl ms]. repeat steady_step.
Qed.

Lemma steady_schema_round (a : analysis) (p : MigrationPreferences) (sd : schema_detail) :
  steady a p (schema_round sd).
Proof.
  unfold schema_round. apply steady_bind; [apply steady_preferences|]. intros p'.
  apply steady_bind; [|intros; apply steady_ret].
  apply steady_for_each. intros td. apply steady_table_round.
Qed.

(** The whole walk is steady: it reads the analysis and the preferences and
    only appends to the two lists of the instance. *)
Lemma steady_complete_ddl (a : analysis) (p : MigrationPreferences) (cfg : ddl_config) :
  steady a p (generate_complete_ddl cfg).
Proof.
  unfold generate_complete_ddl.
  apply steady_bind; [apply steady_analysis|]. intros a'.
  apply steady_bind; [apply steady_preferences|]. intros p'.
  apply steady_bind; [|intros; apply steady_ret].
  apply steady_for_each. intros sd. apply steady_schema_round.
Qed.

Lemma count_occ_twice (l : list MappingDecision) (m : MappingDecision) :
  count_occ MappingDecision_eq_dec (l ++ l) m
  = (2 * count_occ MappingDecision_eq_dec l m)%nat.
Proof. rewrite count_occ_app. lia. Qed.

End GeneratorFacts.

Section ExtractorFacts.
Import PyStr Eff Model World Pipeline Spec.

Lemma seqZ_snoc_one (q : Z) : 0 <= q -> seqZ 1 (q + 1) = seqZ 1 q ++ [q + 1].
Proof.
  intros Hq. rewrite seqZ_app by lia.
  rewrite (seqZ_cons (1 + q)) by lia. rewrite (seqZ_nil (Z.succ (1 + q))) by lia.
  now replace (1 + q) with (q + 1) by lia.
Qed.


Lemma ceil_div_zero (c : Z) : 0 < c -> ceil_div 0 c = 0.
Proof. intros Hc. unfold ceil_div. apply Z.div_small. lia. Qed.

Lemma ceil_div_small (n c : Z) : 0 < n <= c -> ceil_div n c = 1.
Proof.
  intros H. unfold ceil_div. symmetry. apply (Z.div_unique _ _ 1 (n - 1)); [lia | ring].
Qed.

Lemma ceil_div_step (n c : Z) : 0 < c -> ceil_div (n + c) c = ceil_div n c + 1.
Proof.
  intros Hc. unfold ceil_div.
  replace (n + c + c - 1) with ((n + c - 1) + 1 * c) by ring.
  rewrite Z.div_add by lia. reflexivity.
Qed.


End ExtractorFacts.

Section ChunkFacts.
Import PyStr PyText Eff Model World Pipeline Spec Props.

Lemma chunks_of_fuel (c : nat) (fuel fuel' : nat) (rows : list row) :
  (0 < c)%nat -> (length rows <= fuel)%nat -> (length rows <= fuel')%nat ->
  chunks_of fuel c rows = chunks_of fuel' c rows.
Proof.
  intros Hc. revert fuel' rows. induction fuel as [|k IH]; intros fuel' rows H1 H2.
  - destruct rows; [|cbn in H1; lia]. destruct fuel'; reflexivity.
  - destruct rows as [|x r]; [destruct fuel'; reflexivity|].
    destruct fuel' as [|k']; [cbn in H2; lia|].
    cbn [chunks_of]. f_equal.
    assert (Hlen : (length (skipn c (x :: r)) <= length r)%nat).
    { rewrite List.length_skipn. cbn [length]. lia. }
    cbn [length] in H1, H2. apply IH; lia.
Qed.

Lemma chunked_nil (c : Z) : chunked c [] = [].
Proof. reflexivity. Qed.

(** What is shorter than a chunk is one chunk. *)
Lemma chunked_short (c : Z) (rows : list row) :
  rows <> [] -> Z.of_nat (length rows) <= c -> chunked c rows = [rows].
Proof.
  intros Hne Hlen. unfold chunked. destruct rows as [|x r]; [contradiction|].
  cbn [length chunks_of].
  rewrite firstn_all2 by lia. rewrite skipn_all2 by lia.
  destruct (length r); reflexivity.
Qed.

(** A full chunk at the front is the first chunk. *)
Lemma chunked_full (c : Z) (first rest : list row) :
  0 < c -> Z.of_nat (length first) = c ->
  chunked c (first ++ rest) = first :: chunked c rest.
Proof.
  intros Hc Hlen. unfold chunked.
  assert (Hn : length first = Z.to_nat c) by lia.
  destruct (first ++ rest) as [|x r] eqn:Happ.
  { destruct first; [cbn in Hlen; lia | discriminate]. }
  rewrite <- Happ.
  assert (Hl : length (first ++ rest) = S (length r)) by now rewrite Happ.
  rewrite Hl. cbn [chunks_of]. rewrite Happ, <- Happ.
  rewrite <- Hn, firstn_app, Nat.sub_diag, firstn_all, firstn_O, app_nil_r.
  rewrite skipn_app, Nat.sub_diag, skipn_all, skipn_O, app_nil_l.
  f_equal. rewrite Hn. apply chunks_of_fuel; [lia | | lia].
  rewrite length_app in Hl. lia.
Qed.

Lemma chunks_of_concat (c fuel : nat) (rows : list row) :
  (0 < c)%nat -> (length rows <= fuel)%nat -> concat (chunks_of fuel c rows) = rows.
Proof.
  intros Hc. revert rows. induction fuel as [|k IH]; intros rows Hlen.
  - destruct rows; [reflexivity | cbn in Hlen; lia].
  - destruct rows as [|x r]; [reflexivity|]. cbn [chunks_of concat].
    rewrite IH; [apply firstn_skipn|].
    rewrite List.length_skipn. cbn [length] in *. lia.
Qed.

(** The chunks are the rows, in order. *)
Lemma chunked_concat (c : Z) (rows : list row) : 0 < c -> concat (chunked c rows) = rows.
Proof. intros Hc. apply chunks_of_concat; lia. Qed.

Lemma chunks_of_count (c fuel : nat) (rows : list row) :
  (0 < c)%nat -> (length rows <= fuel)%nat ->
  Z.of_nat (length (chunks_of fuel c rows))
  = ceil_div (Z.of_nat (length rows)) (Z.of_nat c).
Proof.
  intros Hc. revert rows. induction fuel as [|k IH]; intros rows Hlen.
  - destruct rows; [|cbn in Hlen; lia]. cbn. now rewrite ceil_div_zero by lia.
  - destruct rows as [|x r]; [cbn; now rewrite ceil_div_zero by lia|].
    cbn [chunks_of length]. rewrite Nat2Z.inj_succ, IH.
    2:{ rewrite List.length_skipn. cbn [length] in *. lia. }
    rewrite List.length_skipn. cbn [length].
    destruct (Nat.le_gt_cases (S (length r)) c) as [Hle|Hgt].
    + replace (S (length r) - c)%nat with 0%nat by lia.
      rewrite ceil_div_zero, ceil_div_small by lia. reflexivity.
    + replace (Z.of_nat (S (length r))) with (Z.of_nat (S (length r) - c) + Z.of_nat c) by lia.
      rewrite ceil_div_step by lia. lia.
Qed.

(** There are ceil(n / c) chunks. *)
Lemma chunked_count (c : Z) (rows : list row) :
  0 < c -> Z.of_nat (length (chunked c rows)) = ceil_div (Z.of_nat (length rows)) c.
Proof.
  intros Hc. unfold chunked. rewrite chunks_of_count by lia. now rewrite Z2Nat.id by lia.
Qed.

Lemma combine_snoc {A B} (l1 : list A) (l2 : list B) (x : A) (y : B) :
  length l1 = length l2 -> combine (l1 ++ [x]) (l2 ++ [y]) = combine l1 l2 ++ [(x, y)].
Proof.
  revert l2. induction l1 as [|a l1 IH]; intros [|b l2] Hlen; try discriminate.
  - reflexivity.
  - cbn. f_equal. apply IH. now injection Hlen.
Qed.

Lemma numbered_snoc {A} (l : list A) (x : A) :
  numbered (l ++ [x]) = numbered l ++ [(Z.of_nat (length l) + 1, x)].
Proof.
  unfold numbered. rewrite length_app. cbn [length].
  replace (Z.of_nat (length l + 1)) with (Z.of_nat (length l) + 1) by lia.
  rewrite seqZ_snoc_one by lia.
  apply combine_snoc. rewrite length_seqZ. lia.
Qed.

Lemma length_snoc_Z {A} (l : list A) (x : A) :
  Z.of_nat (length (l ++ [x])) = Z.of_nat (length l) + 1.
Proof. rewrite length_app. cbn [length]. lia. Qed.

Lemma open_chunk_chunked (c : Z) (open : list row) :
  Z.of_nat (length open) < c -> chunked c open = open_chunk open.
Proof.
  intros Hlen. destruct open as [|x r]; [reflexivity|].
  apply chunked_short; [discriminate | lia].
Qed.

Lemma concat_open_chunk (open : list row) : concat (open_chunk open) = open.
Proof. destruct open; [reflexivity|]. cbn. now rewrite app_nil_r. Qed.

Lemma Forall_removelast {A} (P : A -> Prop) (l : list A) :
  Forall P l -> Forall P (removelast l).
Proof.
  induction 1 as [|x l Hx Hl IH]; [constructor|].
  cbn [removelast]. destruct l; [constructor|]. constructor; assumption.
Qed.

(** Full chunks followed by the rows of a shorter one are the cut of their
    rows. *)
Lemma cut_every_done_open (c : Z) (done : list (list row)) (open : list row) :
  0 < c ->
  Forall (fun ch => Z.of_nat (length ch) = c) done ->
  Z.of_nat (length open) < c ->
  cut_every c (concat done ++ open) (done ++ open_chunk open).
Proof.
  intros Hc Hdone Hopen. unfold cut_every. split; [|split].
  - now rewrite concat_app, concat_open_chunk.
  - destruct open as [|x o]; cbn [open_chunk].
    + rewrite app_nil_r. now apply Forall_removelast.
    + now rewrite removelast_last.
  - apply Forall_app. split.
    + eapply List.Forall_impl; [|exact Hdone]. intros ch Hch. cbn beta in Hch. lia.
    + destruct open as [|x o]; cbn [open_chunk]; constructor; [|constructor].
      cbn [length] in *. lia.
Qed.

(** The paths of the files written for chunks are those of their
    indices. *)
Lemma written_files_app (a b : list event) :
  written_files (a ++ b) = written_files a ++ written_files b.
Proof. unfold written_files. apply flat_map_app. Qed.

Lemma written_files_indexed {A} (mk : Z * A -> event) (path : Z -> string) :
  (forall ic, written_files [mk ic] = [path (fst ic)]) ->
  forall (l : list A) (idx : list Z),
    length idx = length l ->
    written_files (map mk (combine idx l)) = map path idx.
Proof.
  intros Hmk. induction l as [|x l IH]; intros [|i idx] Hlen; try discriminate.
  - reflexivity.
  - cbn [combine map]. change (mk (i, x) :: map mk (combine idx l))
      with ([mk (i, x)] ++ map mk (combine idx l)).
    rewrite written_files_app, Hmk, IH by now injection Hlen. reflexivity.
Qed.


Lemma written_files_parquet (temp_path schema table : string) (chunks : list (list row)) :
  written_files (parquet_events temp_path schema table chunks)
  = map (parquet_path temp_path schema table) (seqZ 1 (Z.of_nat (length chunks))).
Proof.
  unfold parquet_events, numbered. apply written_files_indexed.
  - intros ic. reflexivity.
  - rewrite length_seqZ. lia.
Qed.

End ChunkFacts.

Section ParquetFacts.
Import PyStr PyText Eff Model World Pipeline Spec Props.
Context (E : env) (temp_path schema table : string) (columns : list string) (chunk_size : Z).
Context (base : list event) (loaded : gset string).
Hypothesis chunk_size_pos : 0 < chunk_size.
Hypothesis frames : forall t path cols chunk, to_parquet E t path cols chunk = Ok tt.

Lemma fold_max_uniform (n : nat) (l : list nat) (acc : nat) :
  Forall (fun x => x = n) l ->
  fold_left Nat.max l acc = match l with [] => acc | _ => Nat.max acc n end.
Proof.
  intros Hl. revert acc. induction Hl as [|x l Hx Hl IH]; intros acc; [reflexivity|].
  subst x. cbn [fold_left]. rewrite IH. destruct l; lia.
Qed.

(** Rows with one value per column make a frame as wide as the columns. *)
Lemma widest_fits (chunk : list row) :
  chunk <> [] -> forallb (fits columns) chunk = true -> widest chunk = length columns.
Proof.
  intros Hne Hfit. unfold widest.
  rewrite (fold_max_uniform (length columns)).
  - destruct chunk; [contradiction | reflexivity].
  - rewrite forallb_forall in Hfit. apply List.Forall_forall. intros n Hn.
    apply in_map_iff in Hn. destruct Hn as [r [<- Hr]].
    apply Nat.eqb_eq. exact (Hfit r Hr).
Qed.

Lemma write_frame_ok (path : string) (chunk : list row) (s : pstate) :
  chunk <> [] -> forallb (fits columns) chunk = true ->
  write_frame E path columns chunk s
  = (Ok tt, on_world (fun w => advance (emit (EvWriteParquet path chunk) w)) s).
Proof.
  intros Hne Hfit. unfold write_frame.
  rewrite (widest_fits chunk Hne Hfit), Nat.eqb_refl. cbn [negb].
  now rewrite frames.
Qed.

(** Writing the open chunk when it holds [chunk_size] rows, or the rest
    after the loop. *)
Lemma pq_write_rel (st : pq_state) (s : pstate) (done : list (list row)) :
  pq_chunk_num st = Z.of_nat (length done) ->
  pq_files st = map (parquet_path temp_path schema table) (seqZ 1 (Z.of_nat (length done))) ->
  events (pworld s) = base ++ parquet_events temp_path schema table done ->
  loaded_files s = loaded ->
  pq_chunk_data st <> [] ->
  forallb (fits columns) (pq_chunk_data st) = true ->
  exists st' s',
    pq_write E temp_path schema table columns st s = (Ok st', s')
    /\ pq_chunk_num st' = Z.of_nat (length (done ++ [pq_chunk_data st]))
    /\ pq_files st' = map (parquet_path temp_path schema table)
                          (seqZ 1 (Z.of_nat (length (done ++ [pq_chunk_data st]))))
    /\ events (pworld s')
       = base ++ parquet_events temp_path schema table (done ++ [pq_chunk_data st])
    /\ loaded_files s' = loaded
    /\ pq_chunk_data st' = [].
Proof.
  intros Hnum Hfiles Hevents Hloaded Hne Hfit.
  unfold pq_write, bind. rewrite (write_frame_ok _ _ _ Hne Hfit). unfold ret.
  eexists _, _. split; [reflexivity|].
  cbn [pq_chunk_num pq_files pq_chunk_data on_world pworld loaded_files advance emit events].
  rewrite length_snoc_Z, Hnum.
  split; [reflexivity|]. split.
  { rewrite Hfiles, seqZ_snoc_one, map_app by lia. reflexivity. }
  split; [|split; [exact Hloaded | reflexivity]].
  rewrite Hevents, <- app_assoc. f_equal.
  unfold parquet_events. now rewrite numbered_snoc, map_app.
Qed.

(** The Parquet loop: the complete chunks and the open one are the chunks
    of what was open before followed by the rows of the loop. *)
Lemma pq_loop (rows : list row) (st : pq_state) (s : pstate) (done : list (list row)) :
  pq_rel temp_path schema table columns chunk_size base loaded st s done ->
  forallb (fits columns) rows = true ->
  exists st' s' done',
    for_fold (pq_step E temp_path schema table columns chunk_size) rows st s = (Ok st', s')
    /\ pq_rel temp_path schema table columns chunk_size base loaded st' s' done'
    /\ done' ++ open_chunk (pq_chunk_data st')
       = done ++ chunked chunk_size (pq_chunk_data st ++ rows).
Proof.
  revert st s done. induction rows as [|r rows IH]; intros st s done Hrel Hrows.
  - exists st, s, done. split; [reflexivity|]. split; [exact Hrel|]. rewrite app_nil_r.
    destruct Hrel as [_ [_ [_ [_ [Hopen _]]]]]. now rewrite open_chunk_chunked.
  - cbn [forallb] in Hrows. apply andb_prop in Hrows. destruct Hrows as [Hr Hrows].
    destruct Hrel as [Hnum [Hfiles [Hevents [Hloaded [Hopen [Hdone Hfit]]]]]].
    assert (Hfit1 : forallb (fits columns) (pq_chunk_data st ++ [r]) = true).
    { rewrite forallb_app, Hfit. cbn [forallb]. now rewrite Hr. }
    cbn [for_fold]. unfold bind at 1. unfold pq_step. cbn [pq_chunk_data].
    rewrite length_snoc_Z.
    destruct (chunk_size <=? Z.of_nat (length (pq_chunk_data st)) + 1) eqn:Hfull.
    + apply Z.leb_le in Hfull.
      assert (Hlen : Z.of_nat (length (pq_chunk_data st ++ [r])) = chunk_size)
        by (rewrite length_snoc_Z; lia).
      destruct (pq_write_rel
                  {| pq_chunk_num := pq_chunk_num st;
                     pq_chunk_data := pq_chunk_data st ++ [r];
                     pq_files := pq_files st |} s done Hnum Hfiles Hevents Hloaded)
        as [st1 [s1 [Hrun [Hnum1 [Hfiles1 [Hevents1 [Hloaded1 Hdata1]]]]]]].
      { cbn [pq_chunk_data]. now destruct (pq_chunk_data st). }
      { exact Hfit1. }
      rewrite Hrun. cbn [pq_chunk_data] in *.
      destruct (IH st1 s1 (done ++ [pq_chunk_data st ++ [r]])) as [st' [s' [done' [Hrun' [Hrel' Heq]]]]].
      { unfold pq_rel. rewrite Hdata1. cbn [length forallb].
        repeat split; try assumption; try lia.
        apply Forall_app. split; [exact Hdone|]. constructor; [exact Hlen | constructor]. }
      { exact Hrows. }
      exists st', s', done'. split; [exact Hrun'|]. split; [exact Hrel'|].
      rewrite Heq, Hdata1. cbn [app]. rewrite <- app_assoc. cbn [app]. f_equal.
      replace (pq_chunk_data st ++ r :: rows) with ((pq_chunk_data st ++ [r]) ++ rows)
        by now rewrite <- app_assoc.
      now rewrite chunked_full.
    + apply Z.leb_gt in Hfull. unfold ret.
      destruct (IH {| pq_chunk_num := pq_chunk_num st;
                      pq_chunk_data := pq_chunk_data st ++ [r];
                      pq_files := pq_files st |} s done)
        as [st' [s' [done' [Hrun' [Hrel' Heq]]]]].
      { unfold pq_rel. cbn [pq_chunk_num pq_chunk_data pq_files].
        rewrite length_snoc_Z. repeat split; try assumption; lia. }
      { exact Hrows. }
      exists st', s', done'. split; [exact Hrun'|]. split; [exact Hrel'|].
      rewrite Heq. cbn [pq_chunk_data]. now rewrite <- app_assoc.
Qed.

End ParquetFacts.

Section ParquetTheorems.
Import PyStr PyText Eff Model World Pipeline Spec Props.

(** What [extract_table_to_parquet] returns and leaves when the cursor ends
    without error, every row has one value per column and the files can be
    written. *)
Lemma parquet_extract_spec (E : env) (temp_path schema table : string)
    (columns : list string) (chunk_size : Z) (rows : list row) (s : pstate) :
  cursor_rows E schema table = (rows, None) ->
  0 < chunk_size ->
  forallb (fits columns) rows = true ->
  (forall t path cols chunk, to_parquet E t path cols chunk = Ok tt) ->
  exists s' chunks,
    extract_table_to_parquet E temp_path schema table columns chunk_size s
    = (Ok (map (parquet_path temp_path schema table) (seqZ 1 (Z.of_nat (length chunks)))), s')
    /\ events (pworld s')
       = (events (pworld s) ++ [EvSelect schema table]) ++
         parquet_events temp_path schema table chunks
    /\ loaded_files s' = loaded_files s
    /\ cut_every chunk_size rows chunks
    /\ Z.of_nat (length chunks) = ceil_div (Z.of_nat (length rows)) chunk_size.
Proof.
  intros Hcur Hpos Hfit Hframes.
  unfold extract_table_to_parquet, bind at 1, perform. rewrite Hcur. unfold bind at 1.
  match goal with
  | |- context [for_fold _ rows ?st0 ?s0] =>
      destruct (pq_loop E temp_path schema table columns chunk_size
                  (events (pworld s) ++ [EvSelect schema table]) (loaded_files s)
                  Hpos Hframes rows st0 s0 [])
        as [st [s1 [done [Hrun [[Hnum [Hfiles [Hevents [Hloaded [Hopen [Hdone Hfit1]]]]]] Heq]]]]]
  end.
  { unfold pq_rel. cbn. rewrite app_nil_r. repeat split; try lia. constructor. }
  { exact Hfit. }
  rewrite Hrun. cbn [pq_chunk_data app] in Heq.
  assert (Hrows : rows = concat done ++ pq_chunk_data st).
  { rewrite <- (chunked_concat chunk_size rows Hpos), <- Heq, concat_app.
    now rewrite concat_open_chunk. }
  assert (Hcount : Z.of_nat (length (done ++ open_chunk (pq_chunk_data st)))
                   = ceil_div (Z.of_nat (length rows)) chunk_size).
  { rewrite Heq. now apply chunked_count. }
  assert (Hcut : cut_every chunk_size rows (done ++ open_chunk (pq_chunk_data st))).
  { rewrite Hrows at 1. now apply cut_every_done_open. }
  destruct (pq_chunk_data st) as [|x open] eqn:Hdata.
  - cbn [open_chunk] in *. rewrite app_nil_r in *.
    unfold bind, ret. exists s1, done. cbn [pq_files].
    repeat split; try assumption; try apply Hcut. now rewrite Hfiles.
  - cbn [open_chunk] in *.
    destruct (pq_write_rel E temp_path schema table columns
                (events (pworld s) ++ [EvSelect schema table]) (loaded_files s) Hframes
                st s1 done Hnum Hfiles Hevents Hloaded)
      as [st' [s' [Hrun' [Hnum' [Hfiles' [Hevents' [Hloaded' _]]]]]]].
    { now rewrite Hdata. }
    { now rewrite Hdata. }
    rewrite Hdata in *.
    unfold bind. rewrite Hrun'. unfold ret.
    exists s', (done ++ [x :: open]).
    repeat split; try assumption; try apply Hcut. now rewrite Hfiles'.
Qed.

(** X9.  When the cursor of a table yields N rows, each with one value per
    column, and ends without error, the chunk size is positive and the
    Parquet files can be written, [extract_table_to_parquet] returns
    ceil(N / chunk_size) paths: those of the chunks 1, 2, ... in ascending
    order, each named <schema>_<table>_chunk_<index>.parquet in the scratch
    directory, the index zero-padded to four digits; these are the files it
    has written, in this order, and an empty table gives no file. *)
Theorem X9_parquet_chunk_files (E : env) (temp_path schema table : string)
    (columns : list string) (chunk_size : Z) (rows : list row) (s : pstate) :
  cursor_rows E schema table = (rows, None) ->
  0 < chunk_size ->
  forallb (fits columns) rows = true ->
  (forall t path cols chunk, to_parquet E t path cols chunk = Ok tt) ->
  let k := ceil_div (Z.of_nat (length rows)) chunk_size in
  let paths := map (fun i => path_join temp_path
                               (schema +:+ "_" +:+ table +:+ "_chunk_" +:+ pad4 i +:+ ".parquet"))
                   (seqZ 1 k) in
  let run := extract_table_to_parquet E temp_path schema table columns chunk_size s in
  fst run = Ok paths
  /\ written_files (events (pworld (snd run))) = written_files (events (pworld s)) ++ paths.
Proof.
  intros Hcur Hpos Hfit Hframes. cbv zeta.
  destruct (parquet_extract_spec E temp_path schema table columns chunk_size rows s
              Hcur Hpos Hfit Hframes)
    as [s' [chunks [Hrun [Hevents [_ [_ Hcount]]]]]].
  rewrite Hrun. cbn [fst snd]. rewrite Hcount. split; [reflexivity|].
  rewrite Hevents, !written_files_app, written_files_parquet, Hcount.
  cbn [written_files flat_map app]. now rewrite app_nil_r.
Qed.

(** X9 on 250,000 rows in chunks of 100,000, and on an empty table. *)
Lemma X9_witness_three_files :
  fst (extract_table_to_parquet (rows_env 250000) "/scratch" "s" "t" ["id"] 100000
         fresh_pipeline)
  = Ok [ "/scratch/s_t_chunk_0001.parquet"; "/scratch/s_t_chunk_0002.parquet";
         "/scratch/s_t_chunk_0003.parquet" ]
  /\
  fst (extract_table_to_parquet (rows_env 0) "/scratch" "s" "t" ["id"] 100000 fresh_pipeline)
  = Ok [].
Proof.
  split.
  - refine (eq_trans
      (proj1 (X9_parquet_chunk_files (rows_env 250000) "/scratch" "s" "t" ["id"] 100000
                (repeat [VNone] (Z.to_nat 250000)) fresh_pipeline _ _ _ _)) _).
    + reflexivity.
    + reflexivity.
    + vm_compute. reflexivity.
    + intros t path cols chunk. reflexivity.
    + rewrite repeat_length. vm_compute. reflexivity.
  - refine (eq_trans
      (proj1 (X9_parquet_chunk_files (rows_env 0) "/scratch" "s" "t" ["id"] 100000
                [] fresh_pipeline _ _ _ _)) _).
    + reflexivity.
    + reflexivity.
    + reflexivity.
    + intros t path cols chunk. reflexivity.
    + vm_compute. reflexivity.
Defined.

(** X10.  In the same situation the Parquet files hold the rows of the
    table, each row once and in the order of the cursor, cut every
    [chunk_size] rows: every row group but the last has exactly [chunk_size]
    rows, the last has what is left (at least one row), and the i-th group
    goes to the file of index i.  Besides the SELECT nothing else
    happens. *)
Theorem X10_parquet_files_hold_the_rows (E : env) (temp_path schema table : string)
    (columns : list string) (chunk_size : Z) (rows : list row) (s : pstate) :
  cursor_rows E schema table = (rows, None) ->
  0 < chunk_size ->
  forallb (fits columns) rows = true ->
  (forall t path cols chunk, to_parquet E t path cols chunk = Ok tt) ->
  let s' := snd (extract_table_to_parquet E temp_path schema table columns chunk_size s) in
  exists chunks,
    events (pworld s')
    = events (pworld s) ++ [EvSelect schema table] ++
      parquet_events temp_path schema table chunks
    /\ cut_every chunk_size rows chunks
    /\ parquet_chunks (events (pworld s')) = parquet_chunks (events (pworld s)) ++ chunks
    /\ loaded_files s' = loaded_files s.
Proof.
  intros Hcur Hpos Hfit Hframes. cbv zeta.
  destruct (parquet_extract_spec E temp_path schema table columns chunk_size rows s
              Hcur Hpos Hfit Hframes)
    as [s' [chunks [Hrun [Hevents [Hloaded [Hcut _]]]]]].
  rewrite Hrun. cbn [snd]. exists chunks.
  split; [now rewrite Hevents, <- app_assoc|].
  split; [exact Hcut|].
  split; [|exact Hloaded].
  rewrite Hevents. unfold parquet_chunks. rewrite !flat_map_app. cbn [flat_map app].
  rewrite app_nil_r. f_equal.
  unfold parquet_events, numbered.
  assert (Hgen : forall (chs : list (list row)) (idx : list Z),
             length idx = length chs ->
             flat_map (fun e => match e with EvWriteParquet _ d => [d] | _ => [] end)
               (map (fun ic => EvWriteParquet (parquet_path temp_path schema table (fst ic))
                                              (snd ic)) (combine idx chs)) = chs).
  { induction chs as [|ch chs IH]; intros [|i idx] Hlen; try discriminate.
    - reflexivity.
    - cbn. f_equal. apply IH. now injection Hlen. }
  apply Hgen. rewrite length_seqZ. lia.
Qed.

(** X10 on three rows in chunks of two: a file of two rows, then a file
    of one. *)
Lemma X10_witness_two_files :
  let E := loader_env three_rows_loaded in
  let s' := snd (extract_table_to_parquet E "/scratch" "s" "t" ["id"] 2 fresh_pipeline) in
  events (pworld s')
  = [ EvSelect "s" "t";
      EvWriteParquet "/scratch/s_t_chunk_0001.parquet" [[VOther "1"]; [VOther "2"]];
      EvWriteParquet "/scratch/s_t_chunk_0002.parquet" [[VOther "3"]] ]
  /\ exists chunks,
       events (pworld s') = [] ++ [EvSelect "s" "t"] ++ parquet_events "/scratch" "s" "t" chunks
       /\ cut_every 2 [[VOther "1"]; [VOther "2"]; [VOther "3"]] chunks
       /\ parquet_chunks (events (pworld s')) = [] ++ chunks
       /\ loaded_files s' = ∅.
Proof.
  cbv zeta. split; [vm_compute; reflexivity|].
  exact (X10_parquet_files_hold_the_rows (loader_env three_rows_loaded) "/scratch" "s" "t"
           ["id"] 2 [[VOther "1"]; [VOther "2"]; [VOther "3"]] fresh_pipeline
           eq_refl eq_refl eq_refl (fun _ _ _ _ => eq_refl)).
Defined.

End ParquetTheorems.

Section CsvFacts.
Import PyStr PyText Eff Model World Pipeline Spec Props.
Context (E : env) (temp_path schema table : string) (columns : list string) (chunk_size : Z).
Context (base : list event) (loaded : gset string).
Hypothesis chunk_size_pos : 0 < chunk_size.
Hypothesis writes : forall t path text, gzip_write E t path text = Ok tt.

Lemma concat_strs_snoc (l : list string) (x : string) :
  Generator.concat_strs (l ++ [x]) = Generator.concat_strs l +:+ x.
Proof.
  unfold Generator.concat_strs. induction l as [|y l IH]; cbn [app fold_right].
  - now rewrite str_app_nil_r, str_app_nil_l.
  - now rewrite IH, str_app_assoc.
Qed.

Lemma csv_text_nil : csv_text columns [] = join "," columns +:+ nl.
Proof. unfold csv_text. cbn. now rewrite str_app_nil_r. Qed.

Lemma csv_text_snoc (open : list row) (r : row) :
  csv_text columns (open ++ [r]) = csv_text columns open +:+ csv_row r.
Proof.
  unfold csv_text. rewrite map_app. cbn [map].
  now rewrite concat_strs_snoc, !str_app_assoc.
Qed.

(** A row that encodes gives its line. *)
Lemma row_data_encodes (r : row) : encodes r = true -> row_data r = Ok (map cell r).
Proof.
  unfold encodes. induction r as [|v r IH]; intros Hr; [reflexivity|].
  cbn [forallb] in Hr. apply andb_prop in Hr. destruct Hr as [Hv Hr].
  cbn [row_data map]. rewrite (IH Hr).
  destruct v as [|[dumped|e]| |]; try reflexivity. discriminate.
Qed.

Lemma csv_line_encodes (r : row) : encodes r = true -> csv_line r = Ok (csv_row r).
Proof. intros Hr. unfold csv_line. now rewrite (row_data_encodes r Hr). Qed.

Lemma write_gz_ok (path text : string) (s : pstate) :
  write_gz E path text s
  = (Ok tt, on_world (fun w => advance (emit (EvWriteCsv path text) w)) s).
Proof. unfold write_gz. now rewrite writes. Qed.

(** Writing the file of the chunk [chunk], the next after [done]. *)
Lemma csv_write_rel (fs : list string) (s : pstate) (done : list (list row))
    (chunk : list row) :
  fs = map (chunk_path temp_path schema table) (seqZ 1 (Z.of_nat (length done))) ->
  events (pworld s) = base ++ csv_events temp_path schema table columns done ->
  loaded_files s = loaded ->
  let path := chunk_path temp_path schema table (Z.of_nat (length done) + 1) in
  let s' := on_world (fun w => advance (emit (EvWriteCsv path (csv_text columns chunk)) w)) s in
  fs ++ [path] = map (chunk_path temp_path schema table)
                     (seqZ 1 (Z.of_nat (length (done ++ [chunk]))))
  /\ events (pworld s') = base ++ csv_events temp_path schema table columns (done ++ [chunk])
  /\ loaded_files s' = loaded.
Proof.
  intros Hfiles Hevents Hloaded. cbv zeta.
  cbn [on_world pworld loaded_files advance emit events].
  rewrite length_snoc_Z. split; [|split; [|exact Hloaded]].
  - rewrite Hfiles, seqZ_snoc_one, map_app by lia. reflexivity.
  - rewrite Hevents, <- app_assoc. f_equal.
    unfold csv_events. now rewrite numbered_snoc, map_app.
Qed.

(** One round of the CSV loop on a row that encodes: the row joins the open
    chunk, and completes it when it is the [chunk_size]-th. *)
Lemma csv_round (st : csv_state) (s : pstate) (done : list (list row))
    (open : list row) (r : row) :
  csv_rel temp_path schema table columns chunk_size base loaded st s done open ->
  encodes r = true ->
  exists st' s' done' open',
    csv_step E temp_path schema table columns chunk_size st r s = (Ok st', s')
    /\ csv_rel temp_path schema table columns chunk_size base loaded st' s' done' open'
    /\ forall rows, done' ++ chunked chunk_size (open' ++ rows)
                    = done ++ chunked chunk_size (open ++ r :: rows).
Proof.
  intros [Hfiles [Hevents [Hloaded [Hopen [Hdone Hstate]]]]] Hr.
  unfold csv_step. rewrite (csv_line_encodes r Hr).
  assert (Hlen : Z.of_nat (length (open ++ [r])) = Z.of_nat (length open) + 1)
    by apply length_snoc_Z.
  destruct (csv_write_rel (files st) s done (open ++ [r]) Hfiles Hevents Hloaded)
    as [Hf [He Hl]].
  assert (Hfull_case :
    chunk_size <= Z.of_nat (length open) + 1 ->
    csv_rel temp_path schema table columns chunk_size base loaded
      {| chunk_num := Z.of_nat (length done) + 1;
         rows_in_chunk := Z.of_nat (length open) + 1;
         current_file := None; current_buffer := None;
         files := files st ++ [chunk_path temp_path schema table (Z.of_nat (length done) + 1)] |}
      (on_world (fun w => advance (emit (EvWriteCsv
                                           (chunk_path temp_path schema table
                                              (Z.of_nat (length done) + 1))
                                           (csv_text columns (open ++ [r]))) w)) s)
      (done ++ [open ++ [r]]) []
    /\ forall rows, (done ++ [open ++ [r]]) ++ chunked chunk_size ([] ++ rows)
                    = done ++ chunked chunk_size (open ++ r :: rows)).
  { intros Hfull. split.
    - unfold csv_rel. cbn [current_buffer current_file rows_in_chunk chunk_num files length].
      split; [exact Hf|]. split; [exact He|]. split; [exact Hl|].
      split; [lia|]. split.
      + apply Forall_app. split; [exact Hdone|]. constructor; [lia | constructor].
      + split; [reflexivity|]. rewrite length_snoc_Z. lia.
    - intros rows. rewrite <- app_assoc. cbn [app]. f_equal.
      replace (open ++ r :: rows) with ((open ++ [r]) ++ rows) by (now rewrite <- app_assoc).
      symmetry. apply chunked_full; [exact chunk_size_pos | lia]. }
  assert (Hopen_case :
    Z.of_nat (length open) + 1 < chunk_size ->
    csv_rel temp_path schema table columns chunk_size base loaded
      {| chunk_num := Z.of_nat (length done) + 1;
         rows_in_chunk := Z.of_nat (length open) + 1;
         current_file := Some (chunk_path temp_path schema table (Z.of_nat (length done) + 1));
         current_buffer := Some (csv_text columns (open ++ [r]));
         files := files st |} s done (open ++ [r])
    /\ forall rows, done ++ chunked chunk_size ((open ++ [r]) ++ rows)
                    = done ++ chunked chunk_size (open ++ r :: rows)).
  { intros Hfull. split.
    - unfold csv_rel. cbn [current_buffer current_file rows_in_chunk chunk_num files].
      split; [exact Hfiles|]. split; [exact Hevents|]. split; [exact Hloaded|].
      split; [lia|]. split; [exact Hdone|].
      destruct (open ++ [r]) as [|y l] eqn:Hol; [destruct open; discriminate|].
      rewrite <- Hol. repeat split. rewrite length_snoc_Z. lia.
    - intros rows. now rewrite <- app_assoc. }
  destruct open as [|x o].
  - destruct Hstate as [Hbuf Hnum]. rewrite Hbuf.
    cbn -[chunked chunk_path csv_text csv_events Z.add Z.leb write_gz csv_row csv_rel].
    rewrite Hnum, Z.add_0_l, <- csv_text_nil, <- (csv_text_snoc [] r).
    cbn [app length] in *. change (Z.of_nat 0 + 1) with 1 in *.
    destruct (chunk_size <=? 1) eqn:Hfull.
    + apply Z.leb_le in Hfull. unfold bind. rewrite write_gz_ok. unfold ret.
      eexists _, _, (done ++ [[r]]), []. split; [reflexivity|].
      exact (Hfull_case Hfull).
    + apply Z.leb_gt in Hfull. unfold ret.
      eexists _, _, done, [r]. split; [reflexivity|].
      exact (Hopen_case Hfull).
  - destruct Hstate as [Hbuf [Hfile [Hrows Hnum]]]. rewrite Hbuf.
    cbn -[chunked chunk_path csv_text csv_events Z.add Z.leb Z.of_nat length write_gz
          csv_row csv_rel app].
    rewrite Hrows, Hfile, Hbuf, Hnum. cbn [of_opt].
    rewrite <- (csv_text_snoc (x :: o) r).
    destruct (chunk_size <=? Z.of_nat (length (x :: o)) + 1) eqn:Hfull.
    + apply Z.leb_le in Hfull. unfold bind. rewrite write_gz_ok. unfold ret.
      eexists _, _, (done ++ [(x :: o) ++ [r]]), []. split; [reflexivity|].
      exact (Hfull_case Hfull).
    + apply Z.leb_gt in Hfull. unfold ret.
      eexists _, _, done, ((x :: o) ++ [r]). split; [reflexivity|].
      exact (Hopen_case Hfull).
Qed.

(** The CSV loop over rows that encode: the complete chunks and the open one
    are the chunks of what was open before followed by the rows of the
    loop. *)
Lemma csv_loop (rows : list row) (st : csv_state) (s : pstate)
    (done : list (list row)) (open : list row) :
  csv_rel temp_path schema table columns chunk_size base loaded st s done open ->
  forallb encodes rows = true ->
  exists st' s' done' open',
    for_fold (csv_step E temp_path schema table columns chunk_size) rows st s = (Ok st', s')
    /\ csv_rel temp_path schema table columns chunk_size base loaded st' s' done' open'
    /\ done' ++ open_chunk open' = done ++ chunked chunk_size (open ++ rows).
Proof.
  revert st s done open. induction rows as [|r rows IH]; intros st s done open Hrel Hrows.
  - exists st, s, done, open. split; [reflexivity|]. split; [exact Hrel|].
    rewrite app_nil_r. destruct Hrel as [_ [_ [_ [Hopen _]]]].
    now rewrite (open_chunk_chunked chunk_size).
  - cbn [forallb] in Hrows. apply andb_prop in Hrows. destruct Hrows as [Hr Hrows].
    destruct (csv_round st s done open r Hrel Hr) as [st1 [s1 [done1 [open1 [Hrun1 [Hrel1 Heq1]]]]]].
    destruct (IH st1 s1 done1 open1 Hrel1 Hrows) as [st' [s' [done' [open' [Hrun' [Hrel' Heq']]]]]].
    exists st', s', done', open'. cbn [for_fold]. unfold bind. rewrite Hrun1.
    split; [exact Hrun'|]. split; [exact Hrel'|]. now rewrite Heq', Heq1.
Qed.

End CsvFacts.

Section CsvTheorems.
Import PyStr PyText Eff Model World Pipeline Spec Props.

(** The loop of [extract_table_to_csv] from its start, over rows that
    encode, with files that can be written: the rows are so many full
    chunks, written, and a shorter rest in the buffer. *)
Lemma csv_rows_read (E : env) (temp_path schema table : string)
    (columns : list string) (chunk_size : Z) (rows : list row) (s : pstate) :
  0 < chunk_size ->
  forallb encodes rows = true ->
  (forall t path text, gzip_write E t path text = Ok tt) ->
  exists st s' done open,
    for_fold (csv_step E temp_path schema table columns chunk_size) rows csv_init
      (on_world (fun w => advance (emit (EvSelect schema table) w)) s) = (Ok st, s')
    /\ csv_rel temp_path schema table columns chunk_size
         (events (pworld s) ++ [EvSelect schema table]) (loaded_files s) st s' done open
    /\ rows = concat done ++ open
    /\ done ++ open_chunk open = chunked chunk_size rows.
Proof.
  intros Hpos Hrows Hwrites.
  destruct (csv_loop E temp_path schema table columns chunk_size
              (events (pworld s) ++ [EvSelect schema table]) (loaded_files s)
              Hpos Hwrites rows csv_init
              (on_world (fun w => advance (emit (EvSelect schema table) w)) s) [] [])
    as [st [s' [done [open [Hrun [Hrel Heq]]]]]].
  { unfold csv_rel. cbn. rewrite app_nil_r. repeat split; try lia. constructor. }
  { exact Hrows. }
  cbn [app] in Heq. exists st, s', done, open.
  split; [exact Hrun|]. split; [exact Hrel|]. split; [|exact Heq].
  rewrite <- (chunked_concat chunk_size rows Hpos), <- Heq, concat_app.
  now rewrite concat_open_chunk.
Qed.

(** What [extract_table_to_csv] returns and leaves when the cursor ends
    without error, every row encodes and the files can be written. *)
Lemma csv_extract_spec (E : env) (temp_path schema table : string)
    (columns : list string) (chunk_size : Z) (rows : list row) (s : pstate) :
  cursor_rows E schema table = (rows, None) ->
  0 < chunk_size ->
  forallb encodes rows = true ->
  (forall t path text, gzip_write E t path text = Ok tt) ->
  exists s' chunks,
    extract_table_to_csv E temp_path schema table columns chunk_size s
    = (Ok (map (chunk_path temp_path schema table) (seqZ 1 (Z.of_nat (length chunks)))), s')
    /\ events (pworld s')
       = (events (pworld s) ++ [EvSelect schema table]) ++
         csv_events temp_path schema table columns chunks
    /\ loaded_files s' = loaded_files s
    /\ cut_every chunk_size rows chunks
    /\ Z.of_nat (length chunks) = ceil_div (Z.of_nat (length rows)) chunk_size.
Proof.
  intros Hcur Hpos Hrows Hwrites.
  unfold extract_table_to_csv, bind at 1, perform. rewrite Hcur. unfold bind at 1.
  destruct (csv_rows_read E temp_path schema table columns chunk_size rows s
              Hpos Hrows Hwrites)
    as [st [s1 [done [open [Hrun [[Hfiles [Hevents [Hloaded [Hopen [Hdone Hstate]]]]]
                                    [Hcat Heq]]]]]]].
  rewrite Hrun.
  assert (Hcount : Z.of_nat (length (done ++ open_chunk open))
                   = ceil_div (Z.of_nat (length rows)) chunk_size).
  { rewrite Heq. now apply chunked_count. }
  assert (Hcut : cut_every chunk_size rows (done ++ open_chunk open)).
  { rewrite Hcat at 1. now apply cut_every_done_open. }
  unfold csv_flush. destruct open as [|x o].
  - destruct Hstate as [Hbuf _]. rewrite Hbuf.
    cbn [open_chunk] in *. rewrite app_nil_r in *.
    unfold bind, ret. exists s1, done.
    repeat split; try assumption; try apply Hcut. now rewrite Hfiles.
  - destruct Hstate as [Hbuf [Hfile [Hnrows _]]]. rewrite Hbuf, Hnrows.
    assert (Hgt : (0 <? Z.of_nat (length (x :: o))) = true)
      by (apply Z.ltb_lt; cbn [length]; lia).
    rewrite Hgt. cbn [open_chunk] in *.
    unfold bind. rewrite write_gz_ok by exact Hwrites. unfold ret.
    rewrite Hfile. cbn [of_opt files].
    destruct (csv_write_rel temp_path schema table columns
                (events (pworld s) ++ [EvSelect schema table]) (loaded_files s)
                (files st) s1 done (x :: o) Hfiles Hevents Hloaded)
      as [Hf [He Hl]].
    eexists _, (done ++ [x :: o]).
    split; [now rewrite Hf|].
    repeat split; try assumption; apply Hcut.
Qed.



(** X11.  When the cursor ends without error, the chunk size is positive,
    every row encodes and the chunk files can be written, the CSV files of
    a table hold its rows, each row once and in the order of the cursor, cut
    every [chunk_size] rows: every file but the last holds exactly
    [chunk_size] rows and the last one what is left (at least one row).  The
    file of index i is the header line (the column names joined by commas)
    followed by the lines of the rows of the i-th chunk; there are
    ceil(N / chunk_size) files, and besides the SELECT nothing else
    happens. *)
Theorem X11_csv_files_hold_the_rows (E : env) (temp_path schema table : string)
    (columns : list string) (chunk_size : Z) (rows : list row) (s : pstate) :
  cursor_rows E schema table = (rows, None) ->
  0 < chunk_size ->
  forallb encodes rows = true ->
  (forall t path text, gzip_write E t path text = Ok tt) ->
  let s' := snd (extract_table_to_csv E temp_path schema table columns chunk_size s) in
  exists chunks,
    events (pworld s')
    = events (pworld s) ++ [EvSelect schema table] ++
      csv_events temp_path schema table columns chunks
    /\ cut_every chunk_size rows chunks
    /\ Z.of_nat (length chunks) = ceil_div (Z.of_nat (length rows)) chunk_size
    /\ loaded_files s' = loaded_files s.
Proof.
  intros Hcur Hpos Hrows Hwrites. cbv zeta.
  destruct (csv_extract_spec E temp_path schema table columns chunk_size rows s
              Hcur Hpos Hrows Hwrites)
    as [s' [chunks [Hrun [Hevents [Hloaded [Hcut Hcount]]]]]].
  rewrite Hrun. cbn [snd]. exists chunks.
  split; [now rewrite Hevents, <- app_assoc|].
  split; [exact Hcut|]. split; [exact Hcount | exact Hloaded].
Qed.

(** X11 on three rows in chunks of two. *)
Lemma X11_witness_two_files :
  let E := loader_env three_rows_loaded in
  let s' := snd (extract_table_to_csv E "/scratch" "s" "t" ["id"] 2 fresh_pipeline) in
  events (pworld s')
  = [ EvSelect "s" "t";
      EvWriteCsv "/scratch/s_t_chunk_0001.csv.gz" ("id" +:+ nl +:+ "1" +:+ nl +:+ "2" +:+ nl);
      EvWriteCsv "/scratch/s_t_chunk_0002.csv.gz" ("id" +:+ nl +:+ "3" +:+ nl) ]
  /\ exists chunks,
       events (pworld s')
       = [] ++ [EvSelect "s" "t"] ++ csv_events "/scratch" "s" "t" ["id"] chunks
       /\ cut_every 2 [[VOther "1"]; [VOther "2"]; [VOther "3"]] chunks
       /\ Z.of_nat (length chunks) = ceil_div 3 2
       /\ loaded_files s' = ∅.
Proof.
  cbv zeta. split; [vm_compute; reflexivity|].
  exact (X11_csv_files_hold_the_rows (loader_env three_rows_loaded) "/scratch" "s" "t"
           ["id"] 2 [[VOther "1"]; [VOther "2"]; [VOther "3"]] fresh_pipeline
           eq_refl eq_refl eq_refl (fun _ _ _ => eq_refl)).
Defined.

(** X12.  When the cursor fails after some rows (each of which encodes, and
    the chunk files can be written), [extract_table_to_csv] raises the same
    error and returns no path, but the chunks that were complete by then
    have been written: the rows before the error are so many full chunks,
    which are on disk, and a rest shorter than a chunk, which is not. *)
Theorem X12_csv_error_leaves_full_chunks (E : env) (temp_path schema table : string)
    (columns : list string) (chunk_size : Z) (rows : list row) (e : string) (s : pstate) :
  cursor_rows E schema table = (rows, Some e) ->
  0 < chunk_size ->
  forallb encodes rows = true ->
  (forall t path text, gzip_write E t path text = Ok tt) ->
  let out := extract_table_to_csv E temp_path schema table columns chunk_size s in
  fst out = Raise e
  /\ exists done rest,
       rows = concat done ++ rest
       /\ Forall (fun ch => Z.of_nat (length ch) = chunk_size) done
       /\ Z.of_nat (length rest) < chunk_size
       /\ events (pworld (snd out))
          = events (pworld s) ++ [EvSelect schema table] ++
            csv_events temp_path schema table columns done.
Proof.
  intros Hcur Hpos Hrows Hwrites. cbv zeta.
  destruct (csv_rows_read E temp_path schema table columns chunk_size rows s
              Hpos Hrows Hwrites)
    as [st [s1 [done [open [Hrun [[Hfiles [Hevents [Hloaded [Hopen [Hdone Hstate]]]]]
                                    [Hcat Heq]]]]]]].
  assert (Hout : extract_table_to_csv E temp_path schema table columns chunk_size s
                 = (Raise e, s1)).
  { unfold extract_table_to_csv, bind at 1, perform. rewrite Hcur. unfold bind at 1.
    rewrite Hrun. reflexivity. }
  rewrite Hout. cbn [fst snd].
  split; [reflexivity|].
  exists done, open. split; [exact Hcat|].
  split; [exact Hdone|]. split; [exact Hopen|].
  now rewrite Hevents, <- app_assoc.
Qed.

(** A cursor that yields three rows and then loses the connection. *)
Lemma X12_witness_lost_connection :
  let E := {| cursor_rows := fun _ _ => ([[VOther "1"]; [VOther "2"]; [VOther "3"]],
                                          Some "server closed the connection unexpectedly");
              gzip_write := fun _ _ _ => Ok tt;
              to_parquet := fun _ _ _ _ => Ok tt;
              put_result := fun _ _ => Ok tt;
              copy_result := fun _ _ _ => CopyOk [] 0;
              pg_connect := fun _ => Ok tt; sf_connect := fun _ => Ok tt;
              ddl_result := fun _ => Ok tt; write_result := fun _ _ => Ok tt;
              isoformat := fun _ => ""; elapsed_ms := fun _ _ => 0;
              analyze_result := fun _ => Raise "no analysis";
              validate_table_result := fun _ _ _ => [];
              uuid4 := "" |} in
  let out := extract_table_to_csv E "/scratch" "s" "t" ["id"] 2 fresh_pipeline in
  fst out = Raise "server closed the connection unexpectedly"
  /\ events (pworld (snd out))
     = [ EvSelect "s" "t";
         EvWriteCsv "/scratch/s_t_chunk_0001.csv.gz"
                    ("id" +:+ nl +:+ "1" +:+ nl +:+ "2" +:+ nl) ].
Proof.
  cbv zeta.
  match goal with
  | |- fst (extract_table_to_csv ?E _ _ _ _ _ _) = _ /\ _ =>
      destruct (X12_csv_error_leaves_full_chunks E "/scratch" "s" "t" ["id"] 2
                  [[VOther "1"]; [VOther "2"]; [VOther "3"]]
                  "server closed the connection unexpectedly" fresh_pipeline
                  eq_refl eq_refl eq_refl (fun _ _ _ => eq_refl)) as [Hraise _]
  end.
  split; [exact Hraise | vm_compute; reflexivity].
Defined.

End CsvTheorems.

Section LoaderFacts.
Import PyStr Eff Model World Pipeline Spec.
Context (E : env).

Lemma successes_app (f : string) (a b : list load_result) :
  successes f (a ++ b) = (successes f a + successes f b)%nat.
Proof. unfold successes. now rewrite List.filter_app, length_app. Qed.

Lemma copy_rel_refl (s : pstate) : copy_rel s [] s.
Proof. split; intros f; [reflexivity | reflexivity]. Qed.

Lemma loaded_ind_le_1 (f : string) (s : pstate) : (loaded_ind f s <= 1)%nat.
Proof. unfold loaded_ind. case_bool_decide; lia. Qed.

Lemma loaded_ind_in (f : string) (s : pstate) :
  f ∈ loaded_files s <-> loaded_ind f s = 1%nat.
Proof. unfold loaded_ind. case_bool_decide; split; intros; (done || lia). Qed.

Lemma loaded_ind_out (f : string) (s : pstate) :
  f ∉ loaded_files s -> loaded_ind f s = 0%nat.
Proof. intros H. unfold loaded_ind. now rewrite bool_decide_eq_false_2. Qed.

Lemma loaded_ind_added (f : string) (s : pstate) : loaded_ind f (add_loaded f s) = 1%nat.
Proof.
  unfold loaded_ind, add_loaded. cbn.
  rewrite bool_decide_eq_true_2; [reflexivity|]. apply elem_of_union_l, elem_of_singleton.
  reflexivity.
Qed.

Lemma loaded_ind_added_other (f g : string) (s : pstate) :
  g <> f -> loaded_ind f (add_loaded g s) = loaded_ind f s.
Proof.
  intros Hne. unfold loaded_ind, add_loaded. cbn.
  rewrite (bool_decide_ext (f ∈ {[g]} ∪ loaded_files s) (f ∈ loaded_files s));
    [reflexivity|].
  rewrite elem_of_union, elem_of_singleton.
  split; [intros [->|H]; [contradiction | exact H] | auto].
Qed.

Lemma loaded_ind_same (f : string) (s s' : pstate) :
  loaded_files s' = loaded_files s -> loaded_ind f s' = loaded_ind f s.
Proof. intros H. unfold loaded_ind. now rewrite H. Qed.

(** The relation composes along the rounds of a loop. *)
Lemma copy_rel_trans (s1 s2 s3 : pstate) (a b : list load_result) :
  copy_rel s1 a s2 -> copy_rel s2 b s3 -> copy_rel s1 (a ++ b) s3.
Proof.
  intros [Ha1 Ha2] [Hb1 Hb2]. split.
  - intros f. rewrite successes_app. specialize (Ha1 f). specialize (Hb1 f). lia.
  - intros f Hf. rewrite Hb2, Ha2; trivial.
    apply loaded_ind_in. apply loaded_ind_in in Hf.
    specialize (Ha1 f). pose proof (loaded_ind_le_1 f s2). lia.
Qed.

(** The body of [copy_into_table] never raises, so the retry decorator
    returns what its first attempt returns. *)
Lemma copy_into_table_first_attempt (schema table stage f fmt : string)
    (columns : list string) (s : pstate) :
  copy_into_table E schema table stage f fmt columns s
  = copy_attempt E schema table stage f fmt columns s.
Proof.
  unfold copy_into_table, retry, try_except.
  unfold copy_attempt, bind, perform.
  destruct (copy_result E _ _ _); reflexivity.
Qed.

(** One COPY: a record for the file, success or failed, one COPY event, and
    [loaded_files] untouched. *)
Lemma copy_attempt_spec (schema table stage f fmt : string) (columns : list string)
    (s : pstate) :
  exists result s',
    copy_attempt E schema table stage f fmt columns s = (Ok result, s') /\
    lr_file result = f /\
    (lr_status result = "success" \/ lr_status result = "failed") /\
    loaded_files s' = loaded_files s /\
    events (pworld s') = events (pworld s) ++ [EvCopy (schema +:+ "." +:+ table) f].
Proof.
  unfold copy_attempt, bind, perform.
  destruct (copy_result E _ _ _); eexists; eexists; (split; [reflexivity|]); cbn; auto.
Qed.

Lemma copies_of_snoc_other (f g t : string) (s s' : pstate) :
  events (pworld s') = events (pworld s) ++ [EvCopy t g] -> g <> f ->
  copies_of f s' = copies_of f s.
Proof.
  intros Hev Hne. unfold copies_of. rewrite Hev, List.filter_app, length_app. cbn.
  destruct (String.eqb_spec g f); [contradiction | cbn; lia].
Qed.

(** One round of the COPY loop. *)
Lemma copy_round_spec (cfg : SnowflakeConfig) (schema table : string)
    (columns : list string) (f0 : string) (s : pstate) :
  exists out s',
    copy_round E cfg schema table columns f0 s = (Ok out, s') /\ copy_rel s out s'.
Proof.
  unfold copy_round, bind, get. cbn [fst snd].
  case_bool_decide as Hin.
  - exists [], s. split; [reflexivity | apply copy_rel_refl].
  - rewrite copy_into_table_first_attempt.
    destruct (copy_attempt_spec schema table (sf_stage cfg) f0 (sf_file_format cfg) columns s)
      as [result [s1 [Hrun [Hfile [Hstatus [Hloaded Hev]]]]]].
    rewrite Hrun.
    assert (Hcopies : forall f, f ∈ loaded_files s -> copies_of f s1 = copies_of f s).
    { intros f Hf. eapply copies_of_snoc_other; [exact Hev|]. intros ->. contradiction. }
    destruct Hstatus as [Hst|Hst]; rewrite Hst; cbn [String.eqb Ascii.eqb Bool.eqb].
    + unfold modify, ret. eexists; eexists; split; [reflexivity|]. split.
      * intros f. unfold successes, is_success_for. cbn [List.filter].
        rewrite Hfile, Hst.
        destruct (String.eqb_spec f0 f) as [->|Hne]; cbn.
        -- now rewrite loaded_ind_added, loaded_ind_out.
        -- rewrite loaded_ind_added_other by exact Hne. now apply loaded_ind_same.
      * intros f Hf. cbn. unfold copies_of in *. cbn. now apply Hcopies.
    + unfold ret. eexists; eexists; split; [reflexivity|]. split.
      * intros f. unfold successes, is_success_for. cbn [List.filter].
        rewrite Hst, andb_false_r. cbn. now apply loaded_ind_same.
      * exact Hcopies.
Qed.

(** The COPY loop of [load_table]. *)
Lemma copy_loop_spec (cfg : SnowflakeConfig) (schema table : string)
    (columns : list string) (staged : list string) (s : pstate) :
  exists outs s',
    for_each (copy_round E cfg schema table columns) staged s = (Ok outs, s') /\
    copy_rel s (concat outs) s'.
Proof.
  revert s. induction staged as [|f0 staged IH]; intros s; cbn [for_each].
  - exists [], s. split; [reflexivity | apply copy_rel_refl].
  - destruct (copy_round_spec cfg schema table columns f0 s) as [out [s1 [Hr Hrel1]]].
    destruct (IH s1) as [outs [s2 [Hl Hrel2]]].
    exists (out :: outs), s2. unfold bind. rewrite Hr, Hl. split; [reflexivity|].
    cbn [concat]. eapply copy_rel_trans; eauto.
Qed.

Lemma upload_rel_refl (s : pstate) : upload_rel s s.
Proof. split; [reflexivity | intros; reflexivity]. Qed.

Lemma upload_rel_trans (s1 s2 s3 : pstate) :
  upload_rel s1 s2 -> upload_rel s2 s3 -> upload_rel s1 s3.
Proof. intros [H1 H2] [H3 H4]. split; [congruence | intros f; rewrite H4; apply H2]. Qed.

Lemma upload_attempt_rel (file_path stage : string) (s : pstate) :
  upload_rel s (snd (upload_attempt E file_path stage s)).
Proof.
  unfold upload_attempt, bind, perform.
  destruct (put_result E _ _); cbn; (split; [reflexivity|]);
    intros f; unfold copies_of; cbn; rewrite List.filter_app, length_app; cbn; lia.
Qed.

Lemma retry_upload_rel (n : nat) (file_path stage : string) (s : pstate) :
  upload_rel s (snd (retry n (upload_attempt E file_path stage) s)).
Proof.
  revert s. induction n as [|n IH]; intros s; cbn [retry].
  - apply upload_rel_refl.
  - unfold try_except. pose proof (upload_attempt_rel file_path stage s) as H1.
    destruct (upload_attempt E file_path stage s) as [[name|e] s1]; cbn [snd] in *.
    + exact H1.
    + eapply upload_rel_trans; [exact H1 | apply IH].
Qed.

(** One round of the upload loop: it never raises, and a failed upload is
    recorded with the status [upload_failed]. *)
Lemma upload_round_spec (cfg : SnowflakeConfig) (schema table file_path : string)
    (s : pstate) :
  exists x s',
    upload_round E cfg schema table file_path s = (Ok x, s') /\ upload_rel s s' /\
    match x with
    | inl _ => True
    | inr r => lr_status r = "upload_failed"
    end.
Proof.
  unfold upload_round, try_except, bind, upload_file_to_stage.
  pose proof (retry_upload_rel 3 file_path (sf_stage cfg) s) as Hrel.
  destruct (retry 3 (upload_attempt E file_path (sf_stage cfg)) s) as [[name|e] s1];
    cbn [snd] in Hrel; unfold ret; eexists; eexists; (split; [reflexivity|]); split;
    trivial.
Qed.

Lemma upload_loop_spec (cfg : SnowflakeConfig) (schema table : string)
    (paths : list string) (s : pstate) :
  exists ups s',
    for_each (upload_round E cfg schema table) paths s = (Ok ups, s') /\ upload_rel s s' /\
    Forall (fun r => lr_status r = "upload_failed") (rights ups).
Proof.
  revert s. induction paths as [|p paths IH]; intros s; cbn [for_each].
  - exists [], s. repeat split; constructor.
  - destruct (upload_round_spec cfg schema table p s) as [x [s1 [Hr [Hrel1 Hx]]]].
    destruct (IH s1) as [ups [s2 [Hl [Hrel2 Hall]]]].
    exists (x :: ups), s2. unfold bind. rewrite Hr, Hl. split; [reflexivity|].
    split; [eapply upload_rel_trans; eauto|].
    destruct x as [name|r]; cbn; [exact Hall | constructor; assumption].
Qed.

Lemma successes_upload_failed (f : string) (rs : list load_result) :
  Forall (fun r => lr_status r = "upload_failed") rs -> successes f rs = 0%nat.
Proof.
  unfold successes. induction 1 as [|r rs Hr _ IH]; [reflexivity|].
  cbn. unfold is_success_for at 1. rewrite Hr, andb_false_r. exact IH.
Qed.

(** [load_table] always returns, and keeps the relation of the COPY path. *)
Lemma load_table_spec (cfg : SnowflakeConfig) (schema table : string)
    (paths columns : list string) (s : pstate) :
  exists out s',
    load_table E cfg schema table paths columns s = (Ok out, s') /\ copy_rel s out s'.
Proof.
  unfold load_table.
  destruct (upload_loop_spec cfg schema table paths s) as [ups [s1 [Hu [[Hl1 Hc1] Hfail]]]].
  destruct (copy_loop_spec cfg schema table columns (lefts ups) s1)
    as [outs [s2 [Hc [Hsucc Hcopies]]]].
  exists (rights ups ++ concat outs), s2. unfold bind. rewrite Hu, Hc.
  split; [reflexivity|]. split.
  - intros f. rewrite successes_app, (successes_upload_failed f _ Hfail).
    rewrite <- Hsucc. unfold loaded_ind. now rewrite Hl1.
  - intros f Hf. rewrite Hcopies, Hc1; [reflexivity|]. now rewrite Hl1.
Qed.

End LoaderFacts.

Section LoaderTheorems.
Import PyStr Eff Model World Pipeline Spec.

(** A file in [loaded_files] is skipped by the COPY loop: no statement, no
    record, no change of state. *)
Lemma copy_round_skips_loaded (E : env) (cfg : SnowflakeConfig) (schema table : string)
    (columns : list string) (f : string) (s : pstate) :
  f ∈ loaded_files s ->
  copy_round E cfg schema table columns f s = (Ok [], s).
Proof.
  intros Hin. unfold copy_round, bind, get.
  now rewrite bool_decide_eq_true_2.
Qed.

(** Whatever the loader is asked, it records at most one success per staged
    file name. *)
Lemma load_table_at_most_one_success (E : env) (cfg : SnowflakeConfig)
    (schema table : string) (paths columns : list string) (s : pstate) (f : string) :
  (successes f (results_of (load_table E cfg schema table paths columns s)) <= 1)%nat.
Proof.
  destruct (load_table_spec E cfg schema table paths columns s) as [out [s' [Hrun [Hs _]]]].
  unfold results_of. rewrite Hrun. cbn [fst].
  specialize (Hs f). pose proof (loaded_ind_le_1 f s'). lia.
Qed.

(** C2.  Within one run (one loader, hence one [loaded_files] set), let
    [load_table] be invoked twice, on any tables and file lists.  If the
    first invocation recorded a successful COPY for the staged file name [f],
    then [f] is in [loaded_files] afterwards, the second invocation issues no
    COPY INTO for [f] and records no success for it, and the two invocations
    together record exactly one success for [f]. *)
Theorem C2_second_copy_is_skipped (E : env) (cfg : SnowflakeConfig)
    (schema1 table1 schema2 table2 : string)
    (paths1 columns1 paths2 columns2 : list string) (s : pstate) (f : string) :
  let out1 := load_table E cfg schema1 table1 paths1 columns1 s in
  let out2 := load_table E cfg schema2 table2 paths2 columns2 (snd out1) in
  (1 <= successes f (results_of out1))%nat ->
  f ∈ loaded_files (snd out1)
  /\ copies_of f (snd out2) = copies_of f (snd out1)
  /\ successes f (results_of out2) = 0%nat
  /\ successes f (results_of out1 ++ results_of out2) = 1%nat.
Proof.
  cbv zeta.
  destruct (load_table_spec E cfg schema1 table1 paths1 columns1 s)
    as [r1 [s1 [Hrun1 [Hs1 _]]]].
  rewrite Hrun1. cbn [snd].
  destruct (load_table_spec E cfg schema2 table2 paths2 columns2 s1)
    as [r2 [s2 [Hrun2 [Hs2 Hc2]]]].
  rewrite Hrun2. unfold results_of. cbn [fst snd].
  intros Hone.
  pose proof (Hs1 f) as H1. pose proof (Hs2 f) as H2.
  pose proof (loaded_ind_le_1 f s1) as Hb1. pose proof (loaded_ind_le_1 f s2) as Hb2.
  assert (Hin : f ∈ loaded_files s1) by (apply loaded_ind_in; lia).
  repeat split.
  - exact Hin.
  - now apply Hc2.
  - lia.
  - rewrite successes_app. lia.
Qed.

(** C2 on the chunk of a small table: the first load copies it, the second
    finds it in [loaded_files]. *)
Lemma C2_witness_reload :
  let E := loader_env three_rows_loaded in
  let paths := ["/scratch/s_t_chunk_0001.csv.gz"] in
  let out1 := load_table E stage_config "s" "t" paths ["id"] fresh_pipeline in
  let out2 := load_table E stage_config "s" "t" paths ["id"] (snd out1) in
  map lr_status (results_of out1) = ["success"]
  /\ results_of out2 = []
  /\ successes "s_t_chunk_0001.csv.gz" (results_of out1 ++ results_of out2) = 1%nat
  /\ copies_of "s_t_chunk_0001.csv.gz" (snd out2) = 1%nat.
Proof.
  cbv zeta.
  pose proof (C2_second_copy_is_skipped (loader_env three_rows_loaded) stage_config
                "s" "t" "s" "t" ["/scratch/s_t_chunk_0001.csv.gz"] ["id"]
                ["/scratch/s_t_chunk_0001.csv.gz"] ["id"] fresh_pipeline
                "s_t_chunk_0001.csv.gz") as H.
  cbv zeta in H.
  destruct H as [_ [Hcopies [_ Htotal]]].
  - vm_compute. apply le_n.
  - split; [vm_compute; reflexivity|].
    split; [vm_compute; reflexivity|].
    split; [exact Htotal|].
    rewrite Hcopies. vm_compute. reflexivity.
Defined.

(** The aggregate of [migrate_table] does not look at the per-file results:
    the status is [completed] whenever the extraction returned. *)
Lemma migrate_table_completed (E : env) (p : MigrationPreferences) (cfg : SnowflakeConfig)
    (temp_path schema table : string) (columns paths : list string) (s s1 : pstate) :
  extract_table E p temp_path schema table columns s = (Ok paths, s1) ->
  exists r s2,
    migrate_table E p cfg temp_path schema table columns s = (Ok r, s2) /\
    tr_status r = "completed" /\
    tr_load_results r = results_of (load_table E cfg schema table paths columns s1).
Proof.
  intros Hex. unfold migrate_table, bind, now, try_except. cbn [fst snd].
  rewrite Hex.
  destruct (load_table_spec E cfg schema table paths columns s1) as [out [s2 [Hrun _]]].
  unfold results_of. rewrite Hrun. cbn. eauto.
Qed.

(** C1 (the code departs from the claim).  One table, one chunk, and a COPY
    INTO that fails: the per-file result has the status [failed], no row is
    counted, and the table's aggregate status is [completed]. *)
Theorem C1_failed_copy_is_reported_completed :
  let E := loader_env (CopyErr "Numeric value 'x' is not recognized") in
  exists r s,
    migrate_table E default_preferences stage_config "/scratch" "s" "t" ["id"] fresh_pipeline
    = (Ok r, s)
    /\ map lr_status (tr_load_results r) = ["failed"]
    /\ map lr_file (tr_load_results r) = ["s_t_chunk_0001.csv.gz"]
    /\ tr_rows_loaded r = Some 0
    /\ tr_status r = "completed".
Proof. cbv zeta. eexists. eexists. vm_compute. repeat split. Qed.

End LoaderTheorems.

Section RunLogFacts.
Import PyStr PyVal Eff Model World Orchestrator Spec.

(** [save_log] writes the entries as [log] built them: one [json.dumps] line
    each, nothing in between. *)
Lemma save_log_writes_entries (E : env) (s : sys) :
  write_result E (clock (outside s)) "run_log.ndjson" = Ok tt ->
  run_log (snd (save_log E s)) = Some (log_text (log_entries (self s))).
Proof.
  intros Hw. unfold run_log, save_log, bind, get, write_artifact, console.
  cbn [fst snd]. rewrite Hw. cbn [fst snd with_world outside events emit advance].
  rewrite <- app_assoc. cbn [app].
  generalize (events (outside s)). intros evs.
  induction evs as [|ev evs IH]; cbn [app read_artifact].
  - reflexivity.
  - now rewrite IH.
Qed.

(** C5 (the code departs from the claim).  The source cannot be reached and
    the driver's error text repeats the password and the token.  The log
    lines printed through the structured logger are redacted; the records
    that [save_log] persists to run_log.ndjson are not: both secrets are
    substrings of the file. *)
Theorem C5_run_log_keeps_secrets :
  let req := request_with false true in
  let s := snd (run_complete unreachable_env (start unreachable_env req)) in
  exists content,
    run_log s = Some content
    /\ contains (pg_password req) content = true
    /\ contains (access_token req) content = true
    /\ forallb (fun line => negb (contains (pg_password req) line)
                            && negb (contains (access_token req) line))
               (console_lines (events (outside s))) = true
    /\ contains "password=***REDACTED***"
         (Logger.redact_sensitive_data
            "Analysis failed: connection to server failed: host=db user=app password=hunter2 token=tok123")
       = true.
Proof. cbv zeta. eexists. vm_compute. repeat split. Qed.

End RunLogFacts.

Section FrameRules.
Import PyStr PyVal Eff Model World Orchestrator Spec.

(** ** Rules for [keeps], for any reflexive and transitive relation *)

Section Preorder.
Context (R : sys -> sys -> Prop).
Hypothesis R_refl : forall s, R s s.
Hypothesis R_trans : forall s1 s2 s3, R s1 s2 -> R s2 s3 -> R s1 s3.

Lemma keeps_ret {A} (x : A) : keeps R (ret x).
Proof. intros s. apply R_refl. Qed.

Lemma keeps_raise {A} (e : string) : keeps R (@raise _ A e).
Proof. intros s. apply R_refl. Qed.

Lemma keeps_get : keeps R get.
Proof. intros s. apply R_refl. Qed.

Lemma keeps_bind {A B} (m : M sys A) (k : A -> M sys B) :
  keeps R m -> (forall x, keeps R (k x)) -> keeps R (bind m k).
Proof.
  intros Hm Hk s. unfold bind. specialize (Hm s).
  destruct (m s) as [[x|e] s1]; cbn [snd] in *.
  - eapply R_trans; [exact Hm | apply Hk].
  - exact Hm.
Qed.

Lemma keeps_try_except {A} (m : M sys A) (h : string -> M sys A) :
  keeps R m -> (forall e, keeps R (h e)) -> keeps R (try_except m h).
Proof.
  intros Hm Hh s. unfold try_except. specialize (Hm s).
  destruct (m s) as [[x|e] s1]; cbn [snd] in *.
  - exact Hm.
  - eapply R_trans; [exact Hm | apply Hh].
Qed.

Lemma keeps_for_each {A B} (f : A -> M sys B) (l : list A) :
  (forall x, keeps R (f x)) -> keeps R (for_each f l).
Proof.
  intros Hf. induction l as [|x l IH]; cbn [for_each].
  - apply keeps_ret.
  - apply keeps_bind; [apply Hf|]. intros y.
    apply keeps_bind; [exact IH|]. intros ys. apply keeps_ret.
Qed.

Lemma keeps_modify (f : sys -> sys) : (forall s, R s (f s)) -> keeps R (modify f).
Proof. intros Hf s. apply Hf. Qed.

(** What only logs keeps every relation that contains [log_like]. *)
Hypothesis R_log : forall s s', log_like s s' -> R s s'.

Context (E : env).

Lemma keeps_console (level message : string) (kwargs : pydict) :
  keeps R (console E level message kwargs).
Proof.
  intros s. apply R_log. unfold console, log_like. cbn.
  repeat split. eexists. split; reflexivity.
Qed.

Lemma keeps_log (level category message : string) (kwargs : pydict) :
  keeps R (log E level category message kwargs).
Proof.
  unfold log. apply keeps_bind; [apply keeps_get|]. intros s0.
  apply keeps_bind; [|intros; apply keeps_console].
  apply keeps_modify. intros s. apply R_log. unfold log_like. cbn.
  repeat split. exists []. split; [now rewrite app_nil_r | reflexivity].
Qed.

Lemma keeps_write_artifact (name : string) (content : option string) :
  keeps R (write_artifact E name content).
Proof.
  intros s. apply R_log. unfold write_artifact, log_like.
  destruct (write_result E _ _); cbn; repeat split.
  - eexists. split; reflexivity.
  - exists []. split; [now rewrite app_nil_r | reflexivity].
Qed.

Lemma keeps_save_log : keeps R (save_log E).
Proof.
  unfold save_log. apply keeps_bind; [apply keeps_get|]. intros s0.
  apply keeps_bind; [apply keeps_write_artifact|]. intros _. apply keeps_console.
Qed.

Lemma keeps_call_analyzer : keeps R (call_analyzer E).
Proof.
  intros s. apply R_log. unfold call_analyzer, log_like.
  destruct (analyze_result E _); cbn; repeat split;
    exists []; (split; [now rewrite app_nil_r | reflexivity]).
Qed.

End Preorder.

(** ** The three relations are preorders, and contain [log_like] *)

Lemma log_like_refl (s : sys) : log_like s s.
Proof.
  unfold log_like. repeat split. exists []. split; [now rewrite app_nil_r | reflexivity].
Qed.

Lemma same_status_refl (s : sys) : same_status s s.
Proof. split; reflexivity. Qed.

Lemma same_status_trans (s1 s2 s3 : sys) :
  same_status s1 s2 -> same_status s2 s3 -> same_status s1 s3.
Proof. intros [H1 H2] [H3 H4]. split; congruence. Qed.

Lemma same_status_log (s s' : sys) : log_like s s' -> same_status s s'.
Proof. intros [_ [_ [_ [Hst [_ [_ [Hh _]]]]]]]. split; assumption. Qed.

Lemma harmless_refl (s : sys) : harmless s s.
Proof.
  unfold harmless. repeat split. exists []. split; [now rewrite app_nil_r | reflexivity].
Qed.

Lemma harmless_trans (s1 s2 s3 : sys) :
  harmless s1 s2 -> harmless s2 s3 -> harmless s1 s3.
Proof.
  intros [Hr1 [Hm1 [d1 [He1 Hp1]]]] [Hr2 [Hm2 [d2 [He2 Hp2]]]].
  split; [congruence|]. split; [congruence|].
  exists (d1 ++ d2). split.
  - now rewrite He2, He1, app_assoc.
  - now rewrite forallb_app, Hp1, Hp2.
Qed.

Lemma harmless_log (s s' : sys) : log_like s s' -> harmless s s'.
Proof. intros [Hr [_ [_ [_ [_ [Hm [_ Hev]]]]]]]. split; [|split]; assumption. Qed.

Lemma same_plan_refl (s : sys) : same_plan s s.
Proof. repeat split. Qed.

Lemma same_plan_trans (s1 s2 s3 : sys) :
  same_plan s1 s2 -> same_plan s2 s3 -> same_plan s1 s3.
Proof. intros [H1 [H2 H3]] [H4 [H5 H6]]. repeat split; congruence. Qed.

Lemma same_plan_log (s s' : sys) : log_like s s' -> same_plan s s'.
Proof. intros [Hr [_ [_ [_ [Ha [Hm _]]]]]]. repeat split; assumption. Qed.

End FrameRules.

Import PyStr PyVal Eff Model World Orchestrator Spec.

Create HintDb frame.
#[local] Hint Resolve same_status_refl same_status_log harmless_refl harmless_log
  same_plan_refl same_plan_log : frame.
#[local] Hint Extern 2 (same_status _ _) => eapply same_status_trans; eassumption : frame.
#[local] Hint Extern 2 (harmless _ _) => eapply harmless_trans; eassumption : frame.
#[local] Hint Extern 2 (same_plan _ _) => eapply same_plan_trans; eassumption : frame.

(** One step of a frame proof: a rule for the head of the computation, or a
    case analysis on what it branches on. *)
Ltac frame_step :=
  lazymatch goal with
  | |- keeps _ (match ?x with _ => _ end) => destruct x
  | |- keeps _ (ret _) => apply keeps_ret
  | |- keeps _ (raise _) => apply keeps_raise
  | |- keeps _ get => apply keeps_get
  | |- keeps _ (log _ _ _ _ _) => apply keeps_log
  | |- keeps _ (console _ _ _ _) => apply keeps_console
  | |- keeps _ (write_artifact _ _ _) => apply keeps_write_artifact
  | |- keeps _ (save_log _) => apply keeps_save_log
  | |- keeps _ (call_analyzer _) => apply keeps_call_analyzer
  | |- keeps _ (bind _ _) => apply keeps_bind
  | |- keeps _ (try_except _ _) => apply keeps_try_except
  | |- keeps _ (for_each _ _) => apply keeps_for_each
  end.

Ltac frame := repeat (intros; first [ solve [eauto with frame] | frame_step ]).


Section PhaseFacts.
Import PyStr PyVal Eff Model World Orchestrator Spec.

Section Phases.
Context (E : env).

(** ** What does not move the status *)

Lemma keeps_status_with_world (f : world -> world) :
  keeps same_status (modify (with_world f)).
Proof. intros s. split; reflexivity. Qed.

Lemma keeps_status_put_analysis (a : analysis) :
  keeps same_status (modify (with_self (put_analysis a))).
Proof. intros s. split; reflexivity. Qed.

Lemma keeps_status_extend_migration (rs : list Pipeline.table_result) :
  keeps same_status (modify (with_self (extend_migration rs))).
Proof. intros s. split; reflexivity. Qed.

Lemma keeps_status_extend_validation (rs : list validation_result) :
  keeps same_status (modify (with_self (extend_validation rs))).
Proof. intros s. split; reflexivity. Qed.

Lemma keeps_status_run_pipeline {A} (loaded : gset string) (m : M Pipeline.pstate A) :
  keeps same_status (run_pipeline loaded m).
Proof.
  intros s. unfold run_pipeline.
  destruct (m _) as [[x|e] ps]; split; reflexivity.
Qed.

Lemma keeps_status_execute_ddl : keeps same_status (_execute_ddl E).
Proof.
  unfold _execute_ddl. frame. apply keeps_status_with_world.
Qed.

Lemma keeps_status_migrate_schemas (sds : list schema_detail) (loaded : gset string) :
  keeps same_status (migrate_schemas E loaded sds).
Proof.
  revert loaded. induction sds as [|sd sds IH]; intros loaded; cbn [migrate_schemas].
  - frame.
  - apply keeps_bind; [frame | frame |]. intros s0.
    apply keeps_bind; [frame | frame |]. intros _.
    apply keeps_bind; [frame | apply keeps_status_run_pipeline |]. intros [rs loaded'].
    apply keeps_bind; [frame | apply keeps_status_extend_migration |]. intros _.
    apply IH.
Qed.

Lemma keeps_status_validate_one (sname : string) (td : table_detail) :
  keeps same_status (validate_one E sname td).
Proof.
  unfold validate_one. apply keeps_bind; [frame | frame |]. intros s0.
  destruct (migrated _ _ _); [|frame].
  apply keeps_bind; [frame | apply keeps_status_with_world |]. intros _.
  apply keeps_status_extend_validation.
Qed.

Lemma keeps_status_write_plan : keeps same_status (write_plan_artifacts E).
Proof. unfold write_plan_artifacts. frame. Qed.

Lemma keeps_status_write_report : keeps same_status (write_report E).
Proof. unfold write_report. frame. Qed.

(** ** What executes nothing *)

Lemma keeps_harmless_set_status (st : MigrationStatus) : keeps harmless (set_status st).
Proof.
  intros s. unfold harmless. cbn. repeat split.
  exists []. split; [now rewrite app_nil_r | reflexivity].
Qed.

Lemma keeps_harmless_put_analysis (a : analysis) :
  keeps harmless (modify (with_self (put_analysis a))).
Proof.
  intros s. unfold harmless. cbn. repeat split.
  exists []. split; [now rewrite app_nil_r | reflexivity].
Qed.

Lemma keeps_harmless_analyze : keeps harmless (analyze E).
Proof.
  unfold analyze. frame;
    first [ apply keeps_harmless_set_status | apply keeps_harmless_put_analysis ].
Qed.

Lemma keeps_harmless_plan : keeps harmless (plan E).
Proof.
  unfold plan, write_plan_artifacts. frame; apply keeps_harmless_set_status.
Qed.

Lemma keeps_harmless_finalize : keeps harmless (finalize E).
Proof.
  unfold finalize, write_report. frame; apply keeps_harmless_set_status.
Qed.

End Phases.
End PhaseFacts.

Section StatusMoves.
Import PyStr PyVal Eff Model World Orchestrator Spec.
Context (E : env).

Lemma last_app_last {A} (d1 d2 : list A) (x : A) :
  List.last (d1 ++ d2) x = List.last d2 (List.last d1 x).
Proof.
  induction d2 as [|y l _] using rev_ind.
  - now rewrite app_nil_r.
  - now rewrite app_assoc, !last_last.
Qed.

Lemma moved_same (s s' : sys) : same_status s s' -> moved [] s s'.
Proof. intros [Hh Hs]. split; [now rewrite app_nil_r | exact Hs]. Qed.

Lemma moved_trans (d1 d2 : list MigrationStatus) (s1 s2 s3 : sys) :
  moved d1 s1 s2 -> moved d2 s2 s3 -> moved (d1 ++ d2) s1 s3.
Proof.
  intros [Hh1 Hs1] [Hh2 Hs2]. split.
  - now rewrite Hh2, Hh1, app_assoc.
  - now rewrite Hs2, Hs1, last_app_last.
Qed.

Lemma moved_set_status (st : MigrationStatus) (s : sys) :
  moved [st] s (snd (set_status st s)).
Proof. split; reflexivity. Qed.

Lemma bind_Ok {S A B} (m : M S A) (k : A -> M S B) (s : S) (a : A) (s' : S) :
  m s = (Ok a, s') -> bind m k s = k a s'.
Proof. intros H. unfold bind. now rewrite H. Qed.

Lemma bind_Raise {S A B} (m : M S A) (k : A -> M S B) (s : S) (e : string) (s' : S) :
  m s = (Raise e, s') -> bind m k s = (Raise e, s').
Proof. intros H. unfold bind. now rewrite H. Qed.

(** [log] always returns. *)
Lemma log_returns (level category message : string) (kwargs : pydict) (s : sys) :
  exists s', log E level category message kwargs s = (Ok tt, s') /\ log_like s s'.
Proof.
  unfold log, bind, get, modify, console. eexists. split; [reflexivity|].
  unfold log_like. cbn. repeat split. eexists. split; reflexivity.
Qed.

(** ** Rules for [lands] *)

Lemma lands_keeps {A} (m : M sys A) : keeps same_status m -> lands [] [] m.
Proof.
  intros Hm s. specialize (Hm s). destruct (m s) as [[x|e] s']; now apply moved_same.
Qed.

Lemma lands_after_log {A} (level category message : string) (kwargs : pydict)
    (m : M sys A) (d r : list MigrationStatus) :
  lands d r m -> lands d r (bind (log E level category message kwargs) (fun _ => m)).
Proof.
  intros Hm s.
  destruct (log_returns level category message kwargs s) as [s1 [Hrun Hrel]].
  rewrite (bind_Ok _ _ _ _ _ Hrun). specialize (Hm s1).
  apply same_status_log, moved_same in Hrel.
  destruct (m s1) as [[x|e] s2]; apply (moved_trans [] _ _ _ _ Hrel Hm).
Qed.

Lemma lands_after_set {A} (st : MigrationStatus) (m : M sys A)
    (d r : list MigrationStatus) :
  lands d r m -> lands (st :: d) (st :: r) (bind (set_status st) (fun _ => m)).
Proof.
  intros Hm s. unfold bind. cbn [set_status].
  pose proof (moved_set_status st s) as Hset. cbn [set_status snd] in Hset.
  match goal with |- context [m ?s1] => specialize (Hm s1); destruct (m s1) as [[x|e] s2] end;
    apply (moved_trans [st] _ _ _ _ Hset Hm).
Qed.

Lemma lands_set_ret {A} (st : MigrationStatus) (x : A) (r : list MigrationStatus) :
  lands [st] r (bind (set_status st) (fun _ => ret x)).
Proof. intros s. exact (moved_set_status st s). Qed.

Lemma lands_quiet_then {A B} (m : M sys A) (k : A -> M sys B) (d : list MigrationStatus) :
  keeps same_status m -> (forall x, lands d [] (k x)) -> lands d [] (bind m k).
Proof.
  intros Hm Hk s. unfold bind. specialize (Hm s).
  destruct (m s) as [[x|e] s1]; cbn [snd] in Hm; apply moved_same in Hm.
  - specialize (Hk x s1). destruct (k x s1) as [[y|e] s2];
      apply (moved_trans [] _ _ _ _ Hm Hk).
  - exact Hm.
Qed.

(** The [except] branch shared by [analyze], [plan] and [execute]: log the
    error, mark the run FAILED, raise again. *)
Lemma lands_guard {A} (body : M sys A) (category : string) (msg : string -> string)
    (d : list MigrationStatus) :
  lands d [] body ->
  lands d [FAILED]
    (try_except body
       (fun e => let! _ := log E "ERROR" category (msg e) [] in
                 let! _ := set_status FAILED in
                 raise e)).
Proof.
  intros Hb s. unfold try_except. specialize (Hb s).
  destruct (body s) as [[x|e] s1]; [exact Hb|].
  destruct (log_returns "ERROR" category (msg e) [] s1) as [s2 [Hrun Hrel]].
  rewrite (bind_Ok _ _ _ _ _ Hrun).
  rewrite (bind_Ok (set_status FAILED) _ s2 tt _ eq_refl). cbn [raise].
  apply same_status_log, moved_same in Hrel.
  pose proof (moved_set_status FAILED s2) as Hset. cbn [set_status snd] in Hset.
  exact (moved_trans [] [FAILED] _ _ _ (moved_trans [] [] _ _ _ Hb Hrel) Hset).
Qed.

(** ** The phases *)

Lemma analyze_lands : lands [ANALYZING] [ANALYZING; FAILED] (analyze E).
Proof.
  unfold analyze. apply lands_after_log.
  apply (lands_after_set ANALYZING _ [] [FAILED]).
  apply (lands_guard _ "analyze" (fun e => "Analysis failed: " +:+ e)).
  apply lands_keeps. frame. apply keeps_status_put_analysis.
Qed.

Lemma plan_lands :
  lands [PLANNING; AWAITING_CONFIRMATION] [PLANNING; FAILED] (plan E).
Proof.
  unfold plan. apply lands_after_log.
  apply (lands_after_set PLANNING _ [AWAITING_CONFIRMATION] [FAILED]).
  apply (lands_guard _ "plan" (fun e => "Planning failed: " +:+ e)).
  apply lands_quiet_then; [apply keeps_status_write_plan|]. intros artifacts.
  apply lands_set_ret.
Qed.

Lemma execute_lands (s : sys) :
  confirm (control (request (self s))) = true ->
  match execute E s with
  | (Ok _, s') => moved [EXECUTING] s s'
  | (Raise _, s') => moved [EXECUTING; FAILED] s s'
  end.
Proof.
  intros Hc. unfold execute.
  rewrite (bind_Ok get _ s s s eq_refl). rewrite Hc. cbn [negb].
  refine (lands_after_log _ _ _ _ _ [EXECUTING] [EXECUTING; FAILED] _ s).
  apply (lands_after_set EXECUTING _ [] [FAILED]).
  apply (lands_guard _ "execute" (fun e => "Execution failed: " +:+ e)).
  apply lands_keeps. destruct (analysis_results (self s)); [|frame].
  apply keeps_bind; [frame | apply keeps_status_execute_ddl |]. intros _.
  apply keeps_bind; [frame | apply keeps_status_migrate_schemas |]. intros _.
  frame.
Qed.

(** [validate] always returns: its [except] branch logs and returns. *)
Lemma validate_lands (s : sys) :
  exists rs s', validate E s = (Ok rs, s') /\ moved [VALIDATING] s s'.
Proof.
  unfold validate.
  destruct (log_returns "INFO" "validate" "Starting data validation" [] s)
    as [s1 [Hrun1 Hrel1]].
  rewrite (bind_Ok _ _ _ _ _ Hrun1).
  apply same_status_log, moved_same in Hrel1.
  rewrite (bind_Ok (set_status VALIDATING) _ s1 tt _ eq_refl).
  pose proof (moved_set_status VALIDATING s1) as Hset. cbn [set_status snd] in Hset.
  pose proof (moved_trans [] [VALIDATING] _ _ _ Hrel1 Hset) as Hnow. cbn [app] in Hnow.
  match goal with |- context [try_except ?b ?h ?s2] =>
    assert (Hbody : keeps same_status b);
    [| unfold try_except; specialize (Hbody s2); destruct (b s2) as [[rs|e] s3];
       cbn [snd] in Hbody; apply moved_same in Hbody ]
  end.
  - apply keeps_bind; [frame | frame |]. intros s0.
    destruct (pg_connect E _); [|frame]. destruct (sf_connect E _); [|frame].
    destruct (analysis_results (self s0)); [|frame].
    apply keeps_bind; [frame | |].
    + apply keeps_for_each; [frame | frame |]. intros sd.
      apply keeps_for_each; [frame | frame |]. intros td.
      apply keeps_status_validate_one.
    + frame.
  - exists rs, s3. split; [reflexivity|].
    exact (moved_trans [VALIDATING] [] _ _ _ Hnow Hbody).
  - destruct (log_returns "ERROR" "validate" ("Validation failed: " +:+ e) [] s3)
      as [s4 [Hrun4 Hrel4]].
    rewrite (bind_Ok _ _ _ _ _ Hrun4).
    apply same_status_log, moved_same in Hrel4.
    eexists. eexists. split; [reflexivity|]. cbn [snd].
    pose proof (moved_trans [VALIDATING] [] _ _ _ Hnow Hbody) as H3.
    exact (moved_trans _ [] _ _ _ H3 Hrel4).
Qed.

(** [finalize] overwrites the status with what the migration results say,
    whatever it was, and leaves it alone when it raises. *)
Lemma finalize_lands (s : sys) :
  match finalize E s with
  | (Ok _, s') => moved [final_status (migration_results (self s'))] s s'
  | (Raise _, s') => moved [] s s'
  end.
Proof.
  unfold finalize.
  destruct (log_returns "INFO" "finalize" "Generating final report" [] s)
    as [s1 [Hrun1 Hrel1]].
  rewrite (bind_Ok _ _ _ _ _ Hrun1).
  apply same_status_log, moved_same in Hrel1.
  unfold try_except.
  pose proof (keeps_status_write_report E s1) as Hrep.
  unfold bind at 1.
  destruct (write_report E s1) as [[f|e] s2]; cbn [snd] in Hrep; apply moved_same in Hrep.
  - rewrite (bind_Ok get _ s2 s2 s2 eq_refl).
    rewrite (bind_Ok (set_status _) _ s2 tt _ eq_refl).
    rewrite (bind_Ok get _ _ _ _ eq_refl).
    match goal with |- context [bind (log E ?l ?c ?m ?k) _ ?s3] =>
      destruct (log_returns l c m k s3) as [s4 [Hrun4 Hrel4]]
    end.
    rewrite (bind_Ok _ _ _ _ _ Hrun4). cbn [ret].
    assert (Hm : migration_results (self s4) = migration_results (self s2)).
    { destruct Hrel4 as [_ [_ [_ [_ [_ [Hm _]]]]]]. exact Hm. }
    rewrite Hm.
    pose proof (moved_set_status (final_status (migration_results (self s2))) s2) as Hset.
    cbn [set_status snd] in Hset.
    apply same_status_log, moved_same in Hrel4.
    pose proof (moved_trans [] [] _ _ _ Hrel1 Hrep) as H2.
    pose proof (moved_trans _ _ _ _ _ H2 Hset) as H3.
    exact (moved_trans _ [] _ _ _ H3 Hrel4).
  - destruct (log_returns "ERROR" "finalize" ("Finalization failed: " +:+ e) [] s2)
      as [s3 [Hrun3 Hrel3]].
    rewrite (bind_Ok _ _ _ _ _ Hrun3). cbn [raise].
    apply same_status_log, moved_same in Hrel3.
    pose proof (moved_trans [] [] _ _ _ Hrel1 Hrep) as H2.
    exact (moved_trans [] [] _ _ _ H2 Hrel3).
Qed.

(** [cancel_migration] overwrites the status with CANCELLED, whatever it
    was. *)
Lemma cancel_lands (s : sys) :
  exists s', cancel_migration E s = (Ok tt, s') /\ moved [CANCELLED] s s'.
Proof.
  unfold cancel_migration.
  rewrite (bind_Ok (set_status CANCELLED) _ s tt _ eq_refl).
  destruct (log_returns "INFO" "control" "Migration cancelled by user" []
              (snd (set_status CANCELLED s))) as [s2 [Hrun Hrel]].
  exists s2. split; [exact Hrun|].
  apply same_status_log, moved_same in Hrel.
  pose proof (moved_set_status CANCELLED s) as Hset. cbn [set_status snd] in Hset.
  exact (moved_trans [CANCELLED] [] _ _ _ Hset Hrel).
Qed.

(** The [except] branch of [run_complete]: FAILED, a log entry, the log
    file, and the error again (or the error of [save_log]). *)
Lemma failure_branch_moves (e : string) (s : sys) :
  exists e' s',
    (let! _ := set_status FAILED in
     let! _ := log E "ERROR" "migration" ("Migration failed: " +:+ e) [] in
     let! _ := save_log E in
     raise e) s = (@Raise run_report e', s')
    /\ moved [FAILED] s s'.
Proof.
  rewrite (bind_Ok (set_status FAILED) _ s tt _ eq_refl).
  pose proof (moved_set_status FAILED s) as Hset. cbn [set_status snd] in Hset.
  match goal with |- context [bind (log E ?l ?c ?m ?k) _ ?s1] =>
    destruct (log_returns l c m k s1) as [s2 [Hrun Hrel]]
  end.
  rewrite (bind_Ok _ _ _ _ _ Hrun).
  apply same_status_log, moved_same in Hrel.
  pose proof (keeps_save_log same_status same_status_refl same_status_trans
                same_status_log E s2) as Hsave.
  unfold bind. destruct (save_log E s2) as [[[]|e'] s3]; cbn [snd] in Hsave;
    apply moved_same in Hsave; eexists; eexists; (split; [reflexivity|]);
    exact (moved_trans _ [] _ _ _ (moved_trans [FAILED] [] _ _ _ Hset Hrel) Hsave).
Qed.

Lemma final_status_cases (rs : list Pipeline.table_result) :
  final_status rs = COMPLETED \/ final_status rs = FAILED.
Proof. unfold final_status. destruct (_ =? _); auto. Qed.

Lemma paths_analyze_failed (dry conf : bool) :
  In [ANALYZING; FAILED; FAILED] (run_paths dry conf).
Proof. left. reflexivity. Qed.

Lemma paths_plan_failed (dry conf : bool) :
  In [ANALYZING; PLANNING; FAILED; FAILED] (run_paths dry conf).
Proof. right. left. reflexivity. Qed.

Lemma paths_dry_run (conf : bool) (st : MigrationStatus) :
  st = COMPLETED \/ st = FAILED ->
  In [ANALYZING; PLANNING; AWAITING_CONFIRMATION; COMPLETED; st] (run_paths true conf).
Proof. intros [->| ->]; cbn; auto. Qed.

Lemma paths_executed (st : MigrationStatus) :
  st = COMPLETED \/ st = FAILED ->
  In [ANALYZING; PLANNING; AWAITING_CONFIRMATION; EXECUTING; VALIDATING; st]
     (run_paths false true).
Proof. intros [->| ->]; cbn; auto 6. Qed.

End StatusMoves.

Section RunComplete.
Context (E : env).

(** The steps of [run_complete], one path at a time: the values the status
    takes are one of the paths listed for the flags of the request. *)
Lemma run_complete_moves (s : sys) :
  exists d,
    moved d s (snd (run_complete E s)) /\
    In d (run_paths (dry_run (preferences (request (self s))))
                    (confirm (control (request (self s))))).
Proof.
  unfold run_complete, try_except.
  (* analyze *)
  pose proof (analyze_lands E s) as Ha.
  pose proof (keeps_harmless_analyze E s) as [Hreq1 _].
  destruct (analyze E s) as [[a|e] s1] eqn:Hrun1; cbn [snd] in Hreq1.
  2:{ rewrite (bind_Raise _ _ _ _ _ Hrun1).
      destruct (failure_branch_moves E e s1) as [e' [s' [Hf Hm]]]. rewrite Hf.
      eexists. split; [exact (moved_trans _ _ _ _ _ Ha Hm) | apply paths_analyze_failed]. }
  rewrite (bind_Ok _ _ _ _ _ Hrun1).
  (* plan *)
  pose proof (plan_lands E s1) as Hp.
  pose proof (keeps_harmless_plan E s1) as [Hreq2 _].
  destruct (plan E s1) as [[arts|e] s2] eqn:Hrun2; cbn [snd] in Hreq2.
  2:{ rewrite (bind_Raise _ _ _ _ _ Hrun2).
      destruct (failure_branch_moves E e s2) as [e' [s' [Hf Hm]]]. rewrite Hf.
      eexists. split;
        [exact (moved_trans _ _ _ _ _ (moved_trans _ _ _ _ _ Ha Hp) Hm)
        | apply paths_plan_failed]. }
  rewrite (bind_Ok _ _ _ _ _ Hrun2).
  pose proof (moved_trans _ _ _ _ _ Ha Hp) as Hplanned. cbn [app] in Hplanned.
  rewrite (bind_Ok get _ s2 s2 s2 eq_refl).
  rewrite Hreq2, Hreq1.
  destruct (dry_run (preferences (request (self s)))) eqn:Hdry.
  - (* dry run *)
    match goal with |- context [bind (log E ?l ?c ?m ?k) _ ?s0] =>
      destruct (log_returns E l c m k s0) as [s3 [Hrun3 Hrel3]]
    end.
    rewrite (bind_Ok _ _ _ _ _ Hrun3).
    apply same_status_log, moved_same in Hrel3.
    rewrite (bind_Ok (set_status COMPLETED) _ s3 tt _ eq_refl).
    pose proof (moved_set_status COMPLETED s3) as Hset. cbn [set_status snd] in Hset.
    pose proof (moved_trans _ _ _ _ _ (moved_trans _ [] _ _ _ Hplanned Hrel3) Hset) as Hdone.
    cbn [app] in Hdone.
    match goal with |- context [bind (finalize E) _ ?s0] =>
      pose proof (finalize_lands E s0) as Hfin;
      destruct (finalize E s0) as [[f|e] s5] eqn:Hrun5
    end.
    + rewrite (bind_Ok _ _ _ _ _ Hrun5).
      rewrite (bind_Ok get _ s5 s5 s5 eq_refl). cbn [ret snd].
      eexists. split; [exact (moved_trans _ _ _ _ _ Hdone Hfin)|].
      apply paths_dry_run, final_status_cases.
    + rewrite (bind_Raise _ _ _ _ _ Hrun5).
      destruct (failure_branch_moves E e s5) as [e' [s' [Hf Hm]]]. rewrite Hf.
      eexists. split;
        [exact (moved_trans _ _ _ _ _ (moved_trans _ [] _ _ _ Hdone Hfin) Hm)|].
      apply paths_dry_run. now right.
  - destruct (confirm (control (request (self s)))) eqn:Hconf.
    + (* confirmed execution *)
      assert (Hc2 : confirm (control (request (self s2))) = true)
        by now rewrite Hreq2, Hreq1.
      pose proof (execute_lands E s2 Hc2) as Hex.
      destruct (execute E s2) as [[rs|e] s3] eqn:Hrun3.
      2:{ rewrite (bind_Raise _ _ _ _ _ Hrun3).
          destruct (failure_branch_moves E e s3) as [e' [s' [Hf Hm]]]. rewrite Hf.
          eexists. split;
            [exact (moved_trans _ _ _ _ _ (moved_trans _ _ _ _ _ Hplanned Hex) Hm)|].
          cbn. auto 6. }
      rewrite (bind_Ok _ _ _ _ _ Hrun3).
      destruct (validate_lands E s3) as [vs [s4 [Hrun4 Hval]]].
      rewrite (bind_Ok _ _ _ _ _ Hrun4).
      pose proof (moved_trans _ _ _ _ _ (moved_trans _ _ _ _ _ Hplanned Hex) Hval) as Hdone.
      cbn [app] in Hdone.
      pose proof (finalize_lands E s4) as Hfin.
      destruct (finalize E s4) as [[f|e] s5] eqn:Hrun5.
      * rewrite (bind_Ok _ _ _ _ _ Hrun5).
        rewrite (bind_Ok get _ s5 s5 s5 eq_refl). cbn [ret snd].
        eexists. split; [exact (moved_trans _ _ _ _ _ Hdone Hfin)|].
        apply paths_executed, final_status_cases.
      * rewrite (bind_Raise _ _ _ _ _ Hrun5).
        destruct (failure_branch_moves E e s5) as [e' [s' [Hf Hm]]]. rewrite Hf.
        eexists. split;
          [exact (moved_trans _ _ _ _ _ (moved_trans _ [] _ _ _ Hdone Hfin) Hm)|].
        apply paths_executed. now right.
    + (* plan only *)
      match goal with |- context [bind (log E ?l ?c ?m ?k) _ ?s0] =>
        destruct (log_returns E l c m k s0) as [s3 [Hrun3 Hrel3]]
      end.
      rewrite (bind_Ok _ _ _ _ _ Hrun3). cbn [ret snd].
      apply same_status_log, moved_same in Hrel3.
      eexists. split; [exact (moved_trans _ [] _ _ _ Hplanned Hrel3)|].
      cbn. auto.
Qed.

End RunComplete.

Section CooperativeRuns.
Context (E : env) (a : analysis).
Hypothesis coop : cooperative E a.

Lemma succeeds_ret {A} (x : A) : succeeds (@ret sys A x).
Proof. intros s. eexists. eexists. reflexivity. Qed.

Lemma succeeds_bind {A B} (m : M sys A) (k : A -> M sys B) :
  succeeds m -> (forall x, succeeds (k x)) -> succeeds (bind m k).
Proof.
  intros Hm Hk s. destruct (Hm s) as [x [s1 H1]]. destruct (Hk x s1) as [y [s2 H2]].
  exists y, s2. now rewrite (bind_Ok _ _ _ _ _ H1).
Qed.

Lemma succeeds_get : succeeds (@get sys).
Proof. intros s. eexists. eexists. reflexivity. Qed.

Lemma succeeds_set_status (st : MigrationStatus) : succeeds (set_status st).
Proof. intros s. eexists. eexists. reflexivity. Qed.

Lemma succeeds_console (level message : string) (kwargs : pydict) :
  succeeds (console E level message kwargs).
Proof. intros s. eexists. eexists. reflexivity. Qed.

Lemma succeeds_log (level category message : string) (kwargs : pydict) :
  succeeds (log E level category message kwargs).
Proof.
  intros s. destruct (log_returns E level category message kwargs s) as [s' [H _]].
  eauto.
Qed.

Lemma succeeds_write_artifact (name : string) (content : option string) :
  succeeds (write_artifact E name content).
Proof.
  intros s. unfold write_artifact. rewrite (proj2 coop). eexists. eexists. reflexivity.
Qed.

Lemma succeeds_save_log : succeeds (save_log E).
Proof.
  unfold save_log. apply succeeds_bind; [apply succeeds_get|]. intros s0.
  apply succeeds_bind; [apply succeeds_write_artifact|]. intros _.
  apply succeeds_console.
Qed.

(** Under a cooperative environment the analysis is found and stored. *)
Lemma analyze_returns (s : sys) :
  exists s', analyze E s = (Ok a, s') /\ analysis_results (self s') = Some a.
Proof.
  unfold analyze.
  destruct (log_returns E "INFO" "analyze" "Starting PostgreSQL analysis" [] s)
    as [s1 [Hrun1 _]].
  rewrite (bind_Ok _ _ _ _ _ Hrun1).
  rewrite (bind_Ok (set_status ANALYZING) _ s1 tt _ eq_refl).
  unfold try_except.
  match goal with |- context [bind (call_analyzer E) _ ?s0] =>
    assert (Hcall : call_analyzer E s0 = (Ok a, with_world advance s0))
      by (unfold call_analyzer; now rewrite (proj1 coop));
    rewrite (bind_Ok _ _ _ _ _ Hcall)
  end.
  match goal with |- context [bind (modify ?f) _ ?s0] =>
    rewrite (bind_Ok (modify f) _ s0 tt (f s0) eq_refl)
  end.
  match goal with |- context [bind (write_artifact E ?n ?c) _ ?s0] =>
    destruct (succeeds_write_artifact n c s0) as [[] [s4 Hrun4]];
    rewrite (bind_Ok _ _ _ _ _ Hrun4);
    pose proof (keeps_write_artifact same_plan same_plan_log E n c s0) as Hrel4;
    rewrite Hrun4 in Hrel4; cbn [snd] in Hrel4
  end.
  match goal with |- context [bind (log E ?l ?c ?m ?k) _ ?s0] =>
    destruct (log_returns E l c m k s0) as [s5 [Hrun5 Hrel5]];
    rewrite (bind_Ok _ _ _ _ _ Hrun5)
  end.
  exists s5. split; [reflexivity|].
  apply same_plan_log in Hrel5.
  destruct Hrel5 as [_ [Ha5 _]]. destruct Hrel4 as [_ [Ha4 _]].
  now rewrite Ha5, Ha4.
Qed.

Ltac succeed :=
  repeat (intros;
    lazymatch goal with
    | |- succeeds (bind _ _) => apply succeeds_bind
    | |- succeeds (ret _) => apply succeeds_ret
    | |- succeeds get => apply succeeds_get
    | |- succeeds (set_status _) => apply succeeds_set_status
    | |- succeeds (log _ _ _ _ _) => apply succeeds_log
    | |- succeeds (console _ _ _ _) => apply succeeds_console
    | |- succeeds (write_artifact _ _ _) => apply succeeds_write_artifact
    | |- succeeds (save_log _) => apply succeeds_save_log
    end).

(** Under a cooperative environment, a plan whose DDL and load plan can be
    generated is written out. *)
Lemma plan_returns (s : sys) (ddl : string) :
  analysis_results (self s) = Some a ->
  planned_ddl (request (self s)) a = Ok ddl ->
  _generate_load_plan a = Ok tt ->
  exists arts s', plan E s = (Ok arts, s').
Proof.
  intros Ha Hddl Hload. unfold plan.
  destruct (log_returns E "INFO" "plan" "Generating migration plan" [] s)
    as [s1 [Hrun1 Hrel1]].
  rewrite (bind_Ok _ _ _ _ _ Hrun1).
  apply same_plan_log in Hrel1. destruct Hrel1 as [Hreq1 [Ha1 _]].
  rewrite (bind_Ok (set_status PLANNING) _ s1 tt _ eq_refl).
  match goal with |- context [try_except _ _ ?s2] =>
    assert (Hw : exists arts s3, write_plan_artifacts E s2 = (Ok arts, s3))
  end.
  { unfold write_plan_artifacts. rewrite (bind_Ok get _ _ _ _ eq_refl).
    cbn [set_status snd self put_status analysis_results request].
    rewrite Ha1, Ha, Hreq1, Hddl, Hload.
    match goal with |- exists x s', ?m ?s0 = _ =>
      assert (Hs : succeeds m) by succeed; exact (Hs s0)
    end. }
  destruct Hw as [arts [s3 Hrun3]].
  unfold try_except.
  rewrite (bind_Ok _ _ _ _ _ Hrun3).
  rewrite (bind_Ok (set_status AWAITING_CONFIRMATION) _ s3 tt _ eq_refl).
  cbn [ret]. eauto.
Qed.

(** Under a cooperative environment, [finalize] returns once an analysis
    is there. *)
Lemma finalize_returns (s : sys) :
  analysis_results (self s) = Some a ->
  exists f s', finalize E s = (Ok f, s').
Proof.
  intros Ha. unfold finalize.
  destruct (log_returns E "INFO" "finalize" "Generating final report" [] s)
    as [s1 [Hrun1 Hrel1]].
  rewrite (bind_Ok _ _ _ _ _ Hrun1).
  apply same_plan_log in Hrel1. destruct Hrel1 as [_ [Ha1 _]].
  assert (Hw : exists f s2, write_report E s1 = (Ok f, s2)).
  { unfold write_report. rewrite (bind_Ok get _ _ _ _ eq_refl). rewrite Ha1, Ha.
    match goal with |- exists x s', ?m ?s0 = _ =>
      assert (Hs : succeeds m) by succeed; exact (Hs s0)
    end. }
  destruct Hw as [f [s2 Hrun2]].
  unfold try_except.
  rewrite (bind_Ok _ _ _ _ _ Hrun2).
  match goal with |- exists x s', (let (r, s0) := ?m ?s3 in _) = _ =>
    assert (Hs : succeeds m) by succeed; destruct (Hs s3) as [y [s4 Hrun4]]
  end.
  rewrite Hrun4. eauto.
Qed.

End CooperativeRuns.

Section DryRun.
Context (E : env).

Lemma keeps_plan_set_status (st : MigrationStatus) : keeps same_plan (set_status st).
Proof. intros s. repeat split. Qed.

Lemma keeps_plan_plan : keeps same_plan (plan E).
Proof. unfold plan, write_plan_artifacts. frame; apply keeps_plan_set_status. Qed.

Lemma keeps_harmless_failure_branch (e : string) :
  keeps harmless
    (let! _ := set_status FAILED in
     let! _ := log E "ERROR" "migration" ("Migration failed: " +:+ e) [] in
     let! _ := save_log E in
     @raise sys run_report e).
Proof. frame; apply keeps_harmless_set_status. Qed.

(** With [dry_run] set, [run_complete] executes nothing, whatever the
    [confirm] flag and whatever fails on the way. *)
Lemma dry_run_is_harmless (s : sys) :
  dry_run (preferences (request (self s))) = true ->
  harmless s (snd (run_complete E s)).
Proof.
  intros Hdry. unfold run_complete, try_except.
  pose proof (keeps_harmless_analyze E s) as H1.
  destruct (analyze E s) as [[a|e] s1] eqn:Hrun1; cbn [snd] in H1.
  2:{ rewrite (bind_Raise _ _ _ _ _ Hrun1).
      eapply harmless_trans; [exact H1 | apply keeps_harmless_failure_branch]. }
  rewrite (bind_Ok _ _ _ _ _ Hrun1).
  pose proof (keeps_harmless_plan E s1) as H2.
  destruct (plan E s1) as [[arts|e] s2] eqn:Hrun2; cbn [snd] in H2.
  2:{ rewrite (bind_Raise _ _ _ _ _ Hrun2).
      eapply harmless_trans; [eapply harmless_trans; [exact H1 | exact H2]|].
      apply keeps_harmless_failure_branch. }
  rewrite (bind_Ok _ _ _ _ _ Hrun2).
  rewrite (bind_Ok get _ s2 s2 s2 eq_refl).
  pose proof (harmless_trans _ _ _ H1 H2) as H12.
  destruct H12 as [Hreq H12]. rewrite Hreq, Hdry.
  match goal with |- context [?m s2] =>
    assert (Hk : keeps harmless m)
      by (frame; first [apply keeps_harmless_set_status | apply keeps_harmless_finalize]);
    specialize (Hk s2); destruct (m s2) as [[r|e] s5]; cbn [snd] in Hk
  end.
  - cbn [snd].
    eapply harmless_trans; [eapply harmless_trans; [exact H1 | exact H2] | exact Hk].
  - eapply harmless_trans;
      [eapply harmless_trans; [eapply harmless_trans; [exact H1 | exact H2] | exact Hk]|].
    apply keeps_harmless_failure_branch.
Qed.

(** With [dry_run] set, a cooperative environment and an analysis from
    which the DDL and the load plan can be generated, [run_complete]
    returns, and the status has gone PLANNING, AWAITING_CONFIRMATION (set at
    the end of [plan]), COMPLETED. *)
Lemma dry_run_completes (a : analysis) (req : MigrationRequest) (ddl : string) :
  cooperative E a ->
  planned_ddl req a = Ok ddl ->
  _generate_load_plan a = Ok tt ->
  dry_run (preferences req) = true ->
  exists report s',
    run_complete E (start E req) = (Ok report, s')
    /\ rr_status report = "completed"
    /\ status (self s') = COMPLETED
    /\ history s' =
       [PENDING; ANALYZING; PLANNING; AWAITING_CONFIRMATION; COMPLETED; COMPLETED].
Proof.
  intros Hcoop Hddl Hload Hdry. unfold run_complete, try_except.
  set (s := start E req).
  (* analyze *)
  destruct (analyze_returns E a Hcoop s) as [s1 [Hrun1 Ha1]].
  pose proof (analyze_lands E s) as Hm1. rewrite Hrun1 in Hm1.
  pose proof (keeps_harmless_analyze E s) as Hh1. rewrite Hrun1 in Hh1. cbn [snd] in Hh1.
  rewrite (bind_Ok _ _ _ _ _ Hrun1).
  (* plan *)
  assert (Hreq1 : request (self s1) = req) by (destruct Hh1 as [-> _]; reflexivity).
  assert (Hddl1 : planned_ddl (request (self s1)) a = Ok ddl) by now rewrite Hreq1.
  destruct (plan_returns E a Hcoop s1 ddl Ha1 Hddl1 Hload) as [arts [s2 Hrun2]].
  pose proof (plan_lands E s1) as Hm2. rewrite Hrun2 in Hm2.
  pose proof (keeps_harmless_plan E s1) as Hh2. rewrite Hrun2 in Hh2. cbn [snd] in Hh2.
  pose proof (keeps_plan_plan s1) as Hp2. rewrite Hrun2 in Hp2. cbn [snd] in Hp2.
  rewrite (bind_Ok _ _ _ _ _ Hrun2).
  rewrite (bind_Ok get _ s2 s2 s2 eq_refl).
  assert (Hreq2 : request (self s2) = req) by (destruct Hh2 as [-> _]; exact Hreq1).
  rewrite Hreq2, Hdry.
  (* the dry-run branch *)
  destruct (log_returns E "INFO" "migration" "Dry run completed - no execution" [] s2)
    as [s3 [Hrun3 Hrel3]].
  rewrite (bind_Ok _ _ _ _ _ Hrun3).
  rewrite (bind_Ok (set_status COMPLETED) _ s3 tt _ eq_refl).
  pose proof (moved_set_status COMPLETED s3) as Hset. cbn [set_status snd] in Hset.
  pose proof (keeps_harmless_set_status COMPLETED s3) as Hh4. cbn [set_status snd] in Hh4.
  match type of Hset with moved _ _ ?s0 => set (s4 := s0) in * end.
  assert (Ha4 : analysis_results (self s4) = Some a).
  { destruct Hp2 as [_ [Hp2 _]]. apply same_plan_log in Hrel3 as [_ [Hr3 _]].
    subst s4. cbn. now rewrite Hr3, Hp2. }
  destruct (finalize_returns E a Hcoop s4 Ha4) as [f [s5 Hrun5]].
  pose proof (finalize_lands E s4) as Hm5. rewrite Hrun5 in Hm5.
  pose proof (keeps_harmless_finalize E s4) as Hh5. rewrite Hrun5 in Hh5. cbn [snd] in Hh5.
  rewrite (bind_Ok _ _ _ _ _ Hrun5).
  rewrite (bind_Ok get _ s5 s5 s5 eq_refl). cbn [ret].
  (* no migration result was ever recorded *)
  assert (Hnone : migration_results (self s5) = []).
  { pose proof (harmless_trans _ _ _ Hh1 Hh2) as H12.
    pose proof (harmless_trans _ _ _ H12 (harmless_log _ _ Hrel3)) as H13.
    pose proof (harmless_trans _ _ _ (harmless_trans _ _ _ H13 Hh4) Hh5) as [_ [Hm _]].
    rewrite Hm. reflexivity. }
  rewrite Hnone in Hm5. change (final_status []) with COMPLETED in Hm5.
  apply same_status_log, moved_same in Hrel3.
  pose proof (moved_trans _ _ _ _ _
                (moved_trans _ _ _ _ _
                   (moved_trans _ _ _ _ _ (moved_trans _ _ _ _ _ Hm1 Hm2) Hrel3) Hset)
                Hm5) as [Hhist Hstatus].
  cbn in Hhist, Hstatus.
  eexists. exists s5. split; [reflexivity|]. cbn [rr_status].
  rewrite Hstatus. repeat split. exact Hhist.
Qed.

End DryRun.

Section RunTheorems.

Lemma climbs_run_paths (dry conf : bool) (d : list MigrationStatus) :
  In d (run_paths dry conf) -> climbs (PENDING :: d).
Proof.
  intros Hin. unfold climbs.
  destruct dry, conf; cbn in Hin;
    repeat (destruct Hin as [<-|Hin]; [|try contradiction]);
    repeat first [ (cbn; lia) | constructor ].
Qed.

(** A workflow that no other call interleaves with only moves the status
    forward, in the order PENDING, ANALYZING, PLANNING,
    AWAITING_CONFIRMATION, EXECUTING, VALIDATING, terminal. *)
Lemma run_complete_alone_climbs (E : env) (req : MigrationRequest) :
  climbs (history (snd (run_complete E (start E req)))).
Proof.
  destruct (run_complete_moves E (start E req)) as [d [[Hh _] Hin]].
  rewrite Hh. exact (climbs_run_paths _ _ d Hin).
Qed.

Lemma steps_directly_found (a b : MigrationStatus) (h t : list MigrationStatus) :
  steps_directly a b (h ++ a :: b :: t) = true.
Proof.
  induction h as [|x h IH].
  - cbn [app steps_directly].
    rewrite (bool_decide_eq_true_2 (a = a) eq_refl), (bool_decide_eq_true_2 (b = b) eq_refl).
    reflexivity.
  - cbn [app steps_directly].
    destruct (h ++ a :: b :: t) as [|y l] eqn:Hl; [destruct h; discriminate|].
    rewrite IH. apply orb_true_r.
Qed.

Lemma climbs_step (a b : MigrationStatus) (h t : list MigrationStatus) :
  climbs (h ++ a :: b :: t) -> (rank a <= rank b)%nat.
Proof.
  unfold climbs. induction h as [|x h IH]; cbn [app]; intros Hs.
  - apply StronglySorted_inv in Hs. destruct Hs as [_ Hall].
    now apply Forall_inv in Hall.
  - apply StronglySorted_inv in Hs. destruct Hs as [Hs _]. exact (IH Hs).
Qed.

(** The phase that follows a cancel, when no one stops the worker. *)
Lemma cancel_then_plan (E : env) (s : sys) :
  let cancelled := apply_ops E [OpCancel] s in
  let planned := apply_ops E [OpCancel; OpPlan] s in
  status (self cancelled) = CANCELLED
  /\ exists last_status,
       history planned = history s ++ [CANCELLED; PLANNING; last_status]
       /\ status (self planned) = last_status
       /\ (last_status = AWAITING_CONFIRMATION \/ last_status = FAILED).
Proof.
  cbv zeta. unfold apply_ops. cbn [fold_left apply_op].
  destruct (cancel_lands E s) as [c [Hrun [Hh Hst]]]. rewrite Hrun. cbn [snd].
  split; [exact Hst|].
  pose proof (plan_lands E c) as Hp.
  destruct (plan E c) as [[arts|e] p]; destruct Hp as [Hh' Hst']; cbn [snd].
  - exists AWAITING_CONFIRMATION. rewrite Hh', Hh, <- app_assoc.
    split; [reflexivity|]. split; [exact Hst' | now left].
  - exists FAILED. rewrite Hh', Hh, <- app_assoc.
    split; [reflexivity|]. split; [exact Hst' | now right].
Qed.

(** C3.  The code does not keep the invariant of the specification.
    [cancel_migration] assigns CANCELLED and stops nothing, and no phase
    method reads the status before it assigns its own.  So in every
    environment and from every state of a run: after a cancel the status is
    CANCELLED; the [plan] the worker goes on with steps back from CANCELLED
    to PLANNING and leaves the status AWAITING_CONFIRMATION or FAILED, so
    the statuses assigned do not progress monotonically; a [finalize] after
    the cancel, when it returns, replaces CANCELLED by COMPLETED or FAILED;
    and no state of a run is one from which the terminal states are
    absorbing. *)
Theorem C3_cancel_does_not_stop_the_run (E : env) (s : sys) :
  let cancelled := apply_ops E [OpCancel] s in
  let planned := apply_ops E [OpCancel; OpPlan] s in
  status (self cancelled) = CANCELLED
  /\ steps_directly CANCELLED PLANNING (history planned) = true
  /\ (status (self planned) = AWAITING_CONFIRMATION \/ status (self planned) = FAILED)
  /\ ~ climbs (history planned)
  /\ match finalize E cancelled with
     | (Ok _, s') => status (self s') = final_status (migration_results (self s'))
                     /\ status (self s') <> CANCELLED
     | (Raise _, s') => status (self s') = CANCELLED
     end
  /\ ~ absorbing E s.
Proof.
  cbv zeta.
  destruct (cancel_then_plan E s) as [Hc [x [Hh [Hst Hx]]]].
  split; [exact Hc|]. split; [|split; [|split; [|split]]].
  - rewrite Hh. apply (steps_directly_found CANCELLED PLANNING (history s) [x]).
  - rewrite Hst. exact Hx.
  - rewrite Hh. intros Hclimb.
    apply (climbs_step CANCELLED PLANNING (history s) [x]) in Hclimb.
    cbn in Hclimb. lia.
  - pose proof (finalize_lands E (apply_ops E [OpCancel] s)) as Hf.
    destruct (finalize E (apply_ops E [OpCancel] s)) as [[f|e] s']; destruct Hf as [_ Hf].
    + cbn [last] in Hf. split; [exact Hf|]. rewrite Hf. unfold final_status.
      destruct (_ =? 0); discriminate.
    + cbn [last] in Hf. now rewrite Hf.
  - intros Habs. specialize (Habs [OpCancel] OpPlan).
    rewrite Hc in Habs. specialize (Habs eq_refl).
    cbn [app] in Habs. rewrite Hst in Habs. destruct Hx; congruence.
Qed.

(** On a run where everything works: analysed, planned and then cancelled,
    the run is CANCELLED; the [finalize] that follows makes it COMPLETED. *)
Example cancelled_run_is_finalized :
  let E := healthy_env small_analysis three_rows_loaded in
  let s := apply_ops E [OpAnalyze; OpPlan; OpCancel] (start E (request_with false true)) in
  status (self s) = CANCELLED
  /\ status (self (apply_ops E [OpFinalize] s)) = COMPLETED.
Proof. vm_compute. split; reflexivity. Qed.

(** C8, as the code has it.  For every request with [dry_run] set, whatever
    [confirm] says and whatever the environment answers, [run_complete]
    executes no DDL, extracts nothing and loads nothing: every event is an
    artifact written or a log line, no migration result is recorded, the rows
    loaded total 0, and the status is never EXECUTING or VALIDATING.  When the
    planning works (the analysis is found, the DDL can be generated from it,
    the load plan can be built, which needs a size for every table, and the
    artifacts can be written), the run returns with the status COMPLETED,
    reached from PLANNING through the AWAITING_CONFIRMATION that [plan] sets
    before it returns. *)
Theorem C8_dry_run_plans_only (E : env) (req : MigrationRequest) :
  dry_run (preferences req) = true ->
  let out := run_complete E (start E req) in
  let s := snd out in
  forallb planning_event (events (outside s)) = true
  /\ migration_results (self s) = []
  /\ total_rows (migration_results (self s)) = 0
  /\ ~ In EXECUTING (history s)
  /\ ~ In VALIDATING (history s)
  /\ (forall a ddl,
        cooperative E a -> planned_ddl req a = Ok ddl -> _generate_load_plan a = Ok tt ->
        (exists report, fst out = Ok report /\ rr_status report = "completed")
        /\ status (self s) = COMPLETED
        /\ history s =
           [PENDING; ANALYZING; PLANNING; AWAITING_CONFIRMATION; COMPLETED; COMPLETED]).
Proof.
  intros Hdry. cbv zeta.
  pose proof (dry_run_is_harmless E (start E req) Hdry) as [_ [Hmig [ev [Hev Hplan]]]].
  cbn [start self outside events migration_results new_orchestrator app] in Hmig, Hev.
  destruct (run_complete_moves E (start E req)) as [d [[Hh _] Hin]].
  cbn [start self request new_orchestrator] in Hin. rewrite Hdry in Hin.
  cbn [start history app] in Hh.
  repeat split.
  - now rewrite Hev.
  - exact Hmig.
  - now rewrite Hmig.
  - rewrite Hh. cbn in Hin.
    repeat (destruct Hin as [<-|Hin]; [|try contradiction]); cbn; intuition discriminate.
  - rewrite Hh. cbn in Hin.
    repeat (destruct Hin as [<-|Hin]; [|try contradiction]); cbn; intuition discriminate.
  - destruct (dry_run_completes E a req ddl H H0 H1 Hdry) as [report [s' [Hrun [Hst _]]]].
    exists report. rewrite Hrun. split; [reflexivity | exact Hst].
  - destruct (dry_run_completes E a req ddl H H0 H1 Hdry) as [report [s' [Hrun [_ [Hst _]]]]].
    rewrite Hrun. exact Hst.
  - destruct (dry_run_completes E a req ddl H H0 H1 Hdry)
      as [report [s' [Hrun [_ [_ Hhist]]]]].
    rewrite Hrun. exact Hhist.
Qed.

(** C8, refuted as stated: in a dry run where everything works, the status
    does not go from PLANNING straight to COMPLETED; [plan] leaves it at
    AWAITING_CONFIRMATION, and COMPLETED follows that. *)
Lemma C8_dry_run_passes_awaiting_confirmation :
  let E := healthy_env small_analysis three_rows_loaded in
  let req := request_with true true in
  let h := history (snd (run_complete E (start E req))) in
  ~ dry_run_flow_is_direct E req
  /\ steps_directly PLANNING AWAITING_CONFIRMATION h = true
  /\ steps_directly AWAITING_CONFIRMATION COMPLETED h = true.
Proof.
  cbv zeta. split; [|split; vm_compute; reflexivity].
  intros Hflow. specialize (Hflow eq_refl). vm_compute in Hflow. discriminate Hflow.
Qed.

Lemma healthy_env_cooperative (a : analysis) (copy : copy_outcome) :
  cooperative (healthy_env a copy) a.
Proof. split; intros; reflexivity. Qed.

(** C8 on a request with both [dry_run] and [confirm] set: the run ends
    COMPLETED with seven planning artifacts, a summary and a log, and nothing
    else. *)
Lemma C8_witness_dry_run_wins :
  let E := healthy_env small_analysis three_rows_loaded in
  let s := snd (run_complete E (start E (request_with true true))) in
  status (self s) = COMPLETED
  /\ history s = [PENDING; ANALYZING; PLANNING; AWAITING_CONFIRMATION; COMPLETED; COMPLETED]
  /\ forallb planning_event (events (outside s)) = true
  /\ migration_results (self s) = []
  /\ length (List.filter (fun e => match e with EvArtifact _ _ => true | _ => false end)
                         (events (outside s))) = 9%nat.
Proof.
  cbv zeta.
  pose proof (C8_dry_run_plans_only (healthy_env small_analysis three_rows_loaded)
                (request_with true true) eq_refl) as H.
  cbv zeta in H. destruct H as [Hev [Hmig [_ [_ [_ Hcoop]]]]].
  assert (Hddl : exists ddl, planned_ddl (request_with true true) small_analysis = Ok ddl)
    by (vm_compute; eexists; reflexivity).
  destruct Hddl as [ddl Hddl].
  destruct (Hcoop small_analysis ddl (healthy_env_cooperative _ _) Hddl eq_refl)
    as [_ [Hst Hhist]].
  split; [exact Hst|]. split; [exact Hhist|]. split; [exact Hev|]. split; [exact Hmig|].
  vm_compute. reflexivity.
Defined.

End RunTheorems.

(* ===================================================================== *)
(** * More theorems: the DDL script *)
(* ===================================================================== *)

Section TextFacts.
Import PyStr PyText.

Lemma split_not_nil (c : ascii) (s : string) : split c s <> [].
Proof.
  induction s as [|d r IH]; cbn; [discriminate|].
  destruct (Ascii.eqb d c); [discriminate|].
  destruct (split c r); [contradiction | discriminate].
Qed.

(** Splitting at a separator splits the two sides. *)
Lemma split_app (c : ascii) (pre rest : string) :
  split c (pre +:+ String c rest) = split c pre ++ split c rest.
Proof.
  induction pre as [|d p IH].
  - rewrite str_app_nil_l. cbn. now rewrite Ascii.eqb_refl.
  - rewrite str_app_cons. cbn. rewrite IH. destruct (Ascii.eqb d c); [reflexivity|].
    pose proof (split_not_nil c p) as Hne.
    destruct (split c p) as [|w ws]; [contradiction | reflexivity].
Qed.

(** The first piece of a text that starts with separator-free characters
    starts with them. *)
Lemma split_head (c : ascii) (mid post : string) :
  all_chars (fun d => negb (Ascii.eqb d c)) mid = true ->
  exists w ws, split c (mid +:+ post) = (mid +:+ w) :: ws.
Proof.
  induction mid as [|d m IH]; intros Hall.
  - rewrite str_app_nil_l. pose proof (split_not_nil c post) as Hne.
    destruct (split c post) as [|w ws]; [contradiction|]. now exists w, ws.
  - cbn in Hall. apply andb_true_iff in Hall as [Hd Hm].
    destruct (IH Hm) as [w [ws Hs]]. rewrite str_app_cons. cbn. rewrite Hs.
    apply negb_true_iff in Hd. rewrite Hd. now exists w, ws.
Qed.

(** No piece of a split holds the separator. *)
Lemma split_pieces (c : ascii) (s : string) :
  Forall (fun x => all_chars (fun d => negb (Ascii.eqb d c)) x = true) (split c s).
Proof.
  induction s as [|d r IH]; cbn.
  - repeat constructor.
  - destruct (Ascii.eqb d c) eqn:Hd.
    + constructor; [reflexivity | exact IH].
    + pose proof (split_not_nil c r) as Hne.
      destruct (split c r) as [|w ws]; [contradiction|].
      inversion IH as [|? ? Hw Hws]; subst. constructor; [|exact Hws].
      cbn. now rewrite Hd, Hw.
Qed.

Lemma lstrip_all_chars (p : ascii -> bool) (s : string) :
  all_chars p s = true -> all_chars p (lstrip s) = true.
Proof.
  unfold lstrip. induction s as [|d r IH]; cbn; [trivial|].
  intros H. destruct (Logger.is_space d).
  - apply andb_true_iff in H as [_ H]. now apply IH.
  - exact H.
Qed.

Lemma rstrip_all_chars (p : ascii -> bool) (s : string) :
  all_chars p s = true -> all_chars p (rstrip s) = true.
Proof.
  induction s as [|d r IH]; cbn; [trivial|].
  intros H. apply andb_true_iff in H as [Hd Hr]. specialize (IH Hr).
  destruct (rstrip r) as [|e r'].
  - destruct (Logger.is_space d); cbn; [reflexivity | now rewrite Hd].
  - cbn in *. now rewrite Hd.
Qed.

(** What [rstrip] leaves is empty or ends with a character that is no
    blank: stripping it again changes nothing. *)
Lemma rstrip_idem (s : string) : rstrip (rstrip s) = rstrip s.
Proof.
  induction s as [|d r IH]; cbn; [reflexivity|].
  destruct (rstrip r) as [|e r'] eqn:Hr.
  - destruct (Logger.is_space d) eqn:Hd; cbn; [reflexivity | now rewrite Hd].
  - cbn. cbn in IH. destruct (match rstrip r' with
                               | "" => if Logger.is_space e then "" else String e ""
                               | String d0 r'0 => String e (String d0 r'0)
                               end) eqn:Hm; [discriminate|].
    now injection IH as -> ->.
Qed.

(** [rstrip] takes nothing away at the front. *)
Lemma lstrip_rstrip (s : string) :
  lstrip (rstrip (lstrip s)) = rstrip (lstrip s).
Proof.
  assert (H : forall t, lstrip t = t -> lstrip (rstrip t) = rstrip t).
  { intros t Ht. destruct t as [|d r]; [reflexivity|].
    unfold lstrip in *. cbn in Ht. cbn.
    destruct (Logger.is_space d) eqn:Hd.
    - exfalso. assert (Hlen : (String.length (Logger.skip_while Logger.is_space r)
                               <= String.length r)%nat).
      { clear. induction r as [|e r IH]; cbn; [lia|].
        destruct (Logger.is_space e); cbn; lia. }
      rewrite Ht in Hlen. cbn in Hlen. lia.
    - destruct (rstrip r); cbn; now rewrite Hd. }
  apply H. unfold lstrip. induction s as [|d r IH]; cbn; [reflexivity|].
  destruct (Logger.is_space d) eqn:Hd; [exact IH | cbn; now rewrite Hd].
Qed.

Lemma startswith_app (a b : string) : startswith a (a +:+ b) = true.
Proof.
  induction a as [|x a IH]; [reflexivity|].
  rewrite str_app_cons. cbn. now rewrite Ascii.eqb_refl.
Qed.

(** [rstrip] keeps a prefix that ends with a character that is no blank. *)
Lemma rstrip_keeps_prefix (a : string) (x : ascii) (b : string) :
  Logger.is_space x = false ->
  exists t, rstrip ((a +:+ String x "") +:+ b) = (a +:+ String x "") +:+ t.
Proof.
  intros Hx. induction a as [|d a [t IH]].
  - rewrite !str_app_nil_l, str_app_cons, str_app_nil_l. cbn.
    destruct (rstrip b) as [|e r']; [rewrite Hx; now exists "" | now exists (String e r')].
  - rewrite !str_app_cons. cbn. rewrite IH.
    destruct ((a +:+ String x "") +:+ t) as [|e r'] eqn:Ha.
    + destruct a; discriminate.
    + exists t. now rewrite !str_app_cons, Ha.
Qed.

End TextFacts.

Section ScriptFacts.
Import PyStr PyText Eff Model Generator Script Props.

Lemma strip_idem (s : string) : strip (strip s) = strip s.
Proof. unfold strip. now rewrite lstrip_rstrip, rstrip_idem. Qed.

Lemma statements_clean (script : string) :
  Forall (fun st => truthy st = true
                    /\ all_chars (fun d => negb (Ascii.eqb d ";")) st = true
                    /\ strip st = st) (statements script).
Proof.
  unfold statements. apply List.Forall_forall. intros st Hin.
  apply in_map_iff in Hin as [x [<- Hx]]. apply filter_In in Hx as [Hx Htrue].
  split; [exact Htrue|]. split; [|apply strip_idem].
  pose proof (split_pieces ";" script) as Hall.
  rewrite List.Forall_forall in Hall. unfold strip.
  apply rstrip_all_chars, lstrip_all_chars, Hall, Hx.
Qed.

(** X1.  The statements [execute_ddl_script] cuts a script into are never
    empty, hold no semicolon, and have no blank at either end: every
    semicolon of the script is a cut, wherever it stands. *)
Theorem X1_statements_are_trimmed_pieces (script : string) :
  Forall (fun st => truthy st = true
                    /\ all_chars (fun d => negb (Ascii.eqb d ";")) st = true
                    /\ strip st = st) (statements script).
Proof. apply statements_clean. Qed.

(** What the loop has sent, and how it has ended, after the statements
    [l]. *)
Lemma execute_statements_spec (answer : list string -> string -> res unit)
    (l : list string) (sent : list string) :
  Forall (fun st => truthy st = true) l ->
  exists k,
    (k <= length l)%nat /\
    snd (for_each (execute_statement answer) l sent) = sent ++ firstn k l /\
    (forall i st, (S i < k)%nat -> nth_error l i = Some st ->
                  answer (sent ++ firstn i l) st = Ok tt) /\
    match fst (for_each (execute_statement answer) l sent) with
    | Ok _ =>
        k = length l /\
        forall st, nth_error l (pred k) = Some st ->
                   answer (sent ++ firstn (pred k) l) st = Ok tt
    | Raise e =>
        exists st, nth_error l (pred k) = Some st /\ (0 < k)%nat /\
                   answer (sent ++ firstn (pred k) l) st = Raise e
    end.
Proof.
  revert sent. induction l as [|st0 l IH]; intros sent Hall.
  - exists 0%nat. cbn. rewrite app_nil_r.
    split; [lia|]. split; [reflexivity|]. split; [intros i st Hi; lia|].
    split; [reflexivity|]. intros st Hst. discriminate.
  - inversion Hall as [|? ? Hst0 Hl]; subst.
    assert (Hstep :
      for_each (execute_statement answer) (st0 :: l) sent =
      match answer sent st0 with
      | Ok _ =>
          match for_each (execute_statement answer) l (sent ++ [st0]) with
          | (Ok ys, s) => (Ok (tt :: ys), s)
          | (Raise e, s) => (Raise e, s)
          end
      | Raise e => (Raise e, sent ++ [st0])
      end).
    { cbn [for_each]. unfold bind, execute_statement at 1. rewrite Hst0.
      destruct (answer sent st0) as [[]|e]; reflexivity. }
    rewrite Hstep. clear Hstep.
    destruct (answer sent st0) as [[]|e] eqn:Hans.
    + destruct (IH (sent ++ [st0]) Hl) as [k [Hk [Hsent [Hbefore Hend]]]].
      exists (S k). split; [cbn; lia|].
      assert (Hshift : forall i, sent ++ firstn (S i) (st0 :: l)
                                 = (sent ++ [st0]) ++ firstn i l).
      { intros i. cbn [firstn]. now rewrite <- app_assoc. }
      assert (Hbefore' : forall i st, (S i < S k)%nat -> nth_error (st0 :: l) i = Some st ->
                                      answer (sent ++ firstn i (st0 :: l)) st = Ok tt).
      { intros i st Hi Hnth. destruct i as [|i]; cbn in Hnth.
        - injection Hnth as <-. cbn. now rewrite app_nil_r.
        - rewrite Hshift. apply Hbefore; [lia | exact Hnth]. }
      destruct (for_each (execute_statement answer) l (sent ++ [st0])) as [[ys|e] s2];
        cbn [fst snd] in *.
      * split; [now rewrite Hshift, Hsent|]. split; [exact Hbefore'|].
        destruct Hend as [-> Hlast]. split; [reflexivity|].
        intros st Hnth. cbn [pred] in Hnth.
        destruct l as [|st1 l'].
        -- cbn in Hnth. injection Hnth as <-. cbn. now rewrite app_nil_r.
        -- cbn [length pred] in *. rewrite Hshift. apply Hlast. exact Hnth.
      * split; [now rewrite Hshift, Hsent|]. split; [exact Hbefore'|].
        destruct Hend as [st [Hnth [Hpos Hfail]]].
        exists st. destruct k as [|k]; [lia|]. cbn [pred] in *.
        split; [exact Hnth|]. split; [lia|]. rewrite Hshift. exact Hfail.
    + exists 1%nat. cbn [fst snd firstn length pred]. split; [lia|].
      split; [reflexivity|]. split; [intros i st Hi; lia|].
      exists st0. cbn. rewrite app_nil_r. repeat split; [lia | exact Hans].
Qed.

(** X2.  [execute_ddl_script] sends the statements of the script in order
    and stops at the first one the cursor refuses: what it has sent is a
    prefix of the statements, all of them when it returns; when it raises,
    the error is the one of the last statement sent, every statement before
    it was accepted and stays executed, and no later statement is sent. *)
Theorem X2_script_stops_at_first_error (answer : list string -> string -> res unit)
    (script : string) (sent : list string) :
  let stmts := statements script in
  let out := execute_ddl_script answer script sent in
  exists k,
    (k <= length stmts)%nat /\
    snd out = sent ++ firstn k stmts /\
    (forall i st, (S i < k)%nat -> nth_error stmts i = Some st ->
                  answer (sent ++ firstn i stmts) st = Ok tt) /\
    match fst out with
    | Ok _ => k = length stmts
    | Raise e =>
        (0 < k)%nat /\
        exists st, nth_error stmts (pred k) = Some st /\
                   answer (sent ++ firstn (pred k) stmts) st = Raise e
    end.
Proof.
  cbv zeta.
  assert (Hall : Forall (fun st => truthy st = true) (statements script)).
  { eapply List.Forall_impl; [|apply statements_clean]. intros st [H _]. exact H. }
  destruct (execute_statements_spec answer (statements script) sent Hall)
    as [k [Hk [Hsent [Hbefore Hend]]]].
  exists k. unfold execute_ddl_script, bind.
  destruct (for_each (execute_statement answer) (statements script) sent) as [[ys|e] s2];
    cbn [fst snd ret] in *.
  - repeat split; trivial. apply Hend.
  - destruct Hend as [st [Hnth [Hpos Hfail]]]. repeat split; trivial. eauto.
Qed.

Lemma occurs_refl (x : string) : occurs x x.
Proof. exists "", "". now rewrite str_app_nil_l, str_app_nil_r. Qed.

Lemma occurs_app_r (x a b : string) : occurs x b -> occurs x (a +:+ b).
Proof.
  intros [pre [post ->]]. exists (a +:+ pre), post. now rewrite str_app_assoc.
Qed.

Lemma occurs_app_l (x a b : string) : occurs x a -> occurs x (a +:+ b).
Proof.
  intros [pre [post ->]]. exists pre, (post +:+ b). now rewrite !str_app_assoc.
Qed.

Lemma occurs_join (x y sep : string) (l : list string) :
  In y l -> occurs x y -> occurs x (join sep l).
Proof.
  intros Hin Hocc. induction l as [|z l IH]; [contradiction|].
  destruct l as [|z' l'].
  - destruct Hin as [->|[]]. exact Hocc.
  - change (join sep (z :: z' :: l')) with (z +:+ sep +:+ join sep (z' :: l')).
    destruct Hin as [->|Hin].
    + now apply occurs_app_l.
    + apply occurs_app_r, occurs_app_r, IH, Hin.
Qed.

(** A semicolon followed by a blank and the words of [AFTER_SEMICOLON]
    makes a statement that starts with these words. *)
Lemma statement_after_semicolon (script : string) :
  occurs (";" +:+ " " +:+ AFTER_SEMICOLON) script ->
  exists st, In st (statements script) /\ startswith AFTER_SEMICOLON st = true.
Proof.
  intros [pre [post ->]].
  change (pre +:+ (";" +:+ " " +:+ AFTER_SEMICOLON) +:+ post)
    with (pre +:+ String ";" ((" " +:+ AFTER_SEMICOLON) +:+ post)).
  destruct (split_head ";" (" " +:+ AFTER_SEMICOLON) post eq_refl) as [w [ws Hs]].
  exists (strip ((" " +:+ AFTER_SEMICOLON) +:+ w)).
  assert (Hstrip : exists t, strip ((" " +:+ AFTER_SEMICOLON) +:+ w) = AFTER_SEMICOLON +:+ t).
  { unfold strip.
    change (lstrip ((" " +:+ AFTER_SEMICOLON) +:+ w)) with (AFTER_SEMICOLON +:+ w).
    exact (rstrip_keeps_prefix "not enforced on standard tables)" ":" w eq_refl). }
  destruct Hstrip as [t Ht]. split.
  - unfold statements. apply in_map. apply filter_In. split.
    + rewrite split_app, Hs. apply in_or_app. right. now left.
    + now rewrite Ht.
  - rewrite Ht. apply startswith_app.
Qed.

End ScriptFacts.

Section ScriptAndGenerator.
Import PyStr PyText Eff Model Generator Script Props.

(** What a loop returned for an element of its list. *)
Lemma for_each_In {S A B} (f : A -> M S B) (l : list A) (s s' : S) (ys : list B) (x : A) :
  for_each f l s = (Ok ys, s') -> In x l ->
  exists s1 y s2, f x s1 = (Ok y, s2) /\ In y ys.
Proof.
  revert s ys. induction l as [|x0 l IH]; intros s ys Hrun Hin; [contradiction|].
  cbn [for_each] in Hrun. unfold bind in Hrun.
  destruct (f x0 s) as [[y0|e] s1] eqn:Hx0; [|discriminate].
  destruct (for_each f l s1) as [[ys1|e] s2] eqn:Hl; [|discriminate].
  injection Hrun as <- <-.
  destruct Hin as [->|Hin].
  - exists s, y0, s1. split; [exact Hx0 | now left].
  - destruct (IH _ _ Hl Hin) as [t1 [y [t2 [Hy Hiny]]]].
    exists t1, y, t2. split; [exact Hy | now right].
Qed.

Lemma ok_pair_inj {S A} (a b : A) (s t : S) : (Ok a, s) = (Ok b, t) -> a = b /\ s = t.
Proof. intros H. now injection H. Qed.

(** The comment line above the foreign keys is in the text of the table. *)
Lemma table_ddl_foreign_key_comment (sname : string) (td : table_detail)
    (g g' : SnowflakeGenerator) (ddl : string) (ms : list MappingDecision) :
  generate_table_ddl sname td g = (Ok (ddl, ms), g') ->
  foreign_keys (table_constraints td) <> [] ->
  occurs (";" +:+ " " +:+ AFTER_SEMICOLON) ddl.
Proof.
  intros Hrun Hfk. unfold generate_table_ddl, bind, reads in Hrun.
  assert (Hlit : occurs (";" +:+ " " +:+ AFTER_SEMICOLON)
            "-- Foreign key constraints (for documentation; not enforced on standard tables):").
  { exists "-- Foreign key constraints (for documentation", "". reflexivity. }
  destruct (foreign_keys (table_constraints td)) as [|fk fks]; [contradiction|].
  destruct (cluster_key_hints (gen_preferences g) !! table_name td) as [[|c cs]|];
    try destruct (Model.total_size_bytes (table_meta td)) as [size|];
    try destruct (TEN_GIB <? size);
    cbn in Hrun; try discriminate;
    destruct (List.last _ None); try discriminate;
    injection Hrun as <- <- <-;
    apply occurs_app_r, occurs_app_r, occurs_app_r, occurs_app_l, Hlit.
Qed.

(** The text of every table is in the script. *)
Lemma complete_ddl_holds_tables (cfg : ddl_config) (g g' : SnowflakeGenerator)
    (script : string) (sd : schema_detail) (td : table_detail) :
  generate_complete_ddl cfg g = (Ok script, g') ->
  In sd (schemas (gen_analysis g)) -> In td (tables sd) ->
  exists g1 g2 ddl ms,
    generate_table_ddl (schema_name sd) td g1 = (Ok (ddl, ms), g2) /\
    occurs ddl script.
Proof.
  intros Hrun Hsd Htd. unfold generate_complete_ddl, bind, reads, ret in Hrun.
  destruct (for_each schema_round (schemas (gen_analysis g)) g)
    as [[schema_lines|e] s1] eqn:Hschemas; [|discriminate].
  apply ok_pair_inj in Hrun as [Hscript _]. rewrite <- Hscript. clear Hscript.
  destruct (for_each_In _ _ _ _ _ _ Hschemas Hsd) as [t1 [ls [t2 [Hround Hls]]]].
  unfold schema_round, bind, reads, ret in Hround.
  destruct (for_each (table_round (schema_name sd)) (tables sd) t1)
    as [[table_lines|e] s2] eqn:Htables; [|discriminate].
  apply ok_pair_inj in Hround as [Hlines _]. rewrite <- Hlines in Hls. clear Hlines.
  destruct (for_each_In _ _ _ _ _ _ Htables Htd) as [u1 [tl [u2 [Htable Htl]]]].
  unfold table_round, bind in Htable.
  destruct (generate_table_ddl (schema_name sd) td u1) as [[[ddl ms]|e] u3] eqn:Hgen;
    [|discriminate].
  cbn in Htable. injection Htable as <- <-.
  exists u1, u3, ddl, ms. split; [exact Hgen|].
  assert (Hc : In ddl (concat table_lines)).
  { apply in_concat. exists [ddl; ""]. split; [exact Htl | now left]. }
  match type of Hls with In ?L _ => assert (HinL : In ddl L) end.
  { repeat (cbn [In app]; rewrite ?in_app_iff). tauto. }
  apply (occurs_join _ ddl); [|apply occurs_refl].
  assert (Hs : In ddl (concat schema_lines)).
  { apply in_concat. eexists. split; [exact Hls | exact HinL]. }
  repeat (cbn [In app]; rewrite ?in_app_iff). tauto.
Qed.

Lemma occurs_trans (x y z : string) : occurs x y -> occurs y z -> occurs x z.
Proof.
  intros Hxy [pre [post ->]]. now apply occurs_app_r, occurs_app_l.
Qed.

(** X3.  When a table of the analysis has a foreign key, the script that
    [generate_complete_ddl] returns does not survive the cut of
    [execute_ddl_script]: the comment line above the foreign keys holds a
    semicolon, and one of the statements sent to Snowflake starts with the
    rest of that line, the words [not enforced on standard tables):]. *)
Theorem X3_foreign_key_comment_is_cut (cfg : ddl_config) (g g' : SnowflakeGenerator)
    (script : string) :
  has_foreign_key (gen_analysis g) = true ->
  generate_complete_ddl cfg g = (Ok script, g') ->
  exists st, In st (statements script) /\ startswith AFTER_SEMICOLON st = true.
Proof.
  intros Hfk Hrun. unfold has_foreign_key in Hfk.
  apply existsb_exists in Hfk as [sd [Hsd Hfk]].
  apply existsb_exists in Hfk as [td [Htd Hfk]].
  destruct (complete_ddl_holds_tables cfg g g' script sd td Hrun Hsd Htd)
    as [g1 [g2 [ddl [ms [Hgen Hocc]]]]].
  apply statement_after_semicolon.
  apply (occurs_trans _ ddl); [|exact Hocc].
  apply (table_ddl_foreign_key_comment _ _ _ _ _ _ Hgen).
  intros Hnil. now rewrite Hnil in Hfk.
Qed.

(** X3 on two tables, the second with a foreign key to the first: the
    script is generated, and the statement that follows the CREATE TABLE of
    the second table is no SQL. *)
Lemma X3_witness_orders :
  let out := generate_complete_ddl target_config
               (new_generator orders_analysis default_preferences) in
  is_ok (fst out) = true
  /\ exists st, In st (statements (match fst out with Ok s => s | Raise _ => "" end))
                /\ startswith AFTER_SEMICOLON st = true.
Proof.
  cbv zeta. split; [vm_compute; reflexivity|].
  refine (X3_foreign_key_comment_is_cut target_config
            (new_generator orders_analysis default_preferences)
            (snd (generate_complete_ddl target_config
                    (new_generator orders_analysis default_preferences)))
            _ _ _).
  - reflexivity.
  - vm_compute. reflexivity.
Defined.

End ScriptAndGenerator.

Section GeneratorWalk.
Import PyStr PyText Eff Model Generator Props.

Lemma last_map_some {A B} (f : A -> B) (l : list A) :
  match l with
  | [] => List.last (map (fun e => Some (f e)) l) None = None
  | _ => exists y, List.last (map (fun e => Some (f e)) l) None = Some y
  end.
Proof.
  destruct l as [|x l]; [reflexivity|].
  revert x. induction l as [|x' l IH]; intros x.
  - now exists (f x).
  - destruct (IH x') as [y Hy]. exists y. exact Hy.
Qed.

(** [generate_table_ddl] returns exactly for the tables that are
    [table_ok], and leaves the preferences and the decisions alone. *)
Lemma table_ddl_returns (sname : string) (td : table_detail) (g : SnowflakeGenerator) :
  is_ok (fst (generate_table_ddl sname td g)) = table_ok (gen_preferences g) td
  /\ gen_preferences (snd (generate_table_ddl sname td g)) = gen_preferences g
  /\ mapping_decisions (snd (generate_table_ddl sname td g)) = mapping_decisions g
  /\ forall ddl ms, fst (generate_table_ddl sname td g) = Ok (ddl, ms) ->
       ms = map snd (map (column_entry (gen_preferences g) sname (table_name td)
                            (quote_identifier (gen_preferences g) sname))
                         (columns td)).
Proof.
  unfold generate_table_ddl, table_ok, bind, reads.
  pose proof (last_map_some
                (fun e : string * string * MappingDecision => fst (fst e))
                (map (column_entry (gen_preferences g) sname (table_name td)
                        (quote_identifier (gen_preferences g) sname)) (columns td)))
    as Hlast.
  destruct (columns td) as [|c cs]; cbn [map] in Hlast |- *;
    [| destruct Hlast as [y Hlast]];
    destruct (cluster_key_hints (gen_preferences g) !! table_name td) as [[|c0 cs0]|];
    try destruct (Model.total_size_bytes (table_meta td)) as [size|];
    try destruct (TEN_GIB <? size);
    destruct (foreign_keys (table_constraints td)) as [|fk fks];
    cbn [fst snd ret raise modify is_ok andb gen_preferences mapping_decisions
         append_recommendation];
    rewrite ?Hlast;
    cbn [fst snd ret raise modify is_ok andb gen_preferences mapping_decisions
         append_recommendation];
    (split; [reflexivity|]); (split; [reflexivity|]); (split; [reflexivity|]);
    intros ddl ms Heq; (discriminate || (injection Heq as _ <-; reflexivity)).
Qed.

Lemma is_ok_bind {S A B} (m : M S A) (k : A -> M S B) (s : S) :
  is_ok (fst (bind m k s)) =
    match m s with
    | (Ok a, s') => is_ok (fst (k a s'))
    | (Raise _, _) => false
    end.
Proof. unfold bind. destruct (m s) as [[a|e] s']; reflexivity. Qed.

(** A loop returns exactly when every round does, as long as what decides
    it does not change on the way. *)
Lemma for_each_returns {S A B} (f : A -> M S B) (ok : A -> bool) (P : S -> Prop)
    (l : list A) (s : S) :
  (forall x s, P s -> is_ok (fst (f x s)) = ok x /\ P (snd (f x s))) ->
  P s ->
  is_ok (fst (for_each f l s)) = forallb ok l /\ P (snd (for_each f l s)).
Proof.
  intros Hf. revert s. induction l as [|x l IH]; intros s Hs.
  - split; [reflexivity | exact Hs].
  - cbn [for_each forallb]. destruct (Hf x s Hs) as [Hok Hp]. unfold bind.
    destruct (f x s) as [[y|e] s1]; cbn [fst snd is_ok] in *.
    + destruct (IH s1 Hp) as [Hokl Hpl].
      destruct (for_each f l s1) as [[ys|e] s2]; cbn [fst snd is_ok ret] in *;
        rewrite <- Hok, <- Hokl; split; trivial.
    + rewrite <- Hok. split; trivial.
Qed.

Lemma table_round_returns (p : MigrationPreferences) (sname : string) (td : table_detail)
    (g : SnowflakeGenerator) :
  gen_preferences g = p ->
  is_ok (fst (table_round sname td g)) = table_ok p td
  /\ gen_preferences (snd (table_round sname td g)) = p.
Proof.
  intros <-. destruct (table_ddl_returns sname td g) as [Hok [Hp _]].
  unfold table_round, bind.
  destruct (generate_table_ddl sname td g) as [[[ddl ms]|e] g1]; cbn [fst snd] in *.
  - split; [exact Hok | exact Hp].
  - split; [exact Hok | exact Hp].
Qed.

Lemma schema_round_returns (p : MigrationPreferences) (sd : schema_detail)
    (g : SnowflakeGenerator) :
  gen_preferences g = p ->
  is_ok (fst (schema_round sd g)) = forallb (table_ok p) (tables sd)
  /\ gen_preferences (snd (schema_round sd g)) = p.
Proof.
  intros Hp. unfold schema_round, bind, reads.
  destruct (for_each_returns (table_round (schema_name sd)) (table_ok p)
              (fun g => gen_preferences g = p) (tables sd) g) as [Hok Hp'].
  - intros td g0 Hg0. now apply table_round_returns.
  - exact Hp.
  - destruct (for_each (table_round (schema_name sd)) (tables sd) g) as [[ls|e] g1];
      cbn [fst snd ret] in *; split; trivial.
Qed.

(** X4.  [generate_complete_ddl] returns the script exactly when every
    table of the analysis has what its DDL needs: a size in bytes, unless a
    non-empty cluster hint names the table, and at least one column if it
    has foreign keys.  A table whose size is unknown, or a table with foreign
    keys and no column, makes the whole generation raise. *)
Theorem X4_ddl_generation_returns_iff (cfg : ddl_config) (g : SnowflakeGenerator) :
  is_ok (fst (generate_complete_ddl cfg g))
  = forallb (fun sd => forallb (table_ok (gen_preferences g)) (tables sd))
            (schemas (gen_analysis g)).
Proof.
  unfold generate_complete_ddl, bind, reads.
  destruct (for_each_returns schema_round
              (fun sd => forallb (table_ok (gen_preferences g)) (tables sd))
              (fun g0 => gen_preferences g0 = gen_preferences g)
              (schemas (gen_analysis g)) g) as [Hok _].
  - intros sd g0 Hg0. now apply schema_round_returns.
  - reflexivity.
  - destruct (for_each schema_round (schemas (gen_analysis g)) g) as [[ls|e] g1];
      cbn [fst snd ret is_ok] in *; exact Hok.
Qed.

Lemma generated_returned (p : MigrationPreferences) (ts : list (string * table_detail)) :
  forallb (fun st => table_ok p (snd st)) ts = true -> generated p ts = ts.
Proof.
  induction ts as [|st ts IH]; [reflexivity|]. cbn [forallb generated].
  intros H. apply andb_prop in H. destruct H as [Hst Hts]. now rewrite Hst, IH.
Qed.

(** When some table cannot be generated, the tables generated are those
    before the first such table. *)
Lemma generated_raised (p : MigrationPreferences) (ts : list (string * table_detail)) :
  forallb (fun st => table_ok p (snd st)) ts = false ->
  exists before failing after,
    ts = before ++ failing :: after
    /\ forallb (fun st => table_ok p (snd st)) before = true
    /\ table_ok p (snd failing) = false
    /\ generated p ts = before.
Proof.
  induction ts as [|st ts IH]; [discriminate|]. cbn [forallb generated].
  destruct (table_ok p (snd st)) eqn:Hst; cbn [andb]; intros H.
  - destruct (IH H) as [before [failing [after [-> [Hb [Hf Hg]]]]]].
    exists (st :: before), failing, after. cbn [forallb app].
    rewrite Hst, Hb, Hg. repeat split. exact Hf.
  - exists [], st, ts. repeat split. exact Hst.
Qed.

Lemma generated_app (p : MigrationPreferences) (l1 l2 : list (string * table_detail)) :
  generated p (l1 ++ l2)
  = if forallb (fun st => table_ok p (snd st)) l1 then l1 ++ generated p l2
    else generated p l1.
Proof.
  induction l1 as [|st l1 IH]; [reflexivity|]. cbn [app generated forallb].
  destruct (table_ok p (snd st)); cbn [andb]; [|reflexivity].
  rewrite IH. now destruct (forallb _ l1).
Qed.

(** The columns of the analysis are those of its tables. *)
Lemma all_columns_tables (a : analysis) :
  all_columns a = flat_map table_columns (all_tables a).
Proof.
  unfold all_columns, all_tables. induction (schemas a) as [|sd sds IH]; [reflexivity|].
  cbn [flat_map]. rewrite flat_map_app, IH. f_equal.
  induction (tables sd) as [|td tds IHt]; [reflexivity|].
  cbn [flat_map map]. now rewrite IHt.
Qed.

Lemma for_each_walks {A B} (p : MigrationPreferences) (f : A -> M SnowflakeGenerator B)
    (ts : A -> list (string * table_detail)) (l : list A) :
  (forall x, walks p (f x) (ts x)) -> walks p (for_each f l) (flat_map ts l).
Proof.
  intros Hf. induction l as [|x l IH]; intros g Hg.
  - exists []. cbn. rewrite app_nil_r. repeat split. exact Hg.
  - cbn [for_each flat_map]. unfold bind. rewrite generated_app, forallb_app.
    destruct (Hf x g Hg) as [W1 [Hmd1 [Hp1 [Hk1 Hok1]]]].
    destruct (f x g) as [[y|e] g1]; cbn [fst snd is_ok] in *; rewrite <- Hok1.
    + destruct (IH g1 Hp1) as [W2 [Hmd2 [Hp2 [Hk2 Hok2]]]].
      rewrite generated_returned in Hk1 by (symmetry; exact Hok1).
      exists (W1 ++ W2). split; [|split; [|split]].
      * destruct (for_each f l g1) as [[ys|e] g2]; cbn [fst snd ret] in *;
          now rewrite Hmd2, Hmd1, app_assoc.
      * destruct (for_each f l g1) as [[ys|e] g2]; cbn [fst snd ret] in *; exact Hp2.
      * rewrite map_app, Hk1, Hk2, flat_map_app. reflexivity.
      * cbn [andb]. rewrite <- Hok2.
        destruct (for_each f l g1) as [[ys|e] g2]; reflexivity.
    + exists W1. split; [exact Hmd1|]. split; [exact Hp1|]. split; [exact Hk1|].
      reflexivity.
Qed.

Lemma column_entry_key (p : MigrationPreferences) (sname tname schema : string)
    (col : column) :
  decision_key (snd (column_entry p sname tname schema col))
  = (sname, tname, column_name col).
Proof. unfold column_entry. destruct (map_type _ _ _ _ _). reflexivity. Qed.

(** A table that is generated leaves one decision per column, a table that
    is not leaves none. *)
Lemma table_round_walks (p : MigrationPreferences) (sname : string) (td : table_detail) :
  walks p (table_round sname td) [(sname, td)].
Proof.
  intros g Hg. destruct (table_ddl_returns sname td g) as [Hok [Hp [Hmd Hms]]].
  rewrite Hg in Hok, Hp. unfold table_round, bind. cbn [generated forallb snd andb].
  rewrite andb_true_r, <- Hok.
  destruct (generate_table_ddl sname td g) as [[[ddl ms]|e] g1]; cbn [fst snd is_ok] in *.
  - exists ms. unfold modify, extend_mapping_decisions; cbn [fst snd ret mapping_decisions
                                                               gen_preferences is_ok].
    split; [now rewrite Hmd|]. split; [exact Hp|]. split; [|reflexivity].
    cbn [flat_map]. rewrite app_nil_r. unfold table_columns. cbn [fst snd].
    rewrite (Hms ddl ms eq_refl), !map_map. apply map_ext. intros col.
    apply column_entry_key.
  - exists []. rewrite app_nil_r. split; [exact Hmd|]. split; [exact Hp|].
    split; reflexivity.
Qed.

Lemma flat_map_one {A B} (f : A -> B) (l : list A) :
  flat_map (fun x => [f x]) l = map f l.
Proof. induction l as [|x l IH]; [reflexivity|]. cbn. now rewrite IH. Qed.

Lemma schema_round_walks (p : MigrationPreferences) (sd : schema_detail) :
  walks p (schema_round sd) (map (fun td => (schema_name sd, td)) (tables sd)).
Proof.
  intros g Hg. unfold schema_round, bind, reads. cbn [fst snd].
  destruct (for_each_walks p (table_round (schema_name sd))
              (fun td => [(schema_name sd, td)]) (tables sd)
              (table_round_walks p (schema_name sd)) g Hg) as [W [Hmd [Hp [Hk Hok]]]].
  rewrite flat_map_one in Hk, Hok.
  exists W.
  destruct (for_each (table_round (schema_name sd)) (tables sd) g) as [[ls|e] g1];
    cbn [fst snd ret is_ok] in *; repeat split; trivial.
Qed.

(** What a walk of [generate_complete_ddl] adds to the decisions of the
    instance: one per column of the tables it generates, and it returns
    exactly when it generates them all. *)
Lemma complete_ddl_walks (cfg : ddl_config) (g : SnowflakeGenerator) :
  let out := generate_complete_ddl cfg g in
  let p := gen_preferences g in
  let ts := all_tables (gen_analysis g) in
  exists W,
    mapping_decisions (snd out) = mapping_decisions g ++ W
    /\ map decision_key W = flat_map table_columns (generated p ts)
    /\ is_ok (fst out) = forallb (fun st => table_ok p (snd st)) ts.
Proof.
  cbv zeta. unfold generate_complete_ddl, bind, reads. cbn [fst snd].
  destruct (for_each_walks (gen_preferences g) schema_round
              (fun sd => map (fun td => (schema_name sd, td)) (tables sd))
              (schemas (gen_analysis g)) (schema_round_walks (gen_preferences g)) g eq_refl)
    as [W [Hmd [_ [Hk Hok]]]].
  exists W. fold (all_tables (gen_analysis g)) in Hk, Hok.
  destruct (for_each schema_round (schemas (gen_analysis g)) g) as [[ls|e] g1];
    cbn [fst snd ret is_ok] in *; repeat split; trivial.
Qed.

(** X5.  A walk of [generate_complete_ddl] over a fresh generator that
    returns has recorded exactly one mapping decision per column of the
    analysis, in the order of the schemas, tables and columns.  A walk that
    raises has stopped at the first table that cannot be generated: it has
    recorded one decision per column of the tables before that one, in
    order, and none for it or for a later table. *)
Theorem X5_one_decision_per_column (cfg : ddl_config) (a : analysis)
    (p : MigrationPreferences) :
  let out := generate_complete_ddl cfg (new_generator a p) in
  let recorded := map decision_key (mapping_decisions (snd out)) in
  match fst out with
  | Ok _ => recorded = all_columns a
  | Raise _ =>
      exists before failing after,
        all_tables a = before ++ failing :: after
        /\ forallb (fun st => table_ok p (snd st)) before = true
        /\ table_ok p (snd failing) = false
        /\ recorded = flat_map table_columns before
  end.
Proof.
  cbv zeta.
  destruct (complete_ddl_walks cfg (new_generator a p)) as [W [Hmd [Hk Hok]]].
  cbn [new_generator gen_preferences gen_analysis mapping_decisions app] in Hmd, Hk, Hok.
  rewrite Hmd, Hk.
  destruct (fst (generate_complete_ddl cfg (new_generator a p))) as [ddl|e];
    cbn [is_ok] in Hok.
  - rewrite generated_returned by (symmetry; exact Hok). symmetry.
    apply all_columns_tables.
  - destruct (generated_raised p (all_tables a) (eq_sym Hok))
      as [before [failing [after [Hts [Hb [Hf Hg]]]]]].
    exists before, failing, after. rewrite Hg. repeat split; assumption.
Qed.

(** C10.  On one [SnowflakeGenerator] instance, a second call of
    [generate_complete_ddl] over the same analysis returns the same script
    and appends the decisions of its walk once more.  The first walk of a
    fresh instance records one decision per column of the tables it
    generates (all the columns of the analysis when it returns); the list
    that [generate_mapping_decisions_yaml] dumps after two calls is the list
    after one call followed by itself, so every mapping decision occurs in
    it twice as often, and the list is twice as long. *)
Theorem C10_second_walk_repeats_mappings (a : analysis) (p : MigrationPreferences)
    (cfg : ddl_config) :
  let g1 := snd (generate_complete_ddl cfg (new_generator a p)) in
  let g2 := snd (generate_complete_ddl cfg g1) in
  let once := yaml_mappings (generate_mapping_decisions_yaml g1) in
  let twice := yaml_mappings (generate_mapping_decisions_yaml g2) in
  twice = once ++ once
  /\ (forall m, count_occ MappingDecision_eq_dec twice m
                = (2 * count_occ MappingDecision_eq_dec once m)%nat)
  /\ length twice = (2 * length once)%nat
  /\ fst (generate_complete_ddl cfg g1) = fst (generate_complete_ddl cfg (new_generator a p))
  /\ map decision_key once = flat_map table_columns (generated p (all_tables a))
  /\ (is_ok (fst (generate_complete_ddl cfg (new_generator a p))) = true ->
      map decision_key once = all_columns a
      /\ map decision_key twice = all_columns a ++ all_columns a).
Proof.
  destruct (steady_complete_ddl a p cfg) as [r [W [R Hgen]]].
  pose proof (Hgen (new_generator a p) eq_refl eq_refl) as H1.
  pose proof (Hgen (grown (new_generator a p) W R) eq_refl eq_refl) as H2.
  destruct (complete_ddl_walks cfg (new_generator a p)) as [W' [Hmd [Hk Hok]]].
  cbn [new_generator gen_preferences gen_analysis mapping_decisions app] in Hmd, Hk, Hok.
  cbv zeta. rewrite H1 in *. cbn [snd fst] in *. rewrite H2. cbn [snd fst].
  unfold generate_mapping_decisions_yaml. cbn [yaml_mappings].
  unfold grown in *. cbn [mapping_decisions new_generator app] in *. subst W'.
  split; [reflexivity|]. split; [intros m; apply count_occ_twice|].
  split; [rewrite length_app; lia|]. split; [reflexivity|]. split; [exact Hk|].
  intros Hret. rewrite Hret in Hok.
  rewrite generated_returned in Hk by (symmetry; exact Hok).
  rewrite <- all_columns_tables in Hk. split; [exact Hk|].
  now rewrite map_app, Hk.
Qed.

(** C10 on the one-column analysis: the first walk records the decision
    for the column ORDER of the table s.t, the second walk records it
    again. *)
Lemma C10_witness_order_column :
  let cfg := {| cfg_database := "TARGET"; cfg_stage := "STG"; cfg_file_format := "FMT" |} in
  let g1 := snd (generate_complete_ddl cfg (new_generator small_analysis default_preferences)) in
  let g2 := snd (generate_complete_ddl cfg g1) in
  map decision_key (yaml_mappings (generate_mapping_decisions_yaml g1)) = [("s", "t", "ORDER")]
  /\ map decision_key (yaml_mappings (generate_mapping_decisions_yaml g2))
     = [("s", "t", "ORDER"); ("s", "t", "ORDER")]
  /\ length (yaml_mappings (generate_mapping_decisions_yaml g2)) = 2%nat.
Proof.
  cbv zeta.
  pose proof (C10_second_walk_repeats_mappings small_analysis default_preferences
                {| cfg_database := "TARGET"; cfg_stage := "STG"; cfg_file_format := "FMT" |})
    as H.
  cbv zeta in H. destruct H as [Htwice [_ [Hlen [_ [_ Hall]]]]].
  destruct (Hall eq_refl) as [Honce Hkeys].
  split; [rewrite Honce; reflexivity|].
  split; [rewrite Hkeys; reflexivity|].
  rewrite Hlen. vm_compute. reflexivity.
Defined.

End GeneratorWalk.

Section IdentifierAndTypeFacts.
Import PyStr PyText Eff Model Generator Props.

Lemma upper_char_idem (c : ascii) : upper_char (upper_char c) = upper_char c.
Proof. destruct c as [[] [] [] [] [] [] [] []]; reflexivity. Qed.

Lemma upper_lower_char (c : ascii) : upper_char (lower_char c) = upper_char c.
Proof. destruct c as [[] [] [] [] [] [] [] []]; reflexivity. Qed.

Lemma lower_char_idem (c : ascii) : lower_char (lower_char c) = lower_char c.
Proof. destruct c as [[] [] [] [] [] [] [] []]; reflexivity. Qed.

Lemma map_chars_map_chars (f g : ascii -> ascii) (s : string) :
  map_chars f (map_chars g s) = map_chars (fun c => f (g c)) s.
Proof. induction s as [|c r IH]; cbn; [reflexivity | now rewrite IH]. Qed.

Lemma map_chars_ext (f g : ascii -> ascii) (s : string) :
  (forall c, f c = g c) -> map_chars f s = map_chars g s.
Proof. intros H. induction s as [|c r IH]; cbn; [reflexivity | now rewrite IH, H]. Qed.

Lemma upper_upper (s : string) : upper (upper s) = upper s.
Proof. unfold upper. rewrite map_chars_map_chars. apply map_chars_ext, upper_char_idem. Qed.

Lemma upper_lower (s : string) : upper (lower s) = upper s.
Proof.
  unfold upper, lower. rewrite map_chars_map_chars. apply map_chars_ext, upper_lower_char.
Qed.

Lemma lower_lower (s : string) : lower (lower s) = lower s.
Proof. unfold lower. rewrite map_chars_map_chars. apply map_chars_ext, lower_char_idem. Qed.

(** The case style does not change what a name is in upper case. *)
Lemma upper_normalize (p : MigrationPreferences) (name : string) :
  upper (normalize_identifier p name) = upper name.
Proof.
  unfold normalize_identifier.
  destruct (case_style p); [apply upper_upper | apply upper_lower | reflexivity].
Qed.

(** X6.  Every name of ASCII characters that [quote_identifier] finds
    among its own reserved words, under any case style, is a name that
    [_assess_compatibility] reports as a reserved identifier: the
    generator's list of twenty words is a part of the analyzer's list, and
    both compare the upper-case form, which for an ASCII name does not
    depend on the case style applied before.  (Beyond ASCII this fails: the
    lower-case form of a name with the Kelvin sign is spelled with an
    ordinary k.) *)
Theorem X6_quoted_reserved_names_are_flagged (p : MigrationPreferences) (name : string) :
  isascii name = true ->
  bool_decide (upper (normalize_identifier p name) ∈ Generator.snowflake_reserved) = true ->
  Analyzer.is_reserved name = true
  /\ quote_identifier p name = dq +:+ normalize_identifier p name +:+ dq.
Proof.
  intros _ H. split.
  - rewrite upper_normalize in H. apply bool_decide_eq_true in H.
    unfold Analyzer.is_reserved. unfold snowflake_reserved in H.
    rewrite elem_of_list_to_set in H.
    repeat (apply elem_of_cons in H as [->|H]; [vm_compute; reflexivity|]).
    now apply elem_of_nil in H.
  - unfold quote_identifier, needs_quoting. now rewrite H.
Qed.

(** X6 on the word [copy] under the lower-case style. *)
Lemma X6_witness_copy :
  Analyzer.is_reserved "copy" = true
  /\ quote_identifier
       {| format := CSV; max_chunk_mb := 200; parallelism := 4;
          use_identity_for_serial := true; cluster_key_hints := ∅;
          case_style := LOWER; dry_run := false |} "copy"
     = dq +:+ "copy" +:+ dq.
Proof.
  exact (X6_quoted_reserved_names_are_flagged
           {| format := CSV; max_chunk_mb := 200; parallelism := 4;
              use_identity_for_serial := true; cluster_key_hints := ∅;
              case_style := LOWER; dry_run := false |} "copy" eq_refl eq_refl).
Defined.

Lemma count_char_app (c : ascii) (a b : string) :
  count_char c (a +:+ b) = (count_char c a + count_char c b)%nat.
Proof.
  induction a as [|x a IH]; [reflexivity|].
  rewrite str_app_cons. cbn. rewrite IH. lia.
Qed.

Lemma upper_char_quote (c : ascii) : Ascii.eqb (upper_char c) "034" = Ascii.eqb c "034".
Proof. destruct c as [[] [] [] [] [] [] [] []]; reflexivity. Qed.

Lemma lower_char_quote (c : ascii) : Ascii.eqb (lower_char c) "034" = Ascii.eqb c "034".
Proof. destruct c as [[] [] [] [] [] [] [] []]; reflexivity. Qed.

Lemma count_quotes_normalize (p : MigrationPreferences) (name : string) :
  count_char "034" (normalize_identifier p name) = count_char "034" name.
Proof.
  unfold normalize_identifier, upper, lower.
  destruct (case_style p); [| |reflexivity];
    induction name as [|c r IH]; cbn; try reflexivity;
    now rewrite IH, ?upper_char_quote, ?lower_char_quote.
Qed.

Lemma quote_is_not_alnum (c : ascii) : Ascii.eqb c "034" = true -> is_alnum c = false.
Proof. intros H. apply Ascii.eqb_eq in H. now subst. Qed.

Lemma not_alnum_with_quote (s : string) :
  (0 < count_char "034" s)%nat ->
  all_chars is_alnum (replace_char "_" "" s) = false.
Proof.
  induction s as [|c r IH]; cbn; [lia|]. intros H.
  destruct (Ascii.eqb c "034") eqn:Hq.
  - apply Ascii.eqb_eq in Hq. subst c. cbn. reflexivity.
  - destruct (Ascii.eqb c "_"); [rewrite str_app_nil_l; apply IH; cbn in H; lia|].
    cbn. rewrite IH by (cbn in H; lia). apply andb_false_r.
Qed.

(** X7.  A name that holds a double quote is put between double quotes as
    it is: the quote inside is not doubled, so the identifier that reaches
    the DDL has exactly two quotes more than the name, and the text between
    the outer quotes ends at the inner one. *)
Theorem X7_inner_quote_is_not_escaped (p : MigrationPreferences) (name : string) :
  (0 < count_char "034" name)%nat ->
  quote_identifier p name = dq +:+ normalize_identifier p name +:+ dq
  /\ count_char "034" (quote_identifier p name) = (2 + count_char "034" name)%nat.
Proof.
  intros H.
  assert (Hq : quote_identifier p name = dq +:+ normalize_identifier p name +:+ dq).
  { unfold quote_identifier, needs_quoting.
    assert (Hn : isalnum (replace_char "_" "" (normalize_identifier p name)) = false).
    { unfold isalnum.
      destruct (replace_char "_" "" (normalize_identifier p name)) eqn:Hr; [reflexivity|].
      rewrite <- Hr. apply not_alnum_with_quote. now rewrite count_quotes_normalize. }
    rewrite Hn. cbn [negb]. now rewrite orb_true_r. }
  split; [exact Hq|].
  rewrite Hq, !count_char_app, count_quotes_normalize. cbn. lia.
Qed.

(** X7 on a column name of three characters, the one in the middle a
    double quote. *)
Lemma X7_witness_inner_quote :
  quote_identifier default_preferences ("a" +:+ dq +:+ "b") = dq +:+ "A" +:+ dq +:+ "B" +:+ dq
  /\ count_char "034" (quote_identifier default_preferences ("a" +:+ dq +:+ "b")) = 3%nat.
Proof.
  destruct (X7_inner_quote_is_not_escaped default_preferences ("a" +:+ dq +:+ "b"))
    as [H1 H2].
  - vm_compute. lia.
  - split; [rewrite H1; reflexivity | rewrite H2; reflexivity].
Defined.

Lemma lower_char_not_upper_A (c : ascii) : Ascii.eqb (lower_char c) "A" = false.
Proof. destruct c as [[] [] [] [] [] [] [] []]; reflexivity. Qed.

Lemma lower_char_not_upper_U (c : ascii) : Ascii.eqb (lower_char c) "U" = false.
Proof. destruct c as [[] [] [] [] [] [] [] []]; reflexivity. Qed.

Lemma lower_is_not_ARRAY (s : string) : String.eqb (lower s) "ARRAY" = false.
Proof.
  destruct s as [|c r]; [reflexivity|].
  unfold lower. cbn. now rewrite lower_char_not_upper_A.
Qed.

Lemma lower_is_not_USER_DEFINED (s : string) : String.eqb (lower s) "USER-DEFINED" = false.
Proof.
  destruct s as [|c r]; [reflexivity|].
  unfold lower. cbn. now rewrite lower_char_not_upper_U.
Qed.

(** X8.  The Snowflake type [map_type] chooses does not depend on the case
    of the PostgreSQL type name, with one exception: the word ARRAY is
    recognised in upper case only.  (The rationale repeats the name as it was
    given.) *)
Theorem X8_type_names_are_matched_in_any_case (pg_type : string) (udt : option string)
    (len precision scale : option Z) :
  pg_type <> "ARRAY" ->
  fst (map_type pg_type udt len precision scale)
  = fst (map_type (lower pg_type) udt len precision scale).
Proof.
  intros Hne. unfold map_type.
  rewrite lower_lower, contains_brackets_lower, lower_is_not_ARRAY.
  assert (Ha : String.eqb pg_type "ARRAY" = false) by now apply String.eqb_neq.
  rewrite Ha, lower_is_not_USER_DEFINED.
  destruct (contains "[]" pg_type); [reflexivity|]. cbn [orb].
  destruct (in_strs (lower pg_type) ["numeric"; "decimal"]); [reflexivity|].
  destruct (in_strs (lower pg_type) ["character varying"; "varchar"; "character"; "char"]).
  { destruct len as [n|]; [|reflexivity].
    destruct (negb (n =? 0)); [|reflexivity].
    destruct (SNOWFLAKE_MAX_VARCHAR <? n); reflexivity. }
  destruct (String.eqb (lower pg_type) "text"); [reflexivity|].
  destruct (type_map_get (lower pg_type) TYPE_MAP); [reflexivity|].
  destruct (String.eqb pg_type "USER-DEFINED"); reflexivity.
Qed.

(** X8 on INTEGER, and the exception: ARRAY is a VARIANT, array is not. *)
Lemma X8_witness_integer :
  fst (map_type "INTEGER" None None None None) = "NUMBER(10,0)"
  /\ fst (map_type "ARRAY" None None None None) = "VARIANT"
  /\ fst (map_type "array" None None None None) = "VARCHAR".
Proof.
  split; [|split; reflexivity].
  rewrite (X8_type_names_are_matched_in_any_case "INTEGER" None None None None).
  - reflexivity.
  - discriminate.
Defined.

End IdentifierAndTypeFacts.

Section LoaderAccounting.
Import PyStr PyText Eff Model World Pipeline Spec Props.
Context (E : env).

Lemma copies_app (a b : list event) : copies (a ++ b) = copies a ++ copies b.
Proof. unfold copies. apply List.filter_app. Qed.

Lemma puts_app (a b : list event) : puts (a ++ b) = puts a ++ puts b.
Proof. unfold puts. apply List.filter_app. Qed.

(** One attempt of an upload: one PUT, one tick, and the answer of the
    stage. *)
Lemma upload_attempt_run (file_path stage : string) (s : pstate) :
  upload_attempt E file_path stage s
  = (match put_result E (clock (pworld s)) file_path with
     | Ok _ => Ok (basename file_path)
     | Raise e => Raise e
     end,
     {| loaded_files := loaded_files s;
        pworld := {| clock := S (clock (pworld s));
                     events := events (pworld s) ++ [EvPut file_path stage] |} |}).
Proof.
  unfold upload_attempt, bind, perform. cbn [fst snd].
  destruct (put_result E _ _); reflexivity.
Qed.

(** The retried upload: [k] attempts, the last one decides. *)
Lemma upload_file_to_stage_run (file_path stage : string) (s : pstate) :
  let t := clock (pworld s) in
  let out := upload_file_to_stage E file_path stage s in
  exists k : nat,
    (1 <= k <= 3)%nat
    /\ snd out = {| loaded_files := loaded_files s;
                    pworld := {| clock := (t + k)%nat;
                                 events := events (pworld s) ++
                                           repeat (EvPut file_path stage) k |} |}
    /\ (forall i : nat, (i + 1 < k)%nat -> is_ok (put_result E (t + i)%nat file_path) = false)
    /\ match fst out with
       | Ok name => name = basename file_path
                    /\ is_ok (put_result E (t + k - 1)%nat file_path) = true
       | Raise e => e = "RetryError" /\ k = 3%nat
                    /\ is_ok (put_result E (t + 2)%nat file_path) = false
       end.
Proof.
  cbv zeta. unfold upload_file_to_stage. cbn [retry]. unfold try_except.
  rewrite upload_attempt_run.
  destruct (put_result E (clock (pworld s)) file_path) as [u0|e0] eqn:H0.
  { exists 1%nat. cbn [fst snd repeat]. split; [lia|]. split.
    - now rewrite Nat.add_1_r.
    - split; [intros i Hi; lia|]. split; [reflexivity|].
      replace (clock (pworld s) + 1 - 1)%nat with (clock (pworld s)) by lia.
      now rewrite H0. }
  rewrite upload_attempt_run. cbn [pworld clock events loaded_files].
  destruct (put_result E (S (clock (pworld s))) file_path) as [u1|e1] eqn:H1.
  { exists 2%nat. cbn [fst snd repeat]. split; [lia|]. split.
    - rewrite <- app_assoc. cbn [app]. do 3 f_equal. lia.
    - split.
      + intros i Hi. assert (i = 0)%nat as -> by lia. now rewrite Nat.add_0_r, H0.
      + split; [reflexivity|].
        replace (clock (pworld s) + 2 - 1)%nat with (S (clock (pworld s))) by lia.
        now rewrite H1. }
  rewrite upload_attempt_run. cbn [pworld clock events loaded_files].
  exists 3%nat.
  assert (Hst : forall r : res string,
             snd (r, {| loaded_files := loaded_files s;
                        pworld := {| clock := S (S (S (clock (pworld s))));
                                     events := ((events (pworld s) ++ [EvPut file_path stage])
                                                ++ [EvPut file_path stage])
                                               ++ [EvPut file_path stage] |} |})
             = {| loaded_files := loaded_files s;
                  pworld := {| clock := (clock (pworld s) + 3)%nat;
                               events := events (pworld s) ++
                                         repeat (EvPut file_path stage) 3 |} |}).
  { intros r. cbn [snd repeat]. rewrite <- !app_assoc. cbn [app]. do 3 f_equal. lia. }
  assert (Hearly : forall i : nat, (i + 1 < 3)%nat ->
             is_ok (put_result E (clock (pworld s) + i)%nat file_path) = false).
  { intros i Hi. assert (i = 0 \/ i = 1)%nat as [-> | ->] by lia.
    - now rewrite Nat.add_0_r, H0.
    - now rewrite Nat.add_1_r, H1. }
  destruct (put_result E (S (S (clock (pworld s)))) file_path) as [u2|e2] eqn:H2.
  - split; [lia|]. split; [apply Hst|]. split; [exact Hearly|].
    cbn [fst]. split; [reflexivity|].
    replace (clock (pworld s) + 3 - 1)%nat with (S (S (clock (pworld s)))) by lia.
    now rewrite H2.
  - unfold raise. split; [lia|]. split; [apply Hst|]. split; [exact Hearly|].
    cbn [fst]. split; [reflexivity|]. split; [reflexivity|].
    replace (clock (pworld s) + 2)%nat with (S (S (clock (pworld s)))) by lia.
    now rewrite H2.
Qed.

(** One round of the upload loop, with what it adds to the events. *)
Lemma upload_round_acct (cfg : SnowflakeConfig) (schema table file_path : string)
    (s : pstate) :
  exists x s1,
    upload_round E cfg schema table file_path s = (Ok x, s1)
    /\ loaded_files s1 = loaded_files s
    /\ copies (events (pworld s1)) = copies (events (pworld s))
    /\ (length (puts (events (pworld s1))) <= length (puts (events (pworld s))) + 3)%nat
    /\ match x with
       | inl _ => True
       | inr r => lr_status r = "upload_failed" /\ lr_rows_loaded r = 0
       end.
Proof.
  destruct (upload_file_to_stage_run file_path (sf_stage cfg) s)
    as [k [Hk [Hstate [_ Hout]]]].
  unfold upload_round, try_except, bind.
  destruct (upload_file_to_stage E file_path (sf_stage cfg) s) as [[name|e] s1];
    cbn [fst snd] in *; subst s1; unfold ret;
    eexists; eexists; (split; [reflexivity|]); cbn [loaded_files pworld events];
    (split; [reflexivity|]); rewrite copies_app, puts_app, length_app;
    (split; [|split]).
  all: try (unfold copies; induction k; cbn; [now rewrite app_nil_r | lia || auto];
            fail).
  all: try exact I.
  all: try (split; reflexivity).
  all: try (assert (length (puts (repeat (EvPut file_path (sf_stage cfg)) k)) = k)
              as -> by (clear; induction k; cbn; [reflexivity | now f_equal]); lia).
  all: clear; induction k as [|k IH]; cbn; [now rewrite app_nil_r | exact IH].
Qed.

Lemma upload_loop_acct (cfg : SnowflakeConfig) (schema table : string)
    (paths : list string) (s : pstate) :
  exists ups s1,
    for_each (upload_round E cfg schema table) paths s = (Ok ups, s1)
    /\ length ups = length paths
    /\ loaded_files s1 = loaded_files s
    /\ copies (events (pworld s1)) = copies (events (pworld s))
    /\ (length (puts (events (pworld s1)))
        <= length (puts (events (pworld s))) + 3 * length paths)%nat
    /\ Forall (fun r => lr_status r = "upload_failed" /\ lr_rows_loaded r = 0) (rights ups).
Proof.
  revert s. induction paths as [|p paths IH]; intros s; cbn [for_each].
  - exists [], s. unfold ret. repeat split; try constructor. cbn. lia.
  - destruct (upload_round_acct cfg schema table p s) as [x [s1 [Hr [Hl [Hc [Hp Hx]]]]]].
    destruct (IH s1) as [ups [s2 [Hrun [Hlen [Hl2 [Hc2 [Hp2 Hall]]]]]]].
    exists (x :: ups), s2. unfold bind. rewrite Hr, Hrun. unfold ret.
    split; [reflexivity|]. split; [cbn [length]; now f_equal|].
    split; [congruence|]. split; [congruence|]. split; [cbn [length]; lia|].
    destruct x as [name|r]; cbn; [exact Hall | constructor; assumption].
Qed.

Lemma lefts_rights_length {A B} (l : list (A + B)) :
  (length (lefts l) + length (rights l))%nat = length l.
Proof.
  induction l as [|[a|b] l IH]; cbn; [reflexivity | |]; unfold lefts, rights in *; cbn;
    rewrite ?length_app; cbn; lia.
Qed.

(** One COPY, with its event. *)
Lemma copy_attempt_acct (schema table stage f fmt : string) (columns : list string)
    (s : pstate) :
  exists result,
    copy_attempt E schema table stage f fmt columns s
    = (Ok result,
       {| loaded_files := loaded_files s;
          pworld := {| clock := S (clock (pworld s));
                       events := events (pworld s) ++ [copy_of result] |} |})
    /\ lr_file result = f
    /\ (lr_status result = "success"
        \/ lr_status result = "failed" /\ lr_rows_loaded result = 0).
Proof.
  unfold copy_attempt, bind, perform, ret, on_world, advance, emit, copy_of.
  cbn [fst snd clock events].
  destruct (copy_result E _ _ _);
    match goal with |- context [Ok ?r] => exists r end;
    (split; [reflexivity|]); cbn; auto.
Qed.

Lemma copy_round_acct (cfg : SnowflakeConfig) (schema table : string)
    (columns : list string) (f : string) (s : pstate) :
  exists out s1,
    copy_round E cfg schema table columns f s = (Ok out, s1)
    /\ (length out <= 1)%nat
    /\ copies (events (pworld s1)) = copies (events (pworld s)) ++ map copy_of out
    /\ puts (events (pworld s1)) = puts (events (pworld s))
    /\ Forall (fun r => counts_rows r /\ was_staged r = true) out.
Proof.
  unfold copy_round, bind, get. cbn [fst snd].
  case_bool_decide as Hin.
  - exists [], s. unfold ret. cbn. rewrite app_nil_r. repeat split; try constructor. lia.
  - rewrite copy_into_table_first_attempt.
    destruct (copy_attempt_acct schema table (sf_stage cfg) f (sf_file_format cfg) columns s)
      as [result [Hrun [Hfile Hstatus]]].
    rewrite Hrun.
    assert (Hgood : Forall (fun r => counts_rows r /\ was_staged r = true) [result]).
    { constructor; [|constructor]. unfold counts_rows, was_staged.
      destruct Hstatus as [Hs | [Hs H0]]; rewrite Hs; split; auto. }
    destruct (String.eqb (lr_status result) "success"); unfold modify, ret, add_loaded;
      eexists; eexists; (split; [reflexivity|]); cbn [length pworld events map];
      rewrite copies_app, puts_app; cbn; rewrite ?app_nil_r; auto.
Qed.

Lemma copy_loop_acct (cfg : SnowflakeConfig) (schema table : string)
    (columns : list string) (staged : list string) (s : pstate) :
  exists outs s1,
    for_each (copy_round E cfg schema table columns) staged s = (Ok outs, s1)
    /\ (length (concat outs) <= length staged)%nat
    /\ copies (events (pworld s1)) = copies (events (pworld s)) ++ map copy_of (concat outs)
    /\ puts (events (pworld s1)) = puts (events (pworld s))
    /\ Forall (fun r => counts_rows r /\ was_staged r = true) (concat outs).
Proof.
  revert s. induction staged as [|f staged IH]; intros s; cbn [for_each].
  - exists [], s. unfold ret. cbn. rewrite app_nil_r. repeat split; try constructor.
  - destruct (copy_round_acct cfg schema table columns f s)
      as [out [s1 [Hr [Hlen [Hc [Hp Hall]]]]]].
    destruct (IH s1) as [outs [s2 [Hrun [Hlen2 [Hc2 [Hp2 Hall2]]]]]].
    exists (out :: outs), s2. unfold bind. rewrite Hr, Hrun. unfold ret.
    split; [reflexivity|]. cbn [concat]. rewrite length_app, map_app.
    split; [cbn [length]; lia|]. split; [now rewrite Hc2, Hc, app_assoc|].
    split; [congruence|]. apply Forall_app; split; assumption.
Qed.

Lemma filter_staged_failed (rs : list load_result) :
  Forall (fun r => lr_status r = "upload_failed" /\ lr_rows_loaded r = 0) rs ->
  List.filter was_staged rs = [].
Proof.
  induction 1 as [|r rs [Hr _] _ IH]; [reflexivity|].
  cbn. unfold was_staged at 1. now rewrite Hr.
Qed.

Lemma filter_staged_all (rs : list load_result) :
  Forall (fun r => counts_rows r /\ was_staged r = true) rs ->
  List.filter was_staged rs = rs.
Proof.
  induction 1 as [|r rs [_ Hr] _ IH]; [reflexivity|].
  cbn. now rewrite Hr, IH.
Qed.

(** [load_table] with its accounts. *)
Lemma load_table_acct (cfg : SnowflakeConfig) (schema table : string)
    (paths columns : list string) (s : pstate) :
  exists out s1,
    load_table E cfg schema table paths columns s = (Ok out, s1)
    /\ (length out <= length paths)%nat
    /\ copies (events (pworld s1))
       = copies (events (pworld s)) ++ map copy_of (List.filter was_staged out)
    /\ (length (puts (events (pworld s1)))
        <= length (puts (events (pworld s))) + 3 * length paths)%nat
    /\ Forall counts_rows out.
Proof.
  unfold load_table.
  destruct (upload_loop_acct cfg schema table paths s)
    as [ups [s1 [Hu [Hlen [Hl [Hc [Hp Hfail]]]]]]].
  destruct (copy_loop_acct cfg schema table columns (lefts ups) s1)
    as [outs [s2 [Hrun [Hlen2 [Hc2 [Hp2 Hall]]]]]].
  exists (rights ups ++ concat outs), s2. unfold bind. rewrite Hu, Hrun. unfold ret.
  split; [reflexivity|].
  pose proof (lefts_rights_length ups) as Hlr.
  split; [rewrite length_app; lia|].
  split.
  - rewrite List.filter_app, (filter_staged_failed _ Hfail), (filter_staged_all _ Hall).
    cbn [app]. now rewrite Hc2, Hc.
  - split; [rewrite Hp2; exact Hp|].
    apply Forall_app. split.
    + eapply List.Forall_impl; [|exact Hfail]. intros r [_ H0]. now right.
    + eapply List.Forall_impl; [|exact Hall]. now intros r [H _].
Qed.

End LoaderAccounting.

Section ExtractionIsQuiet.
Import PyStr PyText Eff Model World Pipeline Spec Props.

Lemma no_load_refl (s : pstate) : no_load s s.
Proof. repeat split. Qed.

Lemma no_load_trans (s1 s2 s3 : pstate) : no_load s1 s2 -> no_load s2 s3 -> no_load s1 s3.
Proof.
  intros [H1 [H2 H3]] [H4 [H5 H6]]. unfold no_load.
  now rewrite H4, H5, H6, H1, H2, H3.
Qed.

(** An event that is neither a PUT nor a COPY INTO. *)
Lemma no_load_event (ev : event) (s : pstate) :
  puts [ev] = [] -> copies [ev] = [] ->
  no_load s (on_world (fun w => advance (emit ev w)) s).
Proof.
  intros Hp Hc. unfold no_load, on_world, advance, emit.
  cbn [loaded_files pworld events].
  rewrite puts_app, copies_app, Hp, Hc, !app_nil_r. repeat split.
Qed.

Lemma no_load_bind {A B} (m : M pstate A) (k : A -> M pstate B) :
  (forall s, no_load s (snd (m s))) -> (forall a s, no_load s (snd (k a s))) ->
  forall s, no_load s (snd (bind m k s)).
Proof.
  intros Hm Hk s. unfold bind. specialize (Hm s).
  destruct (m s) as [[a|e] s1]; cbn [snd] in *; [|exact Hm].
  eapply no_load_trans; [exact Hm | apply Hk].
Qed.

Lemma no_load_for_fold {A B} (f : A -> B -> M pstate A) :
  (forall a b s, no_load s (snd (f a b s))) ->
  forall l a s, no_load s (snd (for_fold f l a s)).
Proof.
  intros Hf l. induction l as [|b l IH]; intros a s; cbn [for_fold].
  - apply no_load_refl.
  - apply no_load_bind; [intros s0; apply Hf | intros a' s0; apply IH].
Qed.

Lemma no_load_write_gz (E : env) (path text : string) (s : pstate) :
  no_load s (snd (write_gz E path text s)).
Proof.
  unfold write_gz. destruct (gzip_write E _ _ _); cbn [snd].
  - now apply no_load_event.
  - repeat split.
Qed.

Lemma no_load_write_frame (E : env) (path : string) (columns : list string)
    (chunk : list row) (s : pstate) :
  no_load s (snd (write_frame E path columns chunk s)).
Proof.
  unfold write_frame. destruct (negb _); [apply no_load_refl|].
  destruct (to_parquet E _ _ _ _); cbn [snd].
  - now apply no_load_event.
  - repeat split.
Qed.

Lemma no_load_csv_step (E : env) (temp_path schema table : string) (columns : list string)
    (chunk_size : Z) (st : csv_state) (r : row) (s : pstate) :
  no_load s (snd (csv_step E temp_path schema table columns chunk_size st r s)).
Proof.
  unfold csv_step. destruct (csv_line r); [|apply no_load_refl].
  destruct (chunk_size <=? _); [|apply no_load_refl].
  apply no_load_bind; [intros w0; apply no_load_write_gz | intros _ w0; apply no_load_refl].
Qed.

Lemma no_load_csv_flush (E : env) (st : csv_state) (s : pstate) :
  no_load s (snd (csv_flush E st s)).
Proof.
  unfold csv_flush. destruct (current_buffer st); [|apply no_load_refl].
  destruct (0 <? _); [|apply no_load_refl].
  apply no_load_bind; [intros w0; apply no_load_write_gz | intros _ w0; apply no_load_refl].
Qed.

Lemma no_load_pq_write (E : env) (temp_path schema table : string) (columns : list string)
    (st : pq_state) (s : pstate) :
  no_load s (snd (pq_write E temp_path schema table columns st s)).
Proof.
  unfold pq_write.
  apply no_load_bind; [intros w0; apply no_load_write_frame | intros _ w0; apply no_load_refl].
Qed.

Lemma no_load_pq_step (E : env) (temp_path schema table : string) (columns : list string)
    (chunk_size : Z) (st : pq_state) (r : row) (s : pstate) :
  no_load s (snd (pq_step E temp_path schema table columns chunk_size st r s)).
Proof.
  unfold pq_step. destruct (chunk_size <=? _); [apply no_load_pq_write | apply no_load_refl].
Qed.

(** The extraction neither uploads nor copies, and leaves the loaded set
    alone, whether it returns or raises. *)
Lemma extract_table_quiet (E : env) (p : MigrationPreferences)
    (temp_path schema table : string) (columns : list string) (s : pstate) :
  let s' := snd (extract_table E p temp_path schema table columns s) in
  loaded_files s' = loaded_files s
  /\ puts (events (pworld s')) = puts (events (pworld s))
  /\ copies (events (pworld s')) = copies (events (pworld s)).
Proof.
  cbv zeta. change (no_load s (snd (extract_table E p temp_path schema table columns s))).
  unfold extract_table. destruct (format p).
  - unfold extract_table_to_csv. apply no_load_bind.
    + intros w0. unfold perform. cbn [snd]. now apply no_load_event.
    + intros _ w0. destruct (cursor_rows E schema table) as [rows err].
      apply no_load_bind.
      * intros w1. apply no_load_for_fold. intros a b w2. apply no_load_csv_step.
      * intros st w1. destruct err; [apply no_load_refl|].
        apply no_load_bind; [intros w2; apply no_load_csv_flush
                            | intros st' w2; apply no_load_refl].
  - unfold extract_table_to_parquet. apply no_load_bind.
    + intros w0. unfold perform. cbn [snd]. now apply no_load_event.
    + intros _ w0. destruct (cursor_rows E schema table) as [rows err].
      apply no_load_bind.
      * intros w1. apply no_load_for_fold. intros a b w2. apply no_load_pq_step.
      * intros st w1. destruct err; [apply no_load_refl|].
        apply no_load_bind; [|intros st' w2; apply no_load_refl].
        intros w2. destruct (pq_chunk_data st); [apply no_load_refl | apply no_load_pq_write].
Qed.

Lemma sum_Z_from (l : list Z) (a : Z) : fold_left Z.add l a = a + sum_Z l.
Proof.
  unfold sum_Z. revert a. induction l as [|x l IH]; intros a; cbn [fold_left]; [lia|].
  rewrite (IH (a + x)), (IH (0 + x)). lia.
Qed.

Lemma sum_Z_cons (x : Z) (l : list Z) : sum_Z (x :: l) = x + sum_Z l.
Proof. unfold sum_Z at 1. cbn. apply sum_Z_from. Qed.

(** Rows are counted on successes only. *)
Lemma sum_rows_of_successes (rs : list load_result) :
  Forall counts_rows rs ->
  sum_Z (map lr_rows_loaded rs) = sum_Z (map lr_rows_loaded (List.filter is_success rs)).
Proof.
  induction 1 as [|r rs Hr _ IH]; [reflexivity|].
  cbn [map List.filter]. rewrite sum_Z_cons, IH. unfold is_success at 2.
  destruct Hr as [Hs | H0].
  - rewrite Hs. cbn [String.eqb Ascii.eqb Bool.eqb map]. now rewrite sum_Z_cons.
  - rewrite H0. destruct (String.eqb _ _); cbn [map]; rewrite ?sum_Z_cons, ?H0; lia.
Qed.

End ExtractionIsQuiet.

Section LoaderAccountingTheorems.
Import PyStr PyText Eff Model World Pipeline Spec Props.

(** X13.  [upload_file_to_stage] issues the PUT of the file once, twice or
    three times and nothing else: it stops at the first PUT that works and
    returns the base name of the file; after three failures it raises, and
    what it raises is the [RetryError] of the decorator, not the error of
    the stage. *)
Theorem X13_upload_stops_at_first_success (E : env) (file_path stage : string)
    (s : pstate) :
  let t := clock (pworld s) in
  let out := upload_file_to_stage E file_path stage s in
  exists k : nat,
    (1 <= k <= 3)%nat
    /\ events (pworld (snd out)) = events (pworld s) ++ repeat (EvPut file_path stage) k
    /\ loaded_files (snd out) = loaded_files s
    /\ (forall i : nat, (i + 1 < k)%nat -> is_ok (put_result E (t + i)%nat file_path) = false)
    /\ match fst out with
       | Ok name => name = basename file_path
                    /\ is_ok (put_result E (t + k - 1)%nat file_path) = true
       | Raise e => e = "RetryError" /\ k = 3%nat
                    /\ is_ok (put_result E (t + 2)%nat file_path) = false
       end.
Proof.
  cbv zeta.
  destruct (upload_file_to_stage_run E file_path stage s) as [k [Hk [Hst [Hearly Hout]]]].
  exists k. rewrite Hst. cbn [pworld events loaded_files].
  repeat (split; [first [exact Hk | reflexivity | exact Hearly | lia] |]).
  exact Hout.
Qed.

(** X14.  [load_table] never raises.  It returns at most one result per
    file path; the COPY INTO statements it issues are those of the results
    whose file reached the stage, one each and in the order of the results
    (an [upload_failed] result has none); it issues at most three PUTs per
    path; and only a result with the status [success] carries rows. *)
Theorem X14_load_table_accounts (E : env) (cfg : SnowflakeConfig) (schema table : string)
    (paths columns : list string) (s : pstate) :
  exists out s',
    load_table E cfg schema table paths columns s = (Ok out, s')
    /\ (length out <= length paths)%nat
    /\ copies (events (pworld s'))
       = copies (events (pworld s)) ++ map copy_of (List.filter was_staged out)
    /\ (length (puts (events (pworld s')))
        <= length (puts (events (pworld s))) + 3 * length paths)%nat
    /\ Forall counts_rows out.
Proof. apply load_table_acct. Qed.

(** [migrate_table] with its accounts. *)
Lemma migrate_table_acct (E : env) (p : MigrationPreferences)
    (cfg : SnowflakeConfig) (temp_path schema table : string) (columns : list string)
    (s : pstate) :
  exists r s',
    migrate_table E p cfg temp_path schema table columns s = (Ok r, s')
    /\ tr_schema r = schema /\ tr_table r = table
    /\ match fst (extract_table E p temp_path schema table columns s) with
       | Ok paths =>
           tr_status r = "completed" /\ tr_error r = None
           /\ tr_file_count r = Some (Z.of_nat (length paths))
           /\ (length (tr_load_results r) <= length paths)%nat
           /\ tr_rows_loaded r
              = Some (sum_Z (map lr_rows_loaded (List.filter is_success (tr_load_results r))))
       | Raise e =>
           r = failed_result schema table e
           /\ loaded_files s' = loaded_files s
           /\ puts (events (pworld s')) = puts (events (pworld s))
           /\ copies (events (pworld s')) = copies (events (pworld s))
       end.
Proof.
  pose proof (extract_table_quiet E p temp_path schema table columns s) as Hquiet.
  cbv zeta in Hquiet.
  unfold migrate_table, bind, now, try_except. cbn [fst snd].
  destruct (extract_table E p temp_path schema table columns s) as [[paths|e] s1];
    cbn [fst snd] in *.
  - destruct (load_table_acct E cfg schema table paths columns s1)
      as [out [s2 [Hrun [Hlen [_ [_ Hrows]]]]]].
    rewrite Hrun. unfold ret. eexists; eexists. split; [reflexivity|].
    cbn [tr_schema tr_table tr_status tr_error tr_file_count tr_load_results tr_rows_loaded].
    repeat (split; [first [reflexivity | exact Hlen] |]).
    now rewrite (sum_rows_of_successes out Hrows).
  - unfold ret. eexists; eexists. split; [reflexivity|].
    cbn [failed_result tr_schema tr_table]. split; [reflexivity|]. split; [reflexivity|].
    split; [reflexivity | exact Hquiet].
Qed.

(** X15.  [migrate_table] never raises, and its result names the table.
    The status is [failed] exactly when the extraction raised: then the
    result carries the error, nothing was uploaded or copied and the loaded
    set is as before.  When the extraction returned, the status is
    [completed], the file count is the number of extracted files, there is
    at most one load result per file, and [rows_loaded] is the sum over the
    load results with the status [success]. *)
Theorem X15_migrate_table_always_returns (E : env) (p : MigrationPreferences)
    (cfg : SnowflakeConfig) (temp_path schema table : string) (columns : list string)
    (s : pstate) :
  exists r s',
    migrate_table E p cfg temp_path schema table columns s = (Ok r, s')
    /\ tr_schema r = schema /\ tr_table r = table
    /\ match fst (extract_table E p temp_path schema table columns s) with
       | Ok paths =>
           tr_status r = "completed" /\ tr_error r = None
           /\ tr_file_count r = Some (Z.of_nat (length paths))
           /\ (length (tr_load_results r) <= length paths)%nat
           /\ tr_rows_loaded r
              = Some (sum_Z (map lr_rows_loaded (List.filter is_success (tr_load_results r))))
       | Raise e =>
           r = failed_result schema table e
           /\ loaded_files s' = loaded_files s
           /\ puts (events (pworld s')) = puts (events (pworld s))
           /\ copies (events (pworld s')) = copies (events (pworld s))
       end.
Proof. apply migrate_table_acct. Qed.

(** X16.  [migrate_schema] opens the two connections before anything else:
    if one of them fails it raises that error and no table is touched.
    Once both are open it never raises and returns one result for each
    table of the schema, each naming the schema and with the status
    [completed] or [failed]. *)
Theorem X16_migrate_schema_one_result_per_table (E : env) (p : MigrationPreferences)
    (cfg : SnowflakeConfig) (temp_path schema : string) (tds : list table_detail)
    (s : pstate) :
  let t := clock (pworld s) in
  let out := migrate_schema E p cfg temp_path schema tds s in
  match pg_connect E t, sf_connect E t with
  | Ok _, Ok _ =>
      exists rs, fst out = Ok rs
        /\ map tr_table rs ≡ₚ map table_name tds
        /\ Forall (fun r => tr_schema r = schema
                            /\ (tr_status r = "completed" \/ tr_status r = "failed")) rs
  | Raise e, _ => out = (Raise e, s)
  | Ok _, Raise e => out = (Raise e, s)
  end.
Proof.
  cbv zeta. unfold migrate_schema, bind, now. cbn [fst snd].
  destruct (pg_connect E _) as [u|e]; [|reflexivity].
  destruct (sf_connect E _) as [u'|e]; [|reflexivity].
  generalize s. clear s.
  induction tds as [|td tds IH]; intros s; cbn [for_each].
  - exists []. unfold ret. cbn. repeat split; constructor.
  - destruct (migrate_table_acct E p cfg temp_path schema (table_name td)
                (map column_name (columns td)) s) as [r [s1 [Hrun [Hs [Ht Hcase]]]]].
    destruct (IH s1) as [rs [Hrs [Hperm Hall]]].
    unfold bind in *. rewrite Hrun.
    destruct (for_each _ tds s1) as [[rs'|e] s2]; cbn [fst] in Hrs; [|discriminate].
    injection Hrs as ->. unfold ret. exists (r :: rs). cbn [fst map].
    split; [reflexivity|]. split; [rewrite Ht; now constructor|].
    constructor; [|exact Hall]. split; [exact Hs|].
    destruct (fst (extract_table E p temp_path schema (table_name td)
                     (map column_name (columns td)) s)).
    + left. apply Hcase.
    + right. destruct Hcase as [-> _]. reflexivity.
Qed.

End LoaderAccountingTheorems.

Section RunOutcome.
Import PyStr PyVal PyText Eff Model World Orchestrator Spec Props.
Context (E : env).

(** How [run_complete] ends. *)
Lemma run_complete_outcome (s : sys) :
  match run_complete E s with
  | (Ok r, s') =>
      rr_status r = status_value (status (self s'))
      /\ (if dry_run (preferences (request (self s))) then settled (status (self s'))
          else if confirm (control (request (self s))) then settled (status (self s'))
          else status (self s') = AWAITING_CONFIRMATION)
  | (Raise _, s') => status (self s') = FAILED
  end.
Proof.
  unfold run_complete, try_except.
  pose proof (analyze_lands E s) as Ha.
  pose proof (keeps_harmless_analyze E s) as [Hreq1 _].
  destruct (analyze E s) as [[a|e] s1] eqn:Hrun1; cbn [snd] in Hreq1.
  2:{ rewrite (bind_Raise _ _ _ _ _ Hrun1).
      destruct (failure_branch_moves E e s1) as [e' [s' [Hf [_ Hm]]]]. now rewrite Hf. }
  rewrite (bind_Ok _ _ _ _ _ Hrun1).
  pose proof (plan_lands E s1) as Hp.
  pose proof (keeps_harmless_plan E s1) as [Hreq2 _].
  destruct (plan E s1) as [[arts|e] s2] eqn:Hrun2; cbn [snd] in Hreq2.
  2:{ rewrite (bind_Raise _ _ _ _ _ Hrun2).
      destruct (failure_branch_moves E e s2) as [e' [s' [Hf [_ Hm]]]]. now rewrite Hf. }
  rewrite (bind_Ok _ _ _ _ _ Hrun2).
  rewrite (bind_Ok get _ s2 s2 s2 eq_refl).
  rewrite Hreq2, Hreq1.
  destruct (dry_run (preferences (request (self s)))) eqn:Hdry.
  - match goal with |- context [bind (log E ?l ?c ?m ?k) _ ?s0] =>
      destruct (log_returns E l c m k s0) as [s3 [Hrun3 Hrel3]]
    end.
    rewrite (bind_Ok _ _ _ _ _ Hrun3).
    rewrite (bind_Ok (set_status COMPLETED) _ s3 tt _ eq_refl).
    match goal with |- context [bind (finalize E) _ ?s0] =>
      pose proof (finalize_lands E s0) as Hfin;
      destruct (finalize E s0) as [[f|e] s5] eqn:Hrun5
    end.
    + rewrite (bind_Ok _ _ _ _ _ Hrun5).
      rewrite (bind_Ok get _ s5 s5 s5 eq_refl). cbn [ret rr_status].
      split; [reflexivity|]. destruct Hfin as [_ Hst]. cbn [List.last] in Hst.
      rewrite Hst. apply final_status_cases.
    + rewrite (bind_Raise _ _ _ _ _ Hrun5).
      destruct (failure_branch_moves E e s5) as [e' [s' [Hf [_ Hm]]]]. now rewrite Hf.
  - destruct (confirm (control (request (self s)))) eqn:Hconf.
    + destruct (execute E s2) as [[rs|e] s3] eqn:Hrun3.
      2:{ rewrite (bind_Raise _ _ _ _ _ Hrun3).
          destruct (failure_branch_moves E e s3) as [e' [s' [Hf [_ Hm]]]]. now rewrite Hf. }
      rewrite (bind_Ok _ _ _ _ _ Hrun3).
      destruct (validate_lands E s3) as [vs [s4 [Hrun4 Hval]]].
      rewrite (bind_Ok _ _ _ _ _ Hrun4).
      pose proof (finalize_lands E s4) as Hfin.
      destruct (finalize E s4) as [[f|e] s5] eqn:Hrun5.
      * rewrite (bind_Ok _ _ _ _ _ Hrun5).
        rewrite (bind_Ok get _ s5 s5 s5 eq_refl). cbn [ret rr_status].
        split; [reflexivity|]. destruct Hfin as [_ Hst]. cbn [List.last] in Hst.
        rewrite Hst. apply final_status_cases.
      * rewrite (bind_Raise _ _ _ _ _ Hrun5).
        destruct (failure_branch_moves E e s5) as [e' [s' [Hf [_ Hm]]]]. now rewrite Hf.
    + match goal with |- context [bind (log E ?l ?c ?m ?k) _ ?s0] =>
        destruct (log_returns E l c m k s0) as [s3 [Hrun3 Hrel3]]
      end.
      rewrite (bind_Ok _ _ _ _ _ Hrun3). cbn [ret rr_status].
      destruct Hrel3 as [_ [_ [_ [Hst _]]]]. rewrite Hst.
      destruct Hp as [_ Hst2]. cbn [List.last] in Hst2. rewrite Hst2.
      split; reflexivity.
Qed.

End RunOutcome.

Section RunLogLines.
Import PyStr PyVal PyText Eff Model World Orchestrator Spec Props.

Lemma all_chars_app (p : ascii -> bool) (a b : string) :
  all_chars p (a +:+ b) = all_chars p a && all_chars p b.
Proof.
  induction a as [|x a IH]; [reflexivity|].
  rewrite str_app_cons. cbn. now rewrite IH, andb_assoc.
Qed.

Lemma one_line_app (a b : string) : one_line (a +:+ b) = one_line a && one_line b.
Proof. apply all_chars_app. Qed.

Lemma join_one_line (sep : string) (l : list string) :
  one_line sep = true -> Forall (fun x => one_line x = true) l ->
  one_line (join sep l) = true.
Proof.
  intros Hsep. induction 1 as [|x l Hx Hl IH]; [reflexivity|].
  cbn [join]. destruct l as [|y l]; [exact Hx|].
  now rewrite !one_line_app, Hx, Hsep, IH.
Qed.

Lemma hex_digit_one_line (n : N) : Ascii.eqb (hex_digit (n mod 16)) "010" = false.
Proof.
  assert (Hlt : (n mod 16 < 16)%N) by (apply N.mod_lt; discriminate).
  revert Hlt. generalize (n mod 16)%N. intros k Hlt.
  destruct k as [|p]; [reflexivity|].
  do 4 (destruct p as [p|p|]; try reflexivity); lia.
Qed.

Lemma hex4_one_line (n : N) : one_line (hex4 n) = true.
Proof.
  unfold hex4, one_line. cbn [all_chars]. now rewrite !hex_digit_one_line.
Qed.

(** No character of a JSON string is a line break: [json.dumps] writes it
    as a backslash and the letter n. *)
Lemma json_char_one_line (n : N) : one_line (json_char n) = true.
Proof.
  unfold json_char.
  repeat match goal with
         | |- one_line (if ?b then _ else _) = true => destruct b eqn:?; [reflexivity|]
         end.
  destruct (_ || _)%bool eqn:Hout.
  - destruct (n <? 65536)%N; rewrite !one_line_app, !hex4_one_line; reflexivity.
  - apply orb_false_iff in Hout. destruct Hout as [Hlo Hhi].
    apply N.ltb_ge in Hlo, Hhi.
    unfold one_line. cbn [all_chars]. rewrite andb_true_r. apply negb_true_iff.
    apply Ascii.eqb_neq. intros Heq.
    apply (f_equal N_of_ascii) in Heq. rewrite N_ascii_embedding in Heq by lia.
    cbn in Heq. lia.
Qed.

Lemma json_str_one_line (s : string) : one_line (json_str s) = true.
Proof.
  unfold json_str. rewrite !one_line_app.
  assert (H : one_line (join "" (map json_char (code_points s))) = true).
  { apply join_one_line; [reflexivity|].
    apply List.Forall_forall. intros x Hx. apply in_map_iff in Hx as [n [<- _]].
    apply json_char_one_line. }
  now rewrite H.
Qed.

Lemma of_uint_one_line (d : Decimal.uint) :
  one_line (NilEmpty.string_of_uint d) = true.
Proof. induction d; cbn; trivial. Qed.

Lemma of_Z_one_line (z : Z) : one_line (of_Z z) = true.
Proof.
  unfold of_Z, NilZero.string_of_int, NilZero.string_of_uint.
  destruct (Z.to_int z) as [d|d]; destruct d; try reflexivity;
    try apply (of_uint_one_line (_ d));
    change (one_line (String "-" ?x)) with (one_line x);
    try apply (of_uint_one_line (_ d)).
Qed.

Lemma json_val_one_line (v : pyval) : one_line (json_val v) = true.
Proof.
  destruct v as [s|z|l]; cbn [json_val].
  - apply json_str_one_line.
  - apply of_Z_one_line.
  - assert (H : one_line (join ", " (map json_str l)) = true).
    { apply join_one_line; [reflexivity|].
      apply List.Forall_forall. intros x Hx. apply in_map_iff in Hx as [y [<- _]].
      apply json_str_one_line. }
    rewrite !one_line_app, H. reflexivity.
Qed.

(** A dumped entry is one line, whatever its strings hold. *)
Lemma json_dumps_one_line (d : pydict) : one_line (json_dumps d) = true.
Proof.
  unfold json_dumps. rewrite !one_line_app.
  assert (H : one_line (join ", " (map (fun kv => json_str (fst kv) +:+ ": " +:+
                                                  json_val (snd kv)) d)) = true).
  { apply join_one_line; [reflexivity|].
    apply List.Forall_forall. intros x Hx. apply in_map_iff in Hx as [kv [<- _]].
    now rewrite !one_line_app, json_str_one_line, json_val_one_line. }
  now rewrite H.
Qed.

Lemma split_one_piece (c : ascii) (s : string) :
  all_chars (fun d => negb (Ascii.eqb d c)) s = true -> split c s = [s].
Proof.
  induction s as [|d r IH]; [reflexivity|].
  cbn. intros H. apply andb_true_iff in H as [Hd Hr].
  apply negb_true_iff in Hd. now rewrite Hd, (IH Hr).
Qed.

(** Reading back lines that were written with a line break after each. *)
Lemma split_lines (xs : list string) :
  Forall (fun x => one_line x = true) xs ->
  split "010" (Generator.concat_strs (map (fun x => x +:+ nl) xs)) = xs ++ [""].
Proof.
  induction 1 as [|x xs Hx _ IH]; [reflexivity|].
  cbn [map Generator.concat_strs fold_right].
  change (fold_right String.append "" (map (fun x => x +:+ nl) xs))
    with (Generator.concat_strs (map (fun x => x +:+ nl) xs)).
  unfold nl at 1. rewrite str_app_assoc, str_app_cons, str_app_nil_l.
  rewrite split_app, IH, (split_one_piece _ _ Hx). reflexivity.
Qed.

Lemma log_text_lines (entries : list pydict) :
  split "010" (log_text entries) = map json_dumps entries ++ [""].
Proof.
  unfold log_text.
  rewrite <- (map_map json_dumps (fun x => x +:+ nl)).
  apply split_lines, List.Forall_forall. intros x Hx.
  apply in_map_iff in Hx as [d [<- _]]. apply json_dumps_one_line.
Qed.

End RunLogLines.

Section OrchestratorTheorems.
Import PyStr PyVal PyText Eff Model World Orchestrator Spec Props.

(** X17.  However [run_complete] ends, the orchestrator tells.  When it
    raises, the status is FAILED.  When it returns, the status it reports is
    the status of the orchestrator: COMPLETED or FAILED after a dry run and
    after a confirmed run (it returns normally even when tables failed), and
    AWAITING_CONFIRMATION after a run that was neither. *)
Theorem X17_run_complete_reports_the_status (E : env) (s : sys) :
  match run_complete E s with
  | (Ok r, s') =>
      rr_status r = status_value (status (self s'))
      /\ (if dry_run (preferences (request (self s))) then settled (status (self s'))
          else if confirm (control (request (self s))) then settled (status (self s'))
          else status (self s') = AWAITING_CONFIRMATION)
  | (Raise _, s') => status (self s') = FAILED
  end.
Proof. apply run_complete_outcome. Qed.

(** X18.  The run log can be read back line by line: when the file can be
    written, [save_log] leaves a text whose lines, split at the line
    breaks, are the JSON texts of the log entries, one entry per line and
    in their order, followed by the empty rest after the last line break.
    A line break inside a message does not break a line: [json.dumps]
    escapes it. *)
Theorem X18_run_log_is_one_line_per_entry (E : env) (s : sys) :
  write_result E (clock (outside s)) "run_log.ndjson" = Ok tt ->
  exists content,
    run_log (snd (save_log E s)) = Some content
    /\ split "010" content = map json_dumps (log_entries (self s)) ++ [""].
Proof.
  intros Hw. exists (log_text (log_entries (self s))).
  split; [now apply save_log_writes_entries | apply log_text_lines].
Qed.

(** X18 on the log of a failed analysis. *)
Lemma X18_witness_two_entries :
  let E := unreachable_env in
  let s := snd (analyze E (start E (request_with false true))) in
  length (log_entries (self s)) = 2%nat
  /\ exists content,
       run_log (snd (save_log E s)) = Some content
       /\ split "010" content = map json_dumps (log_entries (self s)) ++ [""].
Proof.
  cbv zeta. split; [vm_compute; reflexivity|].
  apply (X18_run_log_is_one_line_per_entry unreachable_env). vm_compute. reflexivity.
Defined.

End OrchestratorTheorems.

Section ApiFacts.
Import PyStr PyVal PyText Eff Model World Orchestrator Spec Props Api.



(** A cancel request leaves the run registered, with the status
    CANCELLED. *)
Lemma cancel_registered (E : env) (run_id : string) (sv : server) (o : sys) :
  active_migrations sv !! run_id = Some o ->
  exists o',
    active_migrations (snd (cancel_migration E run_id sv)) !! run_id = Some o'
    /\ status (self o') = CANCELLED
    /\ artifacts_dir (self o') = artifacts_dir (self o).
Proof.
  intros Hreg. unfold cancel_migration. rewrite Hreg. cbn [snd with_migrations].
  destruct (cancel_lands E o) as [o' [Hrun [_ Hst]]]. rewrite Hrun. cbn [snd].
  exists o'. split; [apply lookup_insert_eq|]. split; [exact Hst|].
  unfold Orchestrator.cancel_migration in Hrun.
  rewrite (bind_Ok (set_status CANCELLED) _ o tt _ eq_refl) in Hrun.
  cbv beta in Hrun.
  match type of Hrun with
  | log E ?l ?c ?m ?k ?st = _ => destruct (log_returns E l c m k st) as [o2 [Hlog Hrel]]
  end.
  rewrite Hlog in Hrun. injection Hrun as <-.
  destruct Hrel as [_ [_ [Hdir _]]]. exact Hdir.
Qed.

(** A run whose status is terminal is deleted, if [rmtree] works. *)
Lemma delete_terminal (F : filesystem) (run_id : string) (sv : server) (o : sys) :
  active_migrations sv !! run_id = Some o ->
  deletable (status (self o)) = true ->
  (forall d, rmtree F d = Ok tt) ->
  fst (delete_migration F run_id sv) = Response "Migration deleted successfully"
  /\ active_migrations (snd (delete_migration F run_id sv)) !! run_id = None.
Proof.
  intros Hreg Hdel Hrm. unfold delete_migration, remove_if_exists.
  rewrite Hreg, Hdel. cbn [negb].
  destruct (exists_dir F [] _); rewrite ?Hrm;
    destruct (exists_dir F _ _); rewrite ?Hrm; cbn [fst snd active_migrations];
    (split; [reflexivity | apply lookup_delete_eq]).
Qed.

End ApiFacts.

Section ApiTheorems.
Import PyStr PyVal PyText Eff Model World Orchestrator Spec Props Api.



(** X20.  A run that was asked to plan only and has finished is left in
    AWAITING_CONFIRMATION, which [delete_migration] takes for active: the
    request is refused with status 400 and nothing changes.  After a cancel
    request the same run is deleted (where [rmtree] works).  If the run
    raised instead, it is FAILED and can be deleted at once. *)
Theorem X20_plan_only_run_needs_cancel (E : env) (F : filesystem) (req : MigrationRequest)
    (m : gmap string sys) (gone : list string) :
  dry_run (preferences req) = false ->
  confirm (control req) = false ->
  (forall d, rmtree F d = Ok tt) ->
  let done := run_complete E (start E req) in
  let run_id := self_run_id (self (start E req)) in
  let sv := {| active_migrations := <[run_id := snd done]> m; removed := gone |} in
  match fst done with
  | Ok _ =>
      delete_migration F run_id sv
      = (HTTPException 400 "Cannot delete active migration. Cancel it first.", sv)
      /\ let sv' := snd (cancel_migration E run_id sv) in
         fst (delete_migration F run_id sv') = Response "Migration deleted successfully"
         /\ active_migrations (snd (delete_migration F run_id sv')) !! run_id = None
  | Raise _ =>
      fst (delete_migration F run_id sv) = Response "Migration deleted successfully"
  end.
Proof.
  intros Hdry Hconf Hrm. cbv zeta.
  pose proof (run_complete_outcome E (start E req)) as Hout.
  cbn [start self new_orchestrator request] in Hout.
  rewrite Hdry, Hconf in Hout.
  set (run_id := self_run_id (self (start E req))).
  destruct (run_complete E (start E req)) as [[r|e] o]; cbn [fst snd].
  - destruct Hout as [_ Hst].
    set (sv := {| active_migrations := <[run_id := o]> m; removed := gone |}).
    assert (Hreg : active_migrations sv !! run_id = Some o) by apply lookup_insert_eq.
    split.
    + unfold delete_migration. rewrite Hreg, Hst. reflexivity.
    + destruct (cancel_registered E run_id sv o Hreg) as [o' [Hreg' [Hst' _]]].
      apply (delete_terminal F run_id _ o' Hreg'); [now rewrite Hst' | exact Hrm].
  - set (sv := {| active_migrations := <[run_id := o]> m; removed := gone |}).
    assert (Hreg : active_migrations sv !! run_id = Some o) by apply lookup_insert_eq.
    apply (delete_terminal F run_id sv o Hreg); [now rewrite Hout | exact Hrm].
Qed.

(** X20 on a healthy source: the plan is made, and the run cannot be
    deleted before it is cancelled. *)
Lemma X20_witness_plan_only :
  let E := healthy_env small_analysis three_rows_loaded in
  let req := request_with false false in
  let done := run_complete E (start E req) in
  let run_id := self_run_id (self (start E req)) in
  let sv := {| active_migrations := <[run_id := snd done]> ∅; removed := [] |} in
  is_ok (fst done) = true
  /\ match fst done with
     | Ok _ =>
         delete_migration plain_fs run_id sv
         = (HTTPException 400 "Cannot delete active migration. Cancel it first.", sv)
         /\ let sv' := snd (cancel_migration E run_id sv) in
            fst (delete_migration plain_fs run_id sv')
            = Response "Migration deleted successfully"
            /\ active_migrations (snd (delete_migration plain_fs run_id sv')) !! run_id = None
     | Raise _ =>
         fst (delete_migration plain_fs run_id sv) = Response "Migration deleted successfully"
     end.
Proof.
  cbv zeta. split; [vm_compute; reflexivity|].
  exact (X20_plan_only_run_needs_cancel (healthy_env small_analysis three_rows_loaded)
           plain_fs (request_with false false) ∅ [] eq_refl eq_refl (fun _ => eq_refl)).
Defined.

(** X21.  [start_migration] never continues a run.  When the directories
    can be made, a fresh orchestrator is registered under the run id,
    replacing whatever was registered under it: the status of the run is
    then pending, its analysis gone and its log empty, and the other runs
    are as before.  When a directory cannot be made, the answer has the
    status 500 and nothing is registered. *)
Theorem X21_start_migration_never_continues (E : env) (F : filesystem)
    (req : MigrationRequest) (sv : server) :
  let out := start_migration E F req sv in
  match fst out with
  | Response r =>
      resp_status r = PENDING
      /\ active_migrations (snd out) !! resp_run_id r = Some (start E req)
      /\ get_status (resp_run_id r) (snd out)
         = Response {| sb_run_id := resp_run_id r; sb_status := "pending";
                       sb_artifacts_dir := artifacts_dir (self (start E req));
                       sb_analysis_complete := false; sb_migration_results := [];
                       sb_validation_results := []; sb_log_entry_count := 0 |}
      /\ (forall other, other <> resp_run_id r ->
            active_migrations (snd out) !! other = active_migrations sv !! other)
      /\ removed (snd out) = removed sv
  | HTTPException code _ => code = 500 /\ snd out = sv
  | Unhandled _ => False
  end.
Proof.
  cbv zeta. unfold start_migration.
  destruct (makedirs F (artifacts_dir _)); [|now split].
  destruct (makedirs F (temp_dir _)); [|now split].
  set (o := start E req). set (run_id := self_run_id (self o)).
  assert (Hstatus : get_status run_id (with_migrations (fun m => <[run_id := o]> m) sv)
                    = Response {| sb_run_id := run_id; sb_status := "pending";
                                  sb_artifacts_dir := artifacts_dir (self o);
                                  sb_analysis_complete := false; sb_migration_results := [];
                                  sb_validation_results := []; sb_log_entry_count := 0 |}).
  { unfold get_status, with_migrations. cbn [active_migrations].
    now rewrite lookup_insert_eq. }
  destruct (dry_run (preferences req)); [|destruct (confirm (control req))];
    cbn [fst snd resp_status resp_run_id];
    (split; [reflexivity|]); (split; [apply lookup_insert_eq|]);
    (split; [exact Hstatus|]);
    (split; [|reflexivity]); intros other Hne; now apply lookup_insert_ne.
Qed.

End ApiTheorems.

Section VolumetricsFacts.
Import PyStr PyText Model Catalog Props.

Lemma sum_Z_app (a b : list Z) : Pipeline.sum_Z (a ++ b) = Pipeline.sum_Z a + Pipeline.sum_Z b.
Proof.
  unfold Pipeline.sum_Z at 1. rewrite fold_left_app, sum_Z_from.
  fold (Pipeline.sum_Z a). lia.
Qed.

(** Descending insertion keeps the elements and the order. *)
Lemma insert_desc_perm {A} (key : A -> Z) (x : A) (l : list A) :
  insert_desc key x l ≡ₚ x :: l.
Proof.
  induction l as [|y r IH]; cbn; [reflexivity|].
  destruct (key y <=? key x); [reflexivity|].
  rewrite IH. apply Permutation_swap.
Qed.

Lemma insert_desc_sorted {A} (key : A -> Z) (x : A) (l : list A) :
  StronglySorted (fun a b => key b <= key a) l ->
  StronglySorted (fun a b => key b <= key a) (insert_desc key x l).
Proof.
  induction 1 as [|y r Hr IH Hy]; cbn.
  - constructor; constructor.
  - destruct (Z.leb_spec (key y) (key x)) as [Hle|Hgt].
    + constructor; [constructor; assumption|].
      constructor; [exact Hle|].
      eapply List.Forall_impl; [|exact Hy]. intros z Hz. cbn in Hz. lia.
    + constructor; [exact IH|].
      rewrite (insert_desc_perm key x r). constructor; [lia | exact Hy].
Qed.

Lemma sort_desc_perm {A} (key : A -> Z) (l : list A) : sort_desc key l ≡ₚ l.
Proof.
  unfold sort_desc. induction l as [|x l IH]; cbn; [reflexivity|].
  now rewrite insert_desc_perm, IH.
Qed.

Lemma sort_desc_sorted {A} (key : A -> Z) (l : list A) :
  StronglySorted (fun a b => key b <= key a) (sort_desc key l).
Proof.
  unfold sort_desc. induction l as [|x l IH]; cbn; [constructor|].
  now apply insert_desc_sorted.
Qed.

(** What the table loop does to the accumulators. *)
Lemma vol_table_spec (schema_name : string) (st : vol_state) (t : table_row) :
  let st' := vol_table schema_name st t in
  vs_largest st' = vs_largest st ++ sized_entry schema_name t
  /\ vs_total_tables st' = vs_total_tables st + Z.of_nat (length (sized_entry schema_name t))
  /\ vs_total_size st'
     = vs_total_size st + Pipeline.sum_Z (map st_size_bytes (sized_entry schema_name t))
  /\ vs_total_rows st'
     = vs_total_rows st
       + Pipeline.sum_Z (map (fun e => default 0 (st_rows e)) (sized_entry schema_name t)).
Proof.
  cbv zeta. unfold vol_table, sized_entry.
  destruct (t_total_size_bytes t) as [size|].
  2:{ cbn. rewrite app_nil_r. repeat split; lia. }
  destruct (size =? 0); cbn [negb].
  { cbn. rewrite app_nil_r. repeat split; lia. }
  cbn [vs_largest vs_total_tables vs_total_size vs_total_rows length map st_size_bytes st_rows].
  unfold Pipeline.sum_Z. cbn [fold_left].
  split; [reflexivity|]. split; [lia|]. split; [lia|].
  unfold truthy_int. destruct (t_approximate_row_count t) as [n|]; cbn.
  - destruct (Z.eqb_spec n 0); cbn; lia.
  - lia.
Qed.

Lemma vol_tables_spec (schema_name : string) (ts : list table_row) (st : vol_state) :
  let st' := fold_left (vol_table schema_name) ts st in
  let added := flat_map (sized_entry schema_name) ts in
  vs_largest st' = vs_largest st ++ added
  /\ vs_total_tables st' = vs_total_tables st + Z.of_nat (length added)
  /\ vs_total_size st' = vs_total_size st + Pipeline.sum_Z (map st_size_bytes added)
  /\ vs_total_rows st'
     = vs_total_rows st + Pipeline.sum_Z (map (fun e => default 0 (st_rows e)) added).
Proof.
  cbv zeta. revert st. induction ts as [|t ts IH]; intros st; cbn [fold_left flat_map].
  - rewrite app_nil_r. cbn. repeat split; lia.
  - destruct (IH (vol_table schema_name st t)) as [H1 [H2 [H3 H4]]].
    destruct (vol_table_spec schema_name st t) as [G1 [G2 [G3 G4]]].
    rewrite H1, H2, H3, H4, G1, G2, G3, G4.
    rewrite !map_app, !sum_Z_app, length_app, <- app_assoc.
    repeat split; lia.
Qed.

Lemma vol_schemas_spec (get_tables : string -> list table_row) (schemas : list string)
    (st : vol_state) :
  let st' := fold_left (fun st schema_name =>
                          fold_left (vol_table schema_name) (get_tables schema_name) st)
                       schemas st in
  let added := sized_tables get_tables schemas in
  vs_largest st' = vs_largest st ++ added
  /\ vs_total_tables st' = vs_total_tables st + Z.of_nat (length added)
  /\ vs_total_size st' = vs_total_size st + Pipeline.sum_Z (map st_size_bytes added)
  /\ vs_total_rows st'
     = vs_total_rows st + Pipeline.sum_Z (map (fun e => default 0 (st_rows e)) added).
Proof.
  cbv zeta. unfold sized_tables. revert st.
  induction schemas as [|sn schemas IH]; intros st; cbn [fold_left flat_map].
  - rewrite app_nil_r. cbn. repeat split; lia.
  - destruct (IH (fold_left (vol_table sn) (get_tables sn) st)) as [H1 [H2 [H3 H4]]].
    destruct (vol_tables_spec sn (get_tables sn) st) as [G1 [G2 [G3 G4]]].
    rewrite H1, H2, H3, H4, G1, G2, G3, G4.
    rewrite !map_app, !sum_Z_app, length_app, <- app_assoc.
    repeat split; lia.
Qed.

End VolumetricsFacts.

Section VolumetricsTheorems.
Import PyStr PyText Model Catalog Props.

(** X22.  [calculate_volumetrics] counts the tables that have a size other
    than zero, and only those: [total_tables] is their number,
    [total_size_bytes] the sum of their sizes and [approximate_total_rows]
    the sum of their row estimates (a missing estimate counts as 0).
    [largest_tables] holds the twenty largest of them, or all if there are
    fewer, the largest first: together with the tables left out, which are
    no larger than any table kept, it is a rearrangement of the counted
    tables. *)
Theorem X22_volumetrics_totals_and_top_twenty (get_tables : string -> list table_row)
    (schemas : list string) :
  let v := calculate_volumetrics get_tables schemas in
  let counted := sized_tables get_tables schemas in
  total_tables v = Z.of_nat (length counted)
  /\ total_size_bytes v = Pipeline.sum_Z (map st_size_bytes counted)
  /\ approximate_total_rows v
     = Pipeline.sum_Z (map (fun e => default 0 (st_rows e)) counted)
  /\ length (largest_tables v) = Nat.min 20 (length counted)
  /\ Forall (fun e => st_size_bytes e <> 0) (largest_tables v)
  /\ exists left_out,
       largest_tables v ++ left_out ≡ₚ counted
       /\ by_size_desc (largest_tables v ++ left_out).
Proof.
  cbv zeta. unfold calculate_volumetrics.
  cbn [total_tables total_size_bytes approximate_total_rows largest_tables].
  destruct (vol_schemas_spec get_tables schemas
              {| vs_total_size := 0; vs_total_tables := 0; vs_total_rows := 0;
                 vs_largest := [] |}) as [H1 [H2 [H3 H4]]].
  cbv zeta in H1, H2, H3, H4. cbn [vs_largest vs_total_tables vs_total_size vs_total_rows app]
    in H1, H2, H3, H4.
  rewrite H1, H2, H3, H4. unfold slice_to.
  set (counted := sized_tables get_tables schemas).
  pose proof (sort_desc_perm st_size_bytes counted) as Hperm.
  split; [lia|]. split; [lia|]. split; [lia|].
  split; [rewrite length_firstn, (Permutation_length Hperm); reflexivity|].
  split.
  - apply List.Forall_forall. intros e He.
    assert (Hin : In e (sort_desc st_size_bytes counted)).
    { rewrite <- (firstn_skipn 20). apply in_or_app. now left. }
    apply (Permutation_in _ Hperm) in Hin. unfold counted, sized_tables in Hin.
    apply in_flat_map in Hin as [sn [_ Hin]]. apply in_flat_map in Hin as [t [_ Hin]].
    unfold sized_entry in Hin. destruct (t_total_size_bytes t) as [size|]; [|destruct Hin].
    destruct (Z.eqb_spec size 0); cbn [negb] in Hin; [destruct Hin|].
    destruct Hin as [<- | []]. exact n.
  - exists (skipn 20 (sort_desc st_size_bytes counted)).
    rewrite firstn_skipn. split; [exact Hperm | apply sort_desc_sorted].
Qed.

End VolumetricsTheorems.

Section ValidatorFacts.
Import PyStr PyVal PyText Eff Model Validator Props.
Context (D : databases).

Lemma null_violations_nil (schema table : string) (cols : list string) :
  null_violations D schema table cols = []
  <-> Forall (fun c => no_finding (sf_null_count D schema table c)) cols.
Proof.
  unfold null_violations. induction cols as [|c cols IH]; cbn [flat_map].
  - split; [constructor | reflexivity].
  - split.
    + intros H. apply app_eq_nil in H as [Hc Hrest]. constructor; [|now apply IH].
      unfold no_finding. destruct (sf_null_count D schema table c) as [n|e]; [|exact I].
      destruct (Z.ltb_spec 0 n); [discriminate | lia].
    + intros H. inversion H as [|? ? Hc Hrest]; subst.
      apply IH in Hrest. rewrite Hrest, app_nil_r.
      unfold no_finding in Hc. destruct (sf_null_count D schema table c) as [n|e];
        [|reflexivity].
      destruct (Z.ltb_spec 0 n); [lia | reflexivity].
Qed.

Lemma count_set_not_nil (k : string) (v : Z) (d : list (string * Z)) :
  count_set k v d <> [].
Proof. destruct d as [|[k' v'] r]; cbn; [discriminate|]. destruct (String.eqb k' k); discriminate. Qed.

Lemma invalid_counts_nil (schema table : string) (cols : list string)
    (d : list (string * Z)) :
  fold_left (fun d column =>
               match sf_invalid_json D schema table column with
               | Ok invalid_count =>
                   if 0 <? invalid_count then count_set column invalid_count d else d
               | Raise _ => d
               end) cols d = []
  <-> d = [] /\ Forall (fun c => no_finding (sf_invalid_json D schema table c)) cols.
Proof.
  revert d. induction cols as [|c cols IH]; intros d; cbn [fold_left].
  - split; [intros ->; split; [reflexivity | constructor] | now intros [-> _]].
  - rewrite IH.
    destruct (sf_invalid_json D schema table c) as [n|e] eqn:Hq.
    + destruct (Z.ltb_spec 0 n) as [Hpos|Hle].
      * split; [intros [Habs _]; now apply count_set_not_nil in Habs|].
        intros [_ Hall]. inversion Hall as [|? ? Hc _]; subst.
        unfold no_finding in Hc. rewrite Hq in Hc. lia.
      * split.
        -- intros [-> Hall]. split; [reflexivity|]. constructor; [|exact Hall].
           unfold no_finding. rewrite Hq. lia.
        -- intros [-> Hall]. inversion Hall; subst. now split.
    + split.
      * intros [-> Hall]. split; [reflexivity|]. constructor; [|exact Hall].
        unfold no_finding. now rewrite Hq.
      * intros [-> Hall]. inversion Hall; subst. now split.
Qed.

End ValidatorFacts.

Section ValidatorTheorems.
Import PyStr PyVal PyText Eff Model Validator Props.

(** X23.  The NOT NULL check and the JSON check never report an error: a
    query that fails is taken as a query that found nothing.  The NOT NULL
    check passes exactly when no column's query answered a positive count,
    and fails otherwise; so does the JSON check on a table with JSON
    columns, and on a table without it is skipped.  With Snowflake out of
    reach, both checks pass. *)
Theorem X23_failed_queries_count_as_passed (D : databases) (schema table : string)
    (not_null_columns json_columns : list string) :
  let nulls := check_null_constraints D schema table not_null_columns in
  let json := check_json_validity D schema table json_columns in
  (ck_status nulls = "PASS"
   <-> Forall (fun c => no_finding (sf_null_count D schema table c)) not_null_columns)
  /\ (ck_status nulls = "PASS" \/ ck_status nulls = "FAIL")
  /\ match json_columns with
     | [] => ck_status json = "SKIP"
     | _ =>
         (ck_status json = "PASS"
          <-> Forall (fun c => no_finding (sf_invalid_json D schema table c)) json_columns)
         /\ (ck_status json = "PASS" \/ ck_status json = "FAIL")
     end.
Proof.
  cbv zeta. split; [|split].
  - rewrite <- null_violations_nil. unfold check_null_constraints. cbn [ck_status].
    destruct (null_violations D schema table not_null_columns); split;
      (reflexivity || discriminate).
  - unfold check_null_constraints. cbn [ck_status].
    destruct (null_violations D schema table not_null_columns); auto.
  - destruct json_columns as [|c cols]; [reflexivity|].
    unfold check_json_validity, invalid_json_counts. cbn [ck_status].
    pose proof (invalid_counts_nil D schema table (c :: cols) []) as Hnil.
    destruct (fold_left _ (c :: cols) []) as [|x l].
    + split; [|now left]. split; [intros _; now apply Hnil | reflexivity].
    + split; [|now right]. split; [discriminate|].
      intros H. assert (Habs : x :: l = []) by (apply Hnil; now split). discriminate.
Qed.

(** X24.  [validate_table] with Snowflake out of reach: every query of the
    target fails, and the four results are an ERROR for the row count, a PASS
    for the NOT NULL constraints, an ERROR for the primary key (SKIP without
    one) and a PASS for the JSON columns (SKIP without any).  Two checks
    that could not look at the data are reported as passed. *)
Theorem X24_validation_without_snowflake (D : databases) (schema table : string)
    (td : table_detail) :
  (forall s t, is_ok (sf_row_count D s t) = false) ->
  (forall s t c, is_ok (sf_null_count D s t c) = false) ->
  (forall s t cs, is_ok (sf_pk_duplicates D s t cs) = false) ->
  (forall s t c, is_ok (sf_invalid_json D s t c) = false) ->
  map (fun c => (ck_check c, ck_status c)) (validate_table D schema table td)
  = [ ("row_count", "ERROR");
      ("not_null_constraints", "PASS");
      ("primary_key_duplicates", match pk_columns td with [] => "SKIP" | _ => "ERROR" end);
      ("json_validity", match json_columns td with [] => "SKIP" | _ => "PASS" end) ].
Proof.
  intros Hrows Hnull Hpk Hjson. unfold validate_table, validate_row_counts.
  cbn [map].
  assert (H1 : ck_status (validate_row_count D schema table) = "ERROR"
               /\ ck_check (validate_row_count D schema table) = "row_count").
  { unfold validate_row_count. specialize (Hrows schema table).
    destruct (pg_row_count D schema table); [|split; reflexivity].
    destruct (sf_row_count D schema table); [discriminate | split; reflexivity]. }
  destruct H1 as [-> ->].
  assert (H2 : ck_status (check_null_constraints D schema table (not_null_columns td))
               = "PASS").
  { unfold check_null_constraints. cbn [ck_status].
    assert (Hnil : null_violations D schema table (not_null_columns td) = []).
    { apply null_violations_nil, List.Forall_forall. intros c _.
      specialize (Hnull schema table c). unfold no_finding.
      destruct (sf_null_count D schema table c); [discriminate | exact I]. }
    now rewrite Hnil. }
  rewrite H2.
  assert (H3 : ck_status (check_primary_key_duplicates D schema table (pk_columns td))
               = match pk_columns td with [] => "SKIP" | _ => "ERROR" end
               /\ ck_check (check_primary_key_duplicates D schema table (pk_columns td))
                  = "primary_key_duplicates").
  { unfold check_primary_key_duplicates.
    destruct (pk_columns td) as [|c cs]; [split; reflexivity|].
    specialize (Hpk schema table (c :: cs)).
    destruct (sf_pk_duplicates D schema table (c :: cs)) as [[|d ds]|e];
      try discriminate; split; reflexivity. }
  destruct H3 as [-> ->].
  assert (H4 : ck_status (check_json_validity D schema table (json_columns td))
               = match json_columns td with [] => "SKIP" | _ => "PASS" end
               /\ ck_check (check_json_validity D schema table (json_columns td))
                  = "json_validity").
  { unfold check_json_validity.
    destruct (json_columns td) as [|c cs]; [split; reflexivity|].
    cbn [ck_status ck_check]. split; [|reflexivity].
    assert (Hnil : invalid_json_counts D schema table (c :: cs) = []).
    { apply invalid_counts_nil. split; [reflexivity|].
      apply List.Forall_forall. intros c' _.
      specialize (Hjson schema table c'). unfold no_finding.
      destruct (sf_invalid_json D schema table c'); [discriminate | exact I]. }
    now rewrite Hnil. }
  destruct H4 as [-> ->].
  reflexivity.
Qed.

(** X24 on a table with a primary key and a JSON column. *)
Lemma X24_witness_events_table :
  map (fun c => (ck_check c, ck_status c))
      (validate_table snowflake_down "public" "events" events_table)
  = [ ("row_count", "ERROR"); ("not_null_constraints", "PASS");
      ("primary_key_duplicates", "ERROR"); ("json_validity", "PASS") ].
Proof.
  exact (X24_validation_without_snowflake snowflake_down "public" "events" events_table
           (fun _ _ => eq_refl) (fun _ _ _ => eq_refl) (fun _ _ _ => eq_refl)
           (fun _ _ _ => eq_refl)).
Defined.

End ValidatorTheorems.

Section CompatibilityLists.
Import PyStr Model Analyzer Props.

Lemma more_flags_more (p : list string * list string * list string * list string)
    (w t fn w' t' fn' : list string) :
  more_flags (more_flags p w t fn) w' t' fn' = more_flags p (w ++ w') (t ++ t') (fn ++ fn').
Proof. destruct p as [[[w0 c0] t0] fn0]. cbn. now rewrite <- !app_assoc. Qed.

Lemma more_flags_none (p : list string * list string * list string * list string) :
  more_flags p [] [] [] = p.
Proof. destruct p as [[[w0 c0] t0] fn0]. cbn. now rewrite !app_nil_r. Qed.

Lemma table_flags_column (sname tname : string) (f : flags) (col : column) :
  table_flags (assess_column sname tname f col) = table_flags f.
Proof.
  unfold assess_column, when.
  destruct (is_reserved _); destruct (is_large_varchar _); destruct (String.eqb _ _);
    reflexivity.
Qed.

Lemma table_flags_columns (sname tname : string) (cols : list column) (f : flags) :
  table_flags (fold_left (assess_column sname tname) cols f) = table_flags f.
Proof.
  revert f. induction cols as [|col cols IH]; intros f; cbn [fold_left]; [reflexivity|].
  now rewrite IH, table_flags_column.
Qed.

Lemma table_flags_triggers (sname tname : string) (trs : list trigger) (f : flags) :
  table_flags (fold_left (fun acc tr => add_trigger (qualified sname tname (trigger_name tr))
                                          acc) trs f)
  = more_flags (table_flags f) []
      (map (fun tr => qualified sname tname (trigger_name tr)) trs) [].
Proof.
  revert f. induction trs as [|tr trs IH]; intros f; cbn [fold_left map].
  - now rewrite more_flags_none.
  - rewrite IH. unfold table_flags, add_trigger, more_flags. cbn.
    now rewrite !app_nil_r, <- app_assoc.
Qed.

Lemma table_flags_table (sname : string) (f : flags) (td : table_detail) :
  table_flags (assess_table sname f td)
  = more_flags (table_flags f) (wide_label sname td) (trigger_labels sname td) [].
Proof.
  unfold assess_table. rewrite table_flags_triggers, table_flags_columns.
  unfold wide_label, trigger_labels, when.
  destruct (is_reserved _); destruct (500 <? _);
    unfold table_flags, more_flags, add_wide, add_reserved; cbn;
    now rewrite ?app_nil_r.
Qed.

Lemma table_flags_tables (sname : string) (tds : list table_detail) (f : flags) :
  table_flags (fold_left (assess_table sname) tds f)
  = more_flags (table_flags f) (flat_map (wide_label sname) tds)
      (flat_map (trigger_labels sname) tds) [].
Proof.
  revert f. induction tds as [|td tds IH]; intros f; cbn [fold_left flat_map].
  - now rewrite more_flags_none.
  - now rewrite IH, table_flags_table, more_flags_more.
Qed.

Lemma table_flags_functions (sname : string) (fns : list function) (f : flags) :
  table_flags (fold_left (fun acc fn =>
                            add_function (sname +:+ "." +:+ function_name fn +:+ " (" +:+
                                          routine_type fn +:+ ")") acc) fns f)
  = more_flags (table_flags f) [] []
      (map (fun fn => sname +:+ "." +:+ function_name fn +:+ " (" +:+
                      routine_type fn +:+ ")") fns).
Proof.
  revert f. induction fns as [|fn fns IH]; intros f; cbn [fold_left map].
  - now rewrite more_flags_none.
  - rewrite IH. unfold table_flags, add_function, more_flags. cbn.
    now rewrite !app_nil_r, <- app_assoc.
Qed.

Lemma table_flags_schemas (sds : list schema_detail) (f : flags) :
  table_flags (fold_left assess_schema sds f)
  = more_flags (table_flags f)
      (flat_map (fun sd => flat_map (wide_label (schema_name sd)) (tables sd)) sds)
      (flat_map (fun sd => flat_map (trigger_labels (schema_name sd)) (tables sd)) sds)
      (flat_map (fun sd => map (fun fn => schema_name sd +:+ "." +:+ function_name fn +:+
                                          " (" +:+ routine_type fn +:+ ")")
                               (functions sd)) sds).
Proof.
  revert f. induction sds as [|sd sds IH]; intros f; cbn [fold_left flat_map].
  - now rewrite more_flags_none.
  - rewrite IH. unfold assess_schema.
    rewrite table_flags_functions, table_flags_tables, !more_flags_more.
    now rewrite ?app_nil_r, ?app_nil_l.
Qed.

(** X25.  The compatibility flags never name a complex constraint, whatever
    constraints the tables have: the list is made and never filled.  A
    table is listed as wide exactly when it has more than 500 columns, with
    its number of columns; every trigger of every table and every function
    of every schema is listed, in the order of the analysis. *)
Theorem X25_flags_per_table (sds : list schema_detail) :
  let flags := _assess_compatibility sds in
  complex_constraints flags = []
  /\ wide_tables flags
     = flat_map (fun sd => flat_map (wide_label (schema_name sd)) (tables sd)) sds
  /\ flagged_triggers flags
     = flat_map (fun sd => flat_map (trigger_labels (schema_name sd)) (tables sd)) sds
  /\ length (flagged_functions flags) = length (flat_map functions sds).
Proof.
  cbv zeta. pose proof (table_flags_schemas sds no_flags) as H.
  unfold _assess_compatibility. unfold table_flags at 1 in H.
  cbn in H. injection H as Hw Hc Ht Hf.
  rewrite Hw, Hc, Ht, Hf. repeat split; try reflexivity.
  rewrite !flat_map_concat_map, !length_concat, !map_map.
  f_equal. apply map_ext. intros sd. apply length_map.
Qed.

End CompatibilityLists.

Section RedactionFacts.
Import PyStr PyVal PyText Logger Props.

Lemma lower_char_equals (c : ascii) : lower_char c = "="%char -> c = "="%char.
Proof. destruct c as [[] [] [] [] [] [] [] []]; vm_compute; congruence. Qed.

Lemma lower_char_dq (c : ascii) : lower_char c = "034"%char -> c = "034"%char.
Proof. destruct c as [[] [] [] [] [] [] [] []]; vm_compute; congruence. Qed.

(** A literal that holds an equals sign does not match a plain text. *)
Lemma lit_ci_equals (p q s : string) :
  plain_text s = true -> lit_ci (p +:+ String "=" q) s = None.
Proof.
  revert s. induction p as [|a p IH]; intros s Hs.
  - rewrite str_app_nil_l. destruct s as [|b s]; [reflexivity|]. cbn [lit_ci].
    destruct (Ascii.eqb_spec (lower_char "=") (lower_char b)) as [Heq|]; [|reflexivity].
    exfalso. symmetry in Heq. apply lower_char_equals in Heq. subst b.
    cbn in Hs. discriminate.
  - rewrite str_app_cons. destruct s as [|b s]; [reflexivity|]. cbn [lit_ci].
    destruct (Ascii.eqb _ _); [|reflexivity].
    apply IH. cbn in Hs. now apply andb_true_iff in Hs as [_ Hs].
Qed.

(** A literal that starts with a double quote does not match a plain
    text. *)
Lemma lit_ci_dq (q s : string) :
  plain_text s = true -> lit_ci (String "034" q) s = None.
Proof.
  intros Hs. destruct s as [|b s]; [reflexivity|]. cbn [lit_ci].
  destruct (Ascii.eqb_spec (lower_char "034") (lower_char b)) as [Heq|]; [|reflexivity].
  exfalso. symmetry in Heq. apply lower_char_dq in Heq. subst b.
  cbn in Hs. discriminate.
Qed.

Lemma match_assignment_plain (key s : string) :
  plain_text s = true -> match_assignment key s = None.
Proof.
  intros Hs. unfold match_assignment.
  now rewrite (lit_ci_equals key "" s Hs).
Qed.

Lemma match_json_field_plain (key s : string) :
  plain_text s = true -> match_json_field key s = None.
Proof.
  intros Hs. unfold match_json_field, dq. rewrite str_app_cons, str_app_nil_l.
  now rewrite (lit_ci_dq _ s Hs).
Qed.

(** A pattern that matches no plain text leaves a plain text as it is. *)
Lemma re_sub_plain (m : string -> option string) (rep s : string) :
  (forall t, plain_text t = true -> m t = None) ->
  plain_text s = true -> re_sub m rep s = s.
Proof.
  intros Hm. unfold re_sub. induction s as [|c r IH]; intros Hs; [reflexivity|].
  cbn [sub_from]. rewrite (Hm _ Hs).
  cbn in Hs. apply andb_true_iff in Hs as [_ Hr]. now rewrite (IH Hr).
Qed.

End RedactionFacts.

Section RedactionTheorems.
Import PyStr PyVal PyText Logger Props.

(** X26.  Redaction is confined to assignments and JSON fields: a message
    that holds no equals sign and no double quote comes out of
    [redact_sensitive_data] as it went in. *)
Theorem X26_redaction_leaves_plain_text (msg : string) :
  plain_text msg = true -> redact_sensitive_data msg = msg.
Proof.
  intros Hmsg. unfold redact_sensitive_data, REDACTION_PATTERNS.
  cbn [fold_left fst snd].
  rewrite (re_sub_plain (match_json_field "password") _ msg
             (match_json_field_plain "password") Hmsg).
  rewrite (re_sub_plain (match_json_field "access_token") _ msg
             (match_json_field_plain "access_token") Hmsg).
  rewrite (re_sub_plain (match_assignment "password") _ msg
             (match_assignment_plain "password") Hmsg).
  apply (re_sub_plain (match_assignment "token") _ msg
           (match_assignment_plain "token") Hmsg).
Qed.

(** X26 on a message that names a password without assigning one. *)
Lemma X26_witness_password_word :
  redact_sensitive_data "password and token were rejected: hunter2"
  = "password and token were rejected: hunter2".
Proof.
  apply (X26_redaction_leaves_plain_text "password and token were rejected: hunter2").
  vm_compute. reflexivity.
Defined.

End RedactionTheorems.

Section DdlFailure.
Import PyStr PyVal PyText Eff Model World Orchestrator Spec Props.

Lemma no_data_moved_refl (s : sys) : no_data_moved s s.
Proof. split; [reflexivity|]. exists []. split; [now rewrite app_nil_r | reflexivity]. Qed.

Lemma no_data_moved_trans (s1 s2 s3 : sys) :
  no_data_moved s1 s2 -> no_data_moved s2 s3 -> no_data_moved s1 s3.
Proof.
  intros [Hm1 [d1 [He1 Hd1]]] [Hm2 [d2 [He2 Hd2]]]. split; [congruence|].
  exists (d1 ++ d2). split; [now rewrite He2, He1, app_assoc|].
  now rewrite forallb_app, Hd1, Hd2.
Qed.

Lemma no_data_moved_log (s s' : sys) : log_like s s' -> no_data_moved s s'.
Proof.
  intros [_ [_ [_ [_ [_ [Hm [_ [d [He Hd]]]]]]]]]. split; [exact Hm|].
  exists d. split; [exact He|].
  rewrite forallb_forall in *. intros e Hin. unfold prepares. now rewrite (Hd e Hin).
Qed.

Lemma keeps_quiet_set_status (st : MigrationStatus) : keeps no_data_moved (set_status st).
Proof. intros s. split; [reflexivity|]. exists []. split; [now rewrite app_nil_r | reflexivity]. Qed.

(** [_execute_ddl] moves no data. *)
Lemma keeps_quiet_execute_ddl (E : env) : keeps no_data_moved (_execute_ddl E).
Proof.
  unfold _execute_ddl.
  apply (keeps_bind _ no_data_moved_trans);
    [apply (keeps_log _ no_data_moved_refl no_data_moved_trans no_data_moved_log)|]. intros _.
  apply (keeps_try_except _ no_data_moved_trans).
  - apply (keeps_bind _ no_data_moved_trans); [apply keeps_get, no_data_moved_refl|].
    intros s0. destruct (sf_connect E _); [|apply keeps_raise, no_data_moved_refl].
    destruct (read_artifact _ _); [|apply keeps_raise, no_data_moved_refl].
    apply (keeps_bind _ no_data_moved_trans).
    + apply keeps_modify. intros st. split; [reflexivity|]. eexists. split; reflexivity.
    + intros _. destruct (ddl_result E _); [|apply keeps_raise, no_data_moved_refl].
      apply (keeps_log _ no_data_moved_refl no_data_moved_trans no_data_moved_log).
  - intros e. apply (keeps_bind _ no_data_moved_trans);
      [apply (keeps_log _ no_data_moved_refl no_data_moved_trans no_data_moved_log)|].
    intros _. apply keeps_raise, no_data_moved_refl.
Qed.

(** Where the target refuses every script, [_execute_ddl] raises. *)
Lemma execute_ddl_raises (E : env) (s : sys) :
  (forall t, is_ok (ddl_result E t) = false) ->
  exists e s', _execute_ddl E s = (Raise e, s').
Proof.
  intros Hddl. unfold _execute_ddl.
  destruct (log_returns E "INFO" "ddl" "Executing Snowflake DDL" [] s) as [s1 [Hrun1 _]].
  rewrite (bind_Ok _ _ _ _ _ Hrun1). unfold try_except.
  rewrite (bind_Ok get _ s1 s1 s1 eq_refl).
  assert (Hhandler : forall e s2,
             exists e' s', (let! _ := log E "ERROR" "ddl" ("DDL execution failed: " +:+ e) [] in
                            @raise sys unit e) s2 = (Raise e', s')).
  { intros e s2.
    destruct (log_returns E "ERROR" "ddl" ("DDL execution failed: " +:+ e) [] s2)
      as [s3 [Hrun3 _]].
    rewrite (bind_Ok _ _ _ _ _ Hrun3). eexists. eexists. reflexivity. }
  destruct (sf_connect E _) as [u|e]; [|apply Hhandler].
  destruct (read_artifact _ _) as [script|]; [|apply Hhandler].
  unfold bind at 1. cbn [modify fst snd].
  specialize (Hddl (clock (outside s1))).
  destruct (ddl_result E (clock (outside s1))) as [u'|e]; [discriminate|].
  apply Hhandler.
Qed.

End DdlFailure.

Section DdlFailureTheorems.
Import PyStr PyVal PyText Eff Model World Orchestrator Spec Props.

(** X27.  Where Snowflake refuses the DDL script, a confirmed [execute]
    raises, leaves the run FAILED, and has moved no data: no table was
    selected from, no file written, uploaded or copied, and the migration
    results are as before. *)
Theorem X27_refused_ddl_moves_no_data (E : env) (s : sys) :
  confirm (control (request (self s))) = true ->
  (forall t, is_ok (ddl_result E t) = false) ->
  exists e s',
    execute E s = (Raise e, s')
    /\ status (self s') = FAILED
    /\ no_data_moved s s'.
Proof.
  intros Hc Hddl.
  pose proof (execute_lands E s Hc) as Hland.
  unfold execute in *.
  rewrite (bind_Ok get _ s s s eq_refl) in *. rewrite Hc in *. cbn [negb] in *.
  destruct (log_returns E "INFO" "execute" "Starting migration execution" [] s)
    as [s1 [Hrun1 Hrel1]].
  rewrite (bind_Ok _ _ _ _ _ Hrun1) in *.
  rewrite (bind_Ok (set_status EXECUTING) _ s1 tt _ eq_refl) in *.
  set (s2 := {| self := put_status EXECUTING (self s1); outside := outside s1;
                history := history s1 ++ [EXECUTING] |}) in *.
  assert (H12 : no_data_moved s s2).
  { eapply no_data_moved_trans; [apply no_data_moved_log, Hrel1|].
    apply (keeps_quiet_set_status EXECUTING s1). }
  unfold try_except in *.
  assert (Hbody : exists e s3,
             (match analysis_results (self s) with
              | None => raise "Analysis results not available. Run analyze() first."
              | Some a =>
                  let! _ := _execute_ddl E in
                  let! _ := migrate_schemas E ∅ (schemas a) in
                  let! s := get in
                  let! _ := log E "INFO" "execute" "Migration execution completed"
                              [ ("total_tables",
                                 PInt (Z.of_nat (length (migration_results (self s)))));
                                ("successful",
                                 PInt (count_status "completed"
                                         (migration_results (self s)))) ] in
                  ret (migration_results (self s))
              end) s2 = (Raise e, s3) /\ no_data_moved s2 s3).
  { destruct (analysis_results (self s)).
    - destruct (execute_ddl_raises E s2 Hddl) as [e [s3 Hrun]].
      pose proof (keeps_quiet_execute_ddl E s2) as Hq. rewrite Hrun in Hq.
      exists e, s3. split; [now rewrite (bind_Raise _ _ _ _ _ Hrun) | exact Hq].
    - eexists. eexists. split; [reflexivity | apply no_data_moved_refl]. }
  destruct Hbody as [e [s3 [Hrun3 H23]]]. rewrite Hrun3 in *.
  destruct (log_returns E "ERROR" "execute" ("Execution failed: " +:+ e) [] s3)
    as [s4 [Hrun4 Hrel4]].
  rewrite (bind_Ok _ _ _ _ _ Hrun4) in *.
  rewrite (bind_Ok (set_status FAILED) _ s4 tt _ eq_refl) in *.
  cbn [raise] in *. eexists. eexists. split; [reflexivity|].
  split; [destruct Hland as [_ Hst]; exact Hst|].
  eapply no_data_moved_trans; [exact H12|].
  eapply no_data_moved_trans; [exact H23|].
  eapply no_data_moved_trans; [apply no_data_moved_log, Hrel4|].
  apply (keeps_quiet_set_status FAILED s4).
Qed.

(** X27 on a planned run whose target refuses the script. *)
Lemma X27_witness_refused_script :
  let E := refusing_env small_analysis in
  let s := snd (plan E (snd (analyze E (start E (request_with false true))))) in
  status (self s) = AWAITING_CONFIRMATION
  /\ exists e s',
       execute E s = (Raise e, s')
       /\ status (self s') = FAILED
       /\ no_data_moved s s'.
Proof.
  cbv zeta. split; [vm_compute; reflexivity|].
  apply (X27_refused_ddl_moves_no_data (refusing_env small_analysis));
    [vm_compute; reflexivity | intros t; reflexivity].
Defined.

End DdlFailureTheorems.

Section PlanFailure.
Import PyStr PyVal PyText Eff Model World Orchestrator Spec Props.

Lemma unsized_load_plan (a : analysis) :
  unsized a ->
  _generate_load_plan a = Raise "unsupported operand type(s) for /: 'NoneType' and 'int'".
Proof.
  intros [sd [td [Hsd [Htd Hsize]]]]. unfold _generate_load_plan.
  destruct (forallb _ (schemas a)) eqn:Hall; [|reflexivity].
  rewrite forallb_forall in Hall. specialize (Hall sd Hsd).
  rewrite forallb_forall in Hall. specialize (Hall td Htd).
  unfold has_size in Hall. rewrite Hsize in Hall. discriminate.
Qed.

(** A plan whose load plan cannot be built raises after the first three
    artifacts. *)
Lemma plan_raises_on_load_plan (E : env) (a : analysis) (s : sys) (ddl e : string) :
  cooperative E a ->
  analysis_results (self s) = Some a ->
  planned_ddl (request (self s)) a = Ok ddl ->
  _generate_load_plan a = Raise e ->
  exists s', plan E s = (Raise e, s').
Proof.
  intros Hcoop Ha Hddl Hload. unfold plan.
  destruct (log_returns E "INFO" "plan" "Generating migration plan" [] s)
    as [s1 [Hrun1 Hrel1]].
  rewrite (bind_Ok _ _ _ _ _ Hrun1).
  apply same_plan_log in Hrel1. destruct Hrel1 as [Hreq1 [Ha1 _]].
  rewrite (bind_Ok (set_status PLANNING) _ s1 tt _ eq_refl).
  match goal with |- context [try_except _ _ ?s2] =>
    assert (Hw : exists s3, write_plan_artifacts E s2 = (Raise e, s3))
  end.
  { unfold write_plan_artifacts. rewrite (bind_Ok get _ _ _ _ eq_refl).
    cbn [set_status snd self put_status analysis_results request].
    rewrite Ha1, Ha, Hreq1, Hddl, Hload.
    match goal with |- context [bind (write_artifact E ?n ?c) _ ?s0] =>
      destruct (succeeds_write_artifact E a Hcoop n c s0) as [[] [s3 H3]];
      rewrite (bind_Ok _ _ _ _ _ H3)
    end.
    match goal with |- context [bind (write_artifact E ?n ?c) _ ?s0] =>
      destruct (succeeds_write_artifact E a Hcoop n c s0) as [[] [s4 H4]];
      rewrite (bind_Ok _ _ _ _ _ H4)
    end.
    match goal with |- context [bind (write_artifact E ?n ?c) _ ?s0] =>
      destruct (succeeds_write_artifact E a Hcoop n c s0) as [[] [s5 H5]];
      rewrite (bind_Ok _ _ _ _ _ H5)
    end.
    eexists. reflexivity. }
  destruct Hw as [s3 Hrun3]. unfold try_except.
  rewrite (bind_Raise _ _ _ _ _ Hrun3).
  destruct (log_returns E "ERROR" "plan" ("Planning failed: " +:+ e) [] s3)
    as [s4 [Hrun4 _]].
  rewrite (bind_Ok _ _ _ _ _ Hrun4).
  rewrite (bind_Ok (set_status FAILED) _ s4 tt _ eq_refl).
  eexists. reflexivity.
Qed.

End PlanFailure.

Section PlanFailureTheorems.
Import PyStr PyVal PyText Eff Model World Orchestrator Spec Props.

(** X28.  [plan] needs a size for every table: where the DDL can be
    generated (a cluster hint stands in for the size there) but some table
    of the analysis has no size, [_generate_load_plan] divides [None] and
    [plan] raises the [TypeError], even if every file can be written.  The
    status goes to PLANNING and then FAILED, and only artifacts and log
    lines were produced. *)
Theorem X28_unsized_table_fails_the_plan (E : env) (a : analysis) (s : sys) (ddl : string) :
  cooperative E a ->
  analysis_results (self s) = Some a ->
  planned_ddl (request (self s)) a = Ok ddl ->
  unsized a ->
  exists s',
    plan E s = (Raise "unsupported operand type(s) for /: 'NoneType' and 'int'", s')
    /\ status (self s') = FAILED
    /\ history s' = history s ++ [PLANNING; FAILED]
    /\ harmless s s'.
Proof.
  intros Hcoop Ha Hddl Hun.
  destruct (plan_raises_on_load_plan E a s ddl _ Hcoop Ha Hddl (unsized_load_plan a Hun))
    as [s' Hrun].
  exists s'. split; [exact Hrun|].
  pose proof (plan_lands E s) as Hl. rewrite Hrun in Hl. destruct Hl as [Hh Hst].
  pose proof (keeps_harmless_plan E s) as Hk. rewrite Hrun in Hk.
  split; [exact Hst|]. split; [exact Hh | exact Hk].
Qed.

(** X28 on a dry run over a table of unknown size with a cluster hint: the
    analysis works, the DDL is written, the plan fails, and the run ends
    FAILED. *)
Lemma X28_witness_dry_run_fails :
  let E := healthy_env unsized_analysis three_rows_loaded in
  let s := snd (analyze E (start E hinted_request)) in
  (exists s',
     plan E s = (Raise "unsupported operand type(s) for /: 'NoneType' and 'int'", s')
     /\ status (self s') = FAILED
     /\ history s' = history s ++ [PLANNING; FAILED]
     /\ harmless s s')
  /\ is_ok (fst (run_complete E (start E hinted_request))) = false
  /\ history (snd (run_complete E (start E hinted_request)))
     = [PENDING; ANALYZING; PLANNING; FAILED; FAILED]
  /\ read_artifact "load_plan.yml"
       (events (outside (snd (run_complete E (start E hinted_request))))) = None.
Proof.
  cbv zeta. split.
  - assert (Hddl : exists ddl,
               planned_ddl
                 (request (self (snd (analyze (healthy_env unsized_analysis three_rows_loaded)
                                        (start (healthy_env unsized_analysis three_rows_loaded)
                                           hinted_request)))))
                 unsized_analysis = Ok ddl)
      by (vm_compute; eexists; reflexivity).
    destruct Hddl as [ddl Hddl].
    apply (X28_unsized_table_fails_the_plan
             (healthy_env unsized_analysis three_rows_loaded) unsized_analysis _ ddl).
    + split; intros; reflexivity.
    + vm_compute. reflexivity.
    + exact Hddl.
    + exists (hd {| schema_name := ""; tables := []; sequences := []; views := [];
                    functions := [] |} (schemas unsized_analysis)).
      eexists. split; [left; reflexivity|]. split; [left; reflexivity | reflexivity].
  - split; [vm_compute; reflexivity|]. split; vm_compute; reflexivity.
Defined.

End PlanFailureTheorems.

Section ExtractionFailure.
Import PyStr PyText Eff Model World Pipeline Spec Props.

Lemma for_fold_app {S A B} (f : A -> B -> M S A) (l1 l2 : list B) (a : A) (s : S) :
  for_fold f (l1 ++ l2) a s = bind (for_fold f l1 a) (fun a' => for_fold f l2 a') s.
Proof.
  revert a s. induction l1 as [|x l1 IH]; intros a s; [reflexivity|].
  cbn [app for_fold]. unfold bind.
  destruct (f a x s) as [[a'|e] s1]; [|reflexivity].
  rewrite IH. reflexivity.
Qed.

(** The first value of a row that [json.dumps] refuses ends the encoding of
    the row with its error. *)
Lemma row_data_refused (r : row) :
  encodes r = false ->
  exists e pre post,
    r = pre ++ VJson (Raise e) :: post
    /\ forallb encodable pre = true
    /\ row_data r = Raise e.
Proof.
  unfold encodes. induction r as [|v r IH]; [discriminate|].
  cbn [forallb]. destruct (encodable v) eqn:Hv; cbn [andb]; intros Hr.
  - destruct (IH Hr) as [e [pre [post [-> [Hpre Hraise]]]]].
    exists e, (v :: pre), post. cbn [app forallb]. rewrite Hv, Hpre.
    split; [reflexivity|]. split; [reflexivity|].
    cbn [row_data]. rewrite Hraise.
    destruct v as [|[dumped|e0]| |]; try reflexivity. discriminate.
  - destruct v as [|[dumped|e]| |]; try discriminate.
    exists e, [], r. repeat split.
Qed.




End ExtractionFailure.

Section ExtractionFailureTheorems.
Import PyStr PyText Eff Model World Pipeline Spec Props.

(** X29.  A value that [json.dumps] refuses ends the CSV extraction.  When
    the rows before the row [bad] encode, [bad] holds a dict or list that
    cannot be serialized, and the chunk files can be written,
    [extract_table_to_csv] raises the error of the first such value of
    [bad], whatever the cursor would yield after it.  The chunks completed
    by the rows before [bad] have been written; the rows of the open chunk
    and the row itself are in no file. *)
Theorem X29_refused_value_ends_the_extraction (E : env) (temp_path schema table : string)
    (columns : list string) (chunk_size : Z) (good : list row) (bad : row)
    (rest : list row) (err : option string) (s : pstate) :
  cursor_rows E schema table = (good ++ bad :: rest, err) ->
  0 < chunk_size ->
  forallb encodes good = true ->
  encodes bad = false ->
  (forall t path text, gzip_write E t path text = Ok tt) ->
  let out := extract_table_to_csv E temp_path schema table columns chunk_size s in
  exists e pre post done open,
    bad = pre ++ VJson (Raise e) :: post
    /\ forallb encodable pre = true
    /\ fst out = Raise e
    /\ good = concat done ++ open
    /\ Forall (fun ch => Z.of_nat (length ch) = chunk_size) done
    /\ Z.of_nat (length open) < chunk_size
    /\ events (pworld (snd out))
       = events (pworld s) ++ [EvSelect schema table] ++
         csv_events temp_path schema table columns done.
Proof.
  intros Hcur Hpos Hgood Hbad Hwrites. cbv zeta.
  destruct (row_data_refused bad Hbad) as [e [pre [post [Hsplit [Hpre Hraise]]]]].
  destruct (csv_rows_read E temp_path schema table columns chunk_size good s
              Hpos Hgood Hwrites)
    as [st [s1 [done [open [Hrun [[Hfiles [Hevents [Hloaded [Hopen [Hdone Hstate]]]]]
                                    [Hcat Heq]]]]]]].
  assert (Hout : extract_table_to_csv E temp_path schema table columns chunk_size s
                 = (Raise e, s1)).
  { unfold extract_table_to_csv, bind at 1, perform. rewrite Hcur. unfold bind at 1.
    rewrite for_fold_app. unfold bind at 1. rewrite Hrun.
    cbn [for_fold]. unfold bind at 1.
    unfold csv_step, csv_line. rewrite Hraise. reflexivity. }
  rewrite Hout. cbn [fst snd].
  exists e, pre, post, done, open.
  split; [exact Hsplit|]. split; [exact Hpre|]. split; [reflexivity|].
  split; [exact Hcat|]. split; [exact Hdone|]. split; [exact Hopen|].
  now rewrite Hevents, <- app_assoc.
Qed.

(** X29 on a table with a [date[]] column, in chunks of two rows: the first
    chunk is written, the third row raises, and [migrate_table] reports the
    table as failed with the error of [json.dumps]. *)
Lemma X29_witness_date_array :
  let out := extract_table_to_csv array_env "/scratch" "s" "t" ["id"; "days"] 2
               fresh_pipeline in
  fst out = Raise "Object of type date is not JSON serializable"
  /\ written_files (events (pworld (snd out))) = ["/scratch/s_t_chunk_0001.csv.gz"]
  /\ (let r := fst (migrate_table array_env default_preferences stage_config "/scratch"
                      "s" "t" ["id"; "days"] fresh_pipeline) in
      exists tr, r = Ok tr /\ tr_status tr = "failed"
                 /\ tr_error tr = Some "Object of type date is not JSON serializable").
Proof.
  cbv zeta.
  destruct (X29_refused_value_ends_the_extraction array_env "/scratch" "s" "t"
              ["id"; "days"] 2
              [ [VOther "1"; VJson (Ok "[]")]; [VOther "2"; VJson (Ok "[1, 2]")] ]
              [VOther "3"; VJson (Raise "Object of type date is not JSON serializable")]
              [ [VOther "4"; VJson (Ok "[]")] ] None fresh_pipeline
              eq_refl eq_refl eq_refl eq_refl (fun _ _ _ => eq_refl))
    as [e [pre [post [done [open [Hsplit [Hpre [Hraise _]]]]]]]].
  split; [|split].
  - rewrite Hraise. f_equal.
    destruct pre as [|v0 [|v1 pre]]; cbn in Hsplit.
    + discriminate.
    + now injection Hsplit as _ <- _.
    + injection Hsplit as _ _ Hpost. destruct pre; discriminate.
  - vm_compute. reflexivity.
  - eexists. vm_compute. repeat split.
Defined.



End ExtractionFailureTheorems.
